(* ===== verification/_CoqProject ===== *)
-Q . S2P
Prelude.v
GoStrings.v
Crypto.v
Authz.v
GroupCache.v
Limiter.v
Http.v
SigV4.v
Stream.v
StreamTruncated.v
NetIP.v
Routing.v
AuditLog.v
Credentials.v
AuthLookup.v
Gateway.v
S3Xml.v
S3Http.v
XmlDecode.v
XmlBody.v
Lifecycle.v
Upstream.v
HandlerBase.v
HandlersBucket.v
HandlersObject.v
HandlersMultipart.v
Monitor.v
Answers.v
Listing.v
AdminSession.v
AdminWeb.v
KafkaTopics.v
AdminViews.v
AdminUpload.v
AdminPage.v
KafkaPop.v
KafkaManager.v
KafkaGuarantees.v
Pop.v
SplunkHec.v
Config.v
Transfer.v
UploadPublisher.v
Ldap.v
Process.v
Readiness.v
CertReader.v
KafkaClient.v
UpstreamClient.v
AuditTrail.v
