(* ===== verification/Prelude.v ===== *)
(** * A verification library for s3gateway

    s3gateway is an authenticating proxy in front of an S3 service.  A client
    presents a SigV4 signature made with credentials that seal its directory
    user name and password; the gateway opens the credential, asks the
    directory for the user's groups, turns group names into rights on buckets,
    and performs the S3 operation upstream with its own credentials.  Besides
    the S3 API it has a browser interface, and an API that pops objects in the
    order of the upload events in a Kafka topic.

    This library models the program in functions of its inputs and the state it
    keeps, and proves what makes its parts correct.  Names are those of the
    source; every file below names the source files it models (paths are under
    src/internal/).

    ** The parts

    Foundations
    - Prelude: octets, strings, results with their notation, map iteration as an
      interface ([MapIter]: Go's order is any order), tactics and lemmas;
    - GoStrings, Crypto, Http, NetIP: the Go standard library as the program uses
      it: UTF-8, trimming and splitting, integers, SHA-256 and HMAC, CRCs, MD5's
      interface, Base64, header maps, query strings, addresses and prefixes.

    Rights
    - Authz (authz): group names to rules, rules to permissions on a bucket.

    Authentication
    - SigV4, Stream (sigv4): the signature of a request, and the bodies that carry
      their own digests and signatures; StreamTruncated: streams that lack their
      final chunk;
    - Credentials (s3credentials): sealed access keys;
    - GroupCache (groupcache), Limiter (authn): state under one lock each, as
      functions on that state;
    - AuthLookup (server/server.go): concurrent lookups that share a directory
      query, as interleaved events over the cache and the limiter;
    - Gateway (server/server.go, adminpage/adminpage.go): the client's address
      behind proxies, [WithAuth], the readiness probe.

    The S3 API
    - Routing (server/server.go, encryption_unsupported.go): [ServeHTTP] up to
      the choice of the handler;  AuditLog (server/audit.go): how the request is
      logged; AuditTrail (server/audit.go, server/handlers_xml_checksums.go): the
      middleware around the handler;
    - S3Xml, XmlDecode, XmlBody (s3xml, server/handlers_xml*.go), S3Http (s3http),
      Lifecycle (server/handlers_lifecycle*.go): documents and parameters;
    - Upstream (upstream/buckets.go, uploadnotify/event.go): the calls of the S3
      client as the nodes of a handler's program ([Prog]); HandlerBase,
      HandlersBucket, HandlersObject, HandlersMultipart (server/handlers_*.go):
      one program per handler, [serve] for the operation that routing chose;
    - Monitor, Answers, Listing: theorems about all handlers.

    Popping objects
    - KafkaPop, KafkaManager, KafkaGuarantees (kafkapop/manager.go): one delivery
      as a program over the Kafka client, and the sharing of consumers between
      requests as a step relation; Pop (server/pop.go): the handler over both.

    The administration pages
    - AdminSession (adminpage/adminpage.go): the session store; AdminWeb
      (adminpage/adminpage.go, config/admin.go): origins, cookies and sessions of
      a request; AdminViews: what the pages show; AdminUpload: uploads from a
      browser form; AdminPage: the handlers, and the system of requests that
      share the sessions ([AdminPage.sys_step]);
    - KafkaTopics (kafkatopic/lister.go, adminpage/kafka_topics.go): the topics
      and consumer groups that are shown.

    Around the requests
    - Config (config/config.go, config/kafka.go): the settings, their defaults,
      their validation and the environment they are read from;
    - Transfer (server/transfer_limits.go, upstream/response_progress.go): the
      idle time-out and the number of requests, as a step relation of requests,
      timers and the clock;
    - Ldap (ldap/ldap.go): the group lookup as a program over the directory;
    - UploadPublisher (uploadnotify/kafka.go): the publication of one event as a
      program over the Kafka client;
    - Readiness (server/server.go): the checks behind the readiness probe, and the
      callers that share one check and its cached verdict, as a step relation;
    - SplunkHec (splunkhec/handler.go): the buffered log handler; its calls, its
      worker and Close are programs that interleave over one buffer;
    - Process (app/app.go, app/run.go): start, serving, draining and cleanup;
    - CertReader (certreader/certreader.go): the certificates that are trusted;
      KafkaClient (kafkaclient/client.go): the shared close of a Kafka client, as
      a step relation; UpstreamClient (upstream/upstream.go): the settings of the
      S3 client and its policy for redirects.

    A request passes [Gateway.WithAuth], which answers it or hands it, with an
    identity, to [Routing.ServeHTTP]; the operation found there is a program
    ([HandlersMultipart.serve]) whose runs ([Upstream.steps]) are lists of calls
    with the upstream's answers; [Monitor.gateway] composes the three.

    ** What is shown

    - Monitor, Pop: no call reaches the upstream unless the directory reported,
      for the caller's verified credential, groups that entitle to every bucket
      the call touches; the handlers refine a policy stated without them.
    - Answers, Listing: what is stored with metadata of the request names its
      uploader and carries the required metadata; the parameters of calls stay
      within their bounds; XML answers are well formed, and made of the characters
      XML allows, whatever the upstream says, but for the two strings it hands on
      unencoded; a bucket list is all pages, or the one page asked for.
    - SigV4, Stream, Credentials, Gateway: what a valid signature binds; that a
      body handed on as whole was validated chunk by chunk, and to its end unless
      the stream stops short where a chunk header is due, which passes
      ([StreamTruncated.truncated_stream_accepted]); that credentials survive sealing;
      that identities need proof and addresses cannot be forged.
    - GroupCache, Limiter, AuthLookup: soundness of cached answers, bounds of all
      tables and counters, progress of lookups, in every history.
    - KafkaPop, KafkaGuarantees, Pop: delivery at least once, exclusive use of
      consumers, complete shutdown, and idle consumers that their timer closes;
      events are acknowledged only when their object was delivered.
    - Authz, Routing, AuditLog, AuditTrail: group names round-trip and grant what they say;
      operations are reached only by their own requests and logged as such, once
      and with the status and the octets the client got.
    - AdminSession, AdminWeb, AdminViews, AdminUpload, AdminPage, KafkaTopics: a
      session is what was saved and lives no longer than its time; whatever
      requests share the sessions, the upstream is only called as the session's
      login entitles to, and changed only by trusted form posts; an upload is
      completed only when it is whole and is completed or aborted otherwise;
      forms offer what would be allowed; links lead back; topics are complete.
    - Config: a loaded configuration is valid, stays so under the defaults and is
      what the limiter and the log handler enforce; lists have no blanks and no
      repetitions; which setting of the limits is refused.
    - Transfer: at most the configured number of requests is served; a request is
      cut off for idleness and for nothing else, and then for good; a large write
      is handed on whole, in pieces.
    - Readiness: checks do not overlap, and begin only when the cached verdict of
      the last one has lived its time, whoever asks and however often.
    - Ldap: groups come from the user's own entry after a successful bind, and
      only from the configured container; what counts as a rejection.
    - UploadPublisher: success means that every destination acknowledged; the
      destinations do not collide.
    - SplunkHec: events are acknowledged in order, buffered or counted as dropped
      under every interleaving; buffer and batches are bounded; a flush ends.
    - Process: what was opened is closed exactly once and in order on every path,
      and the exit code tells whether initialisation or serving reported an error.
    - CertReader: what is trusted is what the files hold, whole or not at all.
    - KafkaClient: a client is closed once, every caller joins the close and
      whoever's context ends interrupts it.
    - UpstreamClient: no redirect leads away from https, or on without end.

    ** Interfaces

    What is not under src/ is an interface, and every theorem holds for all its
    implementations; the witnesses instantiate it: [UnicodeCase] (the tables of
    package unicode beyond ASCII), [MapIter], [Limiter.Float64] (IEEE 754 and
    exact rationals are instances), [Credentials.Curve] and [Credentials.AEAD],
    [SDK] and [GoText] (enumerations of the AWS SDK, texts of Go errors and
    times), [XMLLexer] (the tokenizer of encoding/xml), [PartSort] (sort.Slice),
    [EventCodec] (JSON), [MediaTypes],
    [CookieCodec] and [HistoryCodec] (signed cookies and the JSON of links, with
    their laws), [URLParser] and [SplunkHec.RequestURIs] (net/url), [HecCodec]
    and [UploadPublisher.EventEncoder] (JSON), [Config.Durations],
    [Config.DistinguishedNames] and [Ldap.Filters] (the LDAP library),
    [Transfer.ResponseWriter], [CertReader.PEM] and [CertReader.X509].  The laws such a class carries are
    documented behaviour of the code it stands for.  What the SDK promises of an
    answer it has read from an XML document is [Answers.clean_answer].

    ** Bounds and fuel

    Integers are in Z; where the code's width matters the wrap-around or the
    range check is written out.  Loops that do not recurse on their data have
    fuel, with a theorem that it suffices: reading a stream ([Stream.read_fuel],
    enough by [Stream.decoding_terminates]: the guard adds one round to it), the
    evictions of the cache and the limiter (one more than the entries there
    are), listing all buckets ([Listing.list_buckets_ends]: as many calls as
    distinct tokens and one more), the parts of a browser upload (one more than
    its octets, each turn takes at least one), the pages of a listing, the
    batches of a flush and the chunks of a write (as many as events or octets),
    the blocks of a bundle (one more than its octets), redirects (ten turns) and
    the digits of addresses (their width).
    Go's [nil] and empty slices are identified where the code does.

    ** Not modelled

    The HTML templates and the static files of the administration pages; the
    construction of the HTTP server; the budgets of the contexts in Process and
    in the closing of consumers; logging other than the audit event and the
    Splunk buffer; the tests, their helpers and the example clients. *)

From stdpp Require Export base tactics list strings gmap sorting.
From Stdlib Require Export ZArith Lia Strings.Byte.

#[global] Open Scope Z_scope.

(** ** Bytes and Go strings

    A Go [string] and a Go [[]byte] are both finite sequences of octets. *)

Abbreviation gostring := (list byte).

#[global] Instance byte_eq_decision : EqDecision byte := Byte.byte_eq_dec.

#[global] Program Instance byte_countable : Countable byte :=
  inj_countable Byte.to_N Byte.of_N _.
Next Obligation. intros b. apply Byte.of_to_N. Qed.

(** A string literal of the source, as its octets. *)
Definition str (s : string) : gostring := String.list_byte_of_string s.
#[global] Arguments str !_ /.

(** The value of an octet, 0..255. *)
Definition bz (b : byte) : Z := Z.of_N (Byte.to_N b).

(** The octet of a value, taken modulo 256 as Go's [byte(x)] conversion does. *)
Definition zb (z : Z) : byte :=
  match Byte.of_N (Z.to_N (z mod 256)) with
  | Some b => b
  | None => x00
  end.

Lemma bz_range b : 0 <= bz b < 256.
Proof. destruct b; vm_compute; split; congruence. Qed.

Lemma zb_bz b : zb (bz b) = b.
Proof. by destruct b. Qed.

Lemma bz_zb z : 0 <= z < 256 -> bz (zb z) = z.
Proof.
  intros Hz. unfold bz, zb. rewrite Z.mod_small by lia.
  destruct (Byte.of_N (Z.to_N z)) as [b|] eqn:Hb.
  - apply Byte.to_of_N in Hb. lia.
  - apply Byte.of_N_None_iff in Hb. lia.
Qed.

Lemma bz_inj b c : bz b = bz c -> b = c.
Proof. intros H. by rewrite <- (zb_bz b), <- (zb_bz c), H. Qed.

(** ** Results: Go's [(value, error)] pairs

    A Go function that returns [(T, error)] returns a meaningful value only when
    the error is nil; [result E T] is that sum. *)

Inductive result (E A : Type) : Type :=
| Ok (a : A)
| Err (e : E).
Arguments Ok {E A} a.
Arguments Err {E A} e.

Definition rbind {E A B} (m : result E A) (k : A -> result E B) : result E B :=
  match m with
  | Ok a => k a
  | Err e => Err e
  end.

Definition rguard {E} (b : bool) (e : E) : result E unit :=
  if b then Ok tt else Err e.

Fixpoint rmapM {E A B} (f : A -> result E B) (l : list A) : result E (list B) :=
  match l with
  | [] => Ok []
  | x :: xs => rbind (f x) (fun y => rbind (rmapM f xs) (fun ys => Ok (y :: ys)))
  end.

Declare Scope go_scope.
Delimit Scope go_scope with go.
Notation "'let!' x := m 'in' k" := (rbind m (fun x => k))
  (at level 10, x name, m at level 200, k at level 200) : go_scope.
Notation "'let!' ' p := m 'in' k" := (rbind m (fun x => match x with p => k end))
  (at level 10, p pattern, m at level 200, k at level 200) : go_scope.
Notation "'require!' b 'else' e 'in' k" := (rbind (rguard b e) (fun _ => k))
  (at level 10, b at level 200, e at level 200, k at level 200) : go_scope.
#[global] Open Scope go_scope.

(** ** Proof automation *)

Create HintDb gw.

(** Rewrites boolean tests into propositions, everywhere. *)
Ltac b2p :=
  repeat match goal with
  | H : _ && _ = true |- _ => apply andb_true_iff in H; destruct H
  | H : _ || _ = false |- _ => apply orb_false_iff in H; destruct H
  | H : negb _ = true |- _ => apply negb_true_iff in H
  | H : negb _ = false |- _ => apply negb_false_iff in H
  | H : (_ <? _) = true |- _ => apply Z.ltb_lt in H
  | H : (_ <? _) = false |- _ => apply Z.ltb_ge in H
  | H : (_ <=? _) = true |- _ => apply Z.leb_le in H
  | H : (_ <=? _) = false |- _ => apply Z.leb_gt in H
  | H : (_ =? _) = true |- _ => apply Z.eqb_eq in H
  | H : (_ =? _) = false |- _ => apply Z.eqb_neq in H
  | H : bool_decide _ = true |- _ => apply bool_decide_eq_true in H
  | H : bool_decide _ = false |- _ => apply bool_decide_eq_false in H
  end.

(** Splits every [if] and [match] scrutinee of a hypothesis, keeping the equations. *)
Ltac split_in H :=
  repeat match type of H with
  | context [match ?x with _ => _ end] =>
      lazymatch x with
      | context [match _ with _ => _ end] => fail
      | _ => let E := fresh "E" in destruct x eqn:E; simplify_eq/=
      end
  end.

Ltac split_goal :=
  repeat match goal with
  | |- context [match ?x with _ => _ end] =>
      lazymatch x with
      | context [match _ with _ => _ end] => fail
      | _ => let E := fresh "E" in destruct x eqn:E; simplify_eq/=
      end
  end.

(** ** Machine integers *)

Definition int64_min : Z := - 2 ^ 63.
Definition int64_max : Z := 2 ^ 63 - 1.
Definition int32_max : Z := 2 ^ 31 - 1.

(** ** Generic lemmas *)

Lemma rbind_Ok {E A B} (m : result E A) (k : A -> result E B) b :
  rbind m k = Ok b <-> exists a, m = Ok a /\ k a = Ok b.
Proof. destruct m; naive_solver. Qed.

Lemma rguard_Ok {E} (b : bool) (e : E) u : rguard b e = Ok u <-> b = true.
Proof. destruct b, u; naive_solver. Qed.

Lemma require_Ok {E A} (b : bool) (e : E) (k : unit -> result E A) x :
  rbind (rguard b e) k = Ok x <-> b = true /\ k tt = Ok x.
Proof. destruct b; simpl; naive_solver. Qed.

(** Every condition of a chain of [require!]s that holds. *)
Ltac requires H := repeat (let R := fresh "R" in apply require_Ok in H as [R H]).

Lemma rmapM_Ok {E A B} (f : A -> result E B) l ys :
  rmapM f l = Ok ys <-> Forall2 (fun x y => f x = Ok y) l ys.
Proof.
  revert ys. induction l as [|x xs IH]; intros ys; simpl.
  - split; [intros [= <-]; constructor | intros H; by inversion H].
  - rewrite rbind_Ok. split.
    + intros (y & Hy & H). apply rbind_Ok in H as (ys' & Hys & [= <-]).
      constructor; [done | by apply IH].
    + intros H. inversion H as [|? y ? ys' Hy Hys]; subst.
      exists y. split; [done|]. apply rbind_Ok. exists ys'. split; [by apply IH | done].
Qed.

Lemma byte_forallb (P : byte -> bool) :
  forallb (fun n => match Byte.of_nat n with Some b => P b | None => true end) (seq 0 256) = true ->
  forall b, P b = true.
Proof.
  intros H b. rewrite forallb_forall in H.
  specialize (H (Byte.to_nat b)). rewrite Byte.of_to_nat in H. apply H.
  apply in_seq. pose proof (Byte.to_nat_bounded b). lia.
Qed.

(** ** Go maps and their iteration order

    A Go map is a [gmap]; [for k, v := range m] visits every entry once, in an
    order the language leaves open.  [MapIter] is any such order; definitions
    that range over a map take it as a class argument, so that what is proved
    holds for every order. *)

Class MapIter := {
  map_iter {K : Type} `{Countable K} {V : Type} : gmap K V -> list (K * V);
  map_iter_perm {K : Type} `{Countable K} {V : Type} (m : gmap K V) :
    map_iter m ≡ₚ map_to_list m
}.

(** The order of stdpp's own enumeration, to evaluate definitions. *)
Definition canonical_iter : MapIter :=
  {| map_iter K EqK CountK V m := map_to_list m;
     map_iter_perm K EqK CountK V m := Permutation_refl _ |}.

(** [for k := range s] on a set, Go's [map[K]struct{}]. *)
Definition set_iter `{MapIter} {K : Type} `{Countable K} (s : gset K) : list K :=
  map fst (map_iter (gset_to_gmap tt s)).

Section MapIterLemmas.
Context `{MapIter} {K : Type} `{Countable K} {V : Type}.
Implicit Types (m : gmap K V).

Lemma elem_of_map_iter m k v : (k, v) ∈ map_iter m <-> m !! k = Some v.
Proof. rewrite map_iter_perm. apply elem_of_map_to_list. Qed.

Lemma NoDup_fst_map_iter m : NoDup (map_iter m).*1.
Proof. rewrite map_iter_perm. apply NoDup_fst_map_to_list. Qed.

Lemma length_map_iter m : length (map_iter m) = size m.
Proof. rewrite map_iter_perm. apply length_map_to_list. Qed.

End MapIterLemmas.

Lemma elem_of_set_iter `{MapIter} {K : Type} `{Countable K} (s : gset K) k : k ∈ set_iter s <-> k ∈ s.
Proof.
  unfold set_iter. rewrite list_elem_of_fmap. split.
  - intros ((k' & []) & -> & Hk). apply elem_of_map_iter, lookup_gset_to_gmap_Some in Hk. naive_solver.
  - intros Hk. exists (k, tt). split; [done|]. by apply elem_of_map_iter, lookup_gset_to_gmap_Some.
Qed.

Lemma exists_cons {A} (P : A -> Prop) x (l : list A) :
  (exists y, y ∈ x :: l /\ P y) <-> P x \/ exists y, y ∈ l /\ P y.
Proof. setoid_rewrite elem_of_cons. naive_solver. Qed.

(** A left fold whose steps commute does not see the order of its list. *)
Lemma fold_left_perm {A B} (f : A -> B -> A) :
  (forall a x y, f (f a x) y = f (f a y) x) ->
  forall l1 l2, l1 ≡ₚ l2 -> forall a, fold_left f l1 a = fold_left f l2 a.
Proof.
  intros Hf l1 l2 Hp. induction Hp as [|x l1 l2 _ IH|x y l|l1 l2 l3 _ IH1 _ IH2]; intros a; simpl.
  - done.
  - apply IH.
  - by rewrite Hf.
  - by rewrite IH1.
Qed.

Lemma set_iter_perm (M1 M2 : MapIter) {K : Type} `{Countable K} (s : gset K) :
  set_iter (H := M1) s ≡ₚ set_iter (H := M2) s.
Proof. unfold set_iter. f_equiv. by rewrite !map_iter_perm. Qed.

(** ** Instants and durations

    An instant is a number of nanoseconds; [Time.Sub] saturates at the limits of
    [time.Duration]. *)

Abbreviation instant := Z.
Definition time_sub (t u : instant) : Z := Z.max int64_min (Z.min int64_max (t - u)).
