(* ===== verification/GoStrings.v ===== *)
(** * Go's [strings], [unicode/utf8], [strconv] and [encoding/hex], as the gateway uses them

    Every component manipulates Go strings, so this file models the functions
    of the Go standard library they call: UTF-8 decoding and re-encoding, the
    white space class, [TrimSpace], [ToLower]/[ToUpper], searching, cutting and
    splitting at a one-byte separator, integer parsing and printing, and
    hexadecimal.  A string is its octets ([gostring]); a rune is a [Z].

    The case tables of package [unicode] beyond ASCII are data of the Go
    release in use: they are the class [UnicodeCase], over which every
    definition that lower- or upper-cases a string is abstracted. *)

From S2P Require Import Prelude.
From Stdlib Require Import DecimalString.

(** ** Runes *)

Class UnicodeCase := {
  uni_lower : Z -> Z;   (* unicode.ToLower on a rune above U+007F *)
  uni_upper : Z -> Z    (* unicode.ToUpper on a rune above U+007F *)
}.

(** A small concrete table, used to evaluate the definitions: Latin-1 letters,
    and the two non-ASCII runes whose lower case is an ASCII letter (U+0130 and
    the Kelvin sign U+212A) and the one whose upper case is (U+017F). *)
Definition latin1_case : UnicodeCase := {|
  uni_lower r := if (192 <=? r) && (r <=? 222) && negb (r =? 215) then r + 32
                 else if r =? 0x130 then 0x69
                 else if r =? 0x212A then 0x6B
                 else r;
  uni_upper r := if (224 <=? r) && (r <=? 254) && negb (r =? 247) then r - 32
                 else if r =? 0x17F then 0x53
                 else r
|}.

Definition RuneError : Z := 0xFFFD.

Definition in_range (lo hi : Z) (b : byte) : bool := (lo <=? bz b) && (bz b <=? hi).
Definition cont (b : byte) : bool := in_range 0x80 0xBF b.

Definition valid2 (b0 b1 : byte) : bool := in_range 0xC2 0xDF b0 && cont b1.
Definition valid3 (b0 b1 b2 : byte) : bool :=
  ((bz b0 =? 0xE0) && in_range 0xA0 0xBF b1 ||
   (in_range 0xE1 0xEC b0 || in_range 0xEE 0xEF b0) && cont b1 ||
   (bz b0 =? 0xED) && in_range 0x80 0x9F b1) && cont b2.
Definition valid4 (b0 b1 b2 b3 : byte) : bool :=
  ((bz b0 =? 0xF0) && in_range 0x90 0xBF b1 ||
   in_range 0xF1 0xF3 b0 && cont b1 ||
   (bz b0 =? 0xF4) && in_range 0x80 0x8F b1) && cont b2 && cont b3.

Definition low6 (b : byte) : Z := Z.land (bz b) 0x3F.
Definition rune2 (b0 b1 : byte) : Z := Z.lor (Z.shiftl (Z.land (bz b0) 0x1F) 6) (low6 b1).
Definition rune3 (b0 b1 b2 : byte) : Z :=
  Z.lor (Z.shiftl (Z.land (bz b0) 0x0F) 12) (Z.lor (Z.shiftl (low6 b1) 6) (low6 b2)).
Definition rune4 (b0 b1 b2 b3 : byte) : Z :=
  Z.lor (Z.shiftl (Z.land (bz b0) 0x07) 18)
    (Z.lor (Z.shiftl (low6 b1) 12) (Z.lor (Z.shiftl (low6 b2) 6) (low6 b3))).

(** One octet that starts no valid sequence: itself below 0x80, else [RuneError]. *)
Definition rune1 (b : byte) : Z := if bz b <? 0x80 then bz b else RuneError.

(** [for _, r := range s]: the runes of a string, each with the octets it was
    decoded from (an invalid octet decodes alone, to [RuneError]). *)
Fixpoint runes (s : gostring) : list (Z * gostring) :=
  match s with
  | [] => []
  | b0 :: s1 =>
    match s1 with
    | [] => [(rune1 b0, [b0])]
    | b1 :: s2 =>
      if valid2 b0 b1 then (rune2 b0 b1, [b0; b1]) :: runes s2 else
      match s2 with
      | [] => (rune1 b0, [b0]) :: runes s1
      | b2 :: s3 =>
        if valid3 b0 b1 b2 then (rune3 b0 b1 b2, [b0; b1; b2]) :: runes s3 else
        match s3 with
        | [] => (rune1 b0, [b0]) :: runes s1
        | b3 :: s4 =>
          if valid4 b0 b1 b2 b3 then (rune4 b0 b1 b2 b3, [b0; b1; b2; b3]) :: runes s4
          else (rune1 b0, [b0]) :: runes s1
        end
      end
    end
  end.

(** [utf8.AppendRune]. *)
Definition encode_rune (r0 : Z) : gostring :=
  let r := if (r0 <? 0) || (0x10FFFF <? r0) || (0xD800 <=? r0) && (r0 <=? 0xDFFF)
           then RuneError else r0 in
  let tail k := zb (Z.lor 0x80 (Z.land (Z.shiftr r k) 0x3F)) in
  if r <? 0x80 then [zb r]
  else if r <? 0x800 then [zb (Z.lor 0xC0 (Z.shiftr r 6)); tail 0]
  else if r <? 0x10000 then [zb (Z.lor 0xE0 (Z.shiftr r 12)); tail 6; tail 0]
  else [zb (Z.lor 0xF0 (Z.shiftr r 18)); tail 12; tail 6; tail 0].

(** [utf8.RuneCountInString]. *)
Definition RuneCount (s : gostring) : Z := Z.of_nat (length (runes s)).

(** [unicode.IsSpace]. *)
Definition IsSpace (r : Z) : bool :=
  (9 <=? r) && (r <=? 13) || (r =? 32) || (r =? 0x85) || (r =? 0xA0) ||
  (r =? 0x1680) || (0x2000 <=? r) && (r <=? 0x200A) || (r =? 0x2028) ||
  (r =? 0x2029) || (r =? 0x202F) || (r =? 0x205F) || (r =? 0x3000).

(** ** Trimming *)

Fixpoint drop_while {A} (p : A -> bool) (l : list A) : list A :=
  match l with
  | [] => []
  | x :: xs => if p x then drop_while p xs else l
  end.

Definition trim_both {A} (p : A -> bool) (l : list A) : list A :=
  reverse (drop_while p (reverse (drop_while p l))).

Definition rune_bytes (rs : list (Z * gostring)) : gostring := concat (map snd rs).

(** [strings.TrimSpace]. *)
Definition TrimSpace (s : gostring) : gostring :=
  rune_bytes (trim_both (fun rb => IsSpace rb.1) (runes s)).

(** [strings.Trim] and [strings.TrimRight] with an ASCII cutset. *)
Definition Trim (s cutset : gostring) : gostring :=
  trim_both (fun b => bool_decide (b ∈ cutset)) s.
Definition TrimRight (s cutset : gostring) : gostring :=
  reverse (drop_while (fun b => bool_decide (b ∈ cutset)) (reverse s)).

(** ** Case *)

Definition is_ascii (s : gostring) : bool := forallb (fun b => bz b <? 0x80) s.
Definition lower_byte (b : byte) : byte := if in_range 65 90 b then zb (bz b + 32) else b.
Definition upper_byte (b : byte) : byte := if in_range 97 122 b then zb (bz b - 32) else b.

Section Case.
Context {U : UnicodeCase}.

Definition lower_rune (r : Z) : Z :=
  if r <? 0x80 then (if (65 <=? r) && (r <=? 90) then r + 32 else r) else uni_lower r.
Definition upper_rune (r : Z) : Z :=
  if r <? 0x80 then (if (97 <=? r) && (r <=? 122) then r - 32 else r) else uni_upper r.

(** [strings.ToLower] and [strings.ToUpper]: octet-wise on ASCII strings, and
    otherwise rune by rune, replacing invalid octets by U+FFFD. *)
Definition ToLower (s : gostring) : gostring :=
  if is_ascii s then map lower_byte s
  else concat (map (fun rb => encode_rune (lower_rune rb.1)) (runes s)).
Definition ToUpper (s : gostring) : gostring :=
  if is_ascii s then map upper_byte s
  else concat (map (fun rb => encode_rune (upper_rune rb.1)) (runes s)).
End Case.

(** The representative of a rune's simple-folding orbit, for orbits that meet
    ASCII: U+017F folds with s and U+212A with k. *)
Definition fold_rune (r : Z) : Z :=
  if (65 <=? r) && (r <=? 90) then r + 32
  else if r =? 0x17F then 0x73
  else if r =? 0x212A then 0x6B
  else r.

(** [strings.EqualFold s t] for an ASCII [t]. *)
Definition EqualFold (s t : gostring) : bool :=
  bool_decide (map (fun rb => fold_rune rb.1) (runes s) = map (fun b => fold_rune (bz b)) t).

(** ** Searching, cutting, splitting *)

Fixpoint HasPrefix (s p : gostring) {struct p} : bool :=
  match p, s with
  | [], _ => true
  | x :: p', y :: s' => bool_decide (x = y) && HasPrefix s' p'
  | _ :: _, [] => false
  end.
Definition HasSuffix (s p : gostring) : bool := HasPrefix (reverse s) (reverse p).
Definition TrimPrefix (s p : gostring) : gostring :=
  if HasPrefix s p then drop (length p) s else s.
Definition TrimSuffix (s p : gostring) : gostring :=
  if HasSuffix s p then take (length s - length p) s else s.

(** [strings.Index] of a one-byte needle: -1 when absent. *)
Fixpoint Index (s : gostring) (c : byte) : Z :=
  match s with
  | [] => -1
  | b :: s' => if decide (b = c) then 0 else
               let i := Index s' c in if i <? 0 then -1 else i + 1
  end.

(** [s[:i]] and [s[i:]] for an index in range. *)
Definition slice_to (s : gostring) (i : Z) : gostring := take (Z.to_nat i) s.
Definition slice_from (s : gostring) (i : Z) : gostring := drop (Z.to_nat i) s.

(** [strings.Cut] at a one-byte separator. *)
Fixpoint Cut (s : gostring) (c : byte) : option (gostring * gostring) :=
  match s with
  | [] => None
  | b :: s' => if decide (b = c) then Some ([], s')
               else '(x, y) ← Cut s' c; Some (b :: x, y)
  end.

(** [strings.Split] at a one-byte separator: never empty. *)
Fixpoint Split (s : gostring) (c : byte) : list gostring :=
  match s with
  | [] => [[]]
  | b :: s' => if decide (b = c) then [] :: Split s' c
               else match Split s' c with
                    | h :: t => (b :: h) :: t
                    | [] => [[b]]
                    end
  end.

(** [strings.SplitN(s, c, 2)]. *)
Definition SplitN2 (s : gostring) (c : byte) : list gostring :=
  match Cut s c with
  | Some (x, y) => [x; y]
  | None => [s]
  end.

Fixpoint Join (l : list gostring) (sep : gostring) : gostring :=
  match l with
  | [] => []
  | [x] => x
  | x :: xs => x ++ sep ++ Join xs sep
  end.

(** ** Lexicographic order and [sort.Strings] *)

Fixpoint str_leb (s t : gostring) : bool :=
  match s, t with
  | [], _ => true
  | _ :: _, [] => false
  | x :: s', y :: t' =>
    if bz x <? bz y then true else if bz y <? bz x then false else str_leb s' t'
  end.
Definition str_le (s t : gostring) : Prop := str_leb s t = true.
#[global] Instance str_le_dec s t : Decision (str_le s t) := decide (str_leb s t = true).
Definition sort_strings (l : list gostring) : list gostring := merge_sort str_le l.

(** ** Numbers and hexadecimal *)

Definition digit_val (b : byte) : option Z :=
  let c := bz b in
  if in_range 48 57 b then Some (c - 48)
  else if in_range 97 122 b then Some (c - 97 + 10)
  else if in_range 65 90 b then Some (c - 65 + 10)
  else None.

(** The value of a digit string, accumulated from the left; [None] on a
    character that is no digit of the base. *)
Fixpoint digits_val (base acc : Z) (s : gostring) : option Z :=
  match s with
  | [] => Some acc
  | b :: s' => match digit_val b with
               | Some d => if d <? base then digits_val base (acc * base + d) s' else None
               | None => None
               end
  end.

Definition ParseUint (s : gostring) (base : Z) : option Z :=
  match s with
  | [] => None
  | _ => digits_val base 0 s
  end.

(** [strconv.ParseInt(s, base, bits)] for base 10 or 16; [None] is any error. *)
Definition ParseInt (s : gostring) (base bits : Z) : option Z :=
  let cutoff := 2 ^ (bits - 1) in
  match s with
  | "-"%byte :: s' => n ← ParseUint s' base; if n <=? cutoff then Some (- n) else None
  | "+"%byte :: s' => n ← ParseUint s' base; if n <? cutoff then Some n else None
  | _ => n ← ParseUint s base; if n <? cutoff then Some n else None
  end.

(** [strconv.FormatInt(n, 10)]. *)
Definition FormatInt (n : Z) : gostring :=
  String.list_byte_of_string (NilEmpty.string_of_int (Z.to_int n)).

Definition hex_digit (upper : bool) (d : Z) : byte :=
  if d <? 10 then zb (48 + d) else zb ((if upper then 55 else 87) + d).

Definition hex_byte (upper : bool) (b : byte) : gostring :=
  [hex_digit upper (Z.shiftr (bz b) 4); hex_digit upper (Z.land (bz b) 15)].

(** [hex.EncodeToString]. *)
Definition hex_encode (s : gostring) : gostring := concat (map (hex_byte false) s).

Definition hex_val (b : byte) : option Z :=
  match digit_val b with
  | Some d => if d <? 16 then Some d else None
  | None => None
  end.

(** [hex.DecodeString]; [None] is any error. *)
Fixpoint hex_decode (s : gostring) : option gostring :=
  match s with
  | [] => Some []
  | [_] => None
  | a :: b :: s' =>
    x ← hex_val a; y ← hex_val b; r ← hex_decode s';
    Some (zb (x * 16 + y) :: r)
  end.

(** ** Lemmas: UTF-8 *)

#[local] Ltac Zify.zify_post_hook ::= Z.to_euclidean_division_equations.

Definition valid_rune (r : Z) : Prop := 0 <= r <= 0x10FFFF /\ ~ (0xD800 <= r <= 0xDFFF).

Lemma land_shiftl_small a b k : 0 <= k -> 0 <= b < 2 ^ k -> Z.land (Z.shiftl a k) b = 0.
Proof.
  intros Hk Hb. apply Z.bits_inj'. intros n Hn. rewrite Z.land_spec, Z.bits_0.
  destruct (Z.lt_ge_cases n k).
  - by rewrite Z.shiftl_spec_low by lia.
  - replace b with (b mod 2 ^ k) by (apply Z.mod_small; lia).
    rewrite Z.mod_pow2_bits_high by lia. apply andb_false_r.
Qed.

Lemma lor_add_disjoint a b k :
  0 <= k -> 0 <= b < 2 ^ k -> Z.lor (Z.shiftl a k) b = a * 2 ^ k + b.
Proof.
  intros Hk Hb. pose proof (Z.add_lor_land (Z.shiftl a k) b) as H.
  rewrite land_shiftl_small in H by done. rewrite Z.shiftl_mul_pow2 in * by lia. lia.
Qed.

Lemma lor_tag t y k :
  0 <= k -> 0 <= y < 2 ^ k -> Z.lor (t * 2 ^ k) y = t * 2 ^ k + y.
Proof. intros. rewrite <- (Z.shiftl_mul_pow2 t k) at 1 by lia. by apply lor_add_disjoint. Qed.

(** The octets [encode_rune] writes, as arithmetic. *)
Lemma encode_rune_valid r :
  valid_rune r ->
  encode_rune r =
  if r <? 0x80 then [zb r]
  else if r <? 0x800 then [zb (0xC0 + r / 64); zb (0x80 + r mod 64)]
  else if r <? 0x10000 then
    [zb (0xE0 + r / 4096); zb (0x80 + r / 64 mod 64); zb (0x80 + r mod 64)]
  else [zb (0xF0 + r / 262144); zb (0x80 + r / 4096 mod 64); zb (0x80 + r / 64 mod 64);
        zb (0x80 + r mod 64)].
Proof.
  intros [Hr Hs]. unfold encode_rune.
  replace ((r <? 0) || (0x10FFFF <? r) || (0xD800 <=? r) && (r <=? 0xDFFF)) with false by lia.
  assert (Htail : forall k, 0 <= k ->
    Z.lor 0x80 (Z.land (Z.shiftr r k) 0x3F) = 0x80 + r / 2 ^ k mod 64).
  { intros k Hk. rewrite Z.shiftr_div_pow2 by done.
    change 0x3F with (Z.ones 6). rewrite Z.land_ones by lia.
    change 0x80 with (2 * 2 ^ 6). apply lor_tag; [lia|]. apply Z.mod_pos_bound. lia. }
  rewrite !Htail by lia. change (2 ^ 0) with 1. rewrite Z.div_1_r.
  rewrite !Z.shiftr_div_pow2 by lia.
  change (2 ^ 6) with 64. change (2 ^ 12) with 4096. change (2 ^ 18) with 262144.
  destruct (Z.ltb_spec r 0x80); [done|].
  destruct (Z.ltb_spec r 0x800).
  { change 0xC0 with (6 * 2 ^ 5) at 1. rewrite lor_tag; [done | lia |]. change (2 ^ 5) with 32. lia. }
  destruct (Z.ltb_spec r 0x10000).
  { change 0xE0 with (14 * 2 ^ 4) at 1. rewrite lor_tag; [done | lia |]. change (2 ^ 4) with 16. lia. }
  change 0xF0 with (30 * 2 ^ 3) at 1. rewrite lor_tag; [done | lia |]. change (2 ^ 3) with 8. lia.
Qed.

Lemma low6_tail y : 0 <= y < 64 -> low6 (zb (0x80 + y)) = y.
Proof.
  intros Hy. unfold low6. rewrite bz_zb by lia.
  change 0x3F with (Z.ones 6). rewrite Z.land_ones by lia. change (2 ^ 6) with 64. lia.
Qed.

Lemma land_lead x t y k :
  0 <= k -> x = t * 2 ^ k + y -> 0 <= y < 2 ^ k -> Z.land x (Z.ones k) = y.
Proof.
  intros Hk -> Hy. rewrite Z.land_ones by done.
  rewrite Z.add_comm, Z_mod_plus_full. apply Z.mod_small. lia.
Qed.

Lemma mod64 n : 0 <= n mod 64 < 64.
Proof. apply Z.mod_pos_bound. lia. Qed.

(** An ASCII octet decodes alone, whatever follows it. *)
Lemma runes_ascii b s : bz b < 0x80 -> runes (b :: s) = (bz b, [b]) :: runes s.
Proof.
  intros Hb.
  assert (H1 : rune1 b = bz b) by (unfold rune1; by replace (bz b <? 128) with true by lia).
  assert (Hno : forall lo hi, 0x80 <= lo -> in_range lo hi b = false)
    by (intros; unfold in_range; lia).
  assert (Hne : forall n, 0x80 <= n -> (bz b =? n) = false) by (intros; lia).
  simpl. destruct s as [|b1 s]; [by rewrite H1|].
  unfold valid2. rewrite Hno by lia. simpl.
  destruct s as [|b2 s]; [by rewrite H1|].
  unfold valid3. rewrite !Hno, !Hne by lia. simpl.
  destruct s as [|b3 s]; [by rewrite H1|].
  unfold valid4. rewrite !Hno, !Hne by lia. simpl. by rewrite H1.
Qed.

Lemma in_range_zb lo hi z : 0 <= z < 256 -> in_range lo hi (zb z) = (lo <=? z) && (z <=? hi).
Proof. intros. unfold in_range. by rewrite bz_zb. Qed.

Lemma runes_two r s :
  0x80 <= r < 0x800 ->
  runes (zb (0xC0 + r / 64) :: zb (0x80 + r mod 64) :: s) =
  (r, [zb (0xC0 + r / 64); zb (0x80 + r mod 64)]) :: runes s.
Proof.
  intros Hr. pose proof (mod64 r). cbn [runes].
  replace (valid2 _ _) with true by (unfold valid2, cont; rewrite !in_range_zb by lia; lia).
  f_equal. f_equal. unfold rune2. rewrite low6_tail, bz_zb by lia.
  change 0x1F with (Z.ones 5). rewrite (land_lead _ 6 (r / 64)) by lia.
  rewrite lor_add_disjoint by lia. lia.
Qed.

Lemma runes_three r s :
  0x800 <= r < 0x10000 -> ~ (0xD800 <= r <= 0xDFFF) ->
  let e := [zb (0xE0 + r / 4096); zb (0x80 + r / 64 mod 64); zb (0x80 + r mod 64)] in
  runes (e ++ s) = (r, e) :: runes s.
Proof.
  intros Hr Hs e. pose proof (mod64 (r / 64)). pose proof (mod64 r). subst e. cbn [app runes].
  replace (valid2 _ _) with false
    by (unfold valid2; rewrite in_range_zb by lia; symmetry; apply andb_false_iff; lia).
  replace (valid3 _ _ _) with true
    by (unfold valid3, cont; rewrite !in_range_zb, !bz_zb by lia; lia).
  f_equal. f_equal. unfold rune3. rewrite !low6_tail, bz_zb by lia.
  change 0x0F with (Z.ones 4). rewrite (land_lead _ 14 (r / 4096)) by lia.
  rewrite (lor_add_disjoint (r / 64 mod 64)) by lia.
  rewrite lor_add_disjoint by lia. lia.
Qed.

Lemma runes_four r s :
  0x10000 <= r <= 0x10FFFF ->
  let e := [zb (0xF0 + r / 262144); zb (0x80 + r / 4096 mod 64);
            zb (0x80 + r / 64 mod 64); zb (0x80 + r mod 64)] in
  runes (e ++ s) = (r, e) :: runes s.
Proof.
  intros Hr e. pose proof (mod64 (r / 64)). pose proof (mod64 r). pose proof (mod64 (r / 4096)).
  subst e. cbn [app runes].
  replace (valid2 _ _) with false
    by (unfold valid2; rewrite in_range_zb by lia; symmetry; apply andb_false_iff; lia).
  replace (valid3 _ _ _) with false
    by (unfold valid3; rewrite !in_range_zb, !bz_zb by lia; lia).
  replace (valid4 _ _ _ _) with true
    by (unfold valid4, cont; rewrite !in_range_zb, !bz_zb by lia; lia).
  f_equal. f_equal. unfold rune4. rewrite !low6_tail, bz_zb by lia.
  change 0x07 with (Z.ones 3). rewrite (land_lead _ 30 (r / 262144)) by lia.
  rewrite (lor_add_disjoint (r / 64 mod 64)) by lia.
  rewrite (lor_add_disjoint (r / 4096 mod 64)) by lia.
  rewrite lor_add_disjoint by lia. lia.
Qed.

(** UTF-8 round trip: decoding what [encode_rune] wrote gives back the rune and
    stops exactly behind it. *)
Lemma runes_encode r s :
  valid_rune r -> runes (encode_rune r ++ s) = (r, encode_rune r) :: runes s.
Proof.
  intros Hv. rewrite !encode_rune_valid by done. destruct Hv as [Hr Hs].
  destruct (Z.ltb_spec r 0x80).
  { simpl app. rewrite runes_ascii; rewrite bz_zb by lia; [done|lia]. }
  destruct (Z.ltb_spec r 0x800); [by apply runes_two|].
  destruct (Z.ltb_spec r 0x10000); [apply runes_three | apply runes_four]; lia.
Qed.

Lemma runes_encode_all rs :
  Forall valid_rune rs ->
  runes (concat (map encode_rune rs)) = map (fun r => (r, encode_rune r)) rs.
Proof.
  induction 1 as [|r rs Hr _ IH]; [done|]. cbn [map concat].
  rewrite runes_encode by done. by rewrite IH.
Qed.

(** One decoding step consumes a non-empty piece of the string. *)
Lemma runes_step b0 s :
  exists r bs t, runes (b0 :: s) = (r, bs) :: runes t /\ b0 :: s = bs ++ t /\ bs <> [].
Proof.
  destruct s as [|b1 s]; [by exists (rune1 b0), [b0], []|]. cbn [runes].
  destruct (valid2 b0 b1); [by exists (rune2 b0 b1), [b0; b1], s|].
  destruct s as [|b2 s]; [by exists (rune1 b0), [b0], [b1]|].
  destruct (valid3 b0 b1 b2); [by exists (rune3 b0 b1 b2), [b0; b1; b2], s|].
  destruct s as [|b3 s]; [by exists (rune1 b0), [b0], [b1; b2]|].
  destruct (valid4 b0 b1 b2 b3); [by exists (rune4 b0 b1 b2 b3), [b0; b1; b2; b3], s|].
  by exists (rune1 b0), [b0], (b1 :: b2 :: b3 :: s).
Qed.

(** Decoding loses no octet. *)
Lemma rune_bytes_runes s : rune_bytes (runes s) = s.
Proof.
  remember (length s) as n eqn:Hn. revert s Hn.
  induction n as [n IH] using lt_wf_ind. intros [|b s] ->; [done|].
  destruct (runes_step b s) as (r & bs & t & -> & Hs & Hne).
  unfold rune_bytes. simpl. fold (rune_bytes (runes t)). rewrite Hs. f_equal.
  apply (IH (length t)); [|done]. rewrite Hs, length_app. destruct bs; [done|]. simpl. lia.
Qed.

Lemma runes_ascii_all s :
  is_ascii s = true -> runes s = map (fun b => (bz b, [b])) s.
Proof.
  induction s as [|b s IH]; [done|]. intros H. apply andb_true_iff in H as [Hb Hs].
  rewrite runes_ascii by (b2p; lia). by rewrite IH.
Qed.

Lemma concat_singletons (s : gostring) : concat (map (fun b => [b]) s) = s.
Proof. induction s as [|b s IH]; [done|]. simpl. by rewrite IH. Qed.

(** ** Lemmas: trimming *)

Lemma drop_while_map {A B} (f : A -> B) p l :
  drop_while p (map f l) = map f (drop_while (fun x => p (f x)) l).
Proof. induction l as [|x l IH]; [done|]. simpl. by destruct (p (f x)). Qed.

Lemma reverse_map {A B} (f : A -> B) l : reverse (map f l) = map f (reverse l).
Proof. unfold reverse. rewrite <- !rev_alt. symmetry. apply map_rev. Qed.

Lemma trim_both_map {A B} (f : A -> B) p l :
  trim_both p (map f l) = map f (trim_both (fun x => p (f x)) l).
Proof. unfold trim_both. by rewrite drop_while_map, reverse_map, drop_while_map, reverse_map. Qed.

Lemma drop_while_suffix {A} (p : A -> bool) l : exists pre, l = pre ++ drop_while p l.
Proof.
  induction l as [|x l [pre IH]]; [by exists []|]. simpl. destruct (p x).
  - exists (x :: pre). simpl. by rewrite <- IH.
  - by exists [].
Qed.

Lemma drop_while_head {A} (p : A -> bool) l x l' : drop_while p l = x :: l' -> p x = false.
Proof. induction l as [|y l IH]; [done|]. simpl. destruct (p y) eqn:E; naive_solver. Qed.

Lemma drop_while_id {A} (p : A -> bool) l :
  (forall x, head l = Some x -> p x = false) -> drop_while p l = l.
Proof. destruct l as [|x l]; [done|]. simpl. intros H. by rewrite H. Qed.

(** A list is trimmed when neither end satisfies the predicate. *)
Definition trimmed {A} (p : A -> bool) (l : list A) : Prop :=
  (forall x, head l = Some x -> p x = false) /\ (forall x, last l = Some x -> p x = false).

Lemma trim_both_id {A} (p : A -> bool) l : trimmed p l -> trim_both p l = l.
Proof.
  intros [Hh Hl]. unfold trim_both. rewrite (drop_while_id p l) by done.
  rewrite (drop_while_id p (reverse l)); [apply reverse_involutive|].
  intros x Hx. apply Hl. by rewrite <- head_reverse.
Qed.

Lemma trim_both_trimmed {A} (p : A -> bool) l : trimmed p (trim_both p l).
Proof.
  unfold trim_both, trimmed. split; intros x Hx.
  - destruct (drop_while_suffix p (reverse (drop_while p l))) as [pre Hpre].
    apply (f_equal reverse) in Hpre. rewrite reverse_involutive, reverse_app in Hpre.
    destruct (reverse (drop_while p (reverse (drop_while p l)))) as [|y ys]; [done|].
    simplify_eq/=. by apply (drop_while_head p l x (ys ++ reverse pre)).
  - rewrite last_reverse in Hx.
    destruct (drop_while p (reverse (drop_while p l))) as [|y ys] eqn:E; [done|].
    simplify_eq/=. by eapply drop_while_head.
Qed.

Lemma trim_both_idem {A} (p : A -> bool) l : trim_both p (trim_both p l) = trim_both p l.
Proof. apply trim_both_id, trim_both_trimmed. Qed.

Lemma trim_both_elem {A} (p : A -> bool) l x : x ∈ trim_both p l -> x ∈ l.
Proof.
  assert (H : forall l', x ∈ drop_while p l' -> x ∈ l').
  { intros l' Hx. destruct (drop_while_suffix p l') as [pre ->]. set_solver. }
  unfold trim_both. intros Hx%elem_of_reverse%H%elem_of_reverse%H. done.
Qed.

Definition byte_space (b : byte) : bool := IsSpace (bz b).

Lemma TrimSpace_ascii s :
  is_ascii s = true -> TrimSpace s = trim_both byte_space s.
Proof.
  intros Hs. unfold TrimSpace, rune_bytes. rewrite runes_ascii_all by done.
  rewrite trim_both_map, map_map. simpl. apply concat_singletons.
Qed.

Lemma TrimSpace_id s :
  is_ascii s = true -> trimmed byte_space s -> TrimSpace s = s.
Proof. intros. by rewrite TrimSpace_ascii, trim_both_id. Qed.

Lemma is_ascii_trim s : is_ascii s = true -> is_ascii (TrimSpace s) = true.
Proof.
  intros Hs. rewrite TrimSpace_ascii by done. unfold is_ascii in *.
  rewrite forallb_forall in *. intros b Hb. apply Hs.
  apply list_elem_of_In. eapply trim_both_elem. by apply list_elem_of_In.
Qed.

(** ** Lemmas: case *)

Lemma lower_byte_idem b : lower_byte (lower_byte b) = lower_byte b.
Proof. by destruct b. Qed.

Section CaseLemmas.
Context {U : UnicodeCase}.

Lemma ToLower_ascii s : is_ascii s = true -> ToLower s = map lower_byte s.
Proof. unfold ToLower. by intros ->. Qed.

Lemma is_ascii_lower s : is_ascii s = true -> is_ascii (ToLower s) = true.
Proof.
  intros Hs. rewrite ToLower_ascii by done. unfold is_ascii in *.
  rewrite forallb_forall in *. intros b Hb. apply in_map_iff in Hb as (c & <- & Hc).
  specialize (Hs c Hc). by destruct c.
Qed.

Lemma ToLower_id s :
  is_ascii s = true -> Forall (fun b => lower_byte b = b) s -> ToLower s = s.
Proof.
  intros Hs Hl. rewrite ToLower_ascii by done.
  rewrite <- (map_id s) at 2. apply map_ext_in. intros b Hb.
  rewrite Forall_forall in Hl. by apply Hl, list_elem_of_In.
Qed.

Lemma ToLower_idem_ascii s : is_ascii s = true -> ToLower (ToLower s) = ToLower s.
Proof.
  intros Hs. rewrite (ToLower_ascii (ToLower s)) by (by apply is_ascii_lower).
  rewrite ToLower_ascii, map_map by done. apply map_ext, lower_byte_idem.
Qed.
End CaseLemmas.

(** ** Lemmas: searching and splitting *)

Lemma Index_absent s c : c ∉ s -> Index s c = -1.
Proof.
  induction s as [|b s IH]; [done|]. intros H. simpl.
  rewrite decide_False by set_solver. rewrite IH by set_solver. done.
Qed.

Lemma Index_app s c t : c ∉ s -> Index (s ++ c :: t) c = Z.of_nat (length s).
Proof.
  induction s as [|b s IH]; intros H; simpl.
  - by rewrite decide_True.
  - rewrite decide_False by set_solver. rewrite IH by set_solver.
    destruct (Z.ltb_spec (Z.of_nat (length s)) 0); lia.
Qed.

Lemma Index_lt s c : Index s c < Z.of_nat (length s).
Proof.
  induction s as [|b s IH]; simpl; [lia|].
  destruct (decide _); [lia|]. destruct (Z.ltb_spec (Index s c) 0); lia.
Qed.

(** What a non-negative index means: the needle's first occurrence. *)
Lemma Index_split s c :
  0 <= Index s c ->
  s = slice_to s (Index s c) ++ c :: slice_from s (Index s c + 1) /\ c ∉ slice_to s (Index s c).
Proof.
  induction s as [|b s IH]; simpl; [lia|].
  destruct (decide (b = c)) as [->|Hne].
  - intros _. unfold slice_to, slice_from. simpl. split; [done | set_solver].
  - destruct (Z.ltb_spec (Index s c) 0) as [|Hi]; [lia|]. intros _.
    destruct (IH Hi) as [Hs Hn]. unfold slice_to, slice_from in *.
    replace (Z.to_nat (Index s c + 1)) with (S (Z.to_nat (Index s c))) in * by lia.
    replace (Z.to_nat (Index s c + 1 + 1)) with (S (S (Z.to_nat (Index s c)))) by lia.
    simpl in *. split; [by f_equal | set_solver].
Qed.

Lemma Cut_absent s c : c ∉ s -> Cut s c = None.
Proof.
  induction s as [|b s IH]; [done|]. intros H. simpl.
  rewrite decide_False by set_solver. by rewrite IH by set_solver.
Qed.

Lemma Cut_app s c t : c ∉ s -> Cut (s ++ c :: t) c = Some (s, t).
Proof.
  induction s as [|b s IH]; intros H; simpl.
  - by rewrite decide_True.
  - rewrite decide_False by set_solver. by rewrite IH by set_solver.
Qed.

Lemma Cut_Some s c x y : Cut s c = Some (x, y) -> s = x ++ c :: y /\ c ∉ x.
Proof.
  revert x. induction s as [|b s IH]; intros x; simpl; [done|].
  destruct (decide (b = c)) as [->|Hne].
  - intros [= <- <-]. split; [done | set_solver].
  - destruct (Cut s c) as [[x' y']|]; [|done]. intros [= <- <-].
    destruct (IH x' eq_refl) as [-> ?]. split; [done | set_solver].
Qed.

Lemma Split_nonempty s c : Split s c <> [].
Proof. destruct s; simpl; [done|]. repeat case_match; done. Qed.

Lemma Split_absent s c : c ∉ s -> Split s c = [s].
Proof.
  induction s as [|b s IH]; [done|]. intros H. simpl.
  rewrite decide_False by set_solver. by rewrite IH by set_solver.
Qed.

Lemma Split_app s c t : c ∉ s -> Split (s ++ c :: t) c = s :: Split t c.
Proof.
  induction s as [|b s IH]; intros H; simpl.
  - by rewrite decide_True.
  - rewrite decide_False by set_solver. by rewrite IH by set_solver.
Qed.

(** Splitting undoes joining, and joining undoes splitting. *)
Lemma Split_Join l c :
  l <> [] -> Forall (fun s => c ∉ s) l -> Split (Join l [c]) c = l.
Proof.
  induction l as [|x l IH]; [done|]. intros _ Hl. inversion Hl as [|?? Hx Hxs]; subst.
  destruct l as [|y l]; [by apply Split_absent|].
  change (Join (x :: y :: l) [c]) with (x ++ c :: Join (y :: l) [c]).
  rewrite Split_app by done. by rewrite IH.
Qed.

Lemma Join_Split s c : Join (Split s c) [c] = s.
Proof.
  induction s as [|b s IH]; [done|]. simpl. pose proof (Split_nonempty s c) as Hne.
  destruct (Split s c) as [|h t] eqn:E; [done|].
  destruct (decide (b = c)) as [->|].
  - change (Join ([] :: h :: t) [c]) with (c :: Join (h :: t) [c]). by rewrite IH.
  - replace (Join ((b :: h) :: t) [c]) with (b :: Join (h :: t) [c]) by (by destruct t).
    by rewrite IH.
Qed.

Lemma HasPrefix_spec s p : HasPrefix s p = true <-> exists t, s = p ++ t.
Proof.
  revert s. induction p as [|x p IH]; intros s; simpl.
  - split; [intros _; by exists s | done].
  - destruct s as [|y s]; simpl; [naive_solver|].
    rewrite andb_true_iff, bool_decide_eq_true, IH. naive_solver.
Qed.

(** ** Lemmas: strings that are already lower case

    What the authorization code relies on in the case tables: lower-casing
    yields runes, maps a non-ASCII rune to ASCII only if the result is a letter,
    neither makes nor unmakes white space, and is idempotent.  These are
    properties of the Unicode simple lower-case mapping. *)

Class UnicodeCaseLaws (U : UnicodeCase) : Prop := {
  uni_lower_valid r : 0x80 <= r -> valid_rune r -> valid_rune (uni_lower r);
  uni_lower_letter r : 0x80 <= r -> uni_lower r < 0x80 -> 97 <= uni_lower r <= 122;
  uni_lower_space r : 0x80 <= r -> IsSpace (uni_lower r) = IsSpace r;
  uni_lower_idem r : 0x80 <= r -> 0x80 <= uni_lower r -> uni_lower (uni_lower r) = uni_lower r
}.

#[global] Instance latin1_case_laws : UnicodeCaseLaws latin1_case.
Proof.
  split; intros r Hr; simpl; unfold valid_rune, IsSpace;
    repeat match goal with |- context [if ?b then _ else _] => destruct b eqn:? end; lia.
Qed.

Definition utf8 (rs : list Z) : gostring := concat (map encode_rune rs).

Lemma valid_rune1 b : valid_rune (rune1 b).
Proof.
  unfold rune1, valid_rune, RuneError. pose proof (bz_range b).
  destruct (Z.ltb_spec (bz b) 0x80); lia.
Qed.

Lemma land_bounds b k : 0 <= k -> 0 <= Z.land (bz b) (Z.ones k) < 2 ^ k.
Proof. intros Hk. rewrite Z.land_ones by done. apply Z.mod_pos_bound. lia. Qed.

Lemma low6_bounds b : 0 <= low6 b < 64.
Proof. exact (land_bounds b 6 ltac:(lia)). Qed.

Lemma valid_rune2 b0 b1 : valid_rune (rune2 b0 b1).
Proof.
  unfold rune2. pose proof (low6_bounds b1). pose proof (land_bounds b0 5 ltac:(lia)) as H0.
  change (Z.ones 5) with 0x1F in H0. rewrite lor_add_disjoint by lia. unfold valid_rune. lia.
Qed.

Lemma in_range_low6 lo hi b :
  0x80 <= lo -> hi <= 0xBF -> in_range lo hi b = true -> lo - 0x80 <= low6 b <= hi - 0x80.
Proof.
  intros Hlo Hhi H. unfold in_range, low6 in *. b2p.
  change 0x3F with (Z.ones 6). rewrite Z.land_ones by lia. change (2 ^ 6) with 64. lia.
Qed.

Lemma valid_rune3 b0 b1 b2 : valid3 b0 b1 b2 = true -> valid_rune (rune3 b0 b1 b2).
Proof.
  intros H. unfold rune3. pose proof (low6_bounds b1). pose proof (low6_bounds b2).
  pose proof (land_bounds b0 4 ltac:(lia)) as H4. change (Z.ones 4) with 0x0F in *.
  rewrite (lor_add_disjoint (low6 b1)) by lia. rewrite lor_add_disjoint by lia.
  unfold valid3, cont in H. apply andb_true_iff in H as [H _].
  apply orb_true_iff in H as [[H|H]%orb_true_iff|H]; apply andb_true_iff in H as [Hb0 Hb1].
  - apply in_range_low6 in Hb1; [|lia..]. unfold valid_rune. b2p. rewrite Hb0. change (Z.land 0xE0 0x0F) with 0. lia.
  - assert (Z.land (bz b0) 0x0F <> 13).
    { revert Hb0. clear. destruct b0; vm_compute; congruence. }
    unfold valid_rune. lia.
  - apply in_range_low6 in Hb1; [|lia..]. unfold valid_rune. b2p. rewrite Hb0. change (Z.land 0xED 0x0F) with 13. lia.
Qed.

Lemma valid_rune4 b0 b1 b2 b3 : valid4 b0 b1 b2 b3 = true -> valid_rune (rune4 b0 b1 b2 b3).
Proof.
  intros H. unfold rune4. pose proof (low6_bounds b1). pose proof (low6_bounds b2).
  pose proof (low6_bounds b3).
  pose proof (land_bounds b0 3 ltac:(lia)) as H4. change (Z.ones 3) with 0x07 in *.
  rewrite (lor_add_disjoint (low6 b2)) by lia.
  rewrite (lor_add_disjoint (low6 b1)) by lia. rewrite lor_add_disjoint by lia.
  unfold valid4, cont in H. apply andb_true_iff in H as [[H _]%andb_true_iff _].
  apply orb_true_iff in H as [[H|H]%orb_true_iff|H]; apply andb_true_iff in H as [Hb0 Hb1].
  - apply in_range_low6 in Hb1; [|lia..]. unfold valid_rune. b2p. rewrite Hb0. change (Z.land 0xF0 0x07) with 0. lia.
  - assert (1 <= Z.land (bz b0) 0x07 <= 3).
    { revert Hb0. clear. destruct b0; vm_compute; intuition congruence. }
    unfold valid_rune. lia.
  - apply in_range_low6 in Hb1; [|lia..]. unfold valid_rune. b2p. rewrite Hb0. change (Z.land 0xF4 0x07) with 4. lia.
Qed.

Lemma runes_valid s : Forall valid_rune (map fst (runes s)).
Proof.
  remember (length s) as n eqn:Hn. revert s Hn.
  induction n as [n IH] using lt_wf_ind. intros [|b0 s] ->; [constructor|].
  assert (Hrec : forall t, (length t < length (b0 :: s))%nat -> Forall valid_rune (map fst (runes t)))
    by (intros t Ht; by eapply IH).
  destruct s as [|b1 s]; [repeat constructor; apply valid_rune1|]. cbn [runes].
  destruct (valid2 b0 b1). { constructor; [apply valid_rune2 | apply Hrec; simpl; lia]. }
  destruct s as [|b2 s].
  { constructor; [apply valid_rune1 | apply (Hrec [b1]); simpl; lia]. }
  destruct (valid3 b0 b1 b2) eqn:H3.
  { constructor; [by apply valid_rune3 | apply Hrec; simpl; lia]. }
  destruct s as [|b3 s].
  { constructor; [apply valid_rune1 | apply (Hrec [b1; b2]); simpl; lia]. }
  destruct (valid4 b0 b1 b2 b3) eqn:H4.
  { constructor; [by apply valid_rune4 | apply Hrec; simpl; lia]. }
  constructor; [apply valid_rune1 | apply (Hrec (b1 :: b2 :: b3 :: s)); simpl; lia].
Qed.

Lemma encode_rune_ascii b : bz b < 0x80 -> encode_rune (bz b) = [b].
Proof.
  intros Hb. pose proof (bz_range b). rewrite encode_rune_valid by (unfold valid_rune; lia).
  replace (bz b <? 0x80) with true by lia. by rewrite zb_bz.
Qed.

Lemma utf8_ascii s : is_ascii s = true -> utf8 (map bz s) = s.
Proof.
  unfold utf8. induction s as [|b s IH]; [done|]. intros H.
  apply andb_true_iff in H as [Hb Hs]. simpl. rewrite encode_rune_ascii by (b2p; lia).
  by rewrite IH.
Qed.

Lemma utf8_app rs1 rs2 : utf8 (rs1 ++ rs2) = utf8 rs1 ++ utf8 rs2.
Proof. unfold utf8. by rewrite map_app, concat_app. Qed.

(** An ASCII octet occurs in a UTF-8 string only as the encoding of itself. *)
Lemma encode_rune_no_ascii r c :
  valid_rune r -> 0x80 <= r -> bz c < 0x80 -> c ∉ encode_rune r.
Proof.
  intros Hv Hr Hc. rewrite encode_rune_valid by done. destruct Hv as [Hv _].
  pose proof (mod64 r). pose proof (mod64 (r / 64)). pose proof (mod64 (r / 4096)).
  assert (Hz : forall z, 0x80 <= z < 256 -> c <> zb z).
  { intros z Hz ->. rewrite bz_zb in Hc by lia. lia. }
  destruct (Z.ltb_spec r 0x80); [lia|].
  destruct (Z.ltb_spec r 0x800); [|destruct (Z.ltb_spec r 0x10000)];
    rewrite ?elem_of_cons, elem_of_nil; intuition; eapply Hz; try eassumption; lia.
Qed.

Lemma utf8_cut rs c s t :
  Forall valid_rune rs -> bz c < 0x80 -> utf8 rs = s ++ c :: t -> c ∉ s ->
  exists rs1 rs2, rs = rs1 ++ bz c :: rs2 /\ s = utf8 rs1 /\ t = utf8 rs2.
Proof.
  intros Hv Hc. revert s. induction Hv as [|r rs Hr Hrs IH]; intros s Heq Hs.
  { by destruct s. }
  change (utf8 (r :: rs)) with (encode_rune r ++ utf8 rs) in Heq.
  destruct (decide (r = bz c)) as [->|Hne].
  { rewrite encode_rune_ascii in Heq by done. destruct s as [|x s]; simplify_eq/=.
    - by exists [], rs.
    - set_solver. }
  assert (Hnc : c ∉ encode_rune r).
  { destruct (Z.lt_ge_cases r 0x80) as [Hlt|]; [|by apply encode_rune_no_ascii].
    rewrite encode_rune_valid by done. replace (r <? 0x80) with true by lia.
    destruct Hr. rewrite list_elem_of_singleton. intros ->. apply Hne. by rewrite bz_zb by lia. }
  assert (exists s', s = encode_rune r ++ s') as [s' ->].
  { clear -Heq Hnc. revert s Heq. induction (encode_rune r) as [|x l IH]; intros s Heq.
    - by exists s.
    - destruct s as [|y s]; simplify_eq/=; [set_solver|].
      destruct (IH ltac:(set_solver) s) as [s' ->]; [done|]. by exists s'. }
  rewrite <- app_assoc in Heq. apply app_inv_head in Heq.
  destruct (IH s' Heq ltac:(set_solver)) as (rs1 & rs2 & -> & -> & ->).
  by exists (r :: rs1), rs2.
Qed.

Lemma runes_utf8 rs :
  Forall valid_rune rs -> runes (utf8 rs) = map (fun r => (r, encode_rune r)) rs.
Proof. apply runes_encode_all. Qed.

Lemma TrimSpace_utf8 rs :
  Forall valid_rune rs -> TrimSpace (utf8 rs) = utf8 (trim_both IsSpace rs).
Proof.
  intros Hv. unfold TrimSpace, rune_bytes, utf8. rewrite runes_encode_all by done.
  by rewrite trim_both_map, map_map.
Qed.

Section Lowered.
Context {U : UnicodeCase} {UL : UnicodeCaseLaws U}.

Definition lowered (s : gostring) : Prop :=
  exists rs, s = utf8 rs /\ Forall (fun r => valid_rune r /\ lower_rune r = r) rs.

Lemma lower_rune_valid r : valid_rune r -> valid_rune (lower_rune r).
Proof.
  intros Hr. unfold lower_rune. destruct (Z.ltb_spec r 0x80).
  - destruct (_ && _) eqn:E; [|done]. b2p. unfold valid_rune in *. lia.
  - by apply uni_lower_valid.
Qed.

Lemma lower_rune_idem r : lower_rune (lower_rune r) = lower_rune r.
Proof.
  unfold lower_rune at 2 3. destruct (Z.ltb_spec r 0x80).
  - destruct (_ && _) eqn:E; unfold lower_rune; [b2p|]; split_goal; b2p; lia.
  - unfold lower_rune. destruct (Z.ltb_spec (uni_lower r) 0x80) as [Hlt|].
    + apply uni_lower_letter in Hlt; [|done]. split_goal; b2p; lia.
    + by apply uni_lower_idem.
Qed.

Lemma lower_byte_rune b : bz b < 0x80 -> bz (lower_byte b) = lower_rune (bz b).
Proof. destruct b; vm_compute; congruence. Qed.

(** [ToLower] is the rune-wise lower-casing in UTF-8, on ASCII strings too. *)
Lemma ToLower_utf8 s : ToLower s = utf8 (map lower_rune (map fst (runes s))).
Proof.
  unfold ToLower. destruct (is_ascii s) eqn:Hs.
  - rewrite runes_ascii_all, !map_map by done. simpl.
    rewrite <- (utf8_ascii (map lower_byte s)).
    + f_equal. rewrite map_map. apply map_ext_in. intros b Hb.
      unfold is_ascii in Hs. rewrite forallb_forall in Hs. specialize (Hs b Hb).
      apply lower_byte_rune. b2p. lia.
    + rewrite <- (ToLower_ascii s) by done. by apply is_ascii_lower.
  - unfold utf8. by rewrite !map_map.
Qed.

Lemma ToLower_lowered s : lowered (ToLower s).
Proof.
  exists (map lower_rune (map fst (runes s))). split; [apply ToLower_utf8|].
  apply Forall_map. eapply Forall_impl; [apply runes_valid|]. intros r Hr. simpl.
  split; [by apply lower_rune_valid | apply lower_rune_idem].
Qed.

Lemma lowered_ToLower s : lowered s -> ToLower s = s.
Proof.
  intros (rs & -> & Hrs). rewrite ToLower_utf8.
  rewrite runes_utf8 by (eapply Forall_impl; [exact Hrs | naive_solver]).
  rewrite !map_map. simpl. f_equal. rewrite map_ext_in with (g := id); [by rewrite map_id|].
  intros r Hr. rewrite Forall_forall in Hrs. by apply Hrs, list_elem_of_In.
Qed.

Lemma lowered_TrimSpace s :
  lowered s -> lowered (TrimSpace s) /\ TrimSpace (TrimSpace s) = TrimSpace s.
Proof.
  intros (rs & -> & Hrs).
  assert (Hv : Forall valid_rune rs) by (eapply Forall_impl; [exact Hrs | naive_solver]).
  assert (Hsub : forall P, Forall P rs -> Forall P (trim_both IsSpace rs)).
  { intros P HP. rewrite Forall_forall in *. intros x Hx. by eapply HP, trim_both_elem. }
  rewrite TrimSpace_utf8 by done. split.
  - exists (trim_both IsSpace rs). auto.
  - rewrite TrimSpace_utf8 by auto. by rewrite trim_both_idem.
Qed.

Lemma lowered_cut s c x y :
  lowered s -> bz c < 0x80 -> s = x ++ c :: y -> c ∉ x -> lowered x /\ lowered y.
Proof.
  intros (rs & -> & Hrs) Hc Heq Hx.
  destruct (utf8_cut rs c x y) as (rs1 & rs2 & -> & -> & ->); [|done..|].
  { eapply Forall_impl; [exact Hrs | naive_solver]. }
  apply Forall_app in Hrs as [H1 H2]. apply Forall_cons in H2 as [_ H2].
  split; eexists; eauto.
Qed.
End Lowered.

(** ** Lemmas: pieces of a string that end between runes *)

(** What an octet decodes to depends on nothing behind the piece it consumes. *)
Lemma runes_local b0 s :
  exists r bs t, runes (b0 :: s) = (r, bs) :: runes t /\ b0 :: s = bs ++ t /\
    forall t1 t2, t = t1 ++ t2 -> runes (bs ++ t1) = (r, bs) :: runes t1.
Proof.
  destruct s as [|b1 s].
  { exists (rune1 b0), [b0], []. split_and!; [done|done|]. intros t1 t2 E. symmetry in E. by apply app_eq_nil in E as [-> ->]. }
  cbn [runes]. destruct (valid2 b0 b1) eqn:E2.
  { exists (rune2 b0 b1), [b0; b1], s. split_and!; [done|done|]. intros t1 t2 _. cbn [app runes]. by rewrite E2. }
  destruct s as [|b2 s].
  { exists (rune1 b0), [b0], [b1]. split_and!; [done|done|]. intros [|x [|y t1]] t2 [=]; [done|]. subst. cbn [app runes]. by rewrite E2. }
  destruct (valid3 b0 b1 b2) eqn:E3.
  { exists (rune3 b0 b1 b2), [b0; b1; b2], s. split_and!; [done|done|]. intros t1 t2 _. cbn [app runes]. by rewrite E2, E3. }
  destruct s as [|b3 s].
  { exists (rune1 b0), [b0], [b1; b2]. split_and!; [done|done|]. intros [|x [|y [|z t1]]] t2 [=]; subst; cbn [app runes]; by rewrite ?E2, ?E3. }
  destruct (valid4 b0 b1 b2 b3) eqn:E4.
  { exists (rune4 b0 b1 b2 b3), [b0; b1; b2; b3], s. split_and!; [done|done|]. intros t1 t2 _. cbn [app runes]. by rewrite E2, E3, E4. }
  exists (rune1 b0), [b0], (b1 :: b2 :: b3 :: s). split_and!; [done|done|].
  intros [|x [|y [|z t1]]] t2 [=]; subst; cbn [app runes]; by rewrite ?E2, ?E3, ?E4.
Qed.

Lemma runes_suffix l1 l2 s : runes s = l1 ++ l2 -> runes (rune_bytes l2) = l2.
Proof.
  revert s. induction l1 as [|x l1 IH]; intros s E; [change ([] ++ l2) with l2 in E; by rewrite <- E, rune_bytes_runes|].
  destruct s as [|b s]; [done|]. destruct (runes_local b s) as (r & bs & t & Hr & _ & _).
  rewrite Hr in E. injection E as _ E. by apply (IH t).
Qed.

Lemma runes_prefix l1 l2 s : runes s = l1 ++ l2 -> runes (rune_bytes l1) = l1.
Proof.
  revert s. induction l1 as [|x l1 IH]; intros s E; [done|].
  destruct s as [|b s]; [done|]. destruct (runes_local b s) as (r & bs & t & Hr & _ & Hloc).
  rewrite Hr in E. injection E as <- E. change (rune_bytes ((r, bs) :: l1)) with (bs ++ rune_bytes l1).
  rewrite (Hloc _ (rune_bytes l2)); [by rewrite (IH t)|].
  rewrite <- (rune_bytes_runes t), E. unfold rune_bytes. by rewrite map_app, concat_app.
Qed.

Lemma trim_both_infix {A} (p : A -> bool) l : exists l1 l2, l = l1 ++ trim_both p l ++ l2.
Proof.
  destruct (drop_while_suffix p l) as [l1 E1]. destruct (drop_while_suffix p (reverse (drop_while p l))) as [l2 E2].
  exists l1, (reverse l2). unfold trim_both. rewrite <- reverse_app, <- E2, reverse_involutive. done.
Qed.

Lemma runes_TrimSpace s : runes (TrimSpace s) = trim_both (fun rb => IsSpace rb.1) (runes s).
Proof.
  destruct (trim_both_infix (fun rb : Z * gostring => IsSpace rb.1) (runes s)) as (l1 & l2 & E).
  apply runes_suffix in E. by apply runes_prefix in E.
Qed.

Lemma TrimSpace_idem s : TrimSpace (TrimSpace s) = TrimSpace s.
Proof. unfold TrimSpace at 1. rewrite runes_TrimSpace, trim_both_idem. done. Qed.

Section TrimLower.
Context {U : UnicodeCase} {UL : UnicodeCaseLaws U}.

Lemma IsSpace_lower_rune r : IsSpace (lower_rune r) = IsSpace r.
Proof.
  unfold lower_rune. destruct (Z.ltb_spec r 0x80); [|by apply uni_lower_space].
  destruct (_ && _) eqn:E; [|done]. b2p. unfold IsSpace. lia.
Qed.

(** Lower-casing and trimming commute. *)
Lemma ToLower_TrimSpace s : ToLower (TrimSpace s) = TrimSpace (ToLower s).
Proof.
  rewrite !ToLower_utf8, runes_TrimSpace, TrimSpace_utf8.
  - rewrite !trim_both_map. do 3 f_equal. unfold trim_both.
    assert (Hp : forall l : list (Z * gostring), drop_while (fun x => IsSpace (lower_rune x.1)) l = drop_while (fun x => IsSpace x.1) l).
    { induction l as [|x l IH]; [done|]. cbn. by rewrite IsSpace_lower_rune, IH. }
    by rewrite !Hp.
  - apply Forall_map. eapply Forall_impl; [apply runes_valid|]. apply lower_rune_valid.
Qed.
End TrimLower.

(** ** Lemmas: slicing around a separator *)

Lemma slice_to_app s t : slice_to (s ++ t) (Z.of_nat (length s)) = s.
Proof. unfold slice_to. by rewrite Nat2Z.id, take_app_length. Qed.

Lemma slice_from_app s c t : slice_from (s ++ c :: t) (Z.of_nat (length s) + 1) = t.
Proof.
  unfold slice_from. replace (Z.to_nat (Z.of_nat (length s) + 1)) with (length s + 1)%nat by lia.
  by rewrite drop_app_add.
Qed.

(** ** Lemmas: the order of strings *)

#[global] Instance str_le_total : Total str_le.
Proof.
  unfold Total, str_le. induction x as [|a x IH]; intros [|b y]; simpl; [by left..|by right|].
  destruct (Z.ltb_spec (bz a) (bz b)), (Z.ltb_spec (bz b) (bz a)); try lia; try (by left);
    try (by right). apply IH.
Qed.

#[global] Instance str_le_trans : Transitive str_le.
Proof.
  unfold Transitive, str_le. induction x as [|a x IH]; intros [|b y] [|c z]; simpl; try done.
  destruct (Z.ltb_spec (bz a) (bz b)), (Z.ltb_spec (bz b) (bz a)), (Z.ltb_spec (bz b) (bz c)),
    (Z.ltb_spec (bz c) (bz b)), (Z.ltb_spec (bz a) (bz c)), (Z.ltb_spec (bz c) (bz a)); try lia; try done.
  apply IH.
Qed.

#[global] Instance str_le_antisymm : AntiSymm eq str_le.
Proof.
  unfold AntiSymm, str_le. induction x as [|a x IH]; intros [|b y]; simpl; try done.
  destruct (Z.ltb_spec (bz a) (bz b)), (Z.ltb_spec (bz b) (bz a)); try lia; try done.
  intros H1 H2. f_equal; [apply bz_inj; lia | by apply IH].
Qed.

#[global] Instance str_le_refl : Reflexive str_le.
Proof. intros x. by destruct (total str_le x x). Qed.

(** Sorting forgets the order of its input. *)
Lemma sort_strings_perm l1 l2 : l1 ≡ₚ l2 -> sort_strings l1 = sort_strings l2.
Proof.
  intros Hp. unfold sort_strings. apply (StronglySorted_unique str_le);
    [apply StronglySorted_merge_sort; apply _..|]. by rewrite !merge_sort_Permutation.
Qed.

(** ** Lemmas: where ASCII runes come from *)

Lemma rune2_big b0 b1 : valid2 b0 b1 = true -> 0x80 <= rune2 b0 b1.
Proof.
  intros [H _]%andb_true_iff. unfold rune2. pose proof (low6_bounds b1). rewrite lor_add_disjoint by lia.
  assert (2 <= Z.land (bz b0) 0x1F); [|lia]. revert H. clear. destruct b0; vm_compute; intuition congruence.
Qed.

Lemma rune3_big b0 b1 b2 : valid3 b0 b1 b2 = true -> 0x80 <= rune3 b0 b1 b2.
Proof.
  intros H. unfold rune3. pose proof (low6_bounds b1). pose proof (low6_bounds b2).
  pose proof (land_bounds b0 4 ltac:(lia)) as H4. change (Z.ones 4) with 0x0F in *.
  rewrite (lor_add_disjoint (low6 b1)) by lia. rewrite lor_add_disjoint by lia.
  unfold valid3, cont in H. apply andb_true_iff in H as [H _].
  apply orb_true_iff in H as [[H|H]%orb_true_iff|H]; apply andb_true_iff in H as [Hb0 Hb1].
  - apply in_range_low6 in Hb1; lia.
  - assert (1 <= Z.land (bz b0) 0x0F); [|lia]. revert Hb0. clear. destruct b0; vm_compute; intuition congruence.
  - b2p. rewrite Hb0. change (Z.land 0xED 0x0F) with 13. lia.
Qed.

Lemma rune4_big b0 b1 b2 b3 : valid4 b0 b1 b2 b3 = true -> 0x80 <= rune4 b0 b1 b2 b3.
Proof.
  intros H. unfold rune4. pose proof (low6_bounds b1). pose proof (low6_bounds b2).
  pose proof (low6_bounds b3).
  pose proof (land_bounds b0 3 ltac:(lia)) as H4. change (Z.ones 3) with 0x07 in *.
  rewrite (lor_add_disjoint (low6 b2)) by lia.
  rewrite (lor_add_disjoint (low6 b1)) by lia. rewrite lor_add_disjoint by lia.
  unfold valid4, cont in H. apply andb_true_iff in H as [[H _]%andb_true_iff _].
  apply orb_true_iff in H as [[H|H]%orb_true_iff|H]; apply andb_true_iff in H as [Hb0 Hb1].
  - apply in_range_low6 in Hb1; lia.
  - assert (1 <= Z.land (bz b0) 0x07); [|lia]. revert Hb0. clear. destruct b0; vm_compute; intuition congruence.
  - b2p. rewrite Hb0. change (Z.land 0xF4 0x07) with 4. lia.
Qed.

Definition plain_rune (x : Z * gostring) : Prop := x.1 < 0x80 -> x.2 = [zb x.1].

Lemma plain_rune1 b : plain_rune (rune1 b, [b]).
Proof.
  unfold plain_rune, rune1. simpl. destruct (Z.ltb_spec (bz b) 0x80); [by rewrite zb_bz | unfold RuneError; lia].
Qed.

Lemma plain_rune_big r bs : 0x80 <= r -> plain_rune (r, bs).
Proof. unfold plain_rune. simpl. lia. Qed.

(** A rune below 0x80 was decoded from the one octet it equals. *)
Lemma runes_plain s : Forall plain_rune (runes s).
Proof.
  remember (length s) as n eqn:Hn. revert s Hn.
  induction n as [n IH] using lt_wf_ind. intros [|b0 s] ->; [constructor|].
  assert (Hrec : forall t, (length t < length (b0 :: s))%nat -> Forall plain_rune (runes t))
    by (intros t Ht; by eapply IH).
  destruct s as [|b1 s]; [repeat constructor; apply plain_rune1|]. cbn [runes].
  destruct (valid2 b0 b1) eqn:H2.
  { constructor; [by apply plain_rune_big, rune2_big | apply Hrec; simpl; lia]. }
  destruct s as [|b2 s]; [constructor; [apply plain_rune1 | apply (Hrec [b1]); simpl; lia]|].
  destruct (valid3 b0 b1 b2) eqn:H3.
  { constructor; [by apply plain_rune_big, rune3_big | apply Hrec; simpl; lia]. }
  destruct s as [|b3 s]; [constructor; [apply plain_rune1 | apply (Hrec [b1; b2]); simpl; lia]|].
  destruct (valid4 b0 b1 b2 b3) eqn:H4.
  { constructor; [by apply plain_rune_big, rune4_big | apply Hrec; simpl; lia]. }
  constructor; [apply plain_rune1 | apply (Hrec (b1 :: b2 :: b3 :: s)); simpl; lia].
Qed.

Lemma runes_bytes_elem s r bs b : (r, bs) ∈ runes s -> b ∈ bs -> b ∈ s.
Proof.
  intros Hin Hb. rewrite <- (rune_bytes_runes s). unfold rune_bytes.
  apply list_elem_of_In, in_concat. exists bs. split; [|by apply list_elem_of_In].
  apply list_elem_of_In, list_elem_of_fmap. by exists (r, bs).
Qed.

Lemma runes_no_ascii s b : bz b < 0x80 -> b ∉ s -> bz b ∉ map fst (runes s).
Proof.
  intros Hb Hn (x & Hx & Hin)%list_elem_of_fmap. apply Hn. destruct x as [r bs]. simpl in Hx. subst r.
  pose proof (proj1 (Forall_forall _ _) (runes_plain s) _ Hin Hb) as E. simpl in E. subst bs.
  eapply runes_bytes_elem; [exact Hin|]. rewrite zb_bz. by left.
Qed.

Lemma TrimSpace_elem s b : b ∈ TrimSpace s -> b ∈ s.
Proof.
  unfold TrimSpace, rune_bytes. intros H. apply list_elem_of_In, in_concat in H as (bs & Hbs & Hb).
  apply List.in_map_iff in Hbs as ([r bs'] & <- & Hin). eapply runes_bytes_elem; [|by apply list_elem_of_In].
  eapply trim_both_elem. by apply list_elem_of_In.
Qed.

Lemma Join_elem l sep b : b ∈ Join l sep -> b ∈ sep \/ exists s, s ∈ l /\ b ∈ s.
Proof.
  induction l as [|x l IH]; [by intros ?%not_elem_of_nil|]. destruct l as [|y l].
  - intros H. right. exists x. split; [by left | done].
  - change (Join (x :: y :: l) sep) with (x ++ sep ++ Join (y :: l) sep). rewrite !elem_of_app.
    intros [H|[H|[H|(s & ? & ?)]%IH]]; [right; exists x; split; [by left|done] | by left | by left |].
    right. exists s. split; [by right | done].
Qed.

(** ** Lemmas: decimal integers *)

Lemma string_of_uint_digits u b :
  b ∈ String.list_byte_of_string (NilEmpty.string_of_uint u) -> in_range 48 57 b = true.
Proof.
  unfold String.list_byte_of_string.
  induction u; simpl; [by intros ?%not_elem_of_nil | intros [->|H]%elem_of_cons; [done | by apply IHu] ..].
Qed.

Lemma FormatInt_bytes n b : b ∈ FormatInt n -> in_range 48 57 b = true \/ b = "-"%byte.
Proof.
  unfold FormatInt. destruct (Z.to_int n) as [u|u]; simpl.
  - intros H. left. by eapply string_of_uint_digits.
  - intros [->|H]%elem_of_cons; [by right|]. left. by eapply string_of_uint_digits.
Qed.

Lemma FormatInt_no_nl n : x0a ∉ FormatInt n.
Proof. by intros [?|?]%FormatInt_bytes. Qed.

Lemma digit_val_nonneg b d : digit_val b = Some d -> 0 <= d.
Proof. unfold digit_val, in_range. intros H. repeat case_match; simplify_eq; b2p; lia. Qed.

Lemma digits_val_nonneg base acc s n : 0 <= base -> 0 <= acc -> digits_val base acc s = Some n -> 0 <= n.
Proof.
  intros Hb. revert acc. induction s as [|b s IH]; intros acc Ha; cbn [digits_val]; [by intros [= <-]|].
  destruct (digit_val b) as [d|] eqn:Ed; [|done]. apply digit_val_nonneg in Ed. destruct (d <? base); [|done].
  apply IH. nia.
Qed.

Lemma ParseUint_nonneg s base n : 0 <= base -> ParseUint s base = Some n -> 0 <= n.
Proof. intros Hb. destruct s; [done|]. by apply digits_val_nonneg. Qed.

(** A parsed integer fits its width. *)
Lemma ParseInt_range s base bits n :
  0 <= base -> ParseInt s base bits = Some n -> - 2 ^ (bits - 1) <= n < Z.max 1 (2 ^ (bits - 1)).
Proof.
  intros Hb. pose proof (Z.pow_nonneg 2 (bits - 1)) as Hp.
  assert (Hpos : forall t, (m ← ParseUint t base; if m <? 2 ^ (bits - 1) then Some m else None) = Some n ->
    - 2 ^ (bits - 1) <= n < Z.max 1 (2 ^ (bits - 1))).
  { intros t. destruct (ParseUint t base) as [m|] eqn:E; [|done]. apply ParseUint_nonneg in E; [|done].
    cbn [mbind option_bind]. destruct (Z.ltb_spec m (2 ^ (bits - 1))); [|done]. intros [= <-]. lia. }
  assert (Hneg : forall t, (m ← ParseUint t base; if m <=? 2 ^ (bits - 1) then Some (- m) else None) = Some n ->
    - 2 ^ (bits - 1) <= n < Z.max 1 (2 ^ (bits - 1))).
  { intros t. destruct (ParseUint t base) as [m|] eqn:E; [|done]. apply ParseUint_nonneg in E; [|done].
    cbn [mbind option_bind]. destruct (Z.leb_spec m (2 ^ (bits - 1))); [|done]. intros [= <-]. lia. }
  unfold ParseInt. cbv zeta. destruct s as [|[]]; first [apply Hpos | apply Hneg].
Qed.

(** ** Lemmas: tokens

    Printable ASCII without spaces: trimming and case leave such strings alone. *)

Definition printable (b : byte) : bool := in_range 0x21 0x7E b.

Lemma printable_ascii s : Forall (fun b => printable b = true) s -> is_ascii s = true.
Proof.
  intros H. unfold is_ascii. apply forallb_forall. intros b Hb%list_elem_of_In.
  rewrite Forall_forall in H. specialize (H b Hb). unfold printable, in_range in H. b2p. lia.
Qed.

Lemma printable_not_space b : printable b = true -> byte_space b = false.
Proof.
  intros H. pose proof (byte_forallb (fun b => negb (printable b) || negb (byte_space b))
    ltac:(by vm_compute) b) as E. cbv beta in E. rewrite H in E. by apply negb_true_iff in E.
Qed.

(** Only the ends matter for trimming an ASCII string. *)
Lemma TrimSpace_ends s :
  is_ascii s = true -> (forall b, head s = Some b -> printable b = true) ->
  (forall b, last s = Some b -> printable b = true) -> TrimSpace s = s.
Proof.
  intros Hs Hh Hl. apply TrimSpace_id; [done|].
  split; intros b Hb; apply printable_not_space; auto.
Qed.

Lemma TrimSpace_printable s : Forall (fun b => printable b = true) s -> TrimSpace s = s.
Proof.
  intros H. apply TrimSpace_ends; [by apply printable_ascii|..]; intros b Hb; rewrite Forall_forall in H;
    apply H; [by apply head_Some_elem_of | by apply last_Some_elem_of].
Qed.

Lemma TrimSpace_lead s : is_ascii s = true -> TrimSpace (" "%byte :: s) = TrimSpace s.
Proof. intros Hs. rewrite !TrimSpace_ascii by done. done. Qed.

Lemma Trim_absent s c : c ∉ s -> Trim s [c] = s.
Proof.
  intros Hc. unfold Trim. apply trim_both_id. split; intros b Hb; apply bool_decide_eq_false;
    intros ->%list_elem_of_singleton; apply Hc; [by apply head_Some_elem_of | by apply last_Some_elem_of].
Qed.

Lemma HasPrefix_app p s : HasPrefix (p ++ s) p = true.
Proof. apply HasPrefix_spec. by exists s. Qed.

Lemma TrimPrefix_app p s : TrimPrefix (p ++ s) p = s.
Proof. unfold TrimPrefix. by rewrite HasPrefix_app, drop_app_length. Qed.

Lemma Join_app l1 l2 sep : l1 <> [] -> l2 <> [] -> Join (l1 ++ l2) sep = Join l1 sep ++ sep ++ Join l2 sep.
Proof.
  intros H1 H2. induction l1 as [|x l1 IH]; [done|]. destruct l1 as [|y l1].
  - simpl. by destruct l2.
  - change (Join ((x :: y :: l1) ++ l2) sep) with (x ++ sep ++ Join ((y :: l1) ++ l2) sep).
    rewrite IH by done. change (Join (x :: y :: l1) sep) with (x ++ sep ++ Join (y :: l1) sep).
    by rewrite <- !app_assoc.
Qed.

Lemma Split_no s c : Forall (fun x => c ∉ x) (Split s c).
Proof.
  induction s as [|b s IH]; simpl; [repeat constructor; by intros ?%not_elem_of_nil|].
  destruct (decide (b = c)); [constructor; [by intros ?%not_elem_of_nil | done]|].
  destruct (Split s c) as [|h t].
  - repeat constructor. by intros ->%list_elem_of_singleton.
  - apply Forall_cons in IH as [IH1 IH2]. constructor; [|done]. apply not_elem_of_cons. split; [congruence | done].
Qed.
