(* ===== verification/Crypto.v ===== *)
(** * The digests of Go's [crypto/sha256], [crypto/hmac], [crypto/sha1],
    [hash/crc32] and [hash/crc64], and [encoding/base64]

    Executable definitions of the hash functions the gateway calls, on octet
    strings, with their published test vectors as checks.  The theorems of the
    other files use nothing about them but that they are functions of fixed
    output length; having them executable lets whole requests be evaluated. *)

From S2P Require Import Prelude GoStrings.

Definition word32 (z : Z) : Z := Z.land z 0xFFFFFFFF.
Definition add32 (a b : Z) : Z := word32 (a + b).
Definition rotr32 (n x : Z) : Z := Z.lor (Z.shiftr x n) (word32 (Z.shiftl x (32 - n))).

(** Big-endian octets of an [n]-octet integer, and back. *)
Fixpoint be_bytes (n : nat) (z : Z) : gostring :=
  match n with
  | O => []
  | S n' => zb (Z.shiftr z (8 * Z.of_nat n')) :: be_bytes n' z
  end.
Definition be_value (s : gostring) : Z := fold_left (fun acc b => acc * 256 + bz b) s 0.

Fixpoint blocks (fuel : nat) (n : nat) (s : gostring) : list gostring :=
  match fuel, s with
  | O, _ | _, [] => []
  | S f, _ => take n s :: blocks f n (drop n s)
  end.

(** Merkle-Damgard padding with a 64-bit big-endian bit length. *)
Definition md_pad (s : gostring) : gostring :=
  let n := length s in
  let z := ((119 - n mod 64) mod 64)%nat in
  s ++ [x80] ++ replicate z x00 ++ be_bytes 8 (8 * Z.of_nat n).

Definition words32 (block : gostring) : list Z := map be_value (blocks 16 4 block).

(** ** SHA-256 *)

(** The constants are those of the standard: the first 32 fractional bits of the
    cube roots of the first 64 primes, and of the square roots of the first 8. *)
Definition is_prime (p : nat) : bool :=
  forallb (fun d => negb (p mod d =? 0)%nat) (seq 2 (p - 2)).
Definition first_primes : list Z := map Z.of_nat (List.filter is_prime (seq 2 310)).

(** The integer cube root of a number below 2^(3 * bits), from the top bit down. *)
Fixpoint cube_root (bits : nat) (z acc : Z) : Z :=
  match bits with
  | O => acc
  | S b =>
    let t := acc + 2 ^ Z.of_nat b in
    cube_root b z (if t * t * t <=? z then t else acc)
  end.

Definition sha256_K : list Z :=
  Eval vm_compute in map (fun p => cube_root 36 (p * 2 ^ 96) 0 mod 2 ^ 32) first_primes.
Definition sha256_iv : list Z :=
  Eval vm_compute in map (fun p => Z.sqrt (p * 2 ^ 64) mod 2 ^ 32) (take 8 first_primes).

Definition sha256_schedule_step (w : list Z) : list Z :=
  let at_ i := nth i w 0 in
  let s0 x := Z.lxor (Z.lxor (rotr32 7 x) (rotr32 18 x)) (Z.shiftr x 3) in
  let s1 x := Z.lxor (Z.lxor (rotr32 17 x) (rotr32 19 x)) (Z.shiftr x 10) in
  add32 (add32 (s1 (at_ 1%nat)) (at_ 6%nat)) (add32 (s0 (at_ 14%nat)) (at_ 15%nat)) :: w.

(** The 64 schedule words of a block, first word first. *)
Definition sha256_schedule (block : gostring) : list Z :=
  rev (Nat.iter 48 sha256_schedule_step (rev (words32 block))).

Record sha256_state := mk256 { sa : Z; sb : Z; sc : Z; sd : Z; se : Z; sf : Z; sg : Z; sh : Z }.

Definition sha256_round (s : sha256_state) (kw : Z * Z) : sha256_state :=
  let '(mk256 a b c d e f g h) := s in
  let S1 := Z.lxor (Z.lxor (rotr32 6 e) (rotr32 11 e)) (rotr32 25 e) in
  let ch := Z.lxor (Z.land e f) (Z.land (Z.lxor e 0xFFFFFFFF) g) in
  let t1 := add32 (add32 h S1) (add32 ch (add32 kw.1 kw.2)) in
  let S0 := Z.lxor (Z.lxor (rotr32 2 a) (rotr32 13 a)) (rotr32 22 a) in
  let maj := Z.lxor (Z.lxor (Z.land a b) (Z.land a c)) (Z.land b c) in
  mk256 (add32 t1 (add32 S0 maj)) a b c (add32 d t1) e f g.

Definition sha256_block (s : sha256_state) (block : gostring) : sha256_state :=
  let '(mk256 a b c d e f g h) := s in
  let '(mk256 a' b' c' d' e' f' g' h') :=
    fold_left sha256_round (combine sha256_K (sha256_schedule block)) s in
  mk256 (add32 a a') (add32 b b') (add32 c c') (add32 d d')
        (add32 e e') (add32 f f') (add32 g g') (add32 h h').

Definition sha256_init : sha256_state :=
  let h i := nth i sha256_iv 0 in
  mk256 (h 0%nat) (h 1%nat) (h 2%nat) (h 3%nat) (h 4%nat) (h 5%nat) (h 6%nat) (h 7%nat).

(** [sha256.Sum256]. *)
Definition sha256 (s : gostring) : gostring :=
  let p := md_pad s in
  let '(mk256 a b c d e f g h) :=
    fold_left sha256_block (blocks (length p) 64 p) sha256_init in
  be_bytes 4 a ++ be_bytes 4 b ++ be_bytes 4 c ++ be_bytes 4 d ++
  be_bytes 4 e ++ be_bytes 4 f ++ be_bytes 4 g ++ be_bytes 4 h.

(** [hmac.New(sha256.New, key)] over [data]. *)
Definition hmac_sha256 (key data : gostring) : gostring :=
  let key := if (64 <? Z.of_nat (length key)) then sha256 key else key in
  let key := key ++ replicate (64 - length key) x00 in
  let pad c := map (fun b => zb (Z.lxor (bz b) c)) key in
  sha256 (pad 0x5c ++ sha256 (pad 0x36 ++ data)).

(** ** SHA-1 *)

Definition rotl32 (n x : Z) : Z := rotr32 (32 - n) x.

Definition sha1_schedule_step (w : list Z) : list Z :=
  let at_ i := nth i w 0 in
  rotl32 1 (Z.lxor (Z.lxor (at_ 2%nat) (at_ 7%nat)) (Z.lxor (at_ 13%nat) (at_ 15%nat))) :: w.

Record sha1_state := mk1 { h0 : Z; h1 : Z; h2 : Z; h3 : Z; h4 : Z }.

Definition sha1_round (s : sha1_state) (tw : nat * Z) : sha1_state :=
  let '(mk1 a b c d e) := s in
  let '(t, w) := tw in
  let '(f, k) :=
    if (t <? 20)%nat then (Z.lor (Z.land b c) (Z.land (Z.lxor b 0xFFFFFFFF) d), 0x5a827999)
    else if (t <? 40)%nat then (Z.lxor (Z.lxor b c) d, 0x6ed9eba1)
    else if (t <? 60)%nat then
      (Z.lor (Z.lor (Z.land b c) (Z.land b d)) (Z.land c d), 0x8f1bbcdc)
    else (Z.lxor (Z.lxor b c) d, 0xca62c1d6) in
  mk1 (add32 (add32 (rotl32 5 a) f) (add32 (add32 e k) w)) a (rotl32 30 b) c d.

Definition sha1_block (s : sha1_state) (block : gostring) : sha1_state :=
  let '(mk1 a b c d e) := s in
  let w := rev (Nat.iter 64 sha1_schedule_step (rev (words32 block))) in
  let '(mk1 a' b' c' d' e') := fold_left sha1_round (combine (seq 0 80) w) s in
  mk1 (add32 a a') (add32 b b') (add32 c c') (add32 d d') (add32 e e').

(** [sha1.Sum]. *)
Definition sha1 (s : gostring) : gostring :=
  let p := md_pad s in
  let '(mk1 a b c d e) :=
    fold_left sha1_block (blocks (length p) 64 p)
      (mk1 0x67452301 0xefcdab89 0x98badcfe 0x10325476 0xc3d2e1f0) in
  be_bytes 4 a ++ be_bytes 4 b ++ be_bytes 4 c ++ be_bytes 4 d ++ be_bytes 4 e.

(** ** Reflected CRCs *)

Definition crc_bit (poly c : Z) : Z :=
  if Z.odd c then Z.lxor (Z.shiftr c 1) poly else Z.shiftr c 1.
Definition crc_byte (poly c : Z) (b : byte) : Z := Nat.iter 8 (crc_bit poly) (Z.lxor c (bz b)).
Definition crc (width : nat) (poly : Z) (s : gostring) : gostring :=
  let ones := Z.ones (8 * Z.of_nat width) in
  be_bytes width (Z.lxor (fold_left (crc_byte poly) s ones) ones).

Definition crc32_ieee : gostring -> gostring := crc 4 0xEDB88320.
Definition crc32_castagnoli : gostring -> gostring := crc 4 0x82F63B78.
Definition crc64_nvme : gostring -> gostring := crc 8 0x9a6c9329ac4bc9b5.

(** ** Base64, standard alphabet with padding *)

Definition base64_digit (d : Z) : byte :=
  if d <? 26 then zb (65 + d)
  else if d <? 52 then zb (97 + (d - 26))
  else if d <? 62 then zb (48 + (d - 52))
  else if d =? 62 then "+"%byte else "/"%byte.

Fixpoint base64_encode (s : gostring) : gostring :=
  match s with
  | [] => []
  | [a] =>
    let v := bz a * 16 in
    [base64_digit (v / 64); base64_digit (v mod 64); "="%byte; "="%byte]
  | [a; b] =>
    let v := (bz a * 256 + bz b) * 4 in
    [base64_digit (v / 4096); base64_digit (v / 64 mod 64); base64_digit (v mod 64); "="%byte]
  | a :: b :: c :: s' =>
    let v := bz a * 65536 + bz b * 256 + bz c in
    base64_digit (v / 262144) :: base64_digit (v / 4096 mod 64) ::
    base64_digit (v / 64 mod 64) :: base64_digit (v mod 64) :: base64_encode s'
  end.

(** ** Test vectors *)

Example sha256_abc :
  hex_encode (sha256 (str "abc")) =
  str "ba7816bf8f01cfea414140de5dae2223b00361a396177a9cb410ff61f20015ad".
Proof. vm_compute. reflexivity. Qed.

Example sha256_empty :
  hex_encode (sha256 []) = str "e3b0c44298fc1c149afbf4c8996fb92427ae41e4649b934ca495991b7852b855".
Proof. vm_compute. reflexivity. Qed.

Example sha256_two_blocks :
  hex_encode (sha256 (str "abcdbcdecdefdefgefghfghighijhijkijkljklmklmnlmnomnopnopq")) =
  str "248d6a61d20638b8e5c026930c3e6039a33ce45964ff2167f6ecedd419db06c1".
Proof. vm_compute. reflexivity. Qed.

(** RFC 4231, test case 2. *)
Example hmac_sha256_jefe :
  hex_encode (hmac_sha256 (str "Jefe") (str "what do ya want for nothing?")) =
  str "5bdcc146bf60754e6a042426089575c75a003f089d2739839dec58b964ec3843".
Proof. vm_compute. reflexivity. Qed.

Example sha1_abc : hex_encode (sha1 (str "abc")) = str "a9993e364706816aba3e25717850c26c9cd0d89d".
Proof. vm_compute. reflexivity. Qed.

(** The check values of the CRC catalogue, on the digits 1 to 9. *)
Example crc_checks :
  map hex_encode [crc32_ieee (str "123456789"); crc32_castagnoli (str "123456789");
                  crc64_nvme (str "123456789")] =
  [str "cbf43926"; str "e3069283"; str "ae8b14860a799888"].
Proof. vm_compute. reflexivity. Qed.

Example base64_foob : base64_encode (str "foob") = str "Zm9vYg==".
Proof. vm_compute. reflexivity. Qed.

(** ** Output lengths *)

Lemma length_be_bytes n z : length (be_bytes n z) = n.
Proof. induction n as [|n IH]; [done|]. simpl. by rewrite IH. Qed.

(** Big-endian octets are read back modulo their width. *)
Lemma be_value_be_bytes n z : be_value (be_bytes n z) = z mod 2 ^ (8 * Z.of_nat n).
Proof.
  unfold be_value.
  assert (H : forall acc, fold_left (fun acc b => acc * 256 + bz b) (be_bytes n z) acc =
    acc * 2 ^ (8 * Z.of_nat n) + z mod 2 ^ (8 * Z.of_nat n)); [|by rewrite H].
  induction n as [|n IH]; intros acc; [simpl; change (2 ^ (8 * 0)) with 1; rewrite Z.mod_1_r; lia|].
  cbn [be_bytes fold_left]. rewrite IH.
  set (m := 8 * Z.of_nat n). replace (8 * Z.of_nat (S n)) with (m + 8) by lia.
  assert (Hm : 0 < 2 ^ m) by (apply Z.pow_pos_nonneg; lia).
  assert (Hb : bz (zb (Z.shiftr z m)) = (z / 2 ^ m) mod 256).
  { rewrite Z.shiftr_div_pow2 by lia. unfold zb at 1. rewrite <- bz_zb by (apply Z.mod_pos_bound; lia).
    f_equal. unfold zb. by rewrite Zmod_mod. }
  rewrite Hb, Z.pow_add_r by lia. change (2 ^ 8) with 256.
  rewrite Z.rem_mul_r by lia. lia.
Qed.

Lemma length_sha256 s : length (sha256 s) = 32%nat.
Proof.
  unfold sha256. destruct (fold_left _ _ _). by rewrite !length_app, !length_be_bytes.
Qed.

Lemma length_hmac_sha256 key data : length (hmac_sha256 key data) = 32%nat.
Proof. apply length_sha256. Qed.

#[global] Opaque sha256 hmac_sha256 sha1 crc.
