(* ===== verification/Authz.v ===== *)
(** * Authorization: LDAP groups to bucket permissions (src/internal/authz/authz.go)

    A group name is parsed into a namespace and a permission mask
    ([ParseGroup]); the rules of a user are the masks of all groups, merged per
    namespace ([RulesFromGroups]); the permission on a bucket is the mask of its
    namespace together with a global read rule ([BucketPerm], [CanRead], ...).
    The theorems give the whole path its meaning: which groups grant which
    operation on which bucket, that only the reserved group reaches every
    namespace, and that the order in which Go ranges over the maps is
    irrelevant. *)

From S2P Require Import Prelude GoStrings.

(** ** Definitions *)

Definition AllBucketsReadGroup : gostring := str "s3gateway-all-r".
Definition AllBucketsPrefix : gostring := str "*".

(** A permission is a [uint32] bit mask; the constants are [1 << iota], and
    [iota] is 1 at [PermRead]. *)
Abbreviation Perm := Z.
Definition PermNone : Perm := 0.
Definition PermRead : Perm := Z.shiftl 1 1.
Definition PermWrite : Perm := Z.shiftl 1 2.
Definition PermCreateBucket : Perm := Z.shiftl 1 3.
Definition PermDeleteObject : Perm := Z.shiftl 1 4.
Definition PermDeleteBucket : Perm := Z.shiftl 1 5.
Definition PermReadWrite : Perm := Z.lor PermRead PermWrite.

Record Rule := { BucketPrefix : gostring; RulePerm : Perm }.

(** The switch of [ParseGroup]'s loop over the permission letters. *)
Definition letter_perm (ch : Z) : option Perm :=
  if ch =? 0x72 then Some PermRead
  else if ch =? 0x77 then Some PermWrite
  else if ch =? 0x63 then Some PermCreateBucket
  else if ch =? 0x64 then Some PermDeleteObject
  else if ch =? 0x62 then Some PermDeleteBucket
  else None.

Fixpoint parse_letters (rs : list Z) (out : Perm) : option Perm :=
  match rs with
  | [] => Some out
  | ch :: rs' => match letter_perm ch with
                 | Some p => parse_letters rs' (Z.lor out p)
                 | None => None
                 end
  end.

Section Authz.
Context {U : UnicodeCase} {MI : MapIter}.

Definition ParseGroup (g0 : gostring) : option (gostring * Perm) :=
  let g := ToLower (TrimSpace g0) in
  if decide (g = AllBucketsReadGroup) then Some (AllBucketsPrefix, PermRead) else
  let i := Index g "-"%byte in
  if (i <=? 0) || (Z.of_nat (length g) - 1 <=? i) then None else
  let p := TrimSpace (slice_to g i) in
  let letters := TrimSpace (slice_from g (i + 1)) in
  if decide (p = [] \/ letters = []) then None else
  if decide (p = AllBucketsPrefix) then None else
  match parse_letters (map fst (runes letters)) PermNone with
  | None => None
  | Some out => if decide (out = PermNone) then None else Some (p, out)
  end.

(** One iteration of the loop that merges the groups into [byPrefix]. *)
Definition merge_group (byPrefix : gmap gostring Perm) (g : gostring) : gmap gostring Perm :=
  match ParseGroup g with
  | None => byPrefix
  | Some (prefix, perm) =>
    let bp := ToLower prefix in
    <[bp := Z.lor (default PermNone (byPrefix !! bp)) perm]> byPrefix
  end.

Definition RulesFromGroups (groups : gset gostring) : list Rule :=
  let byPrefix := fold_left merge_group (set_iter groups) ∅ in
  map (fun '(p, perm) => {| BucketPrefix := p; RulePerm := perm |}) (map_iter byPrefix).

Definition BucketNamespace (bucket : gostring) : gostring :=
  let b := ToLower bucket in
  let i := Index b "-"%byte in
  if 0 <? i then slice_to b i else b.

(** One iteration of [BucketPerm]'s loop over the rules. *)
Definition add_rule (ns : gostring) (perm : Perm) (r : Rule) : Perm :=
  let prefix := ToLower (TrimSpace (BucketPrefix r)) in
  if decide (prefix = AllBucketsPrefix) then Z.lor perm (Z.land (RulePerm r) PermRead)
  else if decide (ns = prefix) then Z.lor perm (RulePerm r)
  else perm.

Definition BucketPerm (rules : list Rule) (bucket : gostring) : Perm :=
  fold_left (add_rule (BucketNamespace bucket)) rules 0.

Definition has (perm bit : Perm) : bool := negb (Z.land perm bit =? 0).

Definition CanRead (rules : list Rule) (bucket : gostring) : bool :=
  has (BucketPerm rules bucket) PermRead.

Definition CanReadAll (rules : list Rule) : bool :=
  existsb (fun r => bool_decide (TrimSpace (BucketPrefix r) = AllBucketsPrefix) &&
                    has (RulePerm r) PermRead) rules.

Definition CanWrite (rules : list Rule) (bucket : gostring) : bool :=
  has (BucketPerm rules bucket) PermWrite.
Definition CanConfigure (rules : list Rule) (bucket : gostring) : bool :=
  has (BucketPerm rules bucket) PermCreateBucket.
Definition CanCreateBucket (rules : list Rule) (bucket : gostring) : bool :=
  CanConfigure rules bucket.
Definition CanDeleteObject (rules : list Rule) (bucket : gostring) : bool :=
  has (BucketPerm rules bucket) PermDeleteObject.
Definition CanDeleteBucket (rules : list Rule) (bucket : gostring) : bool :=
  has (BucketPerm rules bucket) PermDeleteBucket.

(** ** Specification vocabulary *)

(** The five permissions a letter can grant. *)
Definition perm_bits : list Perm :=
  [PermRead; PermWrite; PermCreateBucket; PermDeleteObject; PermDeleteBucket].

(** Group [g] grants [bit] on [bucket]: it parses, its mask has the bit, and it
    names the bucket's namespace or is the global group. *)
Definition grants (g bucket : gostring) (bit : Perm) : Prop :=
  exists prefix perm, ParseGroup g = Some (prefix, perm) /\ has perm bit = true /\
    (prefix = BucketNamespace bucket \/ prefix = AllBucketsPrefix).

(** ** Masks *)

Lemma has_lor a b bit : has (Z.lor a b) bit = has a bit || has b bit.
Proof.
  unfold has. rewrite Z.land_comm, Z.land_lor_distr_r, !(Z.land_comm bit).
  rewrite <- negb_andb. f_equal.
  apply eq_true_iff_eq. rewrite andb_true_iff, !Z.eqb_eq. apply Z.lor_eq_0_iff.
Qed.

Lemma has_0 bit : has 0 bit = false.
Proof. unfold has. by rewrite Z.land_0_l. Qed.

Lemma has_land_read perm bit :
  bit ∈ perm_bits -> has (Z.land perm PermRead) bit = has perm bit && bool_decide (bit = PermRead).
Proof.
  intros Hb. unfold has. rewrite <- Z.land_assoc.
  assert (Hc : bit = PermRead \/ Z.land PermRead bit = 0).
  { unfold perm_bits in Hb. rewrite !elem_of_cons, elem_of_nil in Hb.
    destruct Hb as [->|[->|[->|[->|[->|[]]]]]]; auto. }
  destruct Hc as [->|Hz].
  - rewrite bool_decide_true, andb_true_r by done. by rewrite (Z.land_diag PermRead).
  - rewrite Hz, Z.land_0_r. simpl. case_bool_decide as E; [by subst|]. by rewrite andb_false_r.
Qed.

(** The mask a list of rules gives a namespace: some rule for that namespace
    has the bit, or the bit is read and some global rule has it. *)
Lemma fold_add_rule rules ns acc bit :
  bit ∈ perm_bits ->
  has (fold_left (add_rule ns) rules acc) bit = true <->
  has acc bit = true \/
  exists r, r ∈ rules /\ has (RulePerm r) bit = true /\
    let prefix := ToLower (TrimSpace (BucketPrefix r)) in
    (prefix = AllBucketsPrefix /\ bit = PermRead \/ prefix <> AllBucketsPrefix /\ ns = prefix).
Proof.
  intros Hbit. revert acc. induction rules as [|r rules IH]; intros acc; simpl.
  - set_solver.
  - rewrite IH, exists_cons. unfold add_rule. set (prefix := ToLower _). simpl.
    destruct (decide (prefix = AllBucketsPrefix)) as [E|E].
    + rewrite has_lor, has_land_read, orb_true_iff, andb_true_iff, bool_decide_eq_true by done. tauto.
    + destruct (decide (ns = prefix)) as [E'|E']; [rewrite has_lor, orb_true_iff|]; tauto.
Qed.

(** What [byPrefix] holds after the merge loop. *)
Lemma fold_merge_group gs m bp bit :
  has (default PermNone (fold_left merge_group gs m !! bp)) bit = true <->
  has (default PermNone (m !! bp)) bit = true \/
  exists g, g ∈ gs /\ exists p perm, ParseGroup g = Some (p, perm) /\ ToLower p = bp /\ has perm bit = true.
Proof.
  revert m. induction gs as [|g gs IH]; intros m; simpl; [set_solver|].
  rewrite IH, exists_cons. unfold merge_group. destruct (ParseGroup g) as [[p perm]|].
  - assert (Heq : (exists p0 perm0, Some (p, perm) = Some (p0, perm0) /\ ToLower p0 = bp /\ has perm0 bit = true)
                  <-> ToLower p = bp /\ has perm bit = true).
    { split; [intros (? & ? & [= <- <-] & ?); done | intros ?; by exists p, perm]. }
    rewrite Heq. destruct (decide (ToLower p = bp)) as [<-|Hne].
    + rewrite lookup_insert_eq. simpl. rewrite has_lor, orb_true_iff. tauto.
    + rewrite lookup_insert_ne by done. tauto.
  - assert (~ exists p0 perm0, @None (gostring * Perm) = Some (p0, perm0) /\ ToLower p0 = bp /\ has perm0 bit = true)
      by (by intros (? & ? & ? & _)). tauto.
Qed.

End Authz.

(** ** Parsing group names *)

Section ParseGroupFacts.
Context {U : UnicodeCase}.

(** The successful paths of [ParseGroup]. *)
Lemma ParseGroup_inv g p perm :
  ParseGroup g = Some (p, perm) ->
  (ToLower (TrimSpace g) = AllBucketsReadGroup /\ p = AllBucketsPrefix /\ perm = PermRead) \/
  exists ns letters, ToLower (TrimSpace g) = ns ++ "-"%byte :: letters /\ "-"%byte ∉ ns /\
    p = TrimSpace ns /\ p <> [] /\ p <> AllBucketsPrefix /\
    parse_letters (map fst (runes (TrimSpace letters))) PermNone = Some perm /\ perm <> PermNone.
Proof.
  unfold ParseGroup. destruct (decide _) as [E|E]; [intros [= <- <-]; by left|].
  destruct ((_ <=? _) || _) eqn:Hi; [done|]. apply orb_false_iff in Hi as [Hi _].
  destruct (Index_split (ToLower (TrimSpace g)) "-"%byte) as [Hs Hn]; [b2p; lia|].
  intros H. right. do 2 eexists. split; [exact Hs|]. split; [done|].
  destruct (decide _) as [|Hne] in H; [done|]. destruct (decide _) in H; [done|].
  destruct (parse_letters _ _) as [out|] eqn:Hl; [|done].
  destruct (decide _) in H; [done|]. injection H as [= <- <-]. apply Decidable.not_or in Hne as [? ?]. split_and!; assumption || done.
Qed.

Lemma ParseGroup_normal {UL : UnicodeCaseLaws U} g p perm :
  ParseGroup g = Some (p, perm) -> ToLower p = p /\ TrimSpace p = p.
Proof.
  intros [(_ & -> & _)|(ns & letters & Hg & Hn & -> & _)]%ParseGroup_inv; [done|].
  destruct (lowered_cut (ToLower (TrimSpace g)) "-"%byte ns letters) as [Hns _];
    [apply ToLower_lowered | done..|].
  destruct (lowered_TrimSpace ns Hns) as [Hl Ht]. split; [by apply lowered_ToLower | done].
Qed.

(** Bits of a letter string: exactly those of its letters. *)
Lemma parse_letters_has rs out perm bit :
  parse_letters rs out = Some perm ->
  has perm bit = true <->
  has out bit = true \/ exists ch, ch ∈ rs /\ exists q, letter_perm ch = Some q /\ has q bit = true.
Proof.
  revert out. induction rs as [|ch rs IH]; intros out; simpl.
  - intros [= ->]. set_solver.
  - destruct (letter_perm ch) as [q|] eqn:Hq; [|done]. intros H.
    rewrite (IH _ H), has_lor, orb_true_iff, exists_cons, Hq.
    assert ((exists q0, Some q = Some q0 /\ has q0 bit = true) <-> has q bit = true)
      by (split; [intros (? & [= <-] & ?); done | eauto]). tauto.
Qed.

Lemma parse_letters_total rs out :
  Forall (fun ch => is_Some (letter_perm ch)) rs -> is_Some (parse_letters rs out).
Proof.
  intros H. revert out. induction H as [|ch rs [q Hq] _ IH]; intros out; simpl; [by eexists|].
  rewrite Hq. apply IH.
Qed.

Lemma letter_perm_pos ch q : letter_perm ch = Some q -> has q q = true.
Proof. unfold letter_perm. repeat case_match; intros [= <-]; done. Qed.

(** The reserved wildcard is reachable only through the reserved group: a
    group name parses to the prefix "*" exactly when it is
    "s3gateway-all-r" up to case and surrounding space, and then its mask is
    read alone. *)
Theorem parse_group_wildcard (g : gostring) (perm : Perm) :
  ParseGroup g = Some (AllBucketsPrefix, perm) <->
  ToLower (TrimSpace g) = AllBucketsReadGroup /\ perm = PermRead.
Proof.
  split.
  - intros [(? & _ & ?)|(ns & letters & _ & _ & _ & _ & Hne & _)]%ParseGroup_inv; done.
  - intros [Hg ->]. unfold ParseGroup. by rewrite decide_True.
Qed.

(** A namespace a group can name in its canonical form: ASCII, lower case, no
    hyphen, not the wildcard, no surrounding space. *)
Definition group_namespace (ns : gostring) : Prop :=
  is_ascii ns = true /\ Forall (fun b => lower_byte b = b) ns /\ "-"%byte ∉ ns /\
  trimmed byte_space ns /\ ns <> [] /\ ns <> AllBucketsPrefix.

Definition group_letter (b : byte) : Prop := b ∈ str "rwcdb".

Lemma group_letter_facts b :
  group_letter b -> bz b < 0x80 /\ lower_byte b = b /\ byte_space b = false /\ b <> "-"%byte /\
  is_Some (letter_perm (bz b)).
Proof.
  unfold group_letter. change (str "rwcdb") with ["r"; "w"; "c"; "d"; "b"]%byte.
  rewrite !elem_of_cons, elem_of_nil.
  intros [->|[->|[->|[->|[->|[]]]]]]; vm_compute; naive_solver.
Qed.

(** A non-empty string of letters: ASCII, lower case, trimmed, and parsed. *)
Lemma group_letters_facts letters :
  letters <> [] -> Forall group_letter letters ->
  is_ascii letters = true /\ Forall (fun b => lower_byte b = b) letters /\
  trimmed byte_space letters /\ "-"%byte ∉ letters /\
  exists perm, parse_letters (map bz letters) PermNone = Some perm /\ perm <> PermNone.
Proof.
  intros Hne Hl.
  assert (Hf : Forall (fun b => bz b < 0x80 /\ lower_byte b = b /\ byte_space b = false /\
    b <> "-"%byte /\ is_Some (letter_perm (bz b))) letters)
    by (eapply Forall_impl; [exact Hl | apply group_letter_facts]).
  rewrite Forall_forall in Hf. split_and!.
  - apply forallb_forall. intros b Hb%list_elem_of_In. apply Z.ltb_lt. naive_solver.
  - apply Forall_forall. naive_solver.
  - split; intros x Hx; apply Hf; [by apply head_Some_elem_of | by apply last_Some_elem_of].
  - naive_solver.
  - destruct (parse_letters_total (map bz letters) PermNone) as [perm Hp].
    { rewrite Forall_map. apply Forall_forall. naive_solver. }
    exists perm. split; [done|]. intros ->. destruct letters as [|b l]; [done|].
    destruct (Hf b ltac:(left)) as (_ & _ & _ & _ & q & Hq).
    assert (has PermNone q = true) as H; [|by rewrite has_0 in H].
    apply (parse_letters_has _ _ _ _ Hp). right. exists (bz b). split; [left|].
    exists q. split; [done | by eapply letter_perm_pos].
Qed.

(** The full name is ASCII, lower case and trimmed when its parts are. *)
Lemma group_name_facts ns letters :
  group_namespace ns -> letters <> [] -> Forall group_letter letters ->
  let g := ns ++ "-"%byte :: letters in TrimSpace g = g /\ ToLower g = g.
Proof.
  intros (Ha & Hlow & _ & [Hh _] & Hne & _) Hl Hls g.
  destruct (group_letters_facts letters Hl Hls) as (La & Llow & [_ Ht] & _).
  assert (Hga : is_ascii g = true).
  { unfold g, is_ascii in *. rewrite forallb_app. apply andb_true_iff. split; done. }
  split; [apply TrimSpace_id; [done|] | apply ToLower_id; [done|]].
  - split; intros x; unfold g.
    + destruct ns; [done|]. apply Hh.
    + rewrite last_app, last_cons. destruct (last letters) eqn:E; [|by apply last_None in E].
      intros [= <-]. by apply Ht.
  - apply Forall_app. auto.
Qed.

Lemma letter_perm_bit ch q bit :
  bit ∈ perm_bits -> letter_perm ch = Some q -> has q bit = true -> q = bit.
Proof.
  intros Hbit Hq Hb. unfold letter_perm in Hq. unfold perm_bits in Hbit.
  rewrite !elem_of_cons, elem_of_nil in Hbit.
  repeat case_match; simplify_eq; destruct Hbit as [->|[->|[->|[->|[->|[]]]]]]; done.
Qed.

(** Printing and parsing: the group name "<namespace>-<letters>" of a
    canonical namespace and a non-empty string of the letters r, w, c, d, b
    parses back to that namespace, with a mask that has exactly the
    permissions of its letters. *)
Theorem parse_group_roundtrip (ns letters : gostring) :
  group_namespace ns -> letters <> [] -> Forall group_letter letters ->
  exists perm, ParseGroup (ns ++ str "-" ++ letters) = Some (ns, perm) /\
    forall bit, bit ∈ perm_bits ->
      has perm bit = true <-> exists b, b ∈ letters /\ letter_perm (bz b) = Some bit.
Proof.
  intros Hns Hl Hls. pose proof Hns as (Ha & _ & Hdash & Htr & Hne & Hstar).
  destruct (group_letters_facts letters Hl Hls) as (La & Llow & Ltr & Ldash & perm & Hp & Hpne).
  destruct (group_name_facts ns letters Hns Hl Hls) as [Hgt Hgl].
  exists perm. split.
  - change (ParseGroup (ns ++ "-"%byte :: letters) = Some (ns, perm)). unfold ParseGroup.
    rewrite Hgt, Hgl, decide_False.
    2: { intros Hg. assert (Cut (ns ++ "-"%byte :: letters) "-"%byte = Some (ns, letters)) as H
           by (by apply Cut_app).
         rewrite Hg in H. injection H as <- <-. apply Ldash. vm_compute. set_solver. }
    rewrite Index_app, slice_to_app, slice_from_app, length_app, length_cons by done.
    assert (0 < length ns)%nat by (destruct ns; [done|simpl; lia]).
    assert (0 < length letters)%nat by (destruct letters; [done|simpl; lia]).
    destruct (_ || _) eqn:Hi; [apply orb_true_iff in Hi as [Hi|Hi]; b2p; lia|].
    rewrite (TrimSpace_id ns), (TrimSpace_id letters) by done.
    rewrite decide_False by naive_solver. rewrite decide_False by done.
    rewrite runes_ascii_all, map_map by done.
    change (map _ letters) with (map bz letters). rewrite Hp. by rewrite decide_False.
  - intros bit Hbit. rewrite (parse_letters_has _ _ _ _ Hp), has_0. split.
    + intros [?|(ch & Hch & q & Hq & Hb)]; [done|].
      apply list_elem_of_fmap in Hch as (b & -> & Hb'). exists b. split; [done|].
      by rewrite <- (letter_perm_bit _ _ _ Hbit Hq Hb).
    + intros (b & Hb & Hq). right. exists (bz b). split; [by apply list_elem_of_fmap_2|].
      exists bit. split; [done | by eapply letter_perm_pos].
Qed.
End ParseGroupFacts.

(** ** From groups to permissions *)

Section Permissions.
Context {U : UnicodeCase} {UL : UnicodeCaseLaws U} {MI : MapIter}.

(** A rule that [RulesFromGroups] produces has a normalized prefix: [BucketPerm]
    reads it back unchanged. *)
Lemma RulesFromGroups_elem groups r bit :
  r ∈ RulesFromGroups groups ->
  (has (RulePerm r) bit = true <->
   exists g p perm, g ∈ groups /\ ParseGroup g = Some (p, perm) /\ p = BucketPrefix r /\
     has perm bit = true).
Proof.
  unfold RulesFromGroups. intros Hr. apply list_elem_of_fmap in Hr as ((p & perm) & -> & Hp).
  apply elem_of_map_iter in Hp. simpl.
  pose proof (fold_merge_group (set_iter groups) ∅ p bit) as H.
  rewrite Hp, lookup_empty in H. simpl in H. rewrite H, has_0.
  setoid_rewrite elem_of_set_iter. split.
  - intros [?|(g & Hg & q & perm' & Hq & <- & Hb)]; [done|].
    exists g, q, perm'. split_and!; try done. symmetry. by apply (ParseGroup_normal g q perm').
  - intros (g & q & perm' & Hg & Hq & -> & Hb). right. exists g. split; [done|]. exists p, perm'.
    split_and!; try done. by apply (ParseGroup_normal g p perm').
Qed.

Lemma RulesFromGroups_has_rule groups g p perm :
  g ∈ groups -> ParseGroup g = Some (p, perm) ->
  exists r, r ∈ RulesFromGroups groups /\ BucketPrefix r = p /\
    forall bit, has perm bit = true -> has (RulePerm r) bit = true.
Proof.
  intros Hg Hp. destruct (ParseGroup_normal g p perm Hp) as [Hl _].
  pose proof (fun bit => fold_merge_group (set_iter groups) ∅ p bit) as H.
  destruct (fold_left merge_group (set_iter groups) ∅ !! p) as [pm|] eqn:E.
  - exists {| BucketPrefix := p; RulePerm := pm |}. split_and!; [|done|].
    + unfold RulesFromGroups. apply list_elem_of_fmap. exists (p, pm).
      split; [done|]. by apply elem_of_map_iter.
    + intros bit Hb. simpl. apply H. right. exists g.
      split; [by apply elem_of_set_iter|]. by exists p, perm.
  - exfalso.
    assert (Hne : exists bit, has perm bit = true).
    { apply ParseGroup_inv in Hp as [(_ & _ & ->)|(?&?&_&_&_&_&_&_&Hne)].
      - by exists PermRead.
      - exists perm. unfold has. rewrite Z.land_diag. apply negb_true_iff. b2p. by apply Z.eqb_neq. }
    destruct Hne as [bit Hb]. specialize (H bit). simpl in H. rewrite has_0 in H.
    destruct H as [_ H]. discriminate H. right. exists g.
    split; [by apply elem_of_set_iter|]. by exists p, perm.
Qed.

(** [ToLower (TrimSpace _)] is the identity on the prefix of every rule. *)
Lemma RulesFromGroups_prefix groups r :
  r ∈ RulesFromGroups groups ->
  exists g perm, g ∈ groups /\ ParseGroup g = Some (BucketPrefix r, perm) /\
    ToLower (TrimSpace (BucketPrefix r)) = BucketPrefix r.
Proof.
  intros Hr. unfold RulesFromGroups in Hr.
  apply list_elem_of_fmap in Hr as ((p & pm) & -> & Hp). apply elem_of_map_iter in Hp. simpl.
  assert (Hinv : forall gs m, (forall q, is_Some (m !! q) -> exists g perm, g ∈ set_iter groups /\
      ParseGroup g = Some (q, perm)) -> (forall g, g ∈ gs -> g ∈ set_iter groups) ->
    forall q, is_Some (fold_left merge_group gs m !! q) -> exists g perm, g ∈ set_iter groups /\
      ParseGroup g = Some (q, perm)).
  { induction gs as [|g gs IH]; intros m Hm Hgs q Hq; [by apply Hm|]. simpl in Hq.
    eapply IH, Hq; [|set_solver]. clear q Hq. intros q. unfold merge_group.
    destruct (ParseGroup g) as [[p' perm']|] eqn:E; [|apply Hm].
    rewrite lookup_insert_is_Some. intros [<-|[_ ?]]; [|by apply Hm].
    exists g, perm'. rewrite (proj1 (ParseGroup_normal g p' perm' E)). split; [set_solver|done]. }
  destruct (Hinv (set_iter groups) ∅) with (q := p) as (g & perm & Hg & HP);
    [intros q; by rewrite lookup_empty, is_Some_alt | done | by eexists |].
  destruct (ParseGroup_normal g p perm HP) as [Hl Ht].
  exists g, perm. split_and!; [by apply elem_of_set_iter | done | by rewrite Ht].
Qed.

Lemma BucketPerm_groups groups bucket bit :
  bit ∈ perm_bits ->
  has (BucketPerm (RulesFromGroups groups) bucket) bit = true <->
  exists g, g ∈ groups /\ grants g bucket bit.
Proof.
  intros Hbit. unfold BucketPerm. rewrite fold_add_rule, has_0 by done. split.
  - intros [?|(r & Hr & Hb & Hc)]; [done|].
    destruct (RulesFromGroups_prefix groups r Hr) as (_ & _ & _ & _ & Hn). simpl in Hc.
    rewrite Hn in Hc. apply (RulesFromGroups_elem groups r bit Hr) in Hb
      as (g & p & perm & Hg & Hp & -> & Hb).
    exists g. split; [done|]. exists (BucketPrefix r), perm. naive_solver.
  - intros (g & Hg & p & perm & Hp & Hb & Hc). right.
    destruct (RulesFromGroups_has_rule groups g p perm Hg Hp) as (r & Hr & Hrp & Hrb).
    exists r. split_and!; [done | by apply Hrb |].
    destruct (RulesFromGroups_prefix groups r Hr) as (_ & _ & _ & _ & Hn). simpl. rewrite Hn, Hrp.
    destruct (decide (p = AllBucketsPrefix)) as [->|Hne]; [left|right; naive_solver].
    split; [done|]. apply ParseGroup_inv in Hp as [(_ & _ & ->)|(?&?&_&_&_&_&?&_)]; [|done].
    revert Hb. unfold perm_bits in Hbit. rewrite !elem_of_cons, elem_of_nil in Hbit.
    by destruct Hbit as [->|[->|[->|[->|[->|[]]]]]].
Qed.
End Permissions.

(** ** Order independence *)

Section Order.
Context {U : UnicodeCase}.

Lemma merge_group_comm m g1 g2 : merge_group (merge_group m g1) g2 = merge_group (merge_group m g2) g1.
Proof.
  unfold merge_group. destruct (ParseGroup g1) as [[p1 q1]|], (ParseGroup g2) as [[p2 q2]|]; try done.
  apply map_eq. intros i.
  destruct (decide (ToLower p1 = ToLower p2)) as [->|Hne].
  - rewrite !lookup_insert_eq, !insert_insert_eq. simpl.
    destruct (decide (i = ToLower p2)) as [->|]; [rewrite !lookup_insert_eq | by rewrite !lookup_insert_ne].
    by rewrite <- !Z.lor_assoc, (Z.lor_comm q1).
  - rewrite !(lookup_insert_ne m) by done. by rewrite insert_insert_ne.
Qed.

#[global] Instance BucketPerm_Proper : Proper ((≡ₚ) ==> eq ==> eq) BucketPerm.
Proof.
  intros l1 l2 Hl b ? <-. unfold BucketPerm. apply fold_left_perm; [|done].
  intros a x y. unfold add_rule. repeat case_decide; try done;
    rewrite <- !Z.lor_assoc; f_equal; apply Z.lor_comm.
Qed.

Lemma RulesFromGroups_perm (M1 M2 : MapIter) groups :
  RulesFromGroups (MI := M1) groups ≡ₚ RulesFromGroups (MI := M2) groups.
Proof.
  unfold RulesFromGroups.
  rewrite (fold_left_perm merge_group merge_group_comm _ _ (set_iter_perm M1 M2 groups)).
  f_equiv. by rewrite !map_iter_perm.
Qed.
End Order.

(** A mask of permission bits only: without any of them it is zero. *)
Definition bits_only (perm : Perm) : Prop := (forall bit, bit ∈ perm_bits -> has perm bit = false) -> perm = PermNone.

Lemma has_false a bit : has a bit = false <-> Z.land a bit = 0.
Proof. unfold has. by rewrite negb_false_iff, Z.eqb_eq. Qed.

Lemma bits_only_lor a b : bits_only a -> bits_only b -> bits_only (Z.lor a b).
Proof.
  intros Ha Hb H. rewrite Ha, Hb; [done|..]; intros bit Hbit; specialize (H bit Hbit);
    rewrite has_lor in H; by apply orb_false_iff in H as [? ?].
Qed.

Lemma bits_only_fold {A} (f : Perm -> A -> Perm) l acc :
  (forall perm x, x ∈ l -> bits_only perm -> bits_only (f perm x)) -> bits_only acc -> bits_only (fold_left f l acc).
Proof. revert acc. induction l as [|x l IH]; intros acc Hf Ha; [done|]. simpl. apply IH; set_solver. Qed.

Section BitsOnly.
Context {U : UnicodeCase} {MI : MapIter}.

Lemma parse_letters_bits rs out perm : parse_letters rs out = Some perm -> bits_only out -> bits_only perm.
Proof.
  revert out. induction rs as [|ch rs IH]; intros out; cbn [parse_letters]; [by intros [= ->]|].
  destruct (letter_perm ch) as [q|] eqn:Hq; [|done]. intros H Ho. apply (IH _ H), bits_only_lor; [done|].
  intros Hz. exfalso. assert (Hin : q ∈ perm_bits).
  { unfold letter_perm in Hq. unfold perm_bits. repeat case_match; simplify_eq; set_solver. }
  pose proof (letter_perm_pos ch q Hq). by rewrite Hz in H0.
Qed.

Lemma ParseGroup_bits g p perm : ParseGroup g = Some (p, perm) -> bits_only perm.
Proof.
  intros [(_ & _ & ->)|(? & ? & _ & _ & _ & _ & _ & Hl & _)]%ParseGroup_inv.
  - intros H. assert (has PermRead PermRead = false) by (apply H; unfold perm_bits; set_solver). done.
  - by eapply parse_letters_bits; [exact Hl|].
Qed.

Lemma RulesFromGroups_bits groups r : r ∈ RulesFromGroups groups -> bits_only (RulePerm r).
Proof.
  intros Hr. unfold RulesFromGroups in Hr. apply list_elem_of_fmap in Hr as ((p & perm) & -> & Hp%elem_of_map_iter).
  enough (Hinv : forall gs m, map_Forall (fun _ q => bits_only q) m -> map_Forall (fun _ q => bits_only q) (fold_left merge_group gs m))
    by exact (Hinv (set_iter groups) ∅ (map_Forall_empty _) p perm Hp).
  clear. induction gs as [|g gs IH]; intros m Hm; [done|]. simpl. apply IH. unfold merge_group.
  destruct (ParseGroup g) as [[p perm]|] eqn:Hg; [|done]. apply map_Forall_insert_2; [|done].
  apply bits_only_lor; [|by eapply ParseGroup_bits]. destruct (m !! ToLower p) as [q|] eqn:Hq; [|by intros ?].
  exact (Hm _ _ Hq).
Qed.

(** Some right on a bucket is one of the five permissions. *)
Lemma some_permission groups bucket :
  BucketPerm (RulesFromGroups groups) bucket <> PermNone ->
  exists bit, bit ∈ perm_bits /\ has (BucketPerm (RulesFromGroups groups) bucket) bit = true.
Proof.
  intros Hne. assert (Hb : bits_only (BucketPerm (RulesFromGroups groups) bucket)).
  { apply bits_only_fold; [|by intros ?]. intros perm r Hr Hp. apply RulesFromGroups_bits in Hr. unfold add_rule.
    destruct (decide _); [|destruct (decide _); [by apply bits_only_lor | done]]. apply bits_only_lor; [done|].
    intros H. apply has_false. specialize (H PermRead). rewrite has_land_read in H by (unfold perm_bits; set_solver).
    rewrite bool_decide_true, andb_true_r in H by done. apply H. unfold perm_bits. set_solver. }
  destruct (existsb (has (BucketPerm (RulesFromGroups groups) bucket)) perm_bits) eqn:E.
  - apply existsb_exists in E as (bit & Hin%list_elem_of_In & H). eauto.
  - destruct Hne. apply Hb. intros bit Hin%list_elem_of_In. apply not_true_iff_false. intros H.
    apply not_true_iff_false in E. apply E, existsb_exists. eauto.
Qed.
End BitsOnly.

(** ** Theorems *)

Section Theorems.
Context {U : UnicodeCase} {UL : UnicodeCaseLaws U} {MI : MapIter}.

(** C11. The whole authorization path: a user may perform an operation on a
    bucket exactly when one of the user's groups parses to a mask with the
    operation's letter and either names the bucket's namespace or is the
    reserved global group.  This holds for reads, uploads, configuration and
    bucket creation, object deletion and bucket deletion. *)
Theorem permissions_correct (groups : gset gostring) (bucket : gostring) :
  let rules := RulesFromGroups groups in
  let granted bit := exists g, g ∈ groups /\ grants g bucket bit in
  (CanRead rules bucket = true <-> granted PermRead) /\
  (CanWrite rules bucket = true <-> granted PermWrite) /\
  (CanConfigure rules bucket = true <-> granted PermCreateBucket) /\
  (CanCreateBucket rules bucket = true <-> granted PermCreateBucket) /\
  (CanDeleteObject rules bucket = true <-> granted PermDeleteObject) /\
  (CanDeleteBucket rules bucket = true <-> granted PermDeleteBucket).
Proof.
  simpl. unfold CanRead, CanWrite, CanCreateBucket, CanConfigure, CanDeleteObject, CanDeleteBucket.
  split_and!; apply BucketPerm_groups; unfold perm_bits; set_solver.
Qed.

(** What the reserved group adds: with it every bucket becomes readable,
    and no other permission on any bucket changes. *)
Theorem all_buckets_group_effect (groups : gset gostring) (g bucket : gostring) :
  ToLower (TrimSpace g) = AllBucketsReadGroup ->
  let rules := RulesFromGroups groups in
  let rules' := RulesFromGroups ({[g]} ∪ groups) in
  CanRead rules' bucket = true /\
  CanWrite rules' bucket = CanWrite rules bucket /\
  CanConfigure rules' bucket = CanConfigure rules bucket /\
  CanDeleteObject rules' bucket = CanDeleteObject rules bucket /\
  CanDeleteBucket rules' bucket = CanDeleteBucket rules bucket.
Proof.
  intros Hg. assert (HP : ParseGroup g = Some (AllBucketsPrefix, PermRead)).
  { unfold ParseGroup. by rewrite decide_True. }
  assert (Hother : forall bit, bit ∈ perm_bits -> bit <> PermRead ->
    has (BucketPerm (RulesFromGroups ({[g]} ∪ groups)) bucket) bit =
    has (BucketPerm (RulesFromGroups groups) bucket) bit).
  { intros bit Hbit Hne. apply eq_true_iff_eq. rewrite !BucketPerm_groups by done.
    split; [|set_solver]. intros (g' & [->%elem_of_singleton|Hg']%elem_of_union & Hgr); [|by eauto].
    destruct Hgr as (p & perm & Hp & Hb & _). rewrite HP in Hp. simplify_eq.
    unfold perm_bits in Hbit. rewrite !elem_of_cons, elem_of_nil in Hbit.
    by destruct Hbit as [->|[->|[->|[->|[->|[]]]]]]. }
  simpl. split_and!; try (apply Hother; [unfold perm_bits; set_solver | done]).
  apply BucketPerm_groups; [unfold perm_bits; set_solver|]. exists g. split; [set_solver|].
  exists AllBucketsPrefix, PermRead. auto.
Qed.
End Theorems.

(** Go's map iteration order is irrelevant: whatever orders the two ranges
    of [RulesFromGroups] use, the permission mask of every bucket is the same. *)
Theorem bucket_perm_order_irrelevant (U : UnicodeCase) (M1 M2 : MapIter)
    (groups : gset gostring) (bucket : gostring) :
  BucketPerm (RulesFromGroups (MI := M1) groups) bucket =
  BucketPerm (RulesFromGroups (MI := M2) groups) bucket.
Proof. by rewrite (RulesFromGroups_perm M1 M2). Qed.

(** ** Witnesses *)

Section Witnesses.
#[local] Existing Instance latin1_case.
#[local] Existing Instance canonical_iter.

Lemma parse_group_roundtrip_witness :
  exists perm, ParseGroup (str "team2-rw") = Some (str "team2", perm) /\
    forall bit, bit ∈ perm_bits ->
      has perm bit = true <-> exists b, b ∈ str "rw" /\ letter_perm (bz b) = Some bit.
Proof.
  apply (parse_group_roundtrip (str "team2") (str "rw")); [|done|].
  - unfold group_namespace. split_and!; try done.
    + by repeat constructor.
    + vm_compute. set_solver.
    + split; intros x [= <-]; done.
  - apply (bool_decide_unpack _). by vm_compute.
Defined.

Lemma permissions_correct_witness :
  CanWrite (RulesFromGroups {[str "team2-rw"; str "ops-r"]}) (str "team2-logs") = true <->
  exists g, g ∈ ({[str "team2-rw"; str "ops-r"]} : gset gostring) /\ grants g (str "team2-logs") PermWrite.
Proof.
  apply (permissions_correct {[str "team2-rw"; str "ops-r"]} (str "team2-logs")).
Defined.

Lemma all_buckets_group_effect_witness :
  CanRead (RulesFromGroups ({[str " S3Gateway-All-R "]} ∪ {[str "ops-d"]})) (str "team2-logs") = true /\
  CanWrite (RulesFromGroups ({[str " S3Gateway-All-R "]} ∪ {[str "ops-d"]})) (str "team2-logs") =
  CanWrite (RulesFromGroups {[str "ops-d"]}) (str "team2-logs").
Proof.
  destruct (all_buckets_group_effect {[str "ops-d"]} (str " S3Gateway-All-R ") (str "team2-logs"))
    as (H1 & H2 & _); [by vm_compute|]. by split.
Defined.
End Witnesses.
