(* ===== verification/GroupCache.v ===== *)
(** * The LDAP group cache (src/internal/groupcache/cache.go)

    Two bounded, TTL-bound tables under one lock: successful lookups by UPN,
    hit only by the credential that was stored, and exact rejected credentials
    by their hash.  Every method holds the lock for its whole body, so a
    history of calls is a sequence of the operations below, each with the clock
    reading it takes.  The theorems relate the tables to that history: what a
    hit proves about the past, the capacity bound, the isolation of the two
    tables, and the eviction order. *)

From S2P Require Import Prelude GoStrings Crypto.

(** Instants are nanoseconds; [now.After(t)] is [t < now]. *)
Abbreviation time := Z.

Definition DefaultGroupCacheMaxEntries : Z := 10000.

Record groupCacheEntry := {
  groups : gset gostring;
  credentialHash : gostring;
  expires : time;
  lastSeen : time
}.

Record Cache := {
  data : gmap gostring groupCacheEntry;
  rejectedCredentials : gmap gostring time;
  ttl : Z;
  maxEntries : Z
}.

Definition set_data (d : gmap gostring groupCacheEntry) (c : Cache) : Cache :=
  {| data := d; rejectedCredentials := rejectedCredentials c; ttl := ttl c; maxEntries := maxEntries c |}.
Definition set_rejected (r : gmap gostring time) (c : Cache) : Cache :=
  {| data := data c; rejectedCredentials := r; ttl := ttl c; maxEntries := maxEntries c |}.

Definition New (ttl0 maxEntries0 : Z) : Cache :=
  {| data := ∅; rejectedCredentials := ∅; ttl := ttl0;
     maxEntries := if maxEntries0 <=? 0 then DefaultGroupCacheMaxEntries else maxEntries0 |}.

Definition Len (c : Cache) : Z := Z.of_nat (size (data c)).

Definition cacheCredentialHash (upn password : gostring) : gostring :=
  sha256 (upn ++ [x00] ++ password).

Definition SingleflightCredentialKey (upn password : gostring) : gostring :=
  hex_encode (cacheCredentialHash upn password).

(** A copy of a set of groups, as a value, is the set. *)
Definition CloneGroups (g : gset gostring) : gset gostring := g.

Definition touch (now : time) (e : groupCacheEntry) : groupCacheEntry :=
  {| groups := groups e; credentialHash := credentialHash e; expires := expires e; lastSeen := now |}.

Definition Get (c : Cache) (now : time) (upn password : gostring) : Cache * option (gset gostring) :=
  match data c !! upn with
  | None => (c, None)
  | Some e =>
    if expires e <? now then (set_data (delete upn (data c)) c, None)
    else
      let wantHash := cacheCredentialHash upn password in
      if negb (bool_decide (credentialHash e = wantHash)) then (c, None)
      else (set_data (<[upn := touch now e]> (data c)) c, Some (CloneGroups (groups e)))
  end.

Definition Rejected (c : Cache) (now : time) (upn password : gostring) : Cache * bool :=
  let h := cacheCredentialHash upn password in
  match rejectedCredentials c !! h with
  | None => (c, false)
  | Some exp =>
    if exp <? now then (set_rejected (delete h (rejectedCredentials c)) c, false) else (c, true)
  end.

Section Operations.
Context {MI : MapIter}.

Definition evictExpiredRejectedLocked (now : time) (m : gmap gostring time) : gmap gostring time :=
  fold_left (fun m' he => if he.2 <? now then delete he.1 m' else m') (map_iter m) m.

(** The loop body that keeps the rejection with the earliest expiry. *)
Definition older_rejected (victim : option (gostring * time)) (he : gostring * time)
    : option (gostring * time) :=
  match victim with
  | None => Some he
  | Some v => if he.2 <? v.2 then Some he else victim
  end.

Definition evictOldestRejectedLocked (m : gmap gostring time) : gmap gostring time :=
  match fold_left older_rejected (map_iter m) None with
  | None => m
  | Some v => delete v.1 m
  end.

(** [for len(m) >= max { evict }]; [fuel] bounds the iterations. *)
Fixpoint evict_while {V} (fuel : nat) (max : Z) (evict : gmap gostring V -> gmap gostring V)
    (m : gmap gostring V) : gmap gostring V :=
  match fuel with
  | O => m
  | S f => if max <=? Z.of_nat (size m) then evict_while f max evict (evict m) else m
  end.

Definition Reject (c : Cache) (now : time) (upn password : gostring) : Cache :=
  let h := cacheCredentialHash upn password in
  let m := evictExpiredRejectedLocked now (rejectedCredentials c) in
  let m := match m !! h with
           | Some _ => m
           | None => evict_while (S (size m)) (maxEntries c) evictOldestRejectedLocked m
           end in
  set_rejected (<[h := now + ttl c]> m) c.

Definition evictExpiredLocked (now : time) (m : gmap gostring groupCacheEntry)
    : gmap gostring groupCacheEntry :=
  fold_left (fun m' ue => if expires ue.2 <? now then delete ue.1 m' else m') (map_iter m) m.

(** The loop body that keeps the entry with the earliest expiry, and among
    those the one used least recently. *)
Definition older_entry (victim : option (gostring * groupCacheEntry))
    (ue : gostring * groupCacheEntry) : option (gostring * groupCacheEntry) :=
  match victim with
  | None => Some ue
  | Some v =>
    if expires ue.2 <? expires v.2 then Some ue
    else if (expires ue.2 =? expires v.2) && (lastSeen ue.2 <? lastSeen v.2) then Some ue
    else victim
  end.

Definition evictOneOldestLocked (m : gmap gostring groupCacheEntry) : gmap gostring groupCacheEntry :=
  match fold_left older_entry (map_iter m) None with
  | None => m
  | Some v => delete v.1 m
  end.

Definition Set_ (c : Cache) (now : time) (upn password : gostring) (g : gset gostring) : Cache :=
  let m := evictExpiredLocked now (data c) in
  let m := match m !! upn with
           | Some _ => m
           | None => evict_while (S (size m)) (maxEntries c) evictOneOldestLocked m
           end in
  let h := cacheCredentialHash upn password in
  {| data := <[upn := {| groups := CloneGroups g; credentialHash := h;
                         expires := now + ttl c; lastSeen := now |}]> m;
     rejectedCredentials := delete h (rejectedCredentials c);
     ttl := ttl c; maxEntries := maxEntries c |}.

(** ** Histories *)

Inductive op :=
| OpGet (now : time) (upn password : gostring)
| OpRejected (now : time) (upn password : gostring)
| OpReject (now : time) (upn password : gostring)
| OpSet (now : time) (upn password : gostring) (g : gset gostring).

Definition step (c : Cache) (o : op) : Cache :=
  match o with
  | OpGet now upn pw => (Get c now upn pw).1
  | OpRejected now upn pw => (Rejected c now upn pw).1
  | OpReject now upn pw => Reject c now upn pw
  | OpSet now upn pw g => Set_ c now upn pw g
  end.

Definition run (c : Cache) (h : list op) : Cache := fold_left step h c.

(** The contract, read off the history alone: the last store for a UPN ... *)
Definition stored (s : gmap gostring (time * gostring * gset gostring)) (o : op) :=
  match o with
  | OpSet now upn pw g => <[upn := (now, cacheCredentialHash upn pw, g)]> s
  | _ => s
  end.
Definition last_set (h : list op) : gmap gostring (time * gostring * gset gostring) :=
  fold_left stored h ∅.

(** ... and the last rejection of a credential that no store has lifted since. *)
Definition noted (s : gmap gostring time) (o : op) :=
  match o with
  | OpReject now upn pw => <[cacheCredentialHash upn pw := now]> s
  | OpSet now upn pw _ => delete (cacheCredentialHash upn pw) s
  | _ => s
  end.
Definition last_reject (h : list op) : gmap gostring time := fold_left noted h ∅.
End Operations.

(** ** Lemmas on the loops *)

Section Loops.
Context {MI : MapIter} {V : Type}.
Implicit Types (m : gmap gostring V).

(** Deleting the entries of an iteration that satisfy [p]. *)
Lemma fold_delete_lookup (p : gostring * V -> bool) l m k :
  fold_left (fun m' kv => if p kv then delete kv.1 m' else m') l m !! k =
  if existsb (fun kv => bool_decide (kv.1 = k) && p kv) l then None else m !! k.
Proof.
  revert m. induction l as [|kv l IH]; intros m; simpl; [done|]. rewrite IH.
  destruct (existsb _ l); [by rewrite orb_true_r|]. rewrite orb_false_r.
  case_bool_decide as E; destruct (p kv); simpl; try done.
  - subst. apply lookup_delete_eq.
  - by apply lookup_delete_ne.
Qed.

Lemma evict_expired_lookup (p : gostring * V -> bool) m k :
  fold_left (fun m' kv => if p kv then delete kv.1 m' else m') (map_iter m) m !! k =
  match m !! k with
  | Some v => if p (k, v) then None else Some v
  | None => None
  end.
Proof.
  rewrite fold_delete_lookup. destruct (existsb _ _) eqn:E.
  - apply existsb_exists in E as ((k' & v) & Hin%list_elem_of_In & H).
    apply elem_of_map_iter in Hin. apply andb_true_iff in H as [Hk Hp].
    apply bool_decide_eq_true in Hk. simpl in Hk. subst. by rewrite Hin, Hp.
  - destruct (m !! k) as [v|] eqn:Hk; [|done]. destruct (p (k, v)) eqn:Hp; [|done].
    rewrite <- not_true_iff_false in E. destruct E. apply existsb_exists.
    exists (k, v). split; [by apply list_elem_of_In, elem_of_map_iter|].
    by rewrite bool_decide_true, Hp.
Qed.

(** Keeping the better of two candidates over a list: the result is an element
    that no other element beats. *)
Lemma fold_best {A} (better : A -> A -> bool) (l : list A) :
  (forall x y z, better x y = true -> better y z = true -> better x z = true) ->
  (forall x y z, better x z = true -> better y z = false -> better x y = true) ->
  (forall x, better x x = false) ->
  let keep best x := match best with
                     | None => Some x
                     | Some b => if better x b then Some x else best
                     end in
  forall best, match fold_left keep l best with
  | None => best = None /\ l = []
  | Some b => (best = Some b \/ b ∈ l) /\ (forall x, best = Some x -> better x b = false) /\
              (forall x, x ∈ l -> better x b = false)
  end.
Proof.
  intros Htr Hneg Hirr keep. induction l as [|y l IH]; intros best; simpl.
  - destruct best as [b|]; [|done]. split_and!; [by left | naive_solver | set_solver].
  - specialize (IH (keep best y)). destruct (fold_left keep l (keep best y)) as [b|].
    2: { destruct IH as [IH _]. unfold keep in IH. by destruct best as [b'|]; [destruct (better y b')|]. }
    destruct IH as (Hb & Hbest & Hall). unfold keep in Hb, Hbest.
    destruct best as [b'|]; [destruct (better y b') eqn:E|].
    + split_and!; [set_solver | | set_solver]. intros x [= <-].
      destruct (better b' b) eqn:E'; [|done]. specialize (Hbest y eq_refl).
      by rewrite (Htr _ _ _ E E') in Hbest.
    + split_and!; [set_solver | naive_solver |]. intros x [->|Hx]%elem_of_cons; [|by apply Hall].
      destruct (better y b) eqn:E'; [|done]. specialize (Hbest b' eq_refl).
      by rewrite (Hneg _ _ _ E' Hbest) in E.
    + split_and!; [set_solver | done |]. intros x [->|Hx]%elem_of_cons; [naive_solver | by apply Hall].
Qed.

(** The eviction loop ends below the limit, having only removed entries. *)
Lemma evict_while_spec (evict : gmap gostring V -> gmap gostring V) max :
  0 < max ->
  (forall m, evict m ⊆ m) ->
  (forall m, m <> ∅ -> (size (evict m) < size m)%nat) ->
  forall fuel m, (size m < fuel)%nat ->
    evict_while fuel max evict m ⊆ m /\ Z.of_nat (size (evict_while fuel max evict m)) < max.
Proof.
  intros Hmax Hsub Hdec. induction fuel as [|f IH]; intros m Hf; [lia|]. simpl.
  destruct (Z.leb_spec max (Z.of_nat (size m))); [|split; [done|lia]].
  assert (m <> ∅) as Hne by (intros ->; rewrite map_size_empty in *; lia).
  destruct (IH (evict m)) as [H1 H2]; [specialize (Hdec m Hne); lia|].
  split; [by etrans | done].
Qed.

Lemma delete_lt m k : is_Some (m !! k) -> (size (delete k m) < size m)%nat.
Proof.
  intros Hk. rewrite map_size_delete.
  assert (size m <> 0)%nat by (intros ->%map_size_empty_inv; destruct Hk as [? Hk]; by rewrite lookup_empty in Hk).
  destruct Hk as [v ->]. simpl. lia.
Qed.
End Loops.

Section Evict.
Context {MI : MapIter}.

Definition entry_older (x y : gostring * groupCacheEntry) : bool :=
  (expires x.2 <? expires y.2) ||
  (expires x.2 =? expires y.2) && (lastSeen x.2 <? lastSeen y.2).

Lemma older_entry_best m :
  match fold_left older_entry (map_iter m) None with
  | None => m = ∅
  | Some v => m !! v.1 = Some v.2 /\ forall k e, m !! k = Some e -> entry_older (k, e) v = false
  end.
Proof.
  pose proof (fold_best entry_older (map_iter m)) as H.
  assert (Hkeep : forall l b, fold_left older_entry l b = fold_left (fun best x =>
    match best with None => Some x | Some b => if entry_older x b then Some x else best end) l b).
  { induction l as [|x l IH]; intros b; [done|]. simpl. rewrite IH. f_equal.
    destruct b as [b|]; [|done]. unfold older_entry, entry_older.
    destruct (expires x.2 <? expires b.2); [done|]. simpl. by destruct (_ && _). }
  rewrite Hkeep. specialize (H ltac:(unfold entry_older; intros; lia) ltac:(unfold entry_older; intros; lia)
    ltac:(unfold entry_older; intros; lia) None). simpl in H.
  destruct (fold_left _ _ None) as [[k e]|].
  - destruct H as ([?|Hin] & _ & Hall); [done|]. apply elem_of_map_iter in Hin.
    split; [done|]. intros k' e' Hk. by apply Hall, elem_of_map_iter.
  - destruct H as [_ H]. apply map_eq. intros k. rewrite lookup_empty.
    destruct (m !! k) eqn:E; [|done]. apply elem_of_map_iter in E. rewrite H in E. set_solver.
Qed.

Lemma older_rejected_best m :
  match fold_left older_rejected (map_iter m) None with
  | None => m = ∅
  | Some v => m !! v.1 = Some v.2 /\ forall k e, m !! k = Some e -> v.2 <= e
  end.
Proof.
  pose proof (fold_best (fun x y : gostring * time => x.2 <? y.2) (map_iter m)
    ltac:(cbv beta; intros; lia) ltac:(cbv beta; intros; lia) ltac:(cbv beta; intros; lia) None) as H.
  change (fold_left _ (map_iter m) None) with (fold_left older_rejected (map_iter m) None) in H.
  destruct (fold_left older_rejected (map_iter m) None) as [[k e]|].
  - destruct H as ([?|Hin] & _ & Hall); [done|]. apply elem_of_map_iter in Hin.
    split; [done|]. intros k' e' Hk%elem_of_map_iter%Hall. by apply Z.ltb_ge in Hk.
  - destruct H as [_ H]. apply map_eq. intros k. rewrite lookup_empty.
    destruct (m !! k) eqn:E; [|done]. apply elem_of_map_iter in E. rewrite H in E. set_solver.
Qed.

Lemma evictOneOldest_facts m :
  evictOneOldestLocked m ⊆ m /\ (m <> ∅ -> (size (evictOneOldestLocked m) < size m)%nat).
Proof.
  unfold evictOneOldestLocked. pose proof (older_entry_best m) as H.
  destruct (fold_left _ _ _) as [v|]; [|by subst].
  split; [apply delete_subseteq | intros _; apply delete_lt; naive_solver].
Qed.

Lemma evictOldestRejected_facts m :
  evictOldestRejectedLocked m ⊆ m /\ (m <> ∅ -> (size (evictOldestRejectedLocked m) < size m)%nat).
Proof.
  unfold evictOldestRejectedLocked. pose proof (older_rejected_best m) as H.
  destruct (fold_left _ _ _) as [v|]; [|by subst].
  split; [apply delete_subseteq | intros _; apply delete_lt; naive_solver].
Qed.

Lemma evictExpired_lookup now m k :
  evictExpiredLocked now m !! k =
  match m !! k with Some e => if expires e <? now then None else Some e | None => None end.
Proof.
  apply (evict_expired_lookup (fun ue => expires ue.2 <? now)).
Qed.

Lemma evictExpiredRejected_lookup now m k :
  evictExpiredRejectedLocked now m !! k =
  match m !! k with Some exp => if exp <? now then None else Some exp | None => None end.
Proof. apply (evict_expired_lookup (fun he => he.2 <? now)). Qed.

Lemma evictExpired_subseteq now m : evictExpiredLocked now m ⊆ m.
Proof.
  apply map_subseteq_spec. intros k e. rewrite evictExpired_lookup.
  destruct (m !! k); [case_match; naive_solver | done].
Qed.

Lemma evictExpiredRejected_subseteq now m : evictExpiredRejectedLocked now m ⊆ m.
Proof.
  apply map_subseteq_spec. intros k e. rewrite evictExpiredRejected_lookup.
  destruct (m !! k); [case_match; naive_solver | done].
Qed.
End Evict.

(** ** What one operation does to the tables *)

Section Facts.
Context {MI : MapIter}.

(** The data table a store starts from: a part of the old one, below capacity
    unless the UPN is already in it. *)
Lemma Set_data c now upn pw g :
  0 < maxEntries c ->
  exists m, data (Set_ c now upn pw g) =
    <[upn := {| groups := g; credentialHash := cacheCredentialHash upn pw;
                expires := now + ttl c; lastSeen := now |}]> m /\
    m ⊆ data c /\ (is_Some (m !! upn) \/ Z.of_nat (size m) < maxEntries c).
Proof.
  intros Hmax. unfold Set_. simpl. eexists. split; [done|].
  pose proof (evictExpired_subseteq now (data c)) as Hsub.
  set (m := evictExpiredLocked now (data c)) in *. destruct (m !! upn) eqn:E.
  - split; [done | left; by eexists].
  - destruct (evict_while_spec evictOneOldestLocked (maxEntries c) Hmax
      (fun m => proj1 (evictOneOldest_facts m)) (fun m => proj2 (evictOneOldest_facts m)) (S (size m)) m)
      as [H1 H2]; [lia|]. split; [by etrans | by right].
Qed.

Lemma Reject_rejected c now upn pw :
  0 < maxEntries c ->
  exists m, rejectedCredentials (Reject c now upn pw) = <[cacheCredentialHash upn pw := now + ttl c]> m /\
    m ⊆ rejectedCredentials c /\
    (is_Some (m !! cacheCredentialHash upn pw) \/ Z.of_nat (size m) < maxEntries c).
Proof.
  intros Hmax. unfold Reject. simpl. eexists. split; [done|].
  pose proof (evictExpiredRejected_subseteq now (rejectedCredentials c)) as Hsub.
  set (m := evictExpiredRejectedLocked now (rejectedCredentials c)) in *.
  destruct (m !! cacheCredentialHash upn pw) eqn:E.
  - split; [done | left; by eexists].
  - destruct (evict_while_spec evictOldestRejectedLocked (maxEntries c) Hmax
      (fun m => proj1 (evictOldestRejected_facts m)) (fun m => proj2 (evictOldestRejected_facts m))
      (S (size m)) m) as [H1 H2]; [lia|]. split; [by etrans | by right].
Qed.

Lemma size_insert_bound {V} (m m' : gmap gostring V) k v max :
  m ⊆ m' -> Z.of_nat (size m') <= max -> is_Some (m !! k) \/ Z.of_nat (size m) < max ->
  Z.of_nat (size (<[k := v]> m)) <= max.
Proof.
  intros Hsub Hm H. apply map_subseteq_size in Hsub. rewrite map_size_insert.
  destruct H as [[w Hw]|H]; [rewrite Hw; simpl; lia|]. destruct (m !! k); simpl; lia.
Qed.

(** The link between the tables and the history that produced them. *)
Record consistent (h : list op) (c : Cache) : Prop := {
  inv_data : forall upn e, data c !! upn = Some e ->
    exists t, last_set h !! upn = Some (t, credentialHash e, groups e) /\ expires e = t + ttl c;
  inv_rejected : forall k exp, rejectedCredentials c !! k = Some exp ->
    exists t, last_reject h !! k = Some t /\ exp = t + ttl c;
  inv_size : Z.of_nat (size (data c)) <= maxEntries c;
  inv_rejected_size : Z.of_nat (size (rejectedCredentials c)) <= maxEntries c;
  inv_max : 0 < maxEntries c
}.

Lemma consistent_New ttl0 max0 : consistent [] (New ttl0 max0).
Proof.
  unfold New. split; simpl; try (intros ??; by rewrite lookup_empty).
  all: rewrite ?map_size_empty; unfold DefaultGroupCacheMaxEntries; destruct (Z.leb_spec max0 0); lia.
Qed.

(** A step that only removes entries, or touches them, keeps the link. *)
Lemma consistent_shrink h o c d r :
  consistent h c -> last_set (h ++ [o]) = last_set h -> last_reject (h ++ [o]) = last_reject h ->
  (forall upn e, d !! upn = Some e -> exists e', data c !! upn = Some e' /\ groups e = groups e' /\
     credentialHash e = credentialHash e' /\ expires e = expires e') ->
  (size d <= size (data c))%nat -> r ⊆ rejectedCredentials c ->
  consistent (h ++ [o]) {| data := d; rejectedCredentials := r; ttl := ttl c; maxEntries := maxEntries c |}.
Proof.
  intros [Hd Hr Hs Hrs Hm] Hls Hlr Hdata Hsize Hrej. split; simpl; rewrite ?Hls, ?Hlr; try lia.
  - intros upn e He. destruct (Hdata upn e He) as (e' & He' & -> & -> & ->). by apply Hd.
  - intros k exp Hk. eapply Hr, lookup_weaken; eauto.
  - apply map_subseteq_size in Hrej. lia.
Qed.

Lemma consistent_step h o c : consistent h c -> consistent (h ++ [o]) (step c o).
Proof.
  intros Hc. pose proof Hc as [Hd Hr Hs Hrs Hm].
  assert (Hls : last_set (h ++ [o]) = stored (last_set h) o)
    by (unfold last_set; by rewrite fold_left_app).
  assert (Hlr : last_reject (h ++ [o]) = noted (last_reject h) o)
    by (unfold last_reject; by rewrite fold_left_app).
  destruct o as [now upn pw|now upn pw|now upn pw|now upn pw g]; simpl in *.
  - (* Get *)
    assert (Hsame : consistent (h ++ [OpGet now upn pw]) c).
    { destruct c. apply (consistent_shrink h _ _ _ _ Hc); simpl; naive_solver. }
    unfold Get. destruct (data c !! upn) as [e|] eqn:E; [|done].
    destruct (expires e <? now); [|destruct (negb _); [done|]]; simpl.
    + apply (consistent_shrink h _ _ _ _ Hc Hls Hlr); [|by apply map_subseteq_size, delete_subseteq|done].
      intros u e'. rewrite lookup_delete_Some. naive_solver.
    + apply (consistent_shrink h _ _ _ _ Hc Hls Hlr); [|by rewrite map_size_insert, E|done].
      intros u e'. rewrite lookup_insert_Some. naive_solver.
  - (* Rejected *)
    unfold Rejected. destruct (rejectedCredentials c !! _) as [exp|]; [destruct (exp <? now)|]; simpl.
    all: destruct c; apply (consistent_shrink h _ _ _ _ Hc); simpl;
      first [done | apply delete_subseteq | naive_solver].
  - (* Reject *)
    destruct (Reject_rejected c now upn pw Hm) as (m & Heq & Hsub & Hsz).
    split; rewrite ?Heq; rewrite ?Hls, ?Hlr; simpl; try done.
    + intros k exp. rewrite !lookup_insert_Some. intros [[<- <-]|[Hne Hk]].
      * exists now. rewrite lookup_insert_eq. done.
      * destruct (Hr k exp) as (t & Ht & ->); [by eapply lookup_weaken|].
        exists t. by rewrite lookup_insert_ne.
    + by eapply size_insert_bound.
  - (* Set *)
    destruct (Set_data c now upn pw g Hm) as (m & Heq & Hsub & Hsz).
    split; rewrite ?Heq; rewrite ?Hls, ?Hlr; simpl; try done.
    + intros u e. rewrite !lookup_insert_Some. intros [[<- <-]|[Hne Hk]].
      * exists now. rewrite lookup_insert_eq. done.
      * destruct (Hd u e) as (t & Ht & ->); [by eapply lookup_weaken|].
        exists t. by rewrite lookup_insert_ne.
    + intros k exp. rewrite lookup_delete_Some. intros [Hne Hk].
      destruct (Hr k exp Hk) as (t & Ht & ->). exists t. by rewrite lookup_delete_ne.
    + by eapply size_insert_bound.
    + etrans; [|exact Hrs]. apply Nat2Z.inj_le, map_subseteq_size, delete_subseteq.
Qed.

Lemma consistent_run h ttl0 max0 : consistent h (run (New ttl0 max0) h).
Proof.
  induction h as [|o h IH] using rev_ind; [apply consistent_New|].
  unfold run in *. rewrite fold_left_app. by apply consistent_step.
Qed.

Lemma ttl_run h c : ttl (run c h) = ttl c.
Proof.
  unfold run. revert c. induction h as [|o h IH]; intros c; [done|]. simpl. rewrite IH.
  destruct o; simpl; [unfold Get|unfold Rejected|done|done]; repeat case_match; done.
Qed.
End Facts.

(** ** Theorems *)

Section CacheTheorems.
Context {MI : MapIter}.

(** C12. A hit is always justified by the history: after any sequence of calls on
    a fresh cache, [Get] returns groups only if the last store for that UPN
    stored exactly these groups for a credential with the same hash, no longer
    ago than the TTL. *)
Theorem get_sound (ttl0 max0 : Z) (h : list op) (now : time) (upn pw : gostring) (g : gset gostring) :
  (Get (run (New ttl0 max0) h) now upn pw).2 = Some g ->
  exists t, last_set h !! upn = Some (t, cacheCredentialHash upn pw, g) /\ now <= t + ttl0.
Proof.
  pose proof (consistent_run h ttl0 max0) as [Hd _ _ _ _].
  unfold Get. destruct (data _ !! upn) as [e|] eqn:E; [|done].
  destruct (Z.ltb_spec (expires e) now) as [|Hexp]; [done|].
  destruct (negb _) eqn:Hh; [done|]. intros [= <-]. b2p.
  destruct (Hd upn e E) as (t & Ht & He). rewrite ttl_run in He. simpl in He.
  exists t. by rewrite Ht, Hh, <- He.
Qed.

(** A cached rejection is always justified by the history: [Rejected] answers
    yes only for a credential hash whose last rejection is no older than the TTL
    and has not been lifted by a later successful store of that credential. *)
Theorem rejected_sound (ttl0 max0 : Z) (h : list op) (now : time) (upn pw : gostring) :
  (Rejected (run (New ttl0 max0) h) now upn pw).2 = true ->
  exists t, last_reject h !! cacheCredentialHash upn pw = Some t /\ now <= t + ttl0.
Proof.
  pose proof (consistent_run h ttl0 max0) as [_ Hr _ _ _].
  unfold Rejected. destruct (rejectedCredentials _ !! _) as [exp|] eqn:E; [|done].
  destruct (Z.ltb_spec exp now) as [|Hexp]; [done|]. intros _.
  destruct (Hr _ exp E) as (t & Ht & He). rewrite ttl_run in He. simpl in He. exists t. by rewrite <- He.
Qed.

(** Capacity: after any history both tables hold at most [MaxEntries]
    entries, which is the requested bound, or the default when it is not
    positive; in particular every eviction loop terminates. *)
Theorem cache_bounded (ttl0 max0 : Z) (h : list op) :
  let c := run (New ttl0 max0) h in
  let bound := if max0 <=? 0 then DefaultGroupCacheMaxEntries else max0 in
  Len c <= bound /\ Z.of_nat (size (rejectedCredentials c)) <= bound.
Proof.
  simpl. pose proof (consistent_run h ttl0 max0) as [_ _ Hs Hrs _].
  assert (Hmax : maxEntries (run (New ttl0 max0) h) = maxEntries (New ttl0 max0)).
  { generalize (New ttl0 max0). clear. unfold run. induction h as [|o h IH]; intros c; [done|].
    simpl. rewrite IH. destruct o; simpl; [unfold Get|unfold Rejected|done|done]; repeat case_match; done. }
  rewrite Hmax in *. done.
Qed.

(** Store then look up: a stored entry is returned to the same credential
    until its TTL has passed, any password with another hash misses, and the
    credential is not reported as rejected. *)
Theorem set_then_get (c : Cache) (now now' : time) (upn pw : gostring) (g : gset gostring) :
  now' <= now + ttl c ->
  let c' := Set_ c now upn pw g in
  (Get c' now' upn pw).2 = Some g /\
  (forall pw', cacheCredentialHash upn pw' <> cacheCredentialHash upn pw -> (Get c' now' upn pw').2 = None) /\
  (Rejected c' now' upn pw).2 = false.
Proof.
  intros Hnow c'. unfold c', Get, Rejected, Set_. simpl. rewrite lookup_insert_eq, lookup_delete_eq. simpl.
  replace (now + ttl c <? now') with false by lia. split_and!; [|intros pw' Hne|done].
  - by rewrite bool_decide_true.
  - by rewrite bool_decide_false.
Qed.

(** The entries of a table that are still live at [now]. *)
Definition live (now : time) (m : gmap gostring groupCacheEntry) : gmap gostring groupCacheEntry :=
  filter (fun ke => now <= expires ke.2) m.

Lemma evictExpired_live now m : evictExpiredLocked now m = live now m.
Proof.
  apply map_eq. intros k. rewrite evictExpired_lookup. unfold live. rewrite map_lookup_filter.
  destruct (m !! k) as [e|]; [|done]. simpl.
  destruct (Z.ltb_spec (expires e) now); [rewrite option_guard_False | rewrite option_guard_True]; simpl; done || lia.
Qed.

(** Who can displace a cached user: recording and consulting rejections
    leave the table of successful lookups unchanged; a store drops a live entry
    of another user only when the live entries already fill the cache and the
    stored UPN is not one of them. *)
Theorem live_entries_protected (c : Cache) (now : time) (upn pw : gostring) (g : gset gostring) :
  data (Reject c now upn pw) = data c /\
  data (Rejected c now upn pw).1 = data c /\
  forall k e, k <> upn -> live now (data c) !! k = Some e ->
    data (Set_ c now upn pw g) !! k = Some e \/
    (live now (data c) !! upn = None /\ maxEntries c <= Z.of_nat (size (live now (data c)))).
Proof.
  split_and!; [done | unfold Rejected; by repeat case_match |].
  intros k e Hne He. unfold Set_. simpl. rewrite lookup_insert_ne, evictExpired_live by done.
  destruct (live now (data c) !! upn); [by left|]. simpl.
  destruct (Z.leb_spec (maxEntries c) (Z.of_nat (size (live now (data c))))); [by right | by left].
Qed.

(** Eviction order: when the table of successful lookups must make room,
    the entry removed is one that no other entry precedes by expiry, and among
    equal expiries one that was not used earlier. *)
Theorem eviction_picks_oldest (m : gmap gostring groupCacheEntry) :
  m <> ∅ ->
  exists k e, m !! k = Some e /\ evictOneOldestLocked m = delete k m /\
    forall k' e', m !! k' = Some e' ->
      expires e < expires e' \/ (expires e = expires e' /\ lastSeen e <= lastSeen e').
Proof.
  intros Hne. unfold evictOneOldestLocked. pose proof (older_entry_best m) as H.
  destruct (fold_left _ _ _) as [[k e]|]; [|done]. destruct H as [Hk Hall].
  exists k, e. split_and!; [done..|]. intros k' e' He. specialize (Hall k' e' He).
  unfold entry_older in Hall. simpl in Hall. lia.
Qed.
End CacheTheorems.

(** The separator in the hashed string is not escaped: two different credential
    pairs can have one hash, when a UPN or a password contains a NUL octet. *)
Lemma credential_hash_ambiguous (a b c : gostring) :
  cacheCredentialHash (a ++ [x00] ++ b) c = cacheCredentialHash a (b ++ [x00] ++ c).
Proof. unfold cacheCredentialHash. by rewrite <- !app_assoc. Qed.

(** ** Witnesses *)

Section CacheWitnesses.
#[local] Existing Instance canonical_iter.

Definition sample_groups : gset gostring := {[str "team2-rw"]}.
Definition sample_history : list op :=
  [OpSet 10 (str "ann") (str "pw") sample_groups; OpReject 20 (str "bob") (str "x")].

Lemma get_sound_witness :
  exists t, last_set sample_history !! str "ann" =
    Some (t, cacheCredentialHash (str "ann") (str "pw"), sample_groups) /\ 50 <= t + 100.
Proof. apply (get_sound 100 5 sample_history 50). apply (bool_decide_unpack _). by vm_compute. Defined.

Lemma rejected_sound_witness :
  exists t, last_reject sample_history !! cacheCredentialHash (str "bob") (str "x") = Some t /\ 50 <= t + 100.
Proof. apply (rejected_sound 100 5 sample_history 50). by vm_compute. Defined.

Lemma set_then_get_witness :
  (Get (Set_ (New 100 5) 10 (str "ann") (str "pw") sample_groups) 60 (str "ann") (str "pw")).2 =
  Some sample_groups.
Proof. apply (set_then_get (New 100 5) 10 60 (str "ann") (str "pw") sample_groups). simpl. lia. Defined.

Lemma eviction_picks_oldest_witness :
  exists k e, data (run (New 100 5) sample_history) !! k = Some e /\
    evictOneOldestLocked (data (run (New 100 5) sample_history)) =
      delete k (data (run (New 100 5) sample_history)).
Proof.
  destruct (eviction_picks_oldest (data (run (New 100 5) sample_history))) as (k & e & H1 & H2 & _).
  - intros H. apply (f_equal size) in H. by vm_compute in H.
  - exists k, e. split; [exact H1 | exact H2].
Defined.
End CacheWitnesses.
