(* ===== verification/Limiter.v ===== *)
(** * Authentication admission control (src/internal/authn/limiter.go)

    Token buckets with concurrency counters: two global pools (shared and
    reserved), a bounded LRU of per-client and per-principal states, an ingress
    limiter, and a bounded LRU of credentials that authenticated recently.  All
    methods run under one lock, so executions are sequences of operations.

    The pointers matter: the release function that [TryAcquire] returns keeps
    the [*keyedState] objects it acquired, which the LRU may meanwhile have
    dropped.  The keyed limiter therefore has an object heap, and the map, the
    LRU list and the outstanding leases refer to objects by address.

    Token counts are [float64] in the code.  Their arithmetic is the class
    [Float64]: everything about concurrency, eviction and trust is proved for
    any such arithmetic, and the rate bound for exact rationals. *)

From S2P Require Import Prelude GoStrings Crypto.
From Stdlib Require Import QArith Qminmax Lqa Floats.SpecFloat.

#[local] Open Scope Z_scope.

(** ** Floating point, as an interface *)

Class Float64 := {
  fl : Type;
  f_of_int : Z -> fl;
  f_add : fl -> fl -> fl;
  f_sub : fl -> fl -> fl;
  f_mul : fl -> fl -> fl;
  f_div : fl -> fl -> fl;
  f_lt : fl -> fl -> bool;
  f_le : fl -> fl -> bool;
  f_min : fl -> fl -> fl
}.

(** IEEE 754 binary64 with rounding to nearest, by the Standard Library's
    executable specification. *)
Definition ieee_double : Float64 := {|
  fl := spec_float;
  f_of_int z := binary_normalize 53 1024 z 0 false;
  f_add := SFadd 53 1024;
  f_sub := SFsub 53 1024;
  f_mul := SFmul 53 1024;
  f_div := SFdiv 53 1024;
  f_lt := SFltb;
  f_le := SFleb;
  f_min x y := match x, y with
               | S754_nan, _ | _, S754_nan => S754_nan
               | _, _ => if SFltb x y then x else y
               end
|}.

(** Exact arithmetic. *)
Definition exact_rational : Float64 := {|
  fl := Q;
  f_of_int := inject_Z;
  f_add := Qplus;
  f_sub := Qminus;
  f_mul := Qmult;
  f_div := Qdiv;
  f_lt x y := negb (Qle_bool y x);
  f_le := Qle_bool;
  f_min := Qmin
|}.

Section WithFloat.
Context {FL : Float64}.

(** [Duration.Seconds]. *)
Definition seconds (d : Z) : fl :=
  f_add (f_of_int (Z.quot d 1000000000))
        (f_div (f_of_int (Z.rem d 1000000000)) (f_of_int 1000000000)).

(** ** Limits *)

Record Limits := {
  MaxConcurrent : Z; RatePerSecond : Z; Burst : Z;
  ReservedConcurrent : Z; ReservedRatePerSecond : Z; ReservedBurst : Z;
  PerClientMaxConcurrent : Z; PerClientRatePerSecond : Z; PerClientBurst : Z;
  PerPrincipalMaxConcurrent : Z; PerPrincipalRatePerSecond : Z; PerPrincipalBurst : Z;
  IngressPerClientRatePerSecond : Z; IngressPerClientBurst : Z;
  MaxKeys : Z; TrustedCredentialTTL : Z
}.

Definition atLeastOne (value : Z) : Z := if value <=? 0 then 1 else value.
Definition clampReserve (value total : Z) : Z :=
  if value <=? 0 then 0 else if total <=? value then total - 1 else value.

Definition normalizeLimits (l : Limits) : Limits :=
  let maxC := atLeastOne (MaxConcurrent l) in
  let rate := atLeastOne (RatePerSecond l) in
  let burst := atLeastOne (Burst l) in
  let reservePossible := (1 <? maxC) && (1 <? rate) && (1 <? burst) in
  let rc := clampReserve (ReservedConcurrent l) maxC in
  let rr := clampReserve (ReservedRatePerSecond l) rate in
  let rb := clampReserve (ReservedBurst l) burst in
  let keep := reservePossible && negb ((rc =? 0) || (rr =? 0) || (rb =? 0)) in
  {| MaxConcurrent := maxC; RatePerSecond := rate; Burst := burst;
     ReservedConcurrent := if keep then rc else 0;
     ReservedRatePerSecond := if keep then rr else 0;
     ReservedBurst := if keep then rb else 0;
     PerClientMaxConcurrent := atLeastOne (PerClientMaxConcurrent l);
     PerClientRatePerSecond := atLeastOne (PerClientRatePerSecond l);
     PerClientBurst := atLeastOne (PerClientBurst l);
     PerPrincipalMaxConcurrent := atLeastOne (PerPrincipalMaxConcurrent l);
     PerPrincipalRatePerSecond := atLeastOne (PerPrincipalRatePerSecond l);
     PerPrincipalBurst := atLeastOne (PerPrincipalBurst l);
     IngressPerClientRatePerSecond := atLeastOne (IngressPerClientRatePerSecond l);
     IngressPerClientBurst := atLeastOne (IngressPerClientBurst l);
     MaxKeys := atLeastOne (MaxKeys l);
     TrustedCredentialTTL :=
       if TrustedCredentialTTL l <=? 0 then 60 * 1000000000 else TrustedCredentialTTL l |}.

(** ** Attempts: opaque digests of client, principal and credential *)

Record Attempt := { clientKey : gostring; principalKey : gostring; credentialKey : gostring }.

(** The octets [limiterDigest] feeds the hash: each part behind its 64-bit length. *)
Definition digest_input (parts : list gostring) : gostring :=
  concat (map (fun part => be_bytes 8 (Z.of_nat (length part)) ++ part) parts).
Definition limiterDigest (parts : list gostring) : gostring := sha256 (digest_input parts).

Definition NewAttempt {U : UnicodeCase} (clientIP principal password : gostring) : Attempt :=
  let principal := ToLower (TrimSpace principal) in
  {| clientKey := limiterDigest [str "client"; TrimSpace clientIP];
     principalKey := limiterDigest [str "principal"; principal];
     credentialKey := limiterDigest [str "credential"; principal; password] |}.

(** ** Token buckets *)

Record tokenBucket := { tokens : fl; lastRefill : instant }.

Definition refill (b : tokenBucket) (now : instant) (tokensPerSecond burst : fl) : tokenBucket :=
  if lastRefill b =? 0 then {| tokens := burst; lastRefill := now |}
  else
    let elapsed := time_sub now (lastRefill b) in
    if 0 <? elapsed then
      let t := f_add (tokens b) (f_mul (seconds elapsed) tokensPerSecond) in
      {| tokens := if f_lt burst t then burst else t; lastRefill := now |}
    else b.

Definition spend (b : tokenBucket) : tokenBucket :=
  {| tokens := f_sub (tokens b) (f_of_int 1); lastRefill := lastRefill b |}.

Definition new_bucket : tokenBucket := {| tokens := f_of_int 0; lastRefill := 0 |}.

(** ** Global pools *)

Record resourcePool := {
  rp_maxConcurrent : Z; rp_inFlight : Z; rp_rate : fl; rp_burst : fl; rp_bucket : tokenBucket
}.

Definition newResourcePool (maxConcurrent ratePerSecond burst : Z) : resourcePool :=
  {| rp_maxConcurrent := maxConcurrent; rp_inFlight := 0; rp_rate := f_of_int ratePerSecond;
     rp_burst := f_of_int burst; rp_bucket := new_bucket |}.

Definition rp_with (p : resourcePool) (inFlight : Z) (b : tokenBucket) : resourcePool :=
  {| rp_maxConcurrent := rp_maxConcurrent p; rp_inFlight := inFlight; rp_rate := rp_rate p;
     rp_burst := rp_burst p; rp_bucket := b |}.

Definition pool_available (p : resourcePool) (now : instant) : resourcePool * bool :=
  if (rp_maxConcurrent p <=? 0) || f_le (rp_rate p) (f_of_int 0) || f_le (rp_burst p) (f_of_int 0)
  then (p, false)
  else
    let b := refill (rp_bucket p) now (rp_rate p) (rp_burst p) in
    (rp_with p (rp_inFlight p) b,
     (rp_inFlight p <? rp_maxConcurrent p) && f_le (f_of_int 1) (tokens b)).

Definition pool_acquire (p : resourcePool) : resourcePool :=
  rp_with p (rp_inFlight p + 1) (spend (rp_bucket p)).

Definition pool_release (p : resourcePool) : resourcePool :=
  if 0 <? rp_inFlight p then rp_with p (rp_inFlight p - 1) (rp_bucket p) else p.

(** ** Keyed limiters *)

Abbreviation addr := nat.

Record keyedState := { ks_key : gostring; ks_inFlight : Z; ks_bucket : tokenBucket }.

Record keyedLimiter := {
  kl_heap : gmap addr keyedState;         (* every state object ever allocated *)
  kl_next : addr;                         (* allocation frontier *)
  kl_states : gmap gostring addr;         (* states *)
  kl_lru : list addr;                     (* lru, front first *)
  kl_maxEntries : Z; kl_maxConcurrent : Z; kl_rate : fl; kl_burst : fl
}.

Definition newKeyedLimiter (maxEntries maxConcurrent ratePerSecond burst : Z) : keyedLimiter :=
  {| kl_heap := ∅; kl_next := 0; kl_states := ∅; kl_lru := [];
     kl_maxEntries := maxEntries; kl_maxConcurrent := maxConcurrent;
     kl_rate := f_of_int ratePerSecond; kl_burst := f_of_int burst |}.

Definition kl_with (l : keyedLimiter) (heap : gmap addr keyedState) (states : gmap gostring addr)
    (lru : list addr) : keyedLimiter :=
  {| kl_heap := heap; kl_next := kl_next l; kl_states := states; kl_lru := lru;
     kl_maxEntries := kl_maxEntries l; kl_maxConcurrent := kl_maxConcurrent l;
     kl_rate := kl_rate l; kl_burst := kl_burst l |}.

Definition kl_alloc (l : keyedLimiter) (s : keyedState) : keyedLimiter :=
  {| kl_heap := <[kl_next l := s]> (kl_heap l); kl_next := S (kl_next l);
     kl_states := <[ks_key s := kl_next l]> (kl_states l); kl_lru := kl_next l :: kl_lru l;
     kl_maxEntries := kl_maxEntries l; kl_maxConcurrent := kl_maxConcurrent l;
     kl_rate := kl_rate l; kl_burst := kl_burst l |}.

(** [list.Remove] and [list.MoveToFront] on a list of distinct elements. *)
Definition lru_remove (x : addr) (lru : list addr) : list addr := filter (fun y => y <> x) lru.
Definition lru_front (x : addr) (lru : list addr) : list addr := x :: lru_remove x lru.

Definition ks_idle (heap : gmap addr keyedState) (x : addr) : bool :=
  match heap !! x with
  | Some s => ks_inFlight s =? 0
  | None => false
  end.

(** The scan from the back of the LRU for an entry without work in flight. *)
Definition lru_victim (l : keyedLimiter) : option addr :=
  List.find (ks_idle (kl_heap l)) (reverse (kl_lru l)).

(** [for len(l.states) >= l.maxEntries { ... }]: [None] is the [return nil]
    inside it, with the limiter as it is then. *)
Fixpoint kl_make_room (fuel : nat) (l : keyedLimiter) : keyedLimiter * bool :=
  if kl_maxEntries l <=? Z.of_nat (size (kl_states l)) then
    match fuel with
    | O => (l, false)
    | S f =>
      match lru_victim l with
      | None => (l, false)
      | Some v =>
        match kl_heap l !! v with
        | None => (l, false)
        | Some s =>
          kl_make_room f (kl_with l (kl_heap l) (delete (ks_key s) (kl_states l)) (lru_remove v (kl_lru l)))
        end
      end
    end
  else (l, true).

Definition kl_state (l : keyedLimiter) (key : gostring) : keyedLimiter * option addr :=
  match kl_states l !! key with
  | Some x => (kl_with l (kl_heap l) (kl_states l) (lru_front x (kl_lru l)), Some x)
  | None =>
    let '(l', room) := kl_make_room (S (size (kl_states l))) l in
    if room then
      (kl_alloc l' {| ks_key := key; ks_inFlight := 0; ks_bucket := new_bucket |}, Some (kl_next l'))
    else (l', None)
  end.

(** Updating one object through its pointer. *)
Definition kl_update (l : keyedLimiter) (x : addr) (f : keyedState -> keyedState) : keyedLimiter :=
  kl_with l (alter f x (kl_heap l)) (kl_states l) (kl_lru l).

Definition ks_set_bucket (b : tokenBucket) (s : keyedState) : keyedState :=
  {| ks_key := ks_key s; ks_inFlight := ks_inFlight s; ks_bucket := b |}.

Definition kl_available (l : keyedLimiter) (state : option addr) (now : instant) : keyedLimiter * bool :=
  match (x ← state; s ← kl_heap l !! x; Some (x, s)) with
  | None => (l, false)
  | Some (x, s) =>
    if (kl_maxConcurrent l <=? 0) || f_le (kl_rate l) (f_of_int 0) || f_le (kl_burst l) (f_of_int 0)
    then (l, false)
    else
      let b := refill (ks_bucket s) now (kl_rate l) (kl_burst l) in
      (kl_update l x (ks_set_bucket b),
       (ks_inFlight s <? kl_maxConcurrent l) && f_le (f_of_int 1) (tokens b))
  end.

Definition kl_acquire (l : keyedLimiter) (x : addr) : keyedLimiter :=
  kl_update l x (fun s => {| ks_key := ks_key s; ks_inFlight := ks_inFlight s + 1;
                             ks_bucket := spend (ks_bucket s) |}).

Definition kl_release (l : keyedLimiter) (x : addr) : keyedLimiter :=
  kl_update l x (fun s => if 0 <? ks_inFlight s
                          then {| ks_key := ks_key s; ks_inFlight := ks_inFlight s - 1;
                                  ks_bucket := ks_bucket s |}
                          else s).

Definition kl_allow (l : keyedLimiter) (key : gostring) (now : instant) : keyedLimiter * bool :=
  let '(l, state) := kl_state l key in
  let '(l, ok) := kl_available l state now in
  match state with
  | Some x => if ok then (kl_release (kl_acquire l x) x, true) else (l, false)
  | None => (l, false)
  end.

Definition kl_refund (l : keyedLimiter) (key : gostring) (now : instant) : keyedLimiter :=
  let '(l, state) := kl_state l key in
  match state with
  | None => l
  | Some x =>
    kl_update l x (fun s =>
      let b := refill (ks_bucket s) now (kl_rate l) (kl_burst l) in
      ks_set_bucket {| tokens := f_min (f_add (tokens b) (f_of_int 1)) (kl_burst l);
                       lastRefill := lastRefill b |} s)
  end.

(** ** The limiter *)

Record Limiter := {
  sharedPool : resourcePool; reservedPool : resourcePool;
  clients : keyedLimiter; principals : keyedLimiter; ingress : keyedLimiter;
  trustedCredentialTTL : Z;
  trustedCredentials : gmap gostring instant;   (* the expiry of each credential *)
  trustedLRU : list gostring;                   (* front first *)
  maxKeys : Z
}.

Definition NewLimiter (limits0 : Limits) : Limiter :=
  let limits := normalizeLimits limits0 in
  {| sharedPool := newResourcePool (MaxConcurrent limits - ReservedConcurrent limits)
       (RatePerSecond limits - ReservedRatePerSecond limits) (Burst limits - ReservedBurst limits);
     reservedPool := newResourcePool (ReservedConcurrent limits) (ReservedRatePerSecond limits)
       (ReservedBurst limits);
     clients := newKeyedLimiter (MaxKeys limits) (PerClientMaxConcurrent limits)
       (PerClientRatePerSecond limits) (PerClientBurst limits);
     principals := newKeyedLimiter (MaxKeys limits) (PerPrincipalMaxConcurrent limits)
       (PerPrincipalRatePerSecond limits) (PerPrincipalBurst limits);
     ingress := newKeyedLimiter (MaxKeys limits) 1 (IngressPerClientRatePerSecond limits)
       (IngressPerClientBurst limits);
     trustedCredentialTTL := TrustedCredentialTTL limits;
     trustedCredentials := ∅; trustedLRU := []; maxKeys := MaxKeys limits |}.

Definition with_keyed (l : Limiter) (c p i : keyedLimiter) : Limiter :=
  {| sharedPool := sharedPool l; reservedPool := reservedPool l; clients := c; principals := p;
     ingress := i; trustedCredentialTTL := trustedCredentialTTL l;
     trustedCredentials := trustedCredentials l; trustedLRU := trustedLRU l; maxKeys := maxKeys l |}.
Definition with_pools (l : Limiter) (s r : resourcePool) : Limiter :=
  {| sharedPool := s; reservedPool := r; clients := clients l; principals := principals l;
     ingress := ingress l; trustedCredentialTTL := trustedCredentialTTL l;
     trustedCredentials := trustedCredentials l; trustedLRU := trustedLRU l; maxKeys := maxKeys l |}.
Definition with_trusted (l : Limiter) (t : gmap gostring instant) (lru : list gostring) : Limiter :=
  {| sharedPool := sharedPool l; reservedPool := reservedPool l; clients := clients l;
     principals := principals l; ingress := ingress l;
     trustedCredentialTTL := trustedCredentialTTL l;
     trustedCredentials := t; trustedLRU := lru; maxKeys := maxKeys l |}.

(** The ingress digest of a client address; a nil limiter admits everything. *)
Definition ingress_key (clientIP : gostring) : gostring :=
  limiterDigest [str "client"; TrimSpace clientIP].

Definition AllowIngress (ol : option Limiter) (now : instant) (clientIP : gostring)
    : option Limiter * bool :=
  match ol with
  | None => (None, true)
  | Some l =>
    let '(i, ok) := kl_allow (ingress l) (ingress_key clientIP) now in
    (Some (with_keyed l (clients l) (principals l) i), ok)
  end.

Definition RefundIngress (ol : option Limiter) (now : instant) (clientIP : gostring) : option Limiter :=
  match ol with
  | None => None
  | Some l =>
    Some (with_keyed l (clients l) (principals l) (kl_refund (ingress l) (ingress_key clientIP) now))
  end.

Definition trusted_remove (k : gostring) (lru : list gostring) : list gostring :=
  filter (fun y => y <> k) lru.

Definition isTrustedLocked (l : Limiter) (key : gostring) (now : instant) : Limiter * bool :=
  match trustedCredentials l !! key with
  | None => (l, false)
  | Some exp =>
    if exp <? now
    then (with_trusted l (delete key (trustedCredentials l)) (trusted_remove key (trustedLRU l)), false)
    else (with_trusted l (trustedCredentials l) (key :: trusted_remove key (trustedLRU l)), true)
  end.

(** What the release function returned by [TryAcquire] captured. *)
Record Lease := { lease_client : addr; lease_principal : addr; lease_reserved : bool }.

(** The pools' part of [TryAcquire], once both keyed limiters admit. *)
Definition acquire_pools (l : Limiter) (now : instant) (a : Attempt) (c p : addr)
    : Limiter * option Lease :=
  let grant (l : Limiter) (s r : resourcePool) (reserved : bool) :=
    (with_pools (with_keyed l (kl_acquire (clients l) c) (kl_acquire (principals l) p) (ingress l)) s r,
     Some {| lease_client := c; lease_principal := p; lease_reserved := reserved |}) in
  let '(s, oks) := pool_available (sharedPool l) now in
  if oks then grant l (pool_acquire s) (reservedPool l) false
  else
    let l := with_pools l s (reservedPool l) in
    let '(l, trusted) := isTrustedLocked l (credentialKey a) now in
    if negb trusted then (l, None)
    else
      let '(r, okr) := pool_available (reservedPool l) now in
      if okr then grant l (sharedPool l) (pool_acquire r) true
      else (with_pools l (sharedPool l) r, None).

(** [None] in the second component is [ErrLimited]. *)
Definition TryAcquire (l : Limiter) (now : instant) (a : Attempt) : Limiter * option Lease :=
  let '(cl, client) := kl_state (clients l) (clientKey a) in
  let '(pl, principal) := kl_state (principals l) (principalKey a) in
  let '(cl, okc) := kl_available cl client now in
  let '(pl, okp) := if okc then kl_available pl principal now else (pl, false) in
  let l := with_keyed l cl pl (ingress l) in
  match client, principal with
  | Some c, Some p =>
    if okc && okp then acquire_pools l now a c p
    else (l, None)
  | _, _ => (l, None)
  end.

(** The body of the release function, which [sync.OnceFunc] runs at most once. *)
Definition release_lease (l : Limiter) (le : Lease) : Limiter :=
  let l := with_keyed l (kl_release (clients l) (lease_client le))
             (kl_release (principals l) (lease_principal le)) (ingress l) in
  if lease_reserved le then with_pools l (sharedPool l) (pool_release (reservedPool l))
  else with_pools l (pool_release (sharedPool l)) (reservedPool l).

(** The eviction loop of [MarkAuthenticated]; [false] is its early return when
    the LRU list is empty, with the limiter as it is then. *)
Fixpoint trusted_make_room (fuel : nat) (l : Limiter) : Limiter * bool :=
  if maxKeys l <=? Z.of_nat (size (trustedCredentials l)) then
    match fuel with
    | O => (l, false)
    | S f =>
      match last (trustedLRU l) with
      | None => (l, false)
      | Some k =>
        trusted_make_room f
          (with_trusted l (delete k (trustedCredentials l)) (trusted_remove k (trustedLRU l)))
      end
    end
  else (l, true).

Definition MarkAuthenticated (l : Limiter) (now : instant) (a : Attempt) : Limiter :=
  let key := credentialKey a in
  let exp := now + trustedCredentialTTL l in
  match trustedCredentials l !! key with
  | Some _ =>
    with_trusted l (<[key := exp]> (trustedCredentials l)) (key :: trusted_remove key (trustedLRU l))
  | None =>
    match trusted_make_room (S (size (trustedCredentials l))) l with
    | (l, false) => l
    | (l, true) => with_trusted l (<[key := exp]> (trustedCredentials l)) (key :: trustedLRU l)
    end
  end.

(** ** The limiter with its outstanding leases

    Each successful [TryAcquire] hands out a release function, recorded here
    with the attempt it was granted to; a release that has already run does
    nothing. *)

Record Sys := { sys_lim : Limiter; sys_leases : gmap nat (Attempt * Lease); sys_next : nat }.

Inductive event :=
| EvAllowIngress (now : instant) (clientIP : gostring)
| EvRefundIngress (now : instant) (clientIP : gostring)
| EvTryAcquire (now : instant) (a : Attempt)
| EvRelease (n : nat)
| EvMarkAuthenticated (now : instant) (a : Attempt).

Definition sys_init (limits : Limits) : Sys :=
  {| sys_lim := NewLimiter limits; sys_leases := ∅; sys_next := 0 |}.

Definition sys_step (s : Sys) (e : event) : Sys :=
  let set_lim l := {| sys_lim := l; sys_leases := sys_leases s; sys_next := sys_next s |} in
  match e with
  | EvAllowIngress now ip => set_lim (default (sys_lim s) (AllowIngress (Some (sys_lim s)) now ip).1)
  | EvRefundIngress now ip => set_lim (default (sys_lim s) (RefundIngress (Some (sys_lim s)) now ip))
  | EvMarkAuthenticated now a => set_lim (MarkAuthenticated (sys_lim s) now a)
  | EvTryAcquire now a =>
    match TryAcquire (sys_lim s) now a with
    | (l, None) => set_lim l
    | (l, Some le) =>
      {| sys_lim := l; sys_leases := <[sys_next s := (a, le)]> (sys_leases s);
         sys_next := S (sys_next s) |}
    end
  | EvRelease n =>
    match sys_leases s !! n with
    | None => s
    | Some (_, le) =>
      {| sys_lim := release_lease (sys_lim s) le; sys_leases := delete n (sys_leases s);
         sys_next := sys_next s |}
    end
  end.

Definition sys_run (limits : Limits) (es : list event) : Sys := fold_left sys_step es (sys_init limits).

(** The number of outstanding leases that satisfy a test. *)
Definition held (leases : gmap nat (Attempt * Lease)) (p : Attempt * Lease -> bool) : Z :=
  Z.of_nat (size (filter (fun kv => p kv.2 = true) leases)).

(** ** Keyed limiters: the invariant

    [c x] is the number of outstanding uses of object [x].  The map and the LRU
    list name the same objects, an object in use is always among them, and its
    counter is the number of its uses. *)

Record kl_inv (l : keyedLimiter) (c : addr -> Z) : Prop := {
  ki_states : forall k x, kl_states l !! k = Some x ->
    exists s, kl_heap l !! x = Some s /\ ks_key s = k /\ x ∈ kl_lru l;
  ki_lru : forall x, x ∈ kl_lru l -> exists s, kl_heap l !! x = Some s /\ kl_states l !! ks_key s = Some x;
  ki_nodup : NoDup (kl_lru l);
  ki_next : forall x, is_Some (kl_heap l !! x) -> (x < kl_next l)%nat;
  ki_count : forall x s, kl_heap l !! x = Some s -> ks_inFlight s = c x /\ c x <= kl_maxConcurrent l;
  ki_used : forall x, 0 < c x -> x ∈ kl_lru l;
  ki_nonneg : forall x, 0 <= c x;
  ki_size : Z.of_nat (size (kl_states l)) <= kl_maxEntries l
}.

Lemma elem_of_lru_front x y lru : x ∈ lru -> y ∈ lru_front x lru <-> y ∈ lru.
Proof.
  intros Hx. unfold lru_front, lru_remove. rewrite elem_of_cons, list_elem_of_filter.
  destruct (decide (y = x)); naive_solver.
Qed.

Lemma NoDup_lru_front x lru : NoDup lru -> NoDup (lru_front x lru).
Proof.
  intros H. unfold lru_front, lru_remove. constructor; [rewrite list_elem_of_filter; naive_solver|].
  by apply NoDup_filter.
Qed.

(** Changing an object through its pointer keeps the structure; only its
    counter needs an argument. *)
Lemma kl_inv_update l c x f c' :
  kl_inv l c ->
  (forall s, ks_key (f s) = ks_key s) ->
  (forall y, y <> x -> c' y = c y) ->
  (forall s, kl_heap l !! x = Some s -> ks_inFlight (f s) = c' x /\ 0 <= c' x <= kl_maxConcurrent l) ->
  x ∈ kl_lru l ->
  kl_inv (kl_update l x f) c'.
Proof.
  intros [Hs Hl Hnd Hn Hc Hu Hp Hz] Hf Hy Hx Hin.
  destruct (Hl x Hin) as (sx & Hsx & Hkx).
  assert (Hheap : forall y s, alter f x (kl_heap l) !! y = Some s ->
    exists s0, kl_heap l !! y = Some s0 /\ s = (if decide (x = y) then f s0 else s0)).
  { intros y s. rewrite lookup_alter. destruct (decide (x = y)) as [->|]; [|naive_solver].
    intros (s0 & ? & ->)%fmap_Some. eauto. }
  assert (Hkeep : forall y s0, kl_heap l !! y = Some s0 ->
    exists s, alter f x (kl_heap l) !! y = Some s /\ ks_key s = ks_key s0).
  { intros y s0 Hy0. rewrite lookup_alter. destruct (decide (x = y)) as [->|]; [|eauto].
    rewrite Hy0. simpl. eauto. }
  split; simpl; try done.
  - intros k y (s & Hys & <- & Hyl)%Hs. destruct (Hkeep y s Hys) as (s' & -> & Hk). eauto.
  - intros y (s & Hys & Hk)%Hl. destruct (Hkeep y s Hys) as (s' & -> & Hk'). rewrite <- Hk' in Hk. eauto.
  - intros y [s (s0 & H0 & _)%Hheap]. apply Hn. eauto.
  - intros y s (s0 & H0 & ->)%Hheap. destruct (decide (x = y)) as [<-|Hne].
    + destruct (Hx s0 H0). lia.
    + rewrite Hy by done. by apply Hc.
  - intros y. destruct (decide (y = x)) as [->|]; [done|]. rewrite Hy by done. apply Hu.
  - intros y. destruct (decide (y = x)) as [->|]; [|rewrite Hy by done; apply Hp].
    destruct (Hx sx Hsx). lia.
Qed.

Lemma kl_inv_evict l c v s :
  kl_inv l c -> v ∈ kl_lru l -> kl_heap l !! v = Some s -> ks_inFlight s = 0 ->
  kl_inv (kl_with l (kl_heap l) (delete (ks_key s) (kl_states l)) (lru_remove v (kl_lru l))) c.
Proof.
  intros [Hs Hl Hnd Hn Hc Hu Hp Hz] Hv Hvs Hidle.
  destruct (Hl v Hv) as (s' & Hs' & Hkv). rewrite Hvs in Hs'. injection Hs' as <-.
  split; simpl; try done.
  - intros k x. rewrite lookup_delete_Some. intros [Hne (s' & H1 & <- & H2)%Hs].
    exists s'. split_and!; [done..|]. unfold lru_remove. apply list_elem_of_filter.
    split; [|done]. intros ->. rewrite Hvs in H1. congruence.
  - intros x. unfold lru_remove. rewrite list_elem_of_filter. intros [Hne (s' & H1 & H2)%Hl].
    exists s'. split; [done|]. rewrite lookup_delete_ne; [done|]. intros Heq. apply Hne.
    rewrite Heq in Hkv. congruence.
  - by apply NoDup_filter.
  - intros x Hx. unfold lru_remove. apply list_elem_of_filter. split; [|by apply Hu].
    intros ->. destruct (Hc v s Hvs). lia.
  - etrans; [|exact Hz]. apply Nat2Z.inj_le, map_subseteq_size, delete_subseteq.
Qed.

Lemma lru_victim_spec l v :
  lru_victim l = Some v -> v ∈ kl_lru l /\ exists s, kl_heap l !! v = Some s /\ ks_inFlight s = 0.
Proof.
  unfold lru_victim. intros [Hin Hp]%List.find_some.
  rewrite <- list_elem_of_In, elem_of_reverse in Hin. split; [done|].
  unfold ks_idle in Hp. destruct (kl_heap l !! v) as [s|]; [|done]. exists s. b2p. done.
Qed.

(** The loop that makes room keeps the invariant and the heap, ends below the
    limit when it reports room, and reports none only when every entry is in
    use. *)
Lemma kl_make_room_spec fuel l c :
  kl_inv l c -> (size (kl_states l) < fuel)%nat -> 0 < kl_maxEntries l ->
  let '(l', room) := kl_make_room fuel l in
  kl_inv l' c /\ kl_states l' ⊆ kl_states l /\ kl_heap l' = kl_heap l /\ kl_next l' = kl_next l /\
  kl_maxConcurrent l' = kl_maxConcurrent l /\ kl_maxEntries l' = kl_maxEntries l /\
  (forall x, x ∈ kl_lru l' -> x ∈ kl_lru l) /\
  (room = true -> Z.of_nat (size (kl_states l')) < kl_maxEntries l) /\
  (room = false -> forall x, x ∈ kl_lru l' -> 0 < c x).
Proof.
  revert l. induction fuel as [|f IH]; intros l Hinv Hf Hmax; [lia|]. cbn [kl_make_room].
  destruct (Z.leb_spec (kl_maxEntries l) (Z.of_nat (size (kl_states l)))) as [Hfull|Hroom].
  2: { split_and!; try done; lia. }
  destruct (lru_victim l) as [v|] eqn:Hv.
  - apply lru_victim_spec in Hv as (Hin & s & Hs & Hidle). rewrite Hs.
    pose proof (kl_inv_evict l c v s Hinv Hin Hs Hidle) as Hinv'.
    destruct (ki_lru l c Hinv v Hin) as (s' & Hs' & Hkv). rewrite Hs in Hs'. injection Hs' as <-.
    set (l1 := kl_with _ _ _ _) in *. specialize (IH l1 Hinv').
    assert (Hsz : (size (kl_states l1) < f)%nat).
    { simpl. rewrite map_size_delete, Hkv. simpl.
      assert (size (kl_states l) <> 0)%nat; [|lia]. intros H0%map_size_empty_inv.
      by rewrite H0, lookup_empty in Hkv. }
    specialize (IH Hsz Hmax). destruct (kl_make_room f l1) as [l' room].
    destruct IH as (H1 & H2 & H3 & H4 & H5 & H6 & H7 & H8 & H9). split_and!; try done.
    + etrans; [exact H2|]. apply delete_subseteq.
    + intros x Hx%H7. simpl in Hx. unfold lru_remove in Hx. by apply list_elem_of_filter in Hx as [_ ?].
  - split_and!; try done. intros _ x Hx.
    unfold lru_victim in Hv. assert (Hn : ks_idle (kl_heap l) x = false).
    { eapply List.find_none; [exact Hv|]. apply list_elem_of_In. by apply elem_of_reverse. }
    unfold ks_idle in Hn. destruct (ki_lru l c Hinv x Hx) as (s & Hs & _). rewrite Hs in Hn.
    destruct (ki_count l c Hinv x s Hs) as [Hc _]. pose proof (ki_nonneg l c Hinv x). b2p. lia.
Qed.

(** The settings of a keyed limiter never change. *)
Definition same_limits (l l' : keyedLimiter) : Prop :=
  kl_maxConcurrent l' = kl_maxConcurrent l /\ kl_maxEntries l' = kl_maxEntries l.

Lemma kl_inv_front l c x :
  kl_inv l c -> x ∈ kl_lru l -> kl_inv (kl_with l (kl_heap l) (kl_states l) (lru_front x (kl_lru l))) c.
Proof.
  intros [Hs Hl Hnd Hn Hc Hu Hp Hz] Hx. split; simpl; try done.
  - intros k y (s & ? & ? & ?)%Hs. exists s. by rewrite elem_of_lru_front.
  - intros y. rewrite elem_of_lru_front by done. apply Hl.
  - by apply NoDup_lru_front.
  - intros y Hy. rewrite elem_of_lru_front by done. by apply Hu.
Qed.

Lemma kl_inv_alloc l c key :
  kl_inv l c -> kl_states l !! key = None -> Z.of_nat (size (kl_states l)) < kl_maxEntries l ->
  0 <= kl_maxConcurrent l ->
  kl_inv (kl_alloc l {| ks_key := key; ks_inFlight := 0; ks_bucket := new_bucket |}) c.
Proof.
  intros [Hs Hl Hnd Hn Hc Hu Hp Hz] Hk Hroom Hmax.
  assert (Hfresh : kl_heap l !! kl_next l = None).
  { destruct (kl_heap l !! kl_next l) eqn:E; [|done]. specialize (Hn (kl_next l) ltac:(eauto)). lia. }
  assert (Hnl : kl_next l ∉ kl_lru l) by (intros (s & ? & _)%Hl; congruence).
  assert (Hc0 : c (kl_next l) = 0).
  { specialize (Hp (kl_next l)). destruct (Z.eq_dec (c (kl_next l)) 0); [done|].
    destruct Hnl. apply Hu. lia. }
  split; simpl.
  - intros k x. rewrite lookup_insert_Some. intros [[<- <-]|[Hne (s & H1 & H2 & H3)%Hs]].
    + eexists. rewrite lookup_insert_eq. split_and!; [done..|]. by left.
    + exists s. rewrite lookup_insert_ne by congruence. split_and!; [done..|]. by right.
  - intros x [->|Hx]%elem_of_cons.
    + eexists. rewrite lookup_insert_eq. split; [done|]. simpl. by rewrite lookup_insert_eq.
    + destruct (Hl x Hx) as (s & H1 & H2). exists s. rewrite lookup_insert_ne by congruence.
      split; [done|]. by rewrite lookup_insert_ne by congruence.
  - by constructor.
  - intros x [s Hx]. destruct (decide (x = kl_next l)); [lia|].
    rewrite lookup_insert_ne in Hx by done. specialize (Hn x ltac:(eauto)). lia.
  - intros x s. rewrite lookup_insert_Some. intros [[<- <-]|[Hne Hx]]; [simpl; lia | by apply Hc].
  - intros x Hx. right. by apply Hu.
  - done.
  - rewrite map_size_insert, Hk. simpl. lia.
Qed.

Lemma kl_state_spec l c key :
  kl_inv l c -> 0 < kl_maxEntries l -> 0 <= kl_maxConcurrent l ->
  let '(l', r) := kl_state l key in
  kl_inv l' c /\ same_limits l l' /\
  match r with
  | Some x => kl_states l' !! key = Some x
  | None => kl_states l !! key = None /\ forall x, x ∈ kl_lru l' -> 0 < c x
  end.
Proof.
  intros Hinv Hmax Hmc. unfold kl_state. destruct (kl_states l !! key) as [x|] eqn:Hk.
  - destruct (ki_states l c Hinv key x Hk) as (s & _ & _ & Hx).
    split_and!; [by apply kl_inv_front | done..].
  - pose proof (kl_make_room_spec (S (size (kl_states l))) l c Hinv ltac:(lia) Hmax) as H.
    destruct (kl_make_room _ l) as [l' room].
    destruct H as (H1 & H2 & H3 & H4 & H5 & H6 & H7 & H8 & H9).
    assert (Hk' : kl_states l' !! key = None) by (eapply lookup_weaken_None; eauto).
    destruct room.
    + split; [apply kl_inv_alloc; [done..| rewrite H6; by apply H8 | lia]|]. split; [done|].
      simpl. by rewrite lookup_insert_eq.
    + split; [done|]. split; [done|]. split; [done|]. by apply H9.
Qed.

Lemma kl_update_flight l c x f :
  kl_inv l c -> x ∈ kl_lru l -> (forall s, ks_key (f s) = ks_key s) ->
  (forall s, ks_inFlight (f s) = ks_inFlight s) -> kl_inv (kl_update l x f) c.
Proof.
  intros Hinv Hx Hk Hf. apply (kl_inv_update l c x f c Hinv); [done..| |done].
  intros s Hs. rewrite Hf. destruct (ki_count l c Hinv x s Hs). pose proof (ki_nonneg l c Hinv x). lia.
Qed.

Lemma kl_available_spec l c r now :
  kl_inv l c -> (forall x, r = Some x -> x ∈ kl_lru l) ->
  let '(l', ok) := kl_available l r now in
  kl_inv l' c /\ same_limits l l' /\ kl_lru l' = kl_lru l /\ kl_states l' = kl_states l /\
  (ok = true -> exists x, r = Some x /\ c x < kl_maxConcurrent l).
Proof.
  intros Hinv Hr. unfold kl_available. destruct r as [x|]; simpl; [|done].
  destruct (kl_heap l !! x) as [s|] eqn:Hs; simpl; [|done].
  destruct (_ || _ || _); [done|].
  split_and!; [|done..|].
  - apply kl_update_flight; [done | by apply Hr | done..].
  - intros H. b2p. exists x. split; [done|]. destruct (ki_count l c Hinv x s Hs). lia.
Qed.

Lemma kl_acquire_spec l c x :
  kl_inv l c -> x ∈ kl_lru l -> c x < kl_maxConcurrent l ->
  kl_inv (kl_acquire l x) (fun y => if decide (y = x) then c y + 1 else c y).
Proof.
  intros Hinv Hx Hc. apply (kl_inv_update l c x); [done | done | | | done].
  - intros y Hy. by rewrite decide_False.
  - intros s Hs. simpl. rewrite decide_True by done.
    destruct (ki_count l c Hinv x s Hs). pose proof (ki_nonneg l c Hinv x). lia.
Qed.

Lemma kl_release_spec l c x :
  kl_inv l c -> 0 < c x ->
  kl_inv (kl_release l x) (fun y => if decide (y = x) then c y - 1 else c y).
Proof.
  intros Hinv Hc. pose proof (ki_used l c Hinv x Hc) as Hx.
  apply (kl_inv_update l c x); [done | | | | done].
  - intros s. by destruct (0 <? ks_inFlight s).
  - intros y Hy. by rewrite decide_False.
  - intros s Hs. rewrite decide_True by done. destruct (ki_count l c Hinv x s Hs) as [Hcs Hle].
    replace (0 <? ks_inFlight s) with true by lia. simpl. lia.
Qed.

Lemma kl_inv_ext l c c' : kl_inv l c -> (forall x, c x = c' x) -> kl_inv l c'.
Proof.
  intros [Hs Hl Hnd Hn Hc Hu Hp Hz] H. split; try done; intros x; rewrite <- H; [apply Hc | apply Hu | apply Hp].
Qed.

(** Admission without holding on: the counters are as before. *)
Lemma kl_allow_spec l c key now :
  kl_inv l c -> 0 < kl_maxEntries l -> 0 <= kl_maxConcurrent l ->
  kl_inv (kl_allow l key now).1 c /\ same_limits l (kl_allow l key now).1.
Proof.
  intros Hinv Hmax Hmc. unfold kl_allow. pose proof (kl_state_spec l c key Hinv Hmax Hmc) as H.
  destruct (kl_state l key) as [l1 r]. destruct H as (H1 & S1 & H2).
  assert (Hr : forall x, r = Some x -> x ∈ kl_lru l1).
  { intros x ->. by destruct (ki_states l1 c H1 key x H2) as (? & _ & _ & ?). }
  pose proof (kl_available_spec l1 c r now H1 Hr) as H.
  destruct (kl_available l1 r now) as [l2 ok]. destruct H as (H3 & S2 & Hlru & _ & Hok).
  unfold same_limits in *.
  destruct r as [x|]; [|simpl; split; [done|]; lia]. destruct ok; [|simpl; split; [done|]; lia].
  destruct (Hok eq_refl) as (x' & [= <-] & Hlt). simpl. split; [|lia].
  assert (Hacq := kl_acquire_spec l2 c x H3 ltac:(rewrite Hlru; by apply Hr) ltac:(lia)).
  pose proof (ki_nonneg l2 c H3 x).
  eapply kl_inv_ext; [apply (kl_release_spec _ _ x Hacq); rewrite decide_True by done; lia|].
  intros y. simpl. destruct (decide (y = x)); lia.
Qed.

Lemma kl_refund_spec l c key now :
  kl_inv l c -> 0 < kl_maxEntries l -> 0 <= kl_maxConcurrent l ->
  kl_inv (kl_refund l key now) c /\ same_limits l (kl_refund l key now).
Proof.
  intros Hinv Hmax Hmc. unfold kl_refund. pose proof (kl_state_spec l c key Hinv Hmax Hmc) as H.
  destruct (kl_state l key) as [l1 r]. destruct H as (H1 & S1 & H2). destruct r as [x|]; [|done].
  split; [|done]. apply kl_update_flight; [done | | done..].
  by destruct (ki_states l1 c H1 key x H2) as (? & _ & _ & ?).
Qed.

(** ** Counting leases *)

Definition one (b : bool) : Z := if b then 1 else 0.

Lemma held_insert leases n v p :
  leases !! n = None -> held (<[n := v]> leases) p = held leases p + one (p v).
Proof.
  intros Hn. unfold held, one. destruct (p v) eqn:E.
  - rewrite map_filter_insert_True by done.
    rewrite map_size_insert_None by (by apply map_lookup_filter_None; left). lia.
  - rewrite map_filter_insert_False by (simpl; congruence). rewrite delete_id by done. lia.
Qed.

Lemma held_delete leases n v p :
  leases !! n = Some v -> held (delete n leases) p = held leases p - one (p v).
Proof.
  intros Hn. rewrite <- (insert_delete_id leases n v Hn) at 2.
  rewrite held_insert by apply lookup_delete_eq. lia.
Qed.

Lemma held_mono leases p q :
  (forall n v, leases !! n = Some v -> p v = true -> q v = true) -> held leases p <= held leases q.
Proof.
  intros H. unfold held. apply Nat2Z.inj_le, map_subseteq_size.
  apply map_subseteq_spec. intros n v. rewrite !map_lookup_filter_Some. naive_solver.
Qed.

Lemma held_split leases p q :
  (forall v, q v = negb (p v)) -> held leases (fun _ => true) = held leases p + held leases q.
Proof.
  intros Hq. induction leases as [|n v m Hn IH] using map_ind; [done|].
  rewrite !held_insert, IH, Hq by done. destruct (p v); simpl; lia.
Qed.

Lemma held_zero leases p : (forall n v, leases !! n = Some v -> p v = false) -> held leases p = 0.
Proof.
  intros H. pose proof (held_mono leases p (fun _ => false)) as Hm.
  assert (held leases (fun _ => false) = 0) as H0.
  { unfold held. erewrite (proj2 (map_empty_filter _ _)); [by rewrite map_size_empty|]. by intros ??. }
  rewrite H0 in Hm. unfold held in *. specialize (Hm ltac:(intros n v Hv Hp; by rewrite (H n v Hv) in Hp)). lia.
Qed.

Lemma held_nonneg leases p : 0 <= held leases p.
Proof. unfold held. lia. Qed.

Definition uses_client (x : addr) (v : Attempt * Lease) : bool := (lease_client v.2 =? x)%nat.
Definition uses_principal (x : addr) (v : Attempt * Lease) : bool := (lease_principal v.2 =? x)%nat.
Definition uses_reserved (v : Attempt * Lease) : bool := lease_reserved v.2.
Definition uses_shared (v : Attempt * Lease) : bool := negb (lease_reserved v.2).

(** ** Pools *)

Lemma pool_available_spec p now :
  let '(p', ok) := pool_available p now in
  rp_inFlight p' = rp_inFlight p /\ rp_maxConcurrent p' = rp_maxConcurrent p /\
  (ok = true -> rp_inFlight p < rp_maxConcurrent p).
Proof.
  unfold pool_available. destruct (_ || _ || _); [done|]. simpl. split_and!; [done..|].
  intros H. b2p. lia.
Qed.

(** ** Trusted credentials *)

Record trusted_inv (l : Limiter) : Prop := {
  ti_lru : forall k, k ∈ trustedLRU l <-> is_Some (trustedCredentials l !! k);
  ti_nodup : NoDup (trustedLRU l);
  ti_size : Z.of_nat (size (trustedCredentials l)) <= maxKeys l
}.

Lemma trusted_inv_delete l k :
  trusted_inv l ->
  trusted_inv (with_trusted l (delete k (trustedCredentials l)) (trusted_remove k (trustedLRU l))).
Proof.
  intros [H1 H2 H3]. split; simpl.
  - intros k'. unfold trusted_remove. rewrite list_elem_of_filter, H1, lookup_delete_is_Some. naive_solver.
  - by apply NoDup_filter.
  - etrans; [|exact H3]. apply Nat2Z.inj_le, map_subseteq_size, delete_subseteq.
Qed.

Lemma NoDup_trusted_front k lru : NoDup lru -> NoDup (k :: trusted_remove k lru).
Proof.
  intros H. unfold trusted_remove. constructor; [rewrite list_elem_of_filter; naive_solver|].
  by apply NoDup_filter.
Qed.

Lemma trusted_inv_refresh l k exp :
  trusted_inv l -> is_Some (trustedCredentials l !! k) ->
  trusted_inv (with_trusted l (<[k := exp]> (trustedCredentials l)) (k :: trusted_remove k (trustedLRU l))).
Proof.
  intros [H1 H2 H3] Hk. split; simpl.
  - intros k'. rewrite lookup_insert_is_Some, elem_of_cons. unfold trusted_remove.
    rewrite list_elem_of_filter, H1. destruct (decide (k' = k)); naive_solver.
  - by apply NoDup_trusted_front.
  - rewrite map_size_insert. destruct Hk as [e ->]. simpl. lia.
Qed.

(** Everything a trusted-credential step leaves alone. *)
Definition same_but_trusted (l l' : Limiter) : Prop :=
  l' = with_trusted l (trustedCredentials l') (trustedLRU l').

Lemma isTrusted_spec l k now :
  trusted_inv l ->
  let '(l', ok) := isTrustedLocked l k now in
  trusted_inv l' /\ same_but_trusted l l' /\ trustedCredentials l' ⊆ trustedCredentials l /\
  (ok = true -> exists exp, trustedCredentials l !! k = Some exp /\ now <= exp).
Proof.
  intros Hinv. unfold isTrustedLocked. destruct (trustedCredentials l !! k) as [exp|] eqn:E.
  - destruct (Z.ltb_spec exp now).
    + split; [by apply trusted_inv_delete|]. split; [done|]. split; [apply delete_subseteq|done].
    + split.
      * pose proof (trusted_inv_refresh l k exp Hinv ltac:(eauto)) as H'.
        by rewrite insert_id in H' by done.
      * split; [done|]. split; [done|]. intros _. by exists exp.
  - split; [done|]. split; [by destruct l|]. done.
Qed.

Lemma trusted_make_room_spec fuel l :
  trusted_inv l -> (size (trustedCredentials l) < fuel)%nat -> 0 < maxKeys l ->
  let '(l', ok) := trusted_make_room fuel l in
  trusted_inv l' /\ same_but_trusted l l' /\ trustedCredentials l' ⊆ trustedCredentials l /\
  ok = true /\ Z.of_nat (size (trustedCredentials l')) < maxKeys l.
Proof.
  revert l. induction fuel as [|f IH]; intros l Hinv Hf Hmax; [lia|]. cbn [trusted_make_room].
  destruct (Z.leb_spec (maxKeys l) (Z.of_nat (size (trustedCredentials l)))) as [Hfull|Hroom].
  2: { split; [done|]. split; [by destruct l|]. done. }
  destruct (last (trustedLRU l)) as [k|] eqn:Hlast.
  - assert (is_Some (trustedCredentials l !! k)) as [exp Hexp]
      by (by apply (ti_lru l Hinv), last_Some_elem_of).
    pose proof (trusted_inv_delete l k Hinv) as Hinv'. set (l1 := with_trusted _ _ _) in *.
    specialize (IH l1 Hinv').
    assert (Hsz : (size (trustedCredentials l1) < f)%nat).
    { simpl. rewrite map_size_delete, Hexp. simpl.
      assert (size (trustedCredentials l) <> 0)%nat; [|lia]. intros H0%map_size_empty_inv.
      by rewrite H0, lookup_empty in Hexp. }
    specialize (IH Hsz Hmax). destruct (trusted_make_room f l1) as [l' ok].
    destruct IH as (H1 & H2 & H3 & H4 & H5). split; [done|].
    split; [unfold same_but_trusted in *; rewrite H2; done|]. split; [|done].
    etrans; [exact H3|]. apply delete_subseteq.
  - exfalso. apply last_None in Hlast.
    assert (trustedCredentials l = ∅) as H0.
    { apply map_eq. intros k. rewrite lookup_empty. destruct (trustedCredentials l !! k) eqn:E; [|done].
      assert (k ∈ trustedLRU l) as Hk by (apply (ti_lru l Hinv); eauto). rewrite Hlast in Hk. set_solver. }
    rewrite H0, map_size_empty in Hfull. simpl in Hfull. lia.
Qed.

Lemma MarkAuthenticated_spec l now a :
  trusted_inv l -> 0 < maxKeys l ->
  trusted_inv (MarkAuthenticated l now a) /\ same_but_trusted l (MarkAuthenticated l now a) /\
  forall k exp, trustedCredentials (MarkAuthenticated l now a) !! k = Some exp ->
    (k = credentialKey a /\ exp = now + trustedCredentialTTL l) \/ trustedCredentials l !! k = Some exp.
Proof.
  intros Hinv Hmax. unfold MarkAuthenticated.
  destruct (trustedCredentials l !! credentialKey a) as [e|] eqn:E.
  - split; [by apply trusted_inv_refresh|]. split; [done|]. simpl.
    intros k exp. rewrite lookup_insert_Some. naive_solver.
  - pose proof (trusted_make_room_spec (S (size (trustedCredentials l))) l Hinv ltac:(lia) Hmax) as H.
    destruct (trusted_make_room _ l) as [l' ok]. destruct H as (Hi & Hs & Hsub & -> & Hsz).
    assert (Hm : maxKeys l' = maxKeys l) by (by rewrite Hs). destruct Hi as [H1 H2 H3].
    assert (Hn : trustedCredentials l' !! credentialKey a = None) by (eapply lookup_weaken_None; eauto).
    split; [|split].
    + split; simpl.
      * intros k. rewrite elem_of_cons, H1, lookup_insert_is_Some.
        destruct (decide (k = credentialKey a)); naive_solver.
      * constructor; [|done]. rewrite H1, Hn. by intros [??].
      * rewrite map_size_insert, Hn. simpl. lia.
    + unfold same_but_trusted in *. rewrite Hs. done.
    + simpl. intros k exp. rewrite lookup_insert_Some.
      intros [[<- <-]|[_ Hk]]; [by left | right; by eapply lookup_weaken].
Qed.

(** ** The whole limiter *)

(** Objects are never re-used: an address keeps its key. *)
Definition keeps_keys (l l' : keyedLimiter) : Prop :=
  forall x s, kl_heap l !! x = Some s -> exists s', kl_heap l' !! x = Some s' /\ ks_key s' = ks_key s.

Lemma keeps_keys_refl l : keeps_keys l l.
Proof. intros x s. eauto. Qed.

Lemma keeps_keys_trans l1 l2 l3 : keeps_keys l1 l2 -> keeps_keys l2 l3 -> keeps_keys l1 l3.
Proof.
  intros H1 H2 x s (s2 & Hs2 & <-)%H1. destruct (H2 x s2 Hs2) as (s3 & ? & ?). eauto.
Qed.

Lemma keeps_keys_update l x f :
  (forall s, ks_key (f s) = ks_key s) -> keeps_keys l (kl_update l x f).
Proof.
  intros Hf y s Hy. simpl. rewrite lookup_alter. destruct (decide (x = y)) as [->|]; [|eauto].
  rewrite Hy. simpl. eauto.
Qed.

Lemma keeps_keys_state l c key : kl_inv l c -> 0 < kl_maxEntries l -> keeps_keys l (kl_state l key).1.
Proof.
  intros Hinv Hmax. unfold kl_state. destruct (kl_states l !! key); [intros x s; simpl; eauto|].
  pose proof (kl_make_room_spec (S (size (kl_states l))) l c Hinv ltac:(lia) Hmax) as H.
  destruct (kl_make_room _ l) as [l' room]. destruct H as (H1 & _ & H3 & H4 & _).
  destruct room; simpl; intros x s Hx; rewrite ?H3; [|eauto]. simpl.
  assert (x < kl_next l')%nat by (apply (ki_next l' c H1); rewrite H3; eauto).
  rewrite lookup_insert_ne by lia. rewrite H3. eauto.
Qed.

Lemma keeps_keys_available l r now : keeps_keys l (kl_available l r now).1.
Proof.
  unfold kl_available. destruct r as [x|]; simpl; [|apply keeps_keys_refl].
  destruct (kl_heap l !! x) as [s|]; simpl; [|apply keeps_keys_refl].
  destruct (_ || _ || _); simpl; [apply keeps_keys_refl | by apply keeps_keys_update].
Qed.

Lemma keeps_keys_acquire l x : keeps_keys l (kl_acquire l x).
Proof. by apply keeps_keys_update. Qed.

Lemma keeps_keys_release l x : keeps_keys l (kl_release l x).
Proof. apply keeps_keys_update. intros s. by destruct (0 <? ks_inFlight s). Qed.

Section Configured.
Variable limits : Limits.
#[local] Abbreviation n := (normalizeLimits limits).

(** The settings a limiter is built with. *)
Record lim_conf (l : Limiter) : Prop := {
  lc_shared : rp_maxConcurrent (sharedPool l) = MaxConcurrent n - ReservedConcurrent n;
  lc_reserved : rp_maxConcurrent (reservedPool l) = ReservedConcurrent n;
  lc_clients : kl_maxConcurrent (clients l) = PerClientMaxConcurrent n /\ kl_maxEntries (clients l) = MaxKeys n;
  lc_principals :
    kl_maxConcurrent (principals l) = PerPrincipalMaxConcurrent n /\ kl_maxEntries (principals l) = MaxKeys n;
  lc_ingress : kl_maxConcurrent (ingress l) = 1 /\ kl_maxEntries (ingress l) = MaxKeys n;
  lc_ttl : trustedCredentialTTL l = TrustedCredentialTTL n;
  lc_keys : maxKeys l = MaxKeys n
}.

(** [cc] and [cp] count the uses of each client and principal object, [ns] and
    [nr] those of the two pools. *)
Record lim_inv (l : Limiter) (cc cp : addr -> Z) (ns nr : Z) : Prop := {
  li_conf : lim_conf l;
  li_clients : kl_inv (clients l) cc;
  li_principals : kl_inv (principals l) cp;
  li_ingress : kl_inv (ingress l) (fun _ => 0);
  li_shared : rp_inFlight (sharedPool l) = ns /\ 0 <= ns <= rp_maxConcurrent (sharedPool l);
  li_reserved : rp_inFlight (reservedPool l) = nr /\ 0 <= nr <= rp_maxConcurrent (reservedPool l);
  li_trusted : trusted_inv l
}.

Lemma atLeastOne_pos z : 1 <= atLeastOne z.
Proof. unfold atLeastOne. destruct (Z.leb_spec z 0); lia. Qed.

Lemma clampReserve_range z total : 1 <= total -> 0 <= clampReserve z total < total.
Proof. intros H. unfold clampReserve. destruct (Z.leb_spec z 0), (Z.leb_spec total z); lia. Qed.

Lemma limits_pos :
  1 <= MaxConcurrent n /\ 0 <= ReservedConcurrent n < MaxConcurrent n /\
  1 <= PerClientMaxConcurrent n /\ 1 <= PerPrincipalMaxConcurrent n /\ 1 <= MaxKeys n.
Proof.
  unfold normalizeLimits. simpl. pose proof atLeastOne_pos as H.
  pose proof (clampReserve_range (ReservedConcurrent limits) _ (H (MaxConcurrent limits))).
  split_and!; try apply H; destruct (_ && _); try lia; by specialize (H (MaxConcurrent limits)); lia.
Qed.

Lemma kl_inv_new k m r b : 0 <= k -> 0 <= m -> kl_inv (newKeyedLimiter k m r b) (fun _ => 0).
Proof.
  intros Hk Hm. split; simpl; try done; try lia.
  - intros x Hx. set_solver.
  - constructor.
  - by intros x [s Hs].
Qed.

#[local] Opaque normalizeLimits.

Lemma lim_inv_new : lim_inv (NewLimiter limits) (fun _ => 0) (fun _ => 0) 0 0.
Proof.
  pose proof limits_pos as H. destruct H as (H1 & H2 & H3 & H4 & H5).
  split; [split; simpl; try done; lia | simpl; apply kl_inv_new; lia.. | simpl; lia | simpl; lia |].
  split; simpl; [|constructor | rewrite map_size_empty; lia].
  intros k. rewrite lookup_empty. split; [by intros ?%not_elem_of_nil | by intros [? ?]].
Qed.

Definition bump (c : addr -> Z) (x : addr) (d : Z) : addr -> Z :=
  fun y => if decide (y = x) then c y + d else c y.

(** A pool that is asked for capacity keeps its counter. *)
Lemma lim_inv_pools l cc cp ns nr ns' nr' s r :
  lim_inv l cc cp ns nr ->
  rp_maxConcurrent s = rp_maxConcurrent (sharedPool l) -> rp_inFlight s = ns' ->
  rp_maxConcurrent r = rp_maxConcurrent (reservedPool l) -> rp_inFlight r = nr' ->
  0 <= ns' <= rp_maxConcurrent s -> 0 <= nr' <= rp_maxConcurrent r ->
  lim_inv (with_pools l s r) cc cp ns' nr'.
Proof.
  intros [[C1 C2 C3 C4 C5 C6 C7] Hc Hp Hi Hs Hr Ht] E1 E2 E3 E4 B1 B2.
  split; simpl; try done; [|by split; apply Ht]. split; simpl; try done; congruence.
Qed.

Lemma lim_inv_keyed l cc cp ns nr cc' cp' c p i :
  lim_inv l cc cp ns nr -> kl_inv c cc' -> kl_inv p cp' -> kl_inv i (fun _ => 0) ->
  same_limits (clients l) c -> same_limits (principals l) p -> same_limits (ingress l) i ->
  lim_inv (with_keyed l c p i) cc' cp' ns nr.
Proof.
  intros [[C1 C2 C3 C4 C5 C6 C7] Hc Hp Hi Hs Hr Ht] Ic Ip Ii Sc Sp Si. unfold same_limits in *.
  split; simpl; try done; [|by split; apply Ht]. split; simpl; try done; lia.
Qed.

Lemma lim_inv_trusted l l' cc cp ns nr :
  lim_inv l cc cp ns nr -> same_but_trusted l l' -> trusted_inv l' -> lim_inv l' cc cp ns nr.
Proof.
  intros [[C1 C2 C3 C4 C5 C6 C7] Hc Hp Hi Hs Hr Ht] -> Ht'. by split.
Qed.

(** The two keyed limiters of an attempt, before the pools are asked: both
    objects are current, and when both admit there is room for one more use. *)
Lemma keyed_admission k c key now :
  kl_inv k c -> 0 < kl_maxEntries k -> 0 <= kl_maxConcurrent k ->
  let '(k1, r) := kl_state k key in
  let '(k2, ok) := kl_available k1 r now in
  (kl_inv k1 c /\ same_limits k k1 /\ keeps_keys k k1) /\
  (kl_inv k2 c /\ same_limits k k2 /\ keeps_keys k k2) /\
  (ok = true -> exists x, r = Some x /\ c x < kl_maxConcurrent k /\ kl_states k2 !! key = Some x).
Proof.
  intros Hinv Hmax Hmc. pose proof (kl_state_spec k c key Hinv Hmax Hmc) as H.
  pose proof (keeps_keys_state k c key Hinv Hmax) as K1.
  destruct (kl_state k key) as [k1 r]. destruct H as (H1 & S1 & H2). simpl in K1.
  assert (Hr : forall x, r = Some x -> x ∈ kl_lru k1).
  { intros x ->. by destruct (ki_states k1 c H1 key x H2) as (? & _ & _ & ?). }
  pose proof (kl_available_spec k1 c r now H1 Hr) as H. pose proof (keeps_keys_available k1 r now) as K2.
  destruct (kl_available k1 r now) as [k2 ok]. destruct H as (H3 & S2 & _ & Hst & Hok). simpl in K2.
  split; [done|]. split.
  - split; [done|]. split; [unfold same_limits in *; lia|]. by eapply keeps_keys_trans.
  - intros E. destruct (Hok E) as (x & -> & Hlt). exists x. split; [done|].
    unfold same_limits in S1. split; [lia|]. by rewrite Hst.
Qed.

Lemma states_lru k c key x : kl_inv k c -> kl_states k !! key = Some x -> x ∈ kl_lru k.
Proof. intros H Hk. by destruct (ki_states k c H key x Hk) as (? & _ & _ & ?). Qed.

(** Taking one use of both objects and settling the pools. *)
Lemma grant_inv l cc cp ns nr ns' nr' c p s r kc kp :
  lim_inv l cc cp ns nr ->
  kl_states (clients l) !! kc = Some c -> cc c < kl_maxConcurrent (clients l) ->
  kl_states (principals l) !! kp = Some p -> cp p < kl_maxConcurrent (principals l) ->
  rp_maxConcurrent s = rp_maxConcurrent (sharedPool l) -> rp_inFlight s = ns' ->
  rp_maxConcurrent r = rp_maxConcurrent (reservedPool l) -> rp_inFlight r = nr' ->
  0 <= ns' <= rp_maxConcurrent s -> 0 <= nr' <= rp_maxConcurrent r ->
  lim_inv (with_pools (with_keyed l (kl_acquire (clients l) c) (kl_acquire (principals l) p) (ingress l)) s r)
    (bump cc c 1) (bump cp p 1) ns' nr'.
Proof.
  intros Hl Hc Hcc Hp Hcp. intros. eapply lim_inv_pools; [|done..].
  pose proof (li_clients _ _ _ _ _ Hl) as Ic. pose proof (li_principals _ _ _ _ _ Hl) as Ip.
  eapply lim_inv_keyed; [exact Hl | | | apply Hl | done..];
    (apply kl_acquire_spec; [done | by eapply states_lru | done]).
Qed.

Lemma TryAcquire_pools l cc cp ns nr now a c p :
  lim_inv l cc cp ns nr ->
  kl_states (clients l) !! clientKey a = Some c -> cc c < kl_maxConcurrent (clients l) ->
  kl_states (principals l) !! principalKey a = Some p -> cp p < kl_maxConcurrent (principals l) ->
  let '(l', r) := acquire_pools l now a c p in
  keeps_keys (clients l) (clients l') /\ keeps_keys (principals l) (principals l') /\
  trustedCredentials l' ⊆ trustedCredentials l /\
  match r with
  | None => lim_inv l' cc cp ns nr
  | Some le =>
    lim_inv l' (bump cc (lease_client le) 1) (bump cp (lease_principal le) 1)
      (ns + one (negb (lease_reserved le))) (nr + one (lease_reserved le)) /\
    kl_states (clients l') !! clientKey a = Some (lease_client le) /\
    kl_states (principals l') !! principalKey a = Some (lease_principal le) /\
    (lease_reserved le = true ->
     exists exp, trustedCredentials l !! credentialKey a = Some exp /\ now <= exp)
  end.
Proof.
  intros Hl Hc Hcc Hp Hcp. unfold acquire_pools.
  destruct (li_shared _ _ _ _ _ Hl) as [Es Bs], (li_reserved _ _ _ _ _ Hl) as [Er Br].
  pose proof (pool_available_spec (sharedPool l) now) as Hs.
  destruct (pool_available (sharedPool l) now) as [s oks]. destruct Hs as (Hs1 & Hs2 & Hs3).
  destruct oks; simpl.
  { split; [apply keeps_keys_acquire|]. split; [apply keeps_keys_acquire|]. split; [done|].
    split; [|done]. specialize (Hs3 eq_refl).
    eapply grant_inv; try done; simpl; lia. }
  assert (Hl2 : lim_inv (with_pools l s (reservedPool l)) cc cp ns nr)
    by (eapply lim_inv_pools; try done; lia).
  set (l2 := with_pools l s (reservedPool l)) in *.
  pose proof (isTrusted_spec l2 (credentialKey a) now (li_trusted _ _ _ _ _ Hl2)) as Ht.
  destruct (isTrustedLocked l2 (credentialKey a) now) as [l3 trusted].
  destruct Ht as (Ht1 & Ht2 & Ht3 & Ht4).
  assert (Hl3 : lim_inv l3 cc cp ns nr) by (by eapply lim_inv_trusted).
  unfold same_but_trusted in Ht2. rewrite Ht2 in *. clear Ht2. simpl in Ht3, Ht4.
  destruct trusted; simpl; [|split_and!; [apply keeps_keys_refl.. | done | done]].
  pose proof (pool_available_spec (reservedPool l) now) as Hr.
  destruct (pool_available (reservedPool l) now) as [r okr]. destruct Hr as (Hr1 & Hr2 & Hr3).
  destruct okr; simpl.
  - split; [apply keeps_keys_acquire|]. split; [apply keeps_keys_acquire|]. split; [done|].
    split; [|split_and!; try done; intros _; by apply Ht4]. specialize (Hr3 eq_refl).
    eapply (grant_inv (with_trusted l2 (trustedCredentials l3) (trustedLRU l3)) cc cp ns nr _ _ c p s
      (pool_acquire r)); try done; simpl; lia.
  - split_and!; [apply keeps_keys_refl.. | done|]. eapply (lim_inv_pools (with_trusted l2 (trustedCredentials l3) (trustedLRU l3)));
      try done; simpl; lia.
Qed.

(** What [TryAcquire] promises: it changes the counters by exactly the lease it
    grants, the lease names the attempt's own objects, and the reserved pool
    serves only a credential trusted at that time. *)
Lemma TryAcquire_spec l cc cp ns nr now a :
  lim_inv l cc cp ns nr ->
  let '(l', r) := TryAcquire l now a in
  keeps_keys (clients l) (clients l') /\ keeps_keys (principals l) (principals l') /\
  trustedCredentials l' ⊆ trustedCredentials l /\
  match r with
  | None => lim_inv l' cc cp ns nr
  | Some le =>
    lim_inv l' (bump cc (lease_client le) 1) (bump cp (lease_principal le) 1)
      (ns + one (negb (lease_reserved le))) (nr + one (lease_reserved le)) /\
    kl_states (clients l') !! clientKey a = Some (lease_client le) /\
    kl_states (principals l') !! principalKey a = Some (lease_principal le) /\
    (lease_reserved le = true ->
     exists exp, trustedCredentials l !! credentialKey a = Some exp /\ now <= exp)
  end.
Proof.
  intros Hl. pose proof limits_pos as Hpos.
  destruct (li_conf _ _ _ _ _ Hl) as [_ _ [Mc Ec] [Mp Ep] _ _ _].
  unfold TryAcquire.
  pose proof (keyed_admission (clients l) cc (clientKey a) now (li_clients _ _ _ _ _ Hl)
    ltac:(lia) ltac:(lia)) as HC.
  pose proof (keyed_admission (principals l) cp (principalKey a) now (li_principals _ _ _ _ _ Hl)
    ltac:(lia) ltac:(lia)) as HP.
  destruct (kl_state (clients l) _) as [c1 rc], (kl_state (principals l) _) as [p1 rp].
  destruct (kl_available c1 rc now) as [c2 okc], (kl_available p1 rp now) as [p2 okp].
  destruct HC as ((I1 & S1 & K1) & (I2 & S2 & K2) & Hokc).
  destruct HP as ((J1 & T1 & L1) & (J2 & T2 & L2) & Hokp).
  assert (Hdeny : forall p, kl_inv p cp -> same_limits (principals l) p -> keeps_keys (principals l) p ->
    let l' := with_keyed l c2 p (ingress l) in
    keeps_keys (clients l) (clients l') /\ keeps_keys (principals l) (principals l') /\
    trustedCredentials l' ⊆ trustedCredentials l /\ lim_inv l' cc cp ns nr).
  { intros p Jp Tp Lp. simpl. split_and!; [done..|].
    eapply lim_inv_keyed; try done; apply Hl. }
  destruct okc.
  2: { specialize (Hdeny p1 J1 T1 L1). destruct rc, rp; simpl; exact Hdeny. }
  specialize (Hdeny p2 J2 T2 L2). destruct (Hokc eq_refl) as (c & -> & Hcc & Hcs).
  destruct rp as [p|]; [|exact Hdeny]. destruct okp; [|exact Hdeny].
  destruct (Hokp eq_refl) as (p' & [= <-] & Hcp & Hps). simpl andb. cbv iota.
  set (l2 := with_keyed l c2 p2 (ingress l)) in *. simpl in Hdeny.
  destruct Hdeny as (D1 & D2 & D3 & D4). unfold same_limits in *.
  pose proof (TryAcquire_pools l2 cc cp ns nr now a c p D4 Hcs ltac:(simpl; lia) Hps ltac:(simpl; lia)) as H.
  destruct (acquire_pools l2 now a c p) as [l' r]. destruct H as (H1 & H2 & H3 & H4).
  split; [by eapply keeps_keys_trans|]. split; [by eapply keeps_keys_trans|]. done.
Qed.

Lemma release_spec l cc cp ns nr le :
  lim_inv l cc cp ns nr -> 0 < cc (lease_client le) -> 0 < cp (lease_principal le) ->
  0 < (if lease_reserved le then nr else ns) ->
  lim_inv (release_lease l le) (bump cc (lease_client le) (-1)) (bump cp (lease_principal le) (-1))
    (ns - one (negb (lease_reserved le))) (nr - one (lease_reserved le)).
Proof.
  intros Hl Hc Hp Hn. unfold release_lease.
  set (l2 := with_keyed l _ _ _).
  assert (Hl2 : lim_inv l2 (bump cc (lease_client le) (-1)) (bump cp (lease_principal le) (-1)) ns nr).
  { subst l2. eapply lim_inv_keyed; [exact Hl | | | apply Hl | done..];
      (eapply kl_inv_ext; [apply kl_release_spec; [apply Hl | done]|]);
      intros x; unfold bump; simpl; by destruct (decide _). }
  destruct (li_shared _ _ _ _ _ Hl) as [Es Bs], (li_reserved _ _ _ _ _ Hl) as [Er Br].
  assert (Hpool : forall p, 0 < rp_inFlight p ->
    pool_release p = rp_with p (rp_inFlight p - 1) (rp_bucket p)).
  { intros p H. unfold pool_release. by replace (0 <? rp_inFlight p) with true by lia. }
  destruct (lease_reserved le); rewrite Hpool by (simpl; lia);
    eapply (lim_inv_pools l2); try done; simpl; lia.
Qed.

Lemma release_keeps_keys l le :
  keeps_keys (clients l) (clients (release_lease l le)) /\
  keeps_keys (principals l) (principals (release_lease l le)) /\
  trustedCredentials (release_lease l le) = trustedCredentials l.
Proof.
  unfold release_lease. destruct (lease_reserved le); simpl;
    (split; [apply keeps_keys_release|]; split; [apply keeps_keys_release | done]).
Qed.

Lemma lim_inv_ext l cc cp ns nr cc' cp' ns' nr' :
  lim_inv l cc cp ns nr -> (forall x, cc x = cc' x) -> (forall x, cp x = cp' x) -> ns = ns' -> nr = nr' ->
  lim_inv l cc' cp' ns' nr'.
Proof.
  intros [] Hc Hp <- <-. split; try done; by eapply kl_inv_ext.
Qed.

(** The invariant of the whole system: every counter is the number of leases
    that account for it, and every lease holds its own attempt's objects. *)
Definition lease_keys (l : Limiter) (v : Attempt * Lease) : Prop :=
  (exists s, kl_heap (clients l) !! lease_client v.2 = Some s /\ ks_key s = clientKey v.1) /\
  (exists s, kl_heap (principals l) !! lease_principal v.2 = Some s /\ ks_key s = principalKey v.1).

Record sys_inv (s : Sys) : Prop := {
  si_lim : lim_inv (sys_lim s)
    (fun x => held (sys_leases s) (uses_client x)) (fun x => held (sys_leases s) (uses_principal x))
    (held (sys_leases s) uses_shared) (held (sys_leases s) uses_reserved);
  si_next : forall i v, sys_leases s !! i = Some v -> (i < sys_next s)%nat;
  si_keys : forall i v, sys_leases s !! i = Some v -> lease_keys (sys_lim s) v
}.

Lemma lease_keys_mono l l' v :
  keeps_keys (clients l) (clients l') -> keeps_keys (principals l) (principals l') ->
  lease_keys l v -> lease_keys l' v.
Proof.
  intros Hc Hp [(s & Hs & Es) (p & Hps & Ep)].
  destruct (Hc _ _ Hs) as (s' & ? & ?), (Hp _ _ Hps) as (p' & ? & ?).
  split; eexists; (split; [done|congruence]).
Qed.

(** A step that leaves the leases alone. *)
Lemma sys_inv_quiet s l :
  sys_inv s ->
  (forall cc cp ns nr, lim_inv (sys_lim s) cc cp ns nr -> lim_inv l cc cp ns nr) ->
  keeps_keys (clients (sys_lim s)) (clients l) -> keeps_keys (principals (sys_lim s)) (principals l) ->
  sys_inv {| sys_lim := l; sys_leases := sys_leases s; sys_next := sys_next s |}.
Proof.
  intros [H1 H2 H3] Hl Hc Hp. split; simpl; [by apply Hl | done|].
  intros i v Hi. eapply lease_keys_mono; [done | done | by eapply H3].
Qed.

Lemma held_bump leases i a le x (f : Lease -> addr) :
  leases !! i = None ->
  bump (fun x => held leases (fun v => (f v.2 =? x)%nat)) (f le) 1 x =
  held (<[i := (a, le)]> leases) (fun v => (f v.2 =? x)%nat).
Proof.
  intros Hi. rewrite held_insert by done. simpl. unfold bump.
  destruct (decide (x = f le)) as [->|]; [by rewrite Nat.eqb_refl|].
  rewrite (proj2 (Nat.eqb_neq _ _)) by done. simpl. lia.
Qed.

Lemma held_drop leases i a le x (f : Lease -> addr) :
  leases !! i = Some (a, le) ->
  bump (fun x => held leases (fun v => (f v.2 =? x)%nat)) (f le) (-1) x =
  held (delete i leases) (fun v => (f v.2 =? x)%nat).
Proof.
  intros Hi. rewrite (held_delete _ _ _ _ Hi). simpl. unfold bump.
  destruct (decide (x = f le)) as [->|]; [rewrite Nat.eqb_refl; simpl; lia|].
  rewrite (proj2 (Nat.eqb_neq _ _)) by done. simpl. lia.
Qed.

Lemma held_pos leases i v p : leases !! i = Some v -> p v = true -> 0 < held leases p.
Proof.
  intros Hi Hp. pose proof (held_delete leases i v p Hi) as H. rewrite Hp in H. simpl in H.
  pose proof (held_nonneg (delete i leases) p). lia.
Qed.

Lemma sys_inv_ingress s i :
  sys_inv s ->
  (forall l, l = ingress (sys_lim s) -> kl_inv l (fun _ => 0) -> 0 < kl_maxEntries l ->
    0 <= kl_maxConcurrent l -> kl_inv i (fun _ => 0) /\ same_limits l i) ->
  sys_inv {| sys_lim := with_keyed (sys_lim s) (clients (sys_lim s)) (principals (sys_lim s)) i;
             sys_leases := sys_leases s; sys_next := sys_next s |}.
Proof.
  intros Hs Hi. apply sys_inv_quiet; [done | | apply keeps_keys_refl..].
  intros cc cp ns nr Hl. pose proof limits_pos.
  destruct (lc_ingress _ (li_conf _ _ _ _ _ Hl)) as [Mi Ei].
  destruct (Hi _ eq_refl (li_ingress _ _ _ _ _ Hl) ltac:(lia) ltac:(lia)) as [I S].
  eapply lim_inv_keyed; [done | apply Hl.. | done | done | done | done].
Qed.

Lemma sys_inv_acquire s now a : sys_inv s -> sys_inv (sys_step s (EvTryAcquire now a)).
Proof.
  intros Hs. pose proof Hs as [H1 H2 H3]. simpl.
  pose proof (TryAcquire_spec _ _ _ _ _ now a H1) as H.
  destruct (TryAcquire (sys_lim s) now a) as [l [le|]]; destruct H as (Kc & Kp & _ & H).
  2: { split; simpl; [done | done|]. intros i v Hi. eapply lease_keys_mono; [done | done | by eapply H3]. }
  destruct H as (Hl & Hc & Hp & _).
  assert (Hfresh : sys_leases s !! sys_next s = None).
  { destruct (sys_leases s !! sys_next s) as [v|] eqn:E; [|done]. specialize (H2 _ _ E). lia. }
  split; simpl.
  - eapply lim_inv_ext; [exact Hl | | | |].
    + intros x. by apply (held_bump _ _ a le x lease_client).
    + intros x. by apply (held_bump _ _ a le x lease_principal).
    + by rewrite held_insert.
    + by rewrite held_insert.
  - intros i v. rewrite lookup_insert_Some. intros [[<- <-]|[_ Hi%H2]]; lia.
  - intros i v. rewrite lookup_insert_Some. intros [[<- <-]|[_ Hi%H3]].
    + destruct (ki_states _ _ (li_clients _ _ _ _ _ Hl) _ _ Hc) as (sc & ? & ? & _).
      destruct (ki_states _ _ (li_principals _ _ _ _ _ Hl) _ _ Hp) as (sp & ? & ? & _).
      split; eauto.
    + by eapply lease_keys_mono.
Qed.

Lemma sys_inv_release s i : sys_inv s -> sys_inv (sys_step s (EvRelease i)).
Proof.
  intros Hs. pose proof Hs as [H1 H2 H3]. simpl.
  destruct (sys_leases s !! i) as [[a le]|] eqn:Hi; [|done].
  pose proof (fun p => held_pos (sys_leases s) i (a, le) p Hi) as Hpos.
  destruct (release_keeps_keys (sys_lim s) le) as (Kc & Kp & _).
  split; simpl.
  - eapply lim_inv_ext.
    + apply (release_spec _ _ _ _ _ le H1); [by apply Hpos, Nat.eqb_refl..|].
      unfold uses_reserved, uses_shared. destruct (lease_reserved le) eqn:E; apply Hpos; simpl; by rewrite E.
    + intros x. by apply (held_drop _ _ a le x lease_client).
    + intros x. by apply (held_drop _ _ a le x lease_principal).
    + by rewrite (held_delete _ _ _ _ Hi).
    + by rewrite (held_delete _ _ _ _ Hi).
  - intros j v [_ Hj]%lookup_delete_Some. by eapply H2.
  - intros j v [_ Hj]%lookup_delete_Some. eapply lease_keys_mono; [done | done | by eapply H3].
Qed.

Lemma sys_inv_step s e : sys_inv s -> sys_inv (sys_step s e).
Proof.
  intros Hs. destruct e as [now ip|now ip|now a|i|now a].
  - simpl. pose proof (fun l => kl_allow_spec l (fun _ => 0) (ingress_key ip) now) as H.
    destruct (kl_allow _ _ _) as [i ok] eqn:E. simpl. apply sys_inv_ingress; [done|].
    intros l -> Hi Hm Hc. specialize (H _ Hi Hm Hc). by rewrite E in H.
  - simpl. apply sys_inv_ingress; [done|]. intros l -> Hi Hm Hc. by apply kl_refund_spec.
  - by apply sys_inv_acquire.
  - by apply sys_inv_release.
  - simpl.
    assert (Hkeys : 0 < maxKeys (sys_lim s)).
    { pose proof limits_pos. rewrite (lc_keys _ (li_conf _ _ _ _ _ (si_lim _ Hs))). lia. }
    destruct (MarkAuthenticated_spec (sys_lim s) now a (li_trusted _ _ _ _ _ (si_lim _ Hs)) Hkeys)
      as (Ht & Hsame & _).
    apply sys_inv_quiet; [done | | rewrite Hsame; apply keeps_keys_refl..].
    intros cc cp ns nr Hl. by eapply lim_inv_trusted.
Qed.

Lemma sys_inv_run es : sys_inv (sys_run limits es).
Proof.
  unfold sys_run. induction es as [|e es IH] using rev_ind; simpl.
  - split; simpl; [|done..]. eapply lim_inv_ext; [apply lim_inv_new | done..].
  - rewrite fold_left_app. by apply sys_inv_step.
Qed.

(** Leases of one client use one object: the current one of the client's key. *)
Lemma held_by_key s (k : gostring) (get : Attempt -> gostring) (obj : Lease -> addr) (kl : keyedLimiter) :
  kl_inv kl (fun x => held (sys_leases s) (fun v => (obj v.2 =? x)%nat)) ->
  (forall i v, sys_leases s !! i = Some v ->
     exists st, kl_heap kl !! obj v.2 = Some st /\ ks_key st = get v.1) ->
  0 <= kl_maxConcurrent kl ->
  held (sys_leases s) (fun v => bool_decide (get v.1 = k)) <= kl_maxConcurrent kl.
Proof.
  intros Hinv Hkeys Hmc. set (c := fun x => held _ _) in Hinv.
  assert (Hcur : forall i v, sys_leases s !! i = Some v -> get v.1 = k -> kl_states kl !! k = Some (obj v.2)).
  { intros i v Hi <-. destruct (Hkeys i v Hi) as (st & Hst & <-).
    assert (0 < c (obj v.2)) as Hu by (eapply held_pos; [done|]; apply Nat.eqb_refl).
    apply (ki_used _ _ Hinv) in Hu. destruct (ki_lru _ _ Hinv _ Hu) as (st' & Hst' & E). congruence. }
  destruct (kl_states kl !! k) as [x|] eqn:Hx.
  - destruct (ki_states _ _ Hinv k x Hx) as (st & Hst & _).
    destruct (ki_count _ _ Hinv x st Hst) as [_ Hle]. etrans; [|exact Hle]. apply held_mono.
    intros i v Hi Hk. b2p. specialize (Hcur i v Hi Hk). apply Nat.eqb_eq. congruence.
  - rewrite held_zero; [done|]. intros i v Hi. apply bool_decide_eq_false. intros Hk.
    specialize (Hcur i v Hi Hk). congruence.
Qed.

(** Every trusted credential was marked, and expires one TTL after that. *)
Lemma trusted_history es k exp :
  trustedCredentials (sys_lim (sys_run limits es)) !! k = Some exp ->
  exists t a, EvMarkAuthenticated t a ∈ es /\ credentialKey a = k /\ exp = t + TrustedCredentialTTL n.
Proof.
  revert k exp. induction es as [|e es IH] using rev_ind; intros k exp; [done|].
  assert (Hs : sys_run limits (es ++ [e]) = sys_step (sys_run limits es) e)
    by (unfold sys_run; by rewrite fold_left_app).
  rewrite Hs. clear Hs. pose proof (sys_inv_run es) as Hinv. set (s := sys_run limits es) in *.
  assert (Hlift : trustedCredentials (sys_lim s) !! k = Some exp ->
    exists t a, EvMarkAuthenticated t a ∈ es ++ [e] /\ credentialKey a = k /\ exp = t + TrustedCredentialTTL n).
  { intros (t & a & Hin & ? & ?)%IH. exists t, a. split; [|done]. set_solver. }
  destruct e as [now ip|now ip|now a|i|now a].
  - simpl. by destruct (kl_allow _ _ _).
  - done.
  - pose proof (TryAcquire_spec _ _ _ _ _ now a (si_lim _ Hinv)) as H. simpl.
    destruct (TryAcquire (sys_lim s) now a) as [l r]. destruct H as (_ & _ & Hsub & _).
    intros Hk. apply Hlift. eapply lookup_weaken; [|exact Hsub]. by destruct r.
  - simpl. destruct (sys_leases s !! i) as [[a le]|]; [|done]. simpl.
    by destruct (release_keeps_keys (sys_lim s) le) as (_ & _ & ->).
  - simpl. intros Hk.
    assert (Hkeys : 0 < maxKeys (sys_lim s)).
    { pose proof limits_pos. rewrite (lc_keys _ (li_conf _ _ _ _ _ (si_lim _ Hinv))). lia. }
    destruct (MarkAuthenticated_spec (sys_lim s) now a (li_trusted _ _ _ _ _ (si_lim _ Hinv)) Hkeys)
      as (_ & _ & Hm). destruct (Hm k exp Hk) as [[-> ->]|Hold]; [|by apply Hlift].
    exists now, a. split; [set_solver|]. split; [done|].
    by rewrite (lc_ttl _ (li_conf _ _ _ _ _ (si_lim _ Hinv))).
Qed.

Lemma key_size_bound es :
  let l := sys_lim (sys_run limits es) in
  Z.of_nat (size (kl_states (clients l))) <= MaxKeys n /\
  Z.of_nat (size (kl_states (principals l))) <= MaxKeys n /\
  Z.of_nat (size (kl_states (ingress l))) <= MaxKeys n /\
  Z.of_nat (size (trustedCredentials l)) <= MaxKeys n.
Proof.
  destruct (si_lim _ (sys_inv_run es)) as [[_ _ [_ C1] [_ C2] [_ C3] _ C4] Hc Hp Hi _ _ Ht].
  pose proof (ki_size _ _ Hc). pose proof (ki_size _ _ Hp). pose proof (ki_size _ _ Hi).
  pose proof (ti_size _ Ht). simpl. lia.
Qed.
End Configured.

(** ** Theorems: concurrency, memory, trust *)

Section Theorems.
Variable limits : Limits.
#[local] Abbreviation n := (normalizeLimits limits).
#[local] Opaque normalizeLimits.

(** All leases together, for the clients of the limiter. *)
Lemma leases_bounded es : Z.of_nat (size (sys_leases (sys_run limits es))) <= MaxConcurrent n.
Proof.
  pose proof (sys_inv_run limits es) as Hinv.
  destruct (si_lim _ _ Hinv) as [[C1 C2 _ _ _ _ _] _ _ _ [_ Hs] [_ Hr] _].
  rewrite C1 in Hs. rewrite C2 in Hr.
  pose proof (held_split (sys_leases (sys_run limits es)) uses_shared uses_reserved) as H.
  unfold held at 1 in H. rewrite map_filter_id in H by done. rewrite H; [lia|].
  intros v. unfold uses_shared, uses_reserved. by rewrite negb_involutive.
Qed.

(** C14. Whatever calls were made, the leases outstanding never exceed the
    configured concurrency: in total, in the shared and in the reserved pool,
    for any client and for any principal.  Evicting and recreating per-key
    state does not let a key exceed its limit. *)
Theorem concurrency_bounds es :
  let leases := sys_leases (sys_run limits es) in
  held leases (fun _ => true) <= MaxConcurrent n /\
  held leases uses_shared <= MaxConcurrent n - ReservedConcurrent n /\
  held leases uses_reserved <= ReservedConcurrent n /\
  (forall k, held leases (fun v => bool_decide (clientKey v.1 = k)) <= PerClientMaxConcurrent n) /\
  (forall k, held leases (fun v => bool_decide (principalKey v.1 = k)) <= PerPrincipalMaxConcurrent n).
Proof.
  simpl. pose proof (sys_inv_run limits es) as Hinv. pose proof (limits_pos limits) as Hpos.
  destruct (si_lim _ _ Hinv) as [[C1 C2 [C3 _] [C4 _] _ _ _] Hc Hp _ [_ Hs] [_ Hr] _].
  rewrite C1 in Hs. rewrite C2 in Hr.
  rewrite (held_split _ uses_shared uses_reserved)
    by (intros v; unfold uses_shared, uses_reserved; by rewrite negb_involutive).
  split_and!; [lia | lia | lia | |]; intros k; rewrite <- ?C3, <- ?C4.
  - eapply held_by_key; [exact Hc | by intros i v [? _]%(si_keys _ _ Hinv) | lia].
  - eapply held_by_key; [exact Hp | by intros i v [_ ?]%(si_keys _ _ Hinv) | lia].
Qed.

(** The counters are exact: each pool counts the leases taken from it, and
    a client with leases outstanding is in the table, under a counter that
    equals the number of its leases.  Once every lease is released, every
    counter is back to zero. *)
Theorem in_flight_accounting es :
  let s := sys_run limits es in
  rp_inFlight (sharedPool (sys_lim s)) = held (sys_leases s) uses_shared /\
  rp_inFlight (reservedPool (sys_lim s)) = held (sys_leases s) uses_reserved /\
  (forall i a le, sys_leases s !! i = Some (a, le) ->
     exists st, kl_states (clients (sys_lim s)) !! clientKey a = Some (lease_client le) /\
       kl_heap (clients (sys_lim s)) !! lease_client le = Some st /\
       ks_inFlight st = held (sys_leases s) (uses_client (lease_client le)) /\ 0 < ks_inFlight st) /\
  (sys_leases s = ∅ ->
     rp_inFlight (sharedPool (sys_lim s)) = 0 /\ rp_inFlight (reservedPool (sys_lim s)) = 0 /\
     forall x st, kl_heap (clients (sys_lim s)) !! x = Some st -> ks_inFlight st = 0).
Proof.
  simpl. pose proof (sys_inv_run limits es) as Hinv. set (s := sys_run limits es) in *.
  destruct (si_lim _ _ Hinv) as [_ Hc _ _ [Hs _] [Hr _] _]. split; [done|]. split; [done|]. split.
  - intros i a le Hi.
    assert (Hu : 0 < held (sys_leases s) (uses_client (lease_client le)))
      by (eapply held_pos; [done|]; apply Nat.eqb_refl).
    destruct (si_keys _ _ Hinv i _ Hi) as [(st & Hst & Hk) _]. simpl in *. exists st.
    destruct (ki_lru _ _ Hc _ (ki_used _ _ Hc _ Hu)) as (st' & Hst' & Hcur).
    destruct (ki_count _ _ Hc _ st Hst) as [Hn _].
    split; [|split; [done|]; split; [done|lia]]. rewrite Hst in Hst'. injection Hst' as <-. by rewrite <- Hk.
  - intros He. rewrite He in Hs, Hr. rewrite Hs, Hr. split_and!; [done..|].
    intros x st Hx. destruct (ki_count _ _ Hc x st Hx) as [-> _]. rewrite He. done.
Qed.

(** Memory is bounded: however many addresses, user names and credentials
    are seen, no table holds more than [MaxKeys] entries, and each LRU list has
    exactly the entries of its table. *)
Theorem tables_bounded es :
  let l := sys_lim (sys_run limits es) in
  Z.of_nat (size (kl_states (clients l))) <= MaxKeys n /\
  Z.of_nat (size (kl_states (principals l))) <= MaxKeys n /\
  Z.of_nat (size (kl_states (ingress l))) <= MaxKeys n /\
  Z.of_nat (size (trustedCredentials l)) <= MaxKeys n /\
  (forall k, k ∈ trustedLRU l <-> is_Some (trustedCredentials l !! k)) /\
  (forall k x, kl_states (clients l) !! k = Some x -> x ∈ kl_lru (clients l)) /\
  (forall x, x ∈ kl_lru (clients l) -> exists k, kl_states (clients l) !! k = Some x).
Proof.
  destruct (key_size_bound limits es) as (H1 & H2 & H3 & H4).
  destruct (si_lim _ _ (sys_inv_run limits es)) as [_ Hc _ _ _ _ Ht].
  split_and!; [done..| apply Ht | |].
  - intros k x Hk. by eapply states_lru.
  - intros x (s & _ & ?)%(ki_lru _ _ Hc). by exists (ks_key s).
Qed.

(** Reserved capacity serves known credentials only: a lease from the
    reserved pool is granted only for a credential that an earlier call marked
    as authenticated, no longer than the TTL before. *)
Theorem reserved_needs_trust es now a l le :
  TryAcquire (sys_lim (sys_run limits es)) now a = (l, Some le) -> lease_reserved le = true ->
  exists t a', EvMarkAuthenticated t a' ∈ es /\ credentialKey a' = credentialKey a /\
    now <= t + TrustedCredentialTTL n.
Proof.
  intros Ha Hr.
  pose proof (TryAcquire_spec _ _ _ _ _ _ now a (si_lim _ _ (sys_inv_run limits es))) as H.
  rewrite Ha in H. destruct H as (_ & _ & _ & _ & _ & _ & H).
  destruct (H Hr) as (exp & Hexp & Hle). destruct (trusted_history limits es _ _ Hexp) as (t & a' & ? & ? & ->).
  by exists t, a'.
Qed.

End Theorems.

Lemma atLeastOne_id z : 1 <= z -> atLeastOne z = z.
Proof. unfold atLeastOne. destruct (Z.leb_spec z 0); lia. Qed.

Lemma clampReserve_id z total : 0 <= z < total -> clampReserve z total = z.
Proof. intros H. unfold clampReserve. destruct (Z.leb_spec z 0), (Z.leb_spec total z); lia. Qed.

(** The reserve keeps below the total on all three dimensions, or is nothing. *)
Lemma reserve_room limits :
  let n := normalizeLimits limits in
  1 <= MaxConcurrent n - ReservedConcurrent n /\ 1 <= RatePerSecond n - ReservedRatePerSecond n /\
  1 <= Burst n - ReservedBurst n /\
  ((ReservedConcurrent n = 0 /\ ReservedRatePerSecond n = 0 /\ ReservedBurst n = 0) \/
   (1 <= ReservedConcurrent n /\ 1 <= ReservedRatePerSecond n /\ 1 <= ReservedBurst n)).
Proof.
  simpl.
  pose proof (atLeastOne_pos (MaxConcurrent limits)) as H1.
  pose proof (atLeastOne_pos (RatePerSecond limits)) as H2.
  pose proof (atLeastOne_pos (Burst limits)) as H3.
  pose proof (clampReserve_range (ReservedConcurrent limits) _ H1).
  pose proof (clampReserve_range (ReservedRatePerSecond limits) _ H2).
  pose proof (clampReserve_range (ReservedBurst limits) _ H3).
  destruct (_ && _) eqn:E; b2p; lia.
Qed.

Lemma normalizeLimits_idem limits : normalizeLimits (normalizeLimits limits) = normalizeLimits limits.
Proof.
  unfold normalizeLimits at 1.
  destruct (reserve_room limits) as (R1 & R2 & R3 & R4).
  assert (R0 : 0 <= ReservedConcurrent (normalizeLimits limits) /\
    0 <= ReservedRatePerSecond (normalizeLimits limits) /\ 0 <= ReservedBurst (normalizeLimits limits)) by lia.
  assert (Hid : forall f, (exists z, f (normalizeLimits limits) = atLeastOne z) ->
    atLeastOne (f (normalizeLimits limits)) = f (normalizeLimits limits)).
  { intros f [z ->]. apply atLeastOne_id, atLeastOne_pos. }
  rewrite !Hid by (by eexists). rewrite !clampReserve_id by lia.
  set (n := normalizeLimits limits) in *.
  assert (Ht : TrustedCredentialTTL n <=? 0 = false).
  { subst n. simpl. destruct (Z.leb_spec (TrustedCredentialTTL limits) 0); lia. }
  rewrite Ht. clear Hid Ht. clearbody n.
  destruct R4 as [(E1 & E2 & E3)|(E1 & E2 & E3)].
  - rewrite E1, E2, E3, andb_false_r. by destruct n; simpl in *; subst.
  - replace (_ && _) with true by (symmetry; repeat (apply andb_true_intro; split); lia). by destruct n.
Qed.

(** Whatever the configuration, the limiter that runs is sound: every
    limit is at least one, the shared pool keeps at least one slot, one token
    per second and one token of burst, and the reserved pool is either switched
    off entirely or has some of each. *)
Theorem normalizeLimits_sound limits :
  let n := normalizeLimits limits in
  Forall (fun f => 1 <= f n)
    [MaxConcurrent; RatePerSecond; Burst; PerClientMaxConcurrent; PerClientRatePerSecond; PerClientBurst;
     PerPrincipalMaxConcurrent; PerPrincipalRatePerSecond; PerPrincipalBurst;
     IngressPerClientRatePerSecond; IngressPerClientBurst; MaxKeys; TrustedCredentialTTL] /\
  1 <= MaxConcurrent n - ReservedConcurrent n /\ 1 <= RatePerSecond n - ReservedRatePerSecond n /\
  1 <= Burst n - ReservedBurst n /\
  ((ReservedConcurrent n = 0 /\ ReservedRatePerSecond n = 0 /\ ReservedBurst n = 0) \/
   (1 <= ReservedConcurrent n /\ 1 <= ReservedRatePerSecond n /\ 1 <= ReservedBurst n)) /\
  normalizeLimits n = n.
Proof.
  intros n. split_and!.
  - repeat constructor; simpl; try apply atLeastOne_pos. destruct (Z.leb_spec (TrustedCredentialTTL limits) 0); lia.
  - apply reserve_room.
  - apply reserve_room.
  - apply reserve_room.
  - apply reserve_room.
  - apply normalizeLimits_idem.
Qed.
End WithFloat.

(** ** Digests *)

Lemma digest_input_cons part parts :
  digest_input (part :: parts) = be_bytes 8 (Z.of_nat (length part)) ++ part ++ digest_input parts.
Proof. unfold digest_input. cbn [map concat]. by rewrite <- app_assoc. Qed.

Lemma be_bytes_nonempty s t : be_bytes 8 s ++ t <> [].
Proof. intros H%(f_equal length). rewrite length_app, length_be_bytes in H. simpl in H. lia. Qed.

Definition digestible (part : gostring) : Prop := Z.of_nat (length part) < 2 ^ 64.

(** Digest inputs are unambiguous: two lists of parts are fed to the hash
    as the same octets only when they are the same list, so a client, a
    principal and a credential digest never share an input and no choice of user
    name and password imitates another. *)
Theorem digest_input_inj ps qs :
  Forall digestible ps -> Forall digestible qs -> digest_input ps = digest_input qs <-> ps = qs.
Proof.
  intros Hp Hq. split; [|by intros ->]. revert qs Hq.
  induction Hp as [|p ps Hp _ IH]; intros [|q qs] Hq H; [done | | |].
  - rewrite digest_input_cons in H. by apply eq_sym, be_bytes_nonempty in H.
  - rewrite digest_input_cons in H. by apply be_bytes_nonempty in H.
  - inversion Hq as [|?? Hq1 Hq2]; subst. rewrite !digest_input_cons in H.
    assert (Hlen : length p = length q).
    { apply (f_equal (take 8)) in H. rewrite !take_app_length' in H by (by rewrite length_be_bytes).
      apply (f_equal be_value) in H. rewrite !be_value_be_bytes in H. unfold digestible in *.
      rewrite !Z.mod_small in H by (simpl; lia). lia. }
    apply app_inj_1 in H as [_ H]; [|by rewrite !length_be_bytes].
    apply app_inj_1 in H as [<- H]; [|done]. f_equal. by apply IH.
Qed.

Lemma digest_input_inj_witness :
  digest_input [str "credential"; str "ann"; str "pw"] = digest_input [str "credential"; str "annp"; str "w"] <->
  [str "credential"; str "ann"; str "pw"] = [str "credential"; str "annp"; str "w"].
Proof.
  apply (digest_input_inj [str "credential"; str "ann"; str "pw"] [str "credential"; str "annp"; str "w"]);
    repeat constructor.
Defined.

(** ** The rate bound, in exact arithmetic *)

Section Rate.
#[local] Existing Instance exact_rational.
#[local] Open Scope Q_scope.

Inductive pool_op := PoolTry (now : instant) | PoolRelease.

(** One admission as [TryAcquire] uses a pool: ask, and take when it answers yes. *)
Definition pool_step (st : resourcePool * Z) (o : pool_op) : resourcePool * Z :=
  match o with
  | PoolTry now =>
    let '(p, ok) := pool_available st.1 now in
    if ok then (pool_acquire p, (st.2 + 1)%Z) else (p, st.2)
  | PoolRelease => (pool_release st.1, st.2)
  end.

Definition op_in (t1 t2 : instant) (o : pool_op) : Prop :=
  match o with PoolTry now => (t1 <= now <= t2)%Z | PoolRelease => True end.

Definition nanos (z : Z) : Q := inject_Z z / inject_Z 1000000000.

Lemma seconds_exact d : (seconds d : Q) == nanos d.
Proof.
  unfold seconds, nanos. simpl. rewrite (Z.quot_rem' d 1000000000) at 3.
  rewrite inject_Z_plus, inject_Z_mult. field.
Qed.

Lemma nanos_mono a b : (a <= b)%Z -> nanos a <= nanos b.
Proof. intros H. unfold nanos. apply Qmult_le_compat_r; [by rewrite <- Zle_Qle | discriminate]. Qed.

Lemma nanos_minus a b : nanos (a - b) == nanos a - nanos b.
Proof. unfold nanos. unfold Z.sub. rewrite inject_Z_plus, inject_Z_opp. field. Qed.

Lemma time_sub_pos a b : (0 <? time_sub a b)%Z = (b <? a)%Z.
Proof. unfold time_sub, int64_min, int64_max. lia. Qed.

(** Saturation only shortens the interval that earns tokens. *)
Lemma earned_bounds a b (rate : Q) :
  (b < a)%Z -> 0 <= rate ->
  0 <= (seconds (time_sub a b) : Q) * rate /\ (seconds (time_sub a b) : Q) * rate <= nanos (a - b) * rate.
Proof.
  intros Hlt Hr. rewrite seconds_exact. assert (Hs : (0 <= time_sub a b <= a - b)%Z)
    by (unfold time_sub, int64_min, int64_max; lia).
  split.
  - apply Qmult_le_0_compat; [|done]. apply (Qle_trans _ (nanos 0)); [discriminate | apply nanos_mono; lia].
  - apply Qmult_le_compat_r; [|done]. apply nanos_mono. lia.
Qed.

Lemma refill_spec (b : tokenBucket) now (rate burst : Q) :
  (0 <= lastRefill b)%Z -> (0 < now)%Z -> 0 <= rate -> 0 <= burst -> 0 <= tokens b ->
  (lastRefill b <> 0%Z -> tokens b <= burst) ->
  let b' := refill b now rate burst in
  lastRefill b' = Z.max (lastRefill b) now /\ 0 <= tokens b' /\ tokens b' <= burst /\
  (lastRefill b <> 0%Z -> tokens b' <= tokens b + nanos (lastRefill b' - lastRefill b) * rate).
Proof.
  intros Hl Hn Hr Hb Ht Hcap. unfold refill.
  destruct (Z.eqb_spec (lastRefill b) 0) as [E|E].
  { simpl. split; [lia|]. split; [done|]. split; [apply Qle_refl|done]. }
  specialize (Hcap E). rewrite time_sub_pos. destruct (Z.ltb_spec (lastRefill b) now) as [Hlt|Hge].
  - destruct (earned_bounds now (lastRefill b) rate Hlt Hr) as [G1 G2].
    cbn [tokens lastRefill]. set (e := seconds _) in *. cbn [f_lt f_add f_mul exact_rational].
    rewrite Z.max_r by lia. set (gain := e * rate) in *. clearbody gain.
    destruct (Qle_bool (tokens b + gain) burst) eqn:Eq; simpl.
    + apply Qle_bool_iff in Eq. split; [done|]. split; [lra|]. split; [done|]. intros _. lra.
    + assert (~ tokens b + gain <= burst) by (intros H%Qle_bool_iff; congruence).
      split; [done|]. split; [done|]. split; [apply Qle_refl|]. intros _. lra.
  - rewrite Z.max_l by lia. split; [done|]. split; [done|]. split; [done|]. intros _.
    rewrite Z.sub_diag. assert (H0 : nanos 0 == 0) by done. rewrite H0. lra.
Qed.

(** After [g] grants at or after [t1]: either none yet, or the grants and the
    remaining tokens are paid for by the burst and the time since [t1]. *)
Definition window_inv (t1 t2 : instant) (burst rate : Q) (st : resourcePool * Z) : Prop :=
  let b := rp_bucket st.1 in
  rp_rate st.1 = rate /\ rp_burst st.1 = burst /\
  (0 <= lastRefill b <= t2)%Z /\ 0 <= tokens b /\ (lastRefill b <> 0%Z -> tokens b <= burst) /\
  ((st.2 = 0%Z /\ (lastRefill b < t1)%Z) \/
   ((t1 <= lastRefill b)%Z /\
    tokens b + inject_Z st.2 <= burst + nanos (lastRefill b - t1) * rate)).

Lemma window_inv_step t1 t2 burst rate st o :
  (0 < t1)%Z -> 0 <= rate -> 0 <= burst -> op_in t1 t2 o ->
  window_inv t1 t2 burst rate st -> window_inv t1 t2 burst rate (pool_step st o).
Proof.
  intros Ht1 Hr Hb Ho Hst. destruct o as [now|]; simpl.
  2: { unfold pool_release, rp_with. by destruct (0 <? _)%Z. }
  simpl in Ho. destruct Hst as (Er & Eb & Hl & H0 & Hcap & Hw). unfold pool_available.
  destruct (_ || _ || _)%bool; [done|].
  destruct (refill_spec (rp_bucket st.1) now rate burst) as (R1 & R2 & R3 & R4); [lia|lia|done..|].
  rewrite Er, Eb. set (b' := refill _ _ _ _) in *.
  assert (Hw' : tokens b' + inject_Z st.2 <= burst + nanos (lastRefill b' - t1) * rate).
  { destruct Hw as [[-> Hlt]|[Hge Hw]].
    - assert (0 <= nanos (lastRefill b' - t1) * rate); [|change (inject_Z 0) with 0; lra].
      apply Qmult_le_0_compat; [|done]. apply (Qle_trans _ (nanos 0)); [discriminate|]. apply nanos_mono. lia.
    - specialize (R4 ltac:(lia)).
      assert (E : nanos (lastRefill b' - t1) * rate ==
        nanos (lastRefill b' - lastRefill (rp_bucket st.1)) * rate +
        nanos (lastRefill (rp_bucket st.1) - t1) * rate) by (rewrite !nanos_minus; ring).
      rewrite E. lra. }
  destruct (_ && _)%bool eqn:Eok; simpl.
  - apply andb_true_iff in Eok as [_ Eok%Qle_bool_iff]. change (f_of_int 1) with 1 in Eok.
    clearbody b'. split; [done|]. split; [done|]. simpl. change (inject_Z 1) with 1.
    split; [lia|]. split; [lra|]. split; [intros _; lra|]. right. split; [lia|].
    rewrite inject_Z_plus. change (inject_Z 1) with 1. lra.
  - split; [done|]. split; [done|]. split; [simpl; lia|]. split; [done|]. split; [done|]. right.
    split; [simpl; lia | done].
Qed.

Lemma window_inv_steps t1 t2 burst rate ops st :
  (0 < t1)%Z -> 0 <= rate -> 0 <= burst -> Forall (op_in t1 t2) ops ->
  window_inv t1 t2 burst rate st -> window_inv t1 t2 burst rate (fold_left pool_step ops st).
Proof.
  intros H1 Hr Hb Hops. revert st. induction Hops as [|o ops Ho _ IH]; intros st Hst; [done|].
  simpl. apply IH. by apply window_inv_step.
Qed.

(** C15. The admission rate: in any window of time, whatever happened before and
    whatever is released meanwhile, a pool grants at most its burst plus its
    rate times the length of the window. *)
Theorem pool_rate_bound maxConcurrent ratePerSecond burst before window t1 t2 :
  (0 <= ratePerSecond)%Z -> (0 <= burst)%Z -> (0 < t1 <= t2)%Z ->
  Forall (op_in 1 t2) before -> Forall (op_in t1 t2) window ->
  let p := (fold_left pool_step before (newResourcePool maxConcurrent ratePerSecond burst, 0%Z)).1 in
  inject_Z (fold_left pool_step window (p, 0%Z)).2 <=
    inject_Z burst + inject_Z ratePerSecond * inject_Z (t2 - t1) / inject_Z 1000000000.
Proof.
  intros Hr Hb Ht Hbefore Hwin p.
  assert (Hr' : 0 <= inject_Z ratePerSecond) by (change 0 with (inject_Z 0); by rewrite <- Zle_Qle).
  assert (Hb' : 0 <= inject_Z burst) by (change 0 with (inject_Z 0); by rewrite <- Zle_Qle).
  assert (H0 : window_inv 1 t2 (inject_Z burst) (inject_Z ratePerSecond)
    (newResourcePool maxConcurrent ratePerSecond burst, 0%Z)).
  { split; [done|]. split; [done|]. simpl. split; [lia|]. split; [discriminate|]. split; [done|]. left. lia. }
  apply (window_inv_steps 1 t2 _ _ before) in H0; [|lia|done..].
  subst p. destruct (fold_left pool_step before _) as [p g0]. cbn [fst].
  assert (H1 : window_inv t1 t2 (inject_Z burst) (inject_Z ratePerSecond) (p, 0%Z)).
  { destruct H0 as (E1 & E2 & Hl & Htk & Hcap & _). cbn [fst] in *. split; [done|]. split; [done|]. split; [done|].
    split; [done|]. split; [done|]. simpl. destruct (Z.lt_ge_cases (lastRefill (rp_bucket p)) t1); [by left|].
    right. split; [done|]. specialize (Hcap ltac:(lia)).
    assert (0 <= nanos (lastRefill (rp_bucket p) - t1) * inject_Z ratePerSecond); [|change (inject_Z 0) with 0; lra].
    apply Qmult_le_0_compat; [|done]. apply (Qle_trans _ (nanos 0)); [discriminate|]. apply nanos_mono. lia. }
  apply (window_inv_steps t1 t2 _ _ window) in H1; [|lia|done..].
  set (g := (fold_left pool_step window (p, 0%Z)).2).
  destruct H1 as (_ & _ & Hl & Htk & _ & H1). fold g in H1.
  assert (Hlen : 0 <= nanos (t2 - t1) * inject_Z ratePerSecond).
  { apply Qmult_le_0_compat; [|done]. apply (Qle_trans _ (nanos 0)); [discriminate|]. apply nanos_mono. lia. }
  assert (E : inject_Z ratePerSecond * inject_Z (t2 - t1) / inject_Z 1000000000 ==
    nanos (t2 - t1) * inject_Z ratePerSecond) by (unfold nanos; field).
  rewrite E. destruct H1 as [[-> _]|[Hge H1]]; [change (inject_Z 0) with 0; lra|].
  assert (nanos (lastRefill (rp_bucket (fold_left pool_step window (p, 0%Z)).1) - t1) * inject_Z ratePerSecond
    <= nanos (t2 - t1) * inject_Z ratePerSecond); [|lra].
  apply Qmult_le_compat_r; [|done]. apply nanos_mono. lia.
Qed.
End Rate.

Section LimiterWitnesses.
#[local] Existing Instance ieee_double.

Definition sample_limits : Limits := {|
  MaxConcurrent := 2; RatePerSecond := 20; Burst := 20;
  ReservedConcurrent := 1; ReservedRatePerSecond := 10; ReservedBurst := 10;
  PerClientMaxConcurrent := 5; PerClientRatePerSecond := 10; PerClientBurst := 10;
  PerPrincipalMaxConcurrent := 5; PerPrincipalRatePerSecond := 10; PerPrincipalBurst := 10;
  IngressPerClientRatePerSecond := 10; IngressPerClientBurst := 10;
  MaxKeys := 4; TrustedCredentialTTL := 1000 |}.

Definition sample_attempt : Attempt :=
  {| clientKey := str "c"; principalKey := str "p"; credentialKey := str "k" |}.

Definition sample_events : list event :=
  [EvMarkAuthenticated 10 sample_attempt; EvTryAcquire 20 sample_attempt].

Lemma acquire_result l now a r :
  (TryAcquire l now a).2 = r -> TryAcquire l now a = ((TryAcquire l now a).1, r).
Proof. intros <-. apply surjective_pairing. Qed.

(** With the shared pool exhausted, the trusted credential gets a reserved slot. *)
Lemma reserved_needs_trust_witness :
  exists t a', EvMarkAuthenticated t a' ∈ sample_events /\ credentialKey a' = credentialKey sample_attempt /\
    30 <= t + 1000.
Proof.
  apply (reserved_needs_trust sample_limits sample_events 30 sample_attempt
    (TryAcquire (sys_lim (sys_run sample_limits sample_events)) 30 sample_attempt).1
    {| lease_client := 0%nat; lease_principal := 0%nat; lease_reserved := true |}).
  - apply acquire_result. vm_compute. reflexivity.
  - reflexivity.
Defined.

(** Three requests in two nanoseconds against a pool of burst two. *)
Lemma pool_rate_bound_witness :
  Qle (inject_Z (fold_left (@pool_step) [PoolTry 5; PoolTry 6; PoolRelease; PoolTry 7]
         (@newResourcePool exact_rational 10 1 2, 0)).2)
      (inject_Z 2 + inject_Z 1 * inject_Z (7 - 5) / inject_Z 1000000000).
Proof.
  apply (pool_rate_bound 10 1 2 [] [PoolTry 5; PoolTry 6; PoolRelease; PoolTry 7] 5 7);
    [lia | lia | lia | constructor | repeat constructor; simpl; lia].
Defined.
End LimiterWitnesses.
