(* ===== verification/Http.v ===== *)
(** * HTTP requests as the gateway sees them (net/http and net/url)

    Header maps with canonical keys, query strings and the request record that
    the SigV4 verifier, the router and the handlers read. *)

From S2P Require Import Prelude GoStrings.

(** ** Header maps *)

Definition is_alnum (b : byte) : bool := in_range 48 57 b || in_range 65 90 b || in_range 97 122 b.

(** [validHeaderFieldByte]: the token characters of RFC 7230. *)
Definition valid_header_byte (b : byte) : bool :=
  is_alnum b || bool_decide (b ∈ str "!#$%&'*+-.^_`|~").

(** Upper case first and after each hyphen, lower case elsewhere. *)
Fixpoint mime_case (upper : bool) (s : gostring) : gostring :=
  match s with
  | [] => []
  | b :: s => (if upper then upper_byte b else lower_byte b) :: mime_case (bool_decide (b = "-"%byte)) s
  end.

Definition CanonicalMIMEHeaderKey (s : gostring) : gostring :=
  if forallb valid_header_byte s then mime_case true s else s.

Abbreviation Values := (gmap gostring (list gostring)).
Abbreviation Header := (gmap gostring (list gostring)).

(** [Header.Values] and [Header.Get]. *)
Definition hvalues (h : Header) (name : gostring) : list gostring :=
  default [] (h !! CanonicalMIMEHeaderKey name).
Definition hget (h : Header) (name : gostring) : gostring := default [] (head (hvalues h name)).
Definition hset (h : Header) (name value : gostring) : Header := <[CanonicalMIMEHeaderKey name := [value]]> h.

(** ** Query strings *)

(** [url.QueryUnescape]; [None] is its error. *)
Fixpoint QueryUnescape (s : gostring) : option gostring :=
  match s with
  | [] => Some []
  | c :: s' =>
    if decide (c = "%"%byte) then
      match s' with
      | h :: l :: s'' =>
        match hex_val h, hex_val l with
        | Some h, Some l => cons (zb (16 * h + l)) <$> QueryUnescape s''
        | _, _ => None
        end
      | _ => None
      end
    else cons (if decide (c = "+"%byte) then " "%byte else c) <$> QueryUnescape s'
  end.

(** [url.QueryEscape]. *)
Definition query_safe (b : byte) : bool := is_alnum b || bool_decide (b ∈ ["-"; "_"; "."; "~"]%byte).
Definition escape_query (b : byte) : gostring :=
  if decide (b = " "%byte) then str "+" else if query_safe b then [b] else "%"%byte :: hex_byte true b.
Definition QueryEscape (s : gostring) : gostring := concat (map escape_query s).

Lemma QueryUnescape_QueryEscape s : QueryUnescape (QueryEscape s) = Some s.
Proof.
  induction s as [|b s IH]; [done|]. unfold QueryEscape in *. cbn [map concat].
  assert (H : forall t, QueryUnescape (escape_query b ++ t) = cons b <$> QueryUnescape t); [|by rewrite H, IH].
  intros t. destruct b; reflexivity.
Qed.

(** One [key=value] setting of [url.parseQuery]; settings it rejects are skipped. *)
Definition add_setting (m : Values) (kv : gostring) : Values :=
  if decide (";"%byte ∈ kv) then m
  else if decide (kv = []) then m
  else
    let '(k, v) := default (kv, []) (Cut kv "="%byte) in
    match QueryUnescape k, QueryUnescape v with
    | Some k, Some v => <[k := default [] (m !! k) ++ [v]]> m
    | _, _ => m
    end.

(** [URL.Query]. *)
Definition ParseQuery (raw : gostring) : Values := fold_left add_setting (Split raw "&"%byte) ∅.

Definition qget (q : Values) (k : gostring) : gostring := default [] (head (default [] (q !! k))).
Definition qhas (q : Values) (k : gostring) : bool := bool_decide (is_Some (q !! k)).

(** ** Requests *)

(** The body: absent ([nil] or [http.NoBody]), the octets the client sends, or
    a body behind the reader that checks it against a SHA-256 digest. *)
Inductive ReqBody :=
| NoBody
| RawBody (octets : gostring)
| HashedBody (inner : ReqBody) (expected : gostring).

Record Request := {
  Method : gostring;
  Path : gostring;              (* URL.Path, unescaped *)
  EscapedPath : gostring;       (* URL.EscapedPath() *)
  RawQuery : gostring;
  URLHost : gostring;
  Host : gostring;
  RemoteAddr : gostring;
  Hdr : Header;
  ContentLength : Z;            (* -1 when unknown *)
  Body : ReqBody;
  TLS : bool                    (* r.TLS <> nil *)
}.

Definition Query (r : Request) : Values := ParseQuery (RawQuery r).

Definition with_body (r : Request) (b : ReqBody) : Request :=
  {| Method := Method r; Path := Path r; EscapedPath := EscapedPath r; RawQuery := RawQuery r;
     URLHost := URLHost r; Host := Host r; RemoteAddr := RemoteAddr r; Hdr := Hdr r;
     ContentLength := ContentLength r; Body := b; TLS := TLS r |}.

Definition has_body (r : Request) : bool := match Body r with NoBody => false | _ => true end.

Example canonical_key_example :
  CanonicalMIMEHeaderKey (str "x-amz-content-sha256") = str "X-Amz-Content-Sha256".
Proof. reflexivity. Qed.

Example parse_query_example :
  (ParseQuery (str "a=1&a=%2F+x&b&c;d") !! str "a", ParseQuery (str "a=1&b") !! str "b") =
  (Some [str "1"; str "/ x"], Some [[]]).
Proof. vm_compute. reflexivity. Qed.
