(* ===== verification/NetIP.v ===== *)
(** * Network addresses (net/netip and net, as the gateway uses them)

    Parsing of IPv4 and IPv6 addresses, prefixes and host:port pairs, the text of
    an address, and membership of an address in a prefix. *)

From S2P Require Import Prelude GoStrings.

#[local] Open Scope Z_scope.

(** ** Addresses *)

Record Addr := { Is4 : bool; AddrBits : Z; Zone : gostring }.

#[global] Instance Addr_eq_dec : EqDecision Addr.
Proof. solve_decision. Defined.

Definition v4 (n : Z) : Addr := {| Is4 := true; AddrBits := n; Zone := [] |}.
Definition v6 (n : Z) (zone : gostring) : Addr := {| Is4 := false; AddrBits := n; Zone := zone |}.
Definition bit_len (a : Addr) : Z := if Is4 a then 32 else 128.

(** [Addr.Unmap]: the IPv4 address inside an IPv4-mapped IPv6 address. *)
Definition is_4in6 (a : Addr) : bool := negb (Is4 a) && (Z.shiftr (AddrBits a) 32 =? 0xffff).
Definition Unmap (a : Addr) : Addr := if is_4in6 a then v4 (Z.land (AddrBits a) 0xffffffff) else a.

(** ** Parsing *)

(** One decimal field of an IPv4 address: digits without a leading zero, at most 255. *)
Definition v4_field (s : gostring) : option Z :=
  match s with
  | [] => None
  | b :: rest =>
    if decide (b = "0"%byte /\ rest <> []) then None
    else if negb (forallb (in_range 48 57) s) then None
    else
      match digits_val 10 0 s with
      | Some n => if n <=? 255 then Some n else None
      | None => None
      end
  end.

Definition v4_fields (s : gostring) : option Z :=
  match map v4_field (Split s "."%byte) with
  | [Some a; Some b; Some c; Some d] => Some (a * 2 ^ 24 + b * 2 ^ 16 + c * 2 ^ 8 + d)
  | _ => None
  end.

(** The hexadecimal digits in front of [s]: how many, their value, and the rest. *)
Fixpoint hex_group (s : gostring) (count acc : Z) : Z * Z * gostring :=
  match s with
  | [] => (count, acc, [])
  | b :: rest =>
    match hex_val b with
    | Some d => hex_group rest (count + 1) (acc * 16 + d)
    | None => (count, acc, s)
    end
  end.

(** The groups of an IPv6 address, left to right: the 16-bit groups read so far,
    and where the ellipsis was, if any.  [fuel] bounds the eight groups. *)
Fixpoint v6_groups (fuel : nat) (s : gostring) (groups : list Z) (ellipsis : option nat)
    : option (list Z * option nat) :=
  match fuel with
  | O => if decide (s = []) then Some (groups, ellipsis) else None
  | S fuel =>
    let '(n, acc, rest) := hex_group s 0 0 in
    if (n =? 0) || (4 <? n) then None
    else
      match rest with
      | b :: rest' =>
        if decide (b = "."%byte) then
          (* an embedded IPv4 address must end the text and leave room *)
          if (bool_decide (ellipsis = None) && negb (length groups =? 6)%nat) || (6 <? length groups)%nat then None
          else
            match v4_fields s with
            | Some v => Some (groups ++ [Z.shiftr v 16; Z.land v 0xffff], ellipsis)
            | None => None
            end
        else if decide (b = ":"%byte) then
          let groups := groups ++ [acc] in
          match rest' with
          | [] => None
          | b2 :: rest2 =>
            if decide (b2 = ":"%byte) then
              if decide (ellipsis = None) then
                if decide (rest2 = []) then Some (groups, Some (length groups))
                else v6_groups fuel rest2 groups (Some (length groups))
              else None
            else v6_groups fuel rest' groups ellipsis
          end
        else None
      | [] => Some (groups ++ [acc], ellipsis)
      end
  end.

Definition groups_val (gs : list Z) : Z := fold_left (fun acc g => acc * 2 ^ 16 + g) gs 0.

(** The groups with the ellipsis filled in. *)
Definition expand_groups (gs : list Z) (ellipsis : option nat) : option Z :=
  match ellipsis with
  | None => if (length gs =? 8)%nat then Some (groups_val gs) else None
  | Some e =>
    if (8 <=? length gs)%nat then None
    else Some (groups_val (take e gs ++ replicate (8 - length gs) 0 ++ drop e gs))
  end.

Definition parseIPv6 (input : gostring) : option Addr :=
  let '(s, zone) := default (input, []) (Cut input "%"%byte) in
  if bool_decide ("%"%byte ∈ input) && bool_decide (zone = []) then None
  else
    let body (s : gostring) (e : option nat) :=
      '(gs, e) ← v6_groups 8 s [] e; n ← expand_groups gs e; Some (v6 n zone) in
    if HasPrefix s (str "::") then
      let s := drop 2 s in
      if decide (s = []) then Some (v6 0 zone) else body s (Some 0%nat)
    else body s None.

Fixpoint ParseAddr_at (s whole : gostring) : option Addr :=
  match s with
  | [] => None
  | b :: rest =>
    if decide (b = "."%byte) then v4 <$> v4_fields whole
    else if decide (b = ":"%byte) then parseIPv6 whole
    else if decide (b = "%"%byte) then None
    else ParseAddr_at rest whole
  end.
Definition ParseAddr (s : gostring) : option Addr := ParseAddr_at s s.

(** [net.SplitHostPort]: the host, or [None] for its errors. *)
Definition LastIndex (s : gostring) (c : byte) : Z :=
  let i := Index (reverse s) c in if i <? 0 then -1 else Z.of_nat (length s) - 1 - i.

Definition SplitHostPort (hp : gostring) : option (gostring * gostring) :=
  let i := LastIndex hp ":"%byte in
  if i <? 0 then None
  else
    let port := slice_from hp (i + 1) in
    let ok host j k :=
      if bool_decide ("["%byte ∈ slice_from hp j) || bool_decide ("]"%byte ∈ slice_from hp k) then None
      else Some (host, port) in
    if HasPrefix hp (str "[") then
      let e := Index hp "]"%byte in
      if e <? 0 then None
      else if e + 1 =? i then ok (slice_from (slice_to hp e) 1) 1 (e + 1) else None
    else
      let host := slice_to hp i in
      if bool_decide (":"%byte ∈ host) then None else ok host 0 0.

(** ** Text *)

Definition v4_text (n : Z) : gostring :=
  Join (map FormatInt [Z.shiftr n 24; Z.land (Z.shiftr n 16) 255; Z.land (Z.shiftr n 8) 255; Z.land n 255]) (str ".").

Fixpoint hex_digits (fuel : nat) (n : Z) : gostring :=
  match fuel with
  | O => []
  | S fuel => (if n <? 16 then [] else hex_digits fuel (n / 16)) ++ [hex_digit false (n mod 16)]
  end.

Definition v6_group_list (n : Z) : list Z :=
  map (fun i => Z.land (Z.shiftr n (16 * (7 - i))) 0xffff) [0; 1; 2; 3; 4; 5; 6; 7].

Fixpoint zero_run (gs : list Z) : nat :=
  match gs with
  | g :: gs => if g =? 0 then S (zero_run gs) else O
  | [] => O
  end.

(** The first longest run of at least two zero groups: its place and length. *)
Fixpoint best_run (gs : list Z) (i : nat) (best : nat * nat) : nat * nat :=
  match gs with
  | [] => best
  | g :: rest => let n := zero_run gs in best_run rest (S i) (if (best.2 <? n)%nat then (i, n) else best)
  end.

Definition v6_text (n : Z) : gostring :=
  let gs := v6_group_list n in
  let text gs := Join (map (hex_digits 4) gs) (str ":") in
  let '(i, k) := best_run gs 0 (0, 1)%nat in
  if (1 <? k)%nat then text (take i gs) ++ str "::" ++ text (drop (i + k) gs) else text gs.

(** [Addr.String]. *)
Definition addr_text (a : Addr) : gostring :=
  if Is4 a then v4_text (AddrBits a)
  else
    (if is_4in6 a then str "::ffff:" ++ v4_text (Z.land (AddrBits a) 0xffffffff) else v6_text (AddrBits a)) ++
    (if decide (Zone a = []) then [] else "%"%byte :: Zone a).

(** ** Prefixes *)

Record Prefix := { PAddr : Addr; PBits : Z }.

Definition ParsePrefix (s : gostring) : option Prefix :=
  let i := LastIndex s "/"%byte in
  if i <? 0 then None
  else
    a ← ParseAddr (slice_to s i);
    let bitsStr := slice_from s (i + 1) in
    if decide (Zone a <> []) then None
    else if (1 <? Z.of_nat (length bitsStr)) && negb (forallb (in_range 49 57) (take 1 bitsStr)) then None
    else
      bits ← ParseInt bitsStr 10 64;
      if (bits <? 0) || (bit_len a <? bits) then None else Some {| PAddr := a; PBits := bits |}.

(** [Prefix.Contains]: same family, no zone, and the same leading bits. *)
Definition Contains (p : Prefix) (a : Addr) : bool :=
  bool_decide (Zone a = []) && Bool.eqb (Is4 (PAddr p)) (Is4 a) &&
  (Z.shiftr (AddrBits (PAddr p)) (bit_len a - PBits p) =? Z.shiftr (AddrBits a) (bit_len a - PBits p)).

(** [Prefix.Masked]. *)
Definition Masked (p : Prefix) : Prefix :=
  let k := bit_len (PAddr p) - PBits p in
  {| PAddr := {| Is4 := Is4 (PAddr p); AddrBits := Z.shiftl (Z.shiftr (AddrBits (PAddr p)) k) k; Zone := Zone (PAddr p) |};
     PBits := PBits p |}.

(** ** Examples *)

Definition reprint (s : string) : option gostring := addr_text <$> ParseAddr (str s).

Example parse_addr_examples :
  map reprint ["192.0.2.7"; "01.2.3.4"; "1.2.3"; "1.2.3.256"; "2001:DB8:0:0:1:0:0:1"; "::"; "::1"; "fe80::1%eth0";
               "::ffff:10.0.0.1"; "1::2::3"; "1:2:3:4:5:6:7:8"; "1:2:3:4:5:6:7"; "1:2:3:4:5:6:7:8:9"; "12345::"; "1::"]%string
  = [Some (str "192.0.2.7"); None; None; None; Some (str "2001:db8::1:0:0:1"); Some (str "::"); Some (str "::1");
     Some (str "fe80::1%eth0"); Some (str "::ffff:10.0.0.1"); None; Some (str "1:2:3:4:5:6:7:8"); None; None; None;
     Some (str "1::")].
Proof. vm_compute. reflexivity. Qed.

Example prefix_examples :
  (p ← ParsePrefix (str "10.1.2.3/8"); a ← ParseAddr (str "10.200.0.1"); b ← ParseAddr (str "11.0.0.1");
   Some (Contains (Masked p) a, Contains (Masked p) b)) = Some (true, false) /\
  SplitHostPort (str "[2001:db8::1]:443") = Some (str "2001:db8::1", str "443") /\
  SplitHostPort (str "2001:db8::1") = None /\ ParsePrefix (str "10.0.0.0/+8") = None /\ ParsePrefix (str "::/0") <> None.
Proof. vm_compute. by repeat split. Qed.
