(* ===== verification/Routing.v ===== *)
(** * Request routing (src/internal/server/server.go, encryption_unsupported.go)

    What [ServeHTTP] makes of a request: which handler runs, or which error
    response is written.  Handlers appear as the operations of [Operation]; the
    checks on query parameters, paths, methods and headers in front of them are
    modelled as the code has them. *)

From S2P Require Import Prelude GoStrings Http NetIP SigV4 Stream.

#[local] Open Scope Z_scope.

(** ** Outcomes *)

Inductive Operation :=
| OpReadyz
| OpPop
| OpListBuckets
(* /bucket *)
| OpPutBucketLifecycle (bucket : gostring) | OpGetBucketLifecycle (bucket : gostring)
| OpDeleteBucketLifecycle (bucket : gostring)
| OpPutBucketVersioning (bucket : gostring) | OpGetBucketVersioning (bucket : gostring)
| OpPutBucketTagging (bucket : gostring) | OpGetBucketTagging (bucket : gostring)
| OpDeleteBucketTagging (bucket : gostring)
| OpGetBucketACL (bucket : gostring) | OpPutBucketACL (bucket : gostring)
| OpBucketConfigRead (bucket cfgKey : gostring)
| OpDeleteObjects (bucket : gostring)
| OpGetBucketLocation (bucket : gostring)
| OpListObjectVersions (bucket : gostring)
| OpListMultipartUploads (bucket : gostring)
| OpCreateBucket (bucket : gostring) | OpDeleteBucket (bucket : gostring) | OpHeadBucket (bucket : gostring)
| OpListObjectsV2 (bucket : gostring) | OpListObjects (bucket : gostring)
(* /bucket/key *)
| OpGetObjectACL (bucket key : gostring) | OpPutObjectACL (bucket key : gostring)
| OpPutObjectTagging (bucket key : gostring) | OpGetObjectTagging (bucket key : gostring)
| OpDeleteObjectTagging (bucket key : gostring)
| OpCreateMultipart (bucket key : gostring)
| OpGetObjectAttributes (bucket key : gostring)
| OpListParts (bucket key uploadID : gostring)
| OpUploadPartCopy (bucket key uploadID : gostring) (part : Z)
| OpUploadPart (bucket key uploadID : gostring) (part : Z)
| OpCompleteMultipart (bucket key uploadID : gostring)
| OpAbortMultipart (bucket key uploadID : gostring)
| OpGetObject (bucket key : gostring) | OpHeadObject (bucket key : gostring)
| OpCopyObject (bucket key : gostring) | OpPutObject (bucket key : gostring)
| OpDeleteObject (bucket key : gostring).

#[global] Instance Operation_eq_dec : EqDecision Operation.
Proof. solve_decision. Defined.

Inductive Outcome :=
| PlainOK (body : gostring)                          (* /healthz *)
| PageNotFound                                       (* http.NotFound *)
| MethodNotAllowed (allow : gostring)
| XMLError (status : Z) (code message : gostring)    (* s3xml.WriteError *)
| Handle (o : Operation).

Definition NotImplemented : Outcome := XMLError 501 (str "NotImplemented") (str "Operation not implemented").

(** ** Methods *)

Definition GET := str "GET".
Definition HEAD := str "HEAD".
Definition PUT := str "PUT".
Definition POST := str "POST".
Definition DELETE := str "DELETE".

(** ** Queries *)

(** [url.ParseQuery]: the settings it accepts, and whether it reports an error. *)
Definition setting_ok (kv : gostring) : bool :=
  negb (bool_decide (";"%byte ∈ kv)) &&
  let '(k, v) := default (kv, []) (Cut kv "="%byte) in
  bool_decide (is_Some (QueryUnescape k)) && bool_decide (is_Some (QueryUnescape v)).
Definition query_ok (raw : gostring) : bool := forallb setting_ok (Split raw "&"%byte).

Definition supportedS3QueryParameters : list gostring := map str
  ["accelerate"; "acl"; "attributes"; "bucket-region"; "continuation-token"; "cors"; "delete"; "delimiter";
   "encoding-type"; "fetch-owner"; "key-marker"; "lifecycle"; "list-type"; "location"; "logging"; "marker";
   "max-buckets"; "max-keys"; "max-parts"; "max-uploads"; "notification"; "optional-object-attributes";
   "part-number-marker"; "partNumber"; "policy"; "policyStatus"; "prefix"; "publicAccessBlock"; "replication";
   "requestPayment"; "response-cache-control"; "response-content-disposition"; "response-content-encoding";
   "response-content-language"; "response-content-type"; "response-expires"; "start-after"; "tagging";
   "upload-id-marker"; "uploadId"; "uploads"; "version-id-marker"; "versionId"; "versioning"; "versions";
   "website"; "withUpdatedAt"; "x-id"]%string.

Definition bucketOnlySubresources : list gostring := map str
  ["accelerate"; "cors"; "delete"; "lifecycle"; "location"; "logging"; "notification"; "policy"; "policyStatus";
   "publicAccessBlock"; "replication"; "requestPayment"; "versioning"; "versions"; "website"]%string.

Definition bucketConfigReadKeys : list gostring := map str
  ["policy"; "policyStatus"; "cors"; "website"; "replication"; "logging"; "notification"; "requestPayment";
   "accelerate"; "publicAccessBlock"]%string.

(** ** Encryption options *)

Section WithUnicode.
Context {U : UnicodeCase} {MI : MapIter}.

Definition isEncryptionRequestHeader (name : gostring) : bool :=
  let name := ToLower name in
  existsb (fun prefix => bool_decide (name = prefix) || HasPrefix name (prefix ++ str "-"))
    [str "x-amz-server-side-encryption"; str "x-amz-copy-source-server-side-encryption"].

(** [h] and [trailer] are the request's [Header] and [Trailer]; the loops stop at
    the first hit, so their order does not matter. *)
Definition hasEncryptionRequestHeaders (h trailer : Header) : bool :=
  existsb (fun nv : gostring * list gostring =>
      isEncryptionRequestHeader nv.1 ||
      ((EqualFold nv.1 (str "Trailer") || EqualFold nv.1 (str "x-amz-trailer")) &&
       existsb (fun value =>
         existsb (fun declared => isEncryptionRequestHeader (TrimSpace declared)) (Split value ","%byte)) nv.2))
    (map_iter h) ||
  existsb (fun nv : gostring * list gostring => isEncryptionRequestHeader nv.1) (map_iter trailer).

(** ** Checks on the query *)

Definition firstUnsupportedSubresource (q : Values) : gostring :=
  let found := filter (fun k => k ∉ supportedS3QueryParameters) (map fst (map_iter q)) in
  default [] (head (sort_strings found)).

Definition blank (s : gostring) : bool := bool_decide (TrimSpace s = []).

(** A parameter that needs an object path and exactly one value that is not blank. *)
Definition single_value (objectPath : bool) (vs : list gostring) : bool :=
  objectPath && match vs with [v] => negb (blank v) | _ => false end.

Definition uploadId_companions : list gostring :=
  map str ["uploadId"; "partNumber"; "part-number-marker"; "max-parts"; "x-id"]%string.

Definition validateS3OperationQuery (method path : gostring) (q : Values) : result gostring unit :=
  require! negb (qhas q []) else str "query parameter names must not be empty" in
  require! negb ((qhas q (str "max-buckets") || qhas q (str "bucket-region")) &&
                 (bool_decide (method <> GET) || bool_decide (path <> str "/")))
    else str "max-buckets and bucket-region require a ListBuckets request" in
  let objectPath := match Cut (TrimPrefix path (str "/")) "/"%byte with
                    | Some (_, key) => bool_decide (key <> [])
                    | None => false
                    end in
  let! _ :=
    match q !! str "uploadId" with
    | Some uploadIDs =>
      require! single_value objectPath uploadIDs else str "uploadId requires an object path and one non-empty value" in
      rguard (forallb (fun name => bool_decide (name ∈ uploadId_companions)) (map fst (map_iter q)))
        (str "uploadId cannot be combined with another operation")
    | None => Ok tt
    end in
  let! _ :=
    match q !! str "partNumber" with
    | Some partNumbers =>
      require! single_value objectPath partNumbers else str "partNumber requires an object path and one non-empty value" in
      rguard (negb (negb (qhas q (str "uploadId")) && bool_decide (method <> GET) && bool_decide (method <> HEAD)))
        (str "partNumber requires uploadId for this operation")
    | None => Ok tt
    end in
  rguard (negb (qhas q (str "attributes") && negb objectPath)) (str "attributes requires an object path").

Definition plainMutationQueryAllowed (method : gostring) (objectPath : bool) (q : Values) : bool :=
  if bool_decide (method <> PUT) && bool_decide (method <> DELETE) then true
  else
    forallb (fun name =>
      bool_decide (name = str "x-id") ||
      (objectPath && bool_decide (method = DELETE) && bool_decide (name = str "versionId")))
      (map fst (map_iter q)).

Definition has_copy_source (r : Request) : bool := negb (blank (hget (Hdr r) (str "x-amz-copy-source"))).

Definition supportsStreamingPayload (r : Request) : bool :=
  if bool_decide (Method r <> PUT) || has_copy_source r then false
  else
    match Cut (TrimPrefix (Path r) (str "/")) "/"%byte with
    | Some (bucket, key) =>
      bool_decide (bucket <> []) && bool_decide (key <> []) &&
      forallb (fun name => bool_decide (name ∈ [str "x-id"; str "uploadId"; str "partNumber"]))
        (map fst (map_iter (Query r)))
    | None => false
    end.

(** ** The pop API's paths (pop.go) *)

Definition isPopAPIPath (path : gostring) : bool :=
  bool_decide (path = str "/api/pop") || bool_decide (path = str "/api/pop/") || HasPrefix path (str "/api/pop/").
Definition isPopAPIMethod (method : gostring) : bool := bool_decide (method = GET) || bool_decide (method = POST).
Definition parsePopAPIPath (path : gostring) : option (gostring * gostring) :=
  if negb (HasPrefix path (str "/api/pop/")) then None
  else
    match Split (TrimSuffix (TrimPrefix path (str "/api/pop/")) (str "/")) "/"%byte with
    | [scope; group] => if decide (scope = [] \/ group = []) then None else Some (scope, group)
    | _ => None
    end.

(** ** Dispatch *)

(** The operation of a subresource by method; any other method is not implemented. *)
Definition by_method (ms : list (gostring * Outcome)) (method : gostring) : Outcome :=
  match list_find (fun mo : gostring * Outcome => mo.1 = method) ms with
  | Some (_, (_, o)) => o
  | None => NotImplemented
  end.

(** The branches of [ServeHTTP] for [/bucket] that a subresource selects, in order. *)
Definition bucket_subresources (bucket : gostring) : list (gostring * list (gostring * Outcome)) :=
  [(str "lifecycle", [(PUT, Handle (OpPutBucketLifecycle bucket)); (GET, Handle (OpGetBucketLifecycle bucket));
                      (DELETE, Handle (OpDeleteBucketLifecycle bucket))]);
   (str "versioning", [(PUT, Handle (OpPutBucketVersioning bucket)); (GET, Handle (OpGetBucketVersioning bucket))]);
   (str "tagging", [(PUT, Handle (OpPutBucketTagging bucket)); (GET, Handle (OpGetBucketTagging bucket));
                    (DELETE, Handle (OpDeleteBucketTagging bucket))]);
   (str "acl", [(GET, Handle (OpGetBucketACL bucket)); (PUT, Handle (OpPutBucketACL bucket))])] ++
  map (fun k => (k, [(GET, Handle (OpBucketConfigRead bucket k))])) bucketConfigReadKeys ++
  [(str "delete", [(POST, Handle (OpDeleteObjects bucket))]);
   (str "location", [(GET, Handle (OpGetBucketLocation bucket))]);
   (str "versions", [(GET, Handle (OpListObjectVersions bucket))]);
   (str "uploads", [(GET, Handle (OpListMultipartUploads bucket))])].

(** The first branch whose subresource the query has. *)
Definition select_subresource (q : Values) (branches : list (gostring * list (gostring * Outcome)))
    : option (gostring * list (gostring * Outcome)) :=
  snd <$> list_find (fun b : gostring * list (gostring * Outcome) => qhas q b.1 = true) branches.

Definition not_allowed : Outcome :=
  XMLError 501 (str "NotImplemented") (str "Query parameters are not supported for this operation").

Definition route_bucket (r : Request) (q : Values) (bucket : gostring) : Outcome :=
  match select_subresource q (bucket_subresources bucket) with
  | Some (_, ms) => by_method ms (Method r)
  | None =>
    if negb (plainMutationQueryAllowed (Method r) false q) then not_allowed
    else
      by_method
        [(PUT, Handle (OpCreateBucket bucket)); (DELETE, Handle (OpDeleteBucket bucket));
         (HEAD, Handle (OpHeadBucket bucket));
         (GET, let lt := qget q (str "list-type") in
               if decide (lt = []) then Handle (OpListObjects bucket)
               else if decide (lt = str "2") then Handle (OpListObjectsV2 bucket)
               else XMLError 400 (str "InvalidArgument") (str "Invalid List Type"))] (Method r)
  end.

(** The branches for [/bucket/key]. *)
Definition upload_outcomes (r : Request) (q : Values) (bucket key : gostring) : list (gostring * Outcome) :=
  let uploadID := qget q (str "uploadId") in
  [(GET, Handle (OpListParts bucket key uploadID));
   (PUT, match ParseInt (qget q (str "partNumber")) 10 32 with
         | Some pn =>
           if pn <=? 0 then XMLError 400 (str "InvalidArgument") (str "partNumber required")
           else if has_copy_source r then Handle (OpUploadPartCopy bucket key uploadID pn)
           else Handle (OpUploadPart bucket key uploadID pn)
         | None => XMLError 400 (str "InvalidArgument") (str "partNumber required")
         end);
   (POST, Handle (OpCompleteMultipart bucket key uploadID));
   (DELETE, Handle (OpAbortMultipart bucket key uploadID))].

Definition object_subresources (r : Request) (q : Values) (bucket key : gostring)
    : list (gostring * list (gostring * Outcome)) :=
  [(str "acl", [(GET, Handle (OpGetObjectACL bucket key)); (PUT, Handle (OpPutObjectACL bucket key))]);
   (str "tagging", [(PUT, Handle (OpPutObjectTagging bucket key)); (GET, Handle (OpGetObjectTagging bucket key));
                    (DELETE, Handle (OpDeleteObjectTagging bucket key))]);
   (str "uploads", [(POST, Handle (OpCreateMultipart bucket key))]);
   (str "attributes", [(GET, Handle (OpGetObjectAttributes bucket key))]);
   (str "uploadId", upload_outcomes r q bucket key)].

Definition route_object (r : Request) (q : Values) (bucket key : gostring) : Outcome :=
  match list_find (fun k => k ∈ bucketOnlySubresources) (map fst (map_iter q)) with
  | Some (_, sub) => XMLError 501 (str "NotImplemented") (str "Operation not implemented: " ++ sub)
  | None =>
    match select_subresource q (object_subresources r q bucket key) with
    | Some (_, ms) => by_method ms (Method r)
    | None =>
      if negb (plainMutationQueryAllowed (Method r) true q) then not_allowed
      else
        by_method
          [(GET, Handle (OpGetObject bucket key)); (HEAD, Handle (OpHeadObject bucket key));
           (PUT, if has_copy_source r then Handle (OpCopyObject bucket key) else Handle (OpPutObject bucket key));
           (DELETE, Handle (OpDeleteObject bucket key))] (Method r)
    end
  end.

Inductive PathKind := RootPath | BucketPath (bucket : gostring) | ObjectPath (bucket key : gostring).

(** [SplitN(rest, "/", 2)] with an empty second part dropped. *)
Definition path_kind (p : gostring) : PathKind :=
  let rest := TrimPrefix p (str "/") in
  if decide (rest = []) then RootPath
  else
    match Cut rest "/"%byte with
    | Some (bucket, key) => if decide (key = []) then BucketPath bucket else ObjectPath bucket key
    | None => BucketPath rest
    end.

(** [trailer] is [r.Trailer]; [readyAllowed] is [readinessClientAllowed]. *)
Definition ServeHTTP (readyAllowed : bool) (trailer : Header) (r : Request) : Outcome :=
  let p := if decide (Path r = []) then str "/" else Path r in
  if decide (p = str "/healthz") then PlainOK (if decide (Method r = HEAD) then [] else str "ok" ++ [x0a])
  else if decide (p = str "/readyz") then
    if negb readyAllowed then PageNotFound
    else if bool_decide (Method r <> GET) && bool_decide (Method r <> HEAD) then MethodNotAllowed (str "GET, HEAD")
    else Handle OpReadyz
  else if hasEncryptionRequestHeaders (Hdr r) trailer then
    XMLError 501 (str "NotImplemented") (str "S3 encryption request options are not supported")
  else if isPopAPIPath p then Handle OpPop
  else if negb (query_ok (RawQuery r)) then XMLError 400 (str "InvalidArgument") (str "Malformed query string")
  else
    let q := Query r in
    if decide (firstUnsupportedSubresource q <> []) then
      XMLError 501 (str "NotImplemented") (str "Operation not implemented: " ++ firstUnsupportedSubresource q)
    else if IsAWSChunkedPayload (Hdr r) && negb (supportsStreamingPayload r) then
      XMLError 400 (str "InvalidRequest") (str "Streaming payloads are supported only for PutObject and UploadPart")
    else
      match validateS3OperationQuery (Method r) p q with
      | Err message => XMLError 400 (str "InvalidArgument") message
      | Ok _ =>
        if decide (p = str "/" /\ Method r = GET) then Handle OpListBuckets
        else
          match path_kind p with
          | RootPath => XMLError 404 (str "NoSuchKey") (str "Not Found")
          | BucketPath bucket => route_bucket r q bucket
          | ObjectPath bucket key => route_object r q bucket key
          end
      end.

End WithUnicode.

(** ** What an operation requires of its request *)

Definition op_path (o : Operation) : option PathKind :=
  match o with
  | OpReadyz | OpPop => None
  | OpListBuckets => Some RootPath
  | OpPutBucketLifecycle b | OpGetBucketLifecycle b | OpDeleteBucketLifecycle b | OpPutBucketVersioning b
  | OpGetBucketVersioning b | OpPutBucketTagging b | OpGetBucketTagging b | OpDeleteBucketTagging b
  | OpGetBucketACL b | OpPutBucketACL b | OpBucketConfigRead b _ | OpDeleteObjects b | OpGetBucketLocation b
  | OpListObjectVersions b | OpListMultipartUploads b | OpCreateBucket b | OpDeleteBucket b | OpHeadBucket b
  | OpListObjectsV2 b | OpListObjects b => Some (BucketPath b)
  | OpGetObjectACL b k | OpPutObjectACL b k | OpPutObjectTagging b k | OpGetObjectTagging b k
  | OpDeleteObjectTagging b k | OpCreateMultipart b k | OpGetObjectAttributes b k | OpListParts b k _
  | OpUploadPartCopy b k _ _ | OpUploadPart b k _ _ | OpCompleteMultipart b k _ | OpAbortMultipart b k _
  | OpGetObject b k | OpHeadObject b k | OpCopyObject b k | OpPutObject b k | OpDeleteObject b k =>
    Some (ObjectPath b k)
  end.

Definition op_method (o : Operation) : gostring :=
  match o with
  | OpPutBucketLifecycle _ | OpPutBucketVersioning _ | OpPutBucketTagging _ | OpPutBucketACL _ | OpCreateBucket _
  | OpPutObjectACL _ _ | OpPutObjectTagging _ _ | OpUploadPartCopy _ _ _ _ | OpUploadPart _ _ _ _
  | OpCopyObject _ _ | OpPutObject _ _ => PUT
  | OpDeleteBucketLifecycle _ | OpDeleteBucketTagging _ | OpDeleteBucket _ | OpDeleteObjectTagging _ _
  | OpAbortMultipart _ _ _ | OpDeleteObject _ _ => DELETE
  | OpDeleteObjects _ | OpCreateMultipart _ _ | OpCompleteMultipart _ _ _ => POST
  | OpHeadBucket _ | OpHeadObject _ _ => HEAD
  | _ => GET
  end.

(** The subresource that selects the operation, if it has one. *)
Definition op_selector (o : Operation) : option gostring :=
  match o with
  | OpPutBucketLifecycle _ | OpGetBucketLifecycle _ | OpDeleteBucketLifecycle _ => Some (str "lifecycle")
  | OpPutBucketVersioning _ | OpGetBucketVersioning _ => Some (str "versioning")
  | OpPutBucketTagging _ | OpGetBucketTagging _ | OpDeleteBucketTagging _
  | OpPutObjectTagging _ _ | OpGetObjectTagging _ _ | OpDeleteObjectTagging _ _ => Some (str "tagging")
  | OpGetBucketACL _ | OpPutBucketACL _ | OpGetObjectACL _ _ | OpPutObjectACL _ _ => Some (str "acl")
  | OpBucketConfigRead _ k => Some k
  | OpDeleteObjects _ => Some (str "delete")
  | OpGetBucketLocation _ => Some (str "location")
  | OpListObjectVersions _ => Some (str "versions")
  | OpListMultipartUploads _ | OpCreateMultipart _ _ => Some (str "uploads")
  | OpGetObjectAttributes _ _ => Some (str "attributes")
  | OpListParts _ _ _ | OpUploadPartCopy _ _ _ _ | OpUploadPart _ _ _ _ | OpCompleteMultipart _ _ _
  | OpAbortMultipart _ _ _ => Some (str "uploadId")
  | _ => None
  end.

(** The upload an operation works on. *)
Definition op_upload (o : Operation) : option gostring :=
  match o with
  | OpListParts _ _ u | OpUploadPartCopy _ _ u _ | OpUploadPart _ _ u _ | OpCompleteMultipart _ _ u
  | OpAbortMultipart _ _ u => Some u
  | _ => None
  end.

Definition op_copies (o : Operation) : bool :=
  match o with OpUploadPartCopy _ _ _ _ | OpCopyObject _ _ => true | _ => false end.
Definition op_stores (o : Operation) : bool :=
  match o with OpUploadPart _ _ _ _ | OpPutObject _ _ => true | _ => false end.

(** The parameters that select something on a path. *)
Definition selectors (p : option PathKind) : list gostring :=
  match p with
  | Some (BucketPath _) =>
    map str ["lifecycle"; "versioning"; "tagging"; "acl"]%string ++ bucketConfigReadKeys ++
    map str ["delete"; "location"; "versions"; "uploads"]%string
  | Some (ObjectPath _ _) => bucketOnlySubresources ++ map str ["acl"; "tagging"; "uploads"; "attributes"; "uploadId"]%string
  | _ => []
  end.

Section RouteFacts.
Context {U : UnicodeCase} {MI : MapIter}.

Lemma qhas_iter (q : Values) k : qhas q k = true <-> k ∈ map fst (map_iter q).
Proof.
  unfold qhas. rewrite bool_decide_eq_true. change (map fst (map_iter q)) with ((map_iter q).*1).
  rewrite list_elem_of_fmap. split.
  - intros [v Hv]. exists (k, v). split; [done | by apply elem_of_map_iter].
  - intros ([k' v] & -> & Hv). apply elem_of_map_iter in Hv. by exists v.
Qed.

Lemma by_method_Handle ms m o : by_method ms m = Handle o -> (m, Handle o) ∈ ms.
Proof.
  unfold by_method. destruct (list_find _ ms) as [[i [m' o']]|] eqn:E; [|done]. intros ->.
  apply list_find_Some in E as (Hi & Hm & _). simpl in Hm. subst. by eapply list_elem_of_lookup_2.
Qed.

Lemma select_Some q branches k ms :
  select_subresource q branches = Some (k, ms) -> (k, ms) ∈ branches /\ qhas q k = true.
Proof.
  unfold select_subresource. destruct (list_find _ _) as [[i b]|] eqn:E; [|done]. intros [= ->].
  apply list_find_Some in E as (Hi & Hq & _). split; [by eapply list_elem_of_lookup_2 | done].
Qed.

Lemma select_None q branches k :
  select_subresource q branches = None -> k ∈ map fst branches -> qhas q k = false.
Proof.
  unfold select_subresource. destruct (list_find _ _) as [|] eqn:E; [done|]. intros _ Hk.
  apply list_find_None in E. rewrite Forall_forall in E. apply list_elem_of_fmap in Hk as (b & -> & Hb).
  apply not_true_iff_false. by apply E.
Qed.

(** Part numbers are positive and fit 32 bits. *)
Definition numbered (o : Operation) : Prop :=
  match o with OpUploadPart _ _ _ n | OpUploadPartCopy _ _ _ n => 1 <= n <= int32_max | _ => True end.

(** What a routed operation says of its request. *)
Record routed (r : Request) (q : Values) (o : Operation) : Prop := {
  rt_method : Method r = op_method o;
  rt_selector : match op_selector o with
                | Some s => qhas q s = true
                | None => forall s, s ∈ selectors (op_path o) -> qhas q s = false
                end;
  rt_plain : op_selector o = None -> plainMutationQueryAllowed (Method r) (match op_path o with Some (ObjectPath _ _) => true | _ => false end) q = true;
  rt_upload : forall u, op_upload o = Some u -> u = qget q (str "uploadId");
  rt_copies : op_copies o = true -> has_copy_source r = true;
  rt_stores : op_stores o = true -> has_copy_source r = false;
  rt_numbered : numbered o
}.

Ltac in_cases H :=
  repeat (apply elem_of_cons in H as [H|H]; [|]); [..|by apply not_elem_of_nil in H].

Lemma route_bucket_routed r q b o : route_bucket r q b = Handle o -> routed r q o /\ op_path o = Some (BucketPath b).
Proof.
  unfold route_bucket. destruct (select_subresource _ _) as [[k ms]|] eqn:E.
  - apply select_Some in E as [Hin Hq]. intros H%by_method_Handle.
    unfold bucket_subresources in Hin. apply elem_of_app in Hin as [Hin|Hin].
    { in_cases Hin; injection Hin as -> ->; in_cases H; injection H as Hm ->; (split; [split; [exact Hm | exact Hq | done..] | done]). }
    apply elem_of_app in Hin as [Hin|Hin].
    + apply list_elem_of_fmap in Hin as (k' & [= -> ->] & _). in_cases H. injection H as Hm ->.
      split; [split; [exact Hm | exact Hq | done..] | done].
    + in_cases Hin; injection Hin as -> ->; in_cases H; injection H as Hm ->; (split; [split; [exact Hm | exact Hq | done..] | done]).
  - destruct (plainMutationQueryAllowed _ _ _) eqn:Hplain; [|done]. intros H%by_method_Handle.
    assert (Hno : forall s, s ∈ selectors (Some (BucketPath b)) -> qhas q s = false).
    { intros s Hs. eapply select_None; [exact E|]. exact Hs. }
    in_cases H; try (injection H as Hm ->; split; [split; [exact Hm | exact Hno | done..] | done]).
    injection H as Hm H. destruct (decide _); [|destruct (decide _); [|done]]; injection H as ->;
      (split; [split; [exact Hm | exact Hno | done..] | done]).
Qed.

Lemma route_object_routed r q b k o :
  route_object r q b k = Handle o -> routed r q o /\ op_path o = Some (ObjectPath b k).
Proof.
  unfold route_object. destruct (list_find _ _) as [[? ?]|] eqn:Ef; [done|]. apply list_find_None in Ef.
  rewrite Forall_forall in Ef.
  destruct (select_subresource _ _) as [[s ms]|] eqn:E.
  - apply select_Some in E as [Hin Hq]. intros H%by_method_Handle. unfold object_subresources in Hin.
    in_cases Hin; injection Hin as -> ->;
      [in_cases H; injection H as Hm ->; (split; [split; [exact Hm | exact Hq | done..] | done]).. |].
    unfold upload_outcomes in H. in_cases H.
    2: { injection H as Hm H. destruct (ParseInt _ _ _) as [pn|] eqn:Hpn; [|done]. destruct (Z.leb_spec pn 0); [done|].
         apply ParseInt_range in Hpn; [|done]. assert (1 <= pn <= int32_max) by (unfold int32_max; lia).
         destruct (has_copy_source r) eqn:Hc; injection H as ->;
           (split; [split; [exact Hm | exact Hq | done | by intros u [= <-] | done..] | done]). }
    all: injection H as Hm ->; (split; [split; [exact Hm | exact Hq | done | by intros u [= <-] | done..] | done]).
  - destruct (plainMutationQueryAllowed _ _ _) eqn:Hplain; [|done]. intros H%by_method_Handle.
    assert (Hno : forall s, s ∈ selectors (Some (ObjectPath b k)) -> qhas q s = false).
    { intros s Hs. unfold selectors in Hs. apply elem_of_app in Hs as [Hs|Hs].
      - apply not_true_iff_false. intros Hq. apply qhas_iter in Hq. by apply (Ef s Hq).
      - eapply select_None; [exact E | exact Hs]. }
    in_cases H.
    3: { injection H as Hm H. destruct (has_copy_source r) eqn:Hc; injection H as ->;
           (split; [split; [exact Hm | exact Hno | done..] | done]). }
    all: injection H as Hm ->; (split; [split; [exact Hm | exact Hno | done..] | done]).
Qed.
End RouteFacts.

Section Dispatch.
Context {U : UnicodeCase} {MI : MapIter}.

Lemma supported_names (q : Values) :
  firstUnsupportedSubresource q = [] -> qhas q [] = false ->
  forall k, qhas q k = true -> k ∈ supportedS3QueryParameters.
Proof.
  unfold firstUnsupportedSubresource. intros Hf Hnil k Hk. destruct (decide (k ∈ supportedS3QueryParameters)) as [|Hn]; [done|].
  exfalso. set (l := filter _ _) in Hf.
  assert (Hin : k ∈ sort_strings l).
  { unfold sort_strings. rewrite merge_sort_Permutation. apply list_elem_of_filter. split; [done | by apply qhas_iter]. }
  destruct (sort_strings l) as [|x xs] eqn:Es; [by apply not_elem_of_nil in Hin|]. simpl in Hf. subst x.
  assert (Hx : [] ∈ sort_strings l) by (rewrite Es; left).
  unfold sort_strings in Hx. rewrite merge_sort_Permutation in Hx. apply list_elem_of_filter in Hx as [_ Hx].
  apply qhas_iter in Hx. congruence.
Qed.

Lemma validate_uploadId method path q u :
  validateS3OperationQuery method path q = Ok tt -> qhas q u = true ->
  qhas q [] = false /\
  (forall ids, q !! str "uploadId" = Some ids ->
     (exists id, ids = [id] /\ TrimSpace id <> []) /\ u ∈ uploadId_companions).
Proof.
  unfold validateS3OperationQuery. intros H Hu. apply require_Ok in H as [Hn H]. apply require_Ok in H as [_ H].
  split; [by apply negb_true_iff|]. intros ids Hids. rewrite Hids in H. apply rbind_Ok in H as (? & H & _).
  apply require_Ok in H as [Hs H]. apply rguard_Ok in H. split.
  - unfold single_value in Hs. apply andb_true_iff in Hs as [_ Hs]. destruct ids as [|id [|]]; try done.
    exists id. split; [done|]. unfold blank in Hs. by apply negb_true_iff, bool_decide_eq_false in Hs.
  - rewrite forallb_forall in H. specialize (H u). rewrite bool_decide_eq_true in H. apply H, list_elem_of_In.
    by apply qhas_iter.
Qed.

(** The path of a request that may stream. *)
Lemma streaming_path r :
  supportsStreamingPayload r = true ->
  Method r = PUT /\ has_copy_source r = false /\
  (exists b k, path_kind (Path r) = ObjectPath b k) /\ Path r <> [] /\
  forall name, qhas (Query r) name = true -> name ∈ [str "x-id"; str "uploadId"; str "partNumber"].
Proof.
  unfold supportsStreamingPayload. destruct (bool_decide (Method r <> PUT)) eqn:Hm; [done|].
  apply bool_decide_eq_false in Hm. destruct (has_copy_source r); [done|]. cbn [orb].
  destruct (Cut _ _) as [[b k]|] eqn:E; [|done]. intros H. apply andb_true_iff in H as [H Hall].
  apply andb_true_iff in H as [_ Hk%bool_decide_eq_true].
  split; [destruct (decide (Method r = PUT)); [done|by destruct Hm]|]. split; [done|]. split; [|split].
  - exists b, k. unfold path_kind. rewrite E. rewrite decide_False; [by rewrite decide_False|]. by destruct (TrimPrefix _ _).
  - intros Hp. by rewrite Hp in E.
  - intros name Hn%qhas_iter. rewrite forallb_forall in Hall.
    specialize (Hall name (proj1 (list_elem_of_In _ _) Hn)). by apply bool_decide_eq_true in Hall.
Qed.

(** What an S3 operation says of its request, but for the checks of the whole query. *)
Lemma ServeHTTP_routed ready trailer r o :
  ServeHTTP ready trailer r = Handle o -> o <> OpReadyz -> o <> OpPop ->
  let p := if decide (Path r = []) then str "/" else Path r in
  isPopAPIPath p = false /\ op_path o = Some (path_kind p) /\ (o = OpListBuckets \/ routed r (Query r) o).
Proof.
  unfold ServeHTTP. cbv zeta. set (p := if decide (Path r = []) then _ else _). intros H Hr Hp.
  revert H. destruct (decide (p = str "/healthz")); [done|]. destruct (decide (p = str "/readyz")).
  { destruct (negb ready); [done|]. destruct (_ && _); [done|]. by intros [= <-]. }
  destruct (hasEncryptionRequestHeaders _ _); [done|]. destruct (isPopAPIPath p); [by intros [= <-]|].
  destruct (query_ok _); [|done]. cbn [negb]. destruct (decide (firstUnsupportedSubresource _ <> [])); [done|].
  destruct (IsAWSChunkedPayload (Hdr r) && _); [done|]. destruct (validateS3OperationQuery _ _ _) as [[]|]; [|done].
  destruct (decide (p = str "/" /\ Method r = GET)) as [[Hroot _]|_]; intros H.
  { injection H as <-. rewrite Hroot. auto. }
  destruct (path_kind p) as [|b|b k] eqn:Ep; [done|..]; [apply route_bucket_routed in H | apply route_object_routed in H];
    destruct H as [? ?]; auto.
Qed.

Lemma ServeHTTP_numbered ready trailer r o : ServeHTTP ready trailer r = Handle o -> numbered o.
Proof.
  intros H. destruct (decide (o = OpReadyz)) as [->|Hr]; [done|]. destruct (decide (o = OpPop)) as [->|Hp]; [done|].
  destruct (ServeHTTP_routed ready trailer r o H Hr Hp) as (_ & _ & [->|Ho]); [done|]. apply (rt_numbered _ _ _ Ho).
Qed.

Definition plain_names (o : Operation) (name : gostring) : Prop :=
  name = str "x-id" \/ (name = str "versionId" /\ exists b k, o = OpDeleteObject b k).

(** C22. A request reaches an operation only if it asks for exactly that operation:
    the method and the path are the operation's, every query parameter is known,
    the subresource that selects the operation is there - or, for an operation
    without one, no subresource of any other operation is - so that an abort, a
    part upload or a policy change never becomes a plain write or delete; a
    plain write or delete carries no parameter it would ignore; an upload ID is
    single, not blank, and the one the operation gets; no encryption option is
    dropped; and a streaming body reaches only the handlers that verify it. *)
Theorem dispatch_sound ready trailer r o :
  ServeHTTP ready trailer r = Handle o -> o <> OpReadyz -> o <> OpPop ->
  let q := Query r in
  Method r = op_method o /\
  op_path o = Some (path_kind (if decide (Path r = []) then str "/" else Path r)) /\
  (forall k, qhas q k = true -> k ∈ supportedS3QueryParameters) /\
  match op_selector o with
  | Some s => qhas q s = true
  | None => (forall s, s ∈ selectors (op_path o) -> qhas q s = false) /\
            (o <> OpListBuckets -> op_method o = PUT \/ op_method o = DELETE -> forall k, qhas q k = true -> plain_names o k)
  end /\
  (forall u, op_upload o = Some u -> q !! str "uploadId" = Some [u] /\ TrimSpace u <> []) /\
  hasEncryptionRequestHeaders (Hdr r) trailer = false /\
  (IsAWSChunkedPayload (Hdr r) = true -> op_stores o = true).
Proof.
  unfold ServeHTTP. cbv zeta. set (p := if decide (Path r = []) then _ else _). set (q := Query r). intros H Hr Hp.
  revert H. destruct (decide (p = str "/healthz")); [done|]. destruct (decide (p = str "/readyz")).
  { destruct (negb ready); [done|]. destruct (_ && _); [done|]. by intros [= <-]. }
  destruct (hasEncryptionRequestHeaders _ _) eqn:Henc; [done|]. destruct (isPopAPIPath p); [by intros [= <-]|].
  destruct (query_ok _); [|done]. cbn [negb]. destruct (decide (firstUnsupportedSubresource q <> [])) as [|Hf]; [done|].
  apply dec_stable in Hf. destruct (IsAWSChunkedPayload (Hdr r) && _) eqn:Hs; [done|].
  destruct (validateS3OperationQuery _ _ _) as [[]|] eqn:Hv; [|done].
  assert (Hnil : qhas q [] = false).
  { destruct (qhas q []) eqn:E; [|done]. destruct (validate_uploadId _ _ _ _ Hv E) as [E' _]. congruence. }
  pose proof (supported_names q Hf Hnil) as Hsup.
  destruct (decide (p = str "/" /\ Method r = GET)) as [[Hroot Hget]|Hnr]; intros H.
  { injection H as <-. split; [done|]. rewrite Hroot. split; [done|]. split; [done|]. split; [split; [by intros s ?%not_elem_of_nil | done]|].
    split; [done|]. split; [done|]. intros Hst. rewrite Hst in Hs. apply negb_false_iff, streaming_path in Hs as [Hs _].
    by rewrite Hget in Hs. }
  assert (Hmain : routed r q o /\ op_path o = Some (path_kind p)).
  { destruct (path_kind p) as [|b|b k] eqn:Ep; [done|..]; [apply route_bucket_routed in H | apply route_object_routed in H]; done. }
  destruct Hmain as [[R1 R2 R3 R4 R5 R6 _] Hpath].
  split; [done|]. split; [done|]. split; [done|]. split.
  { destruct (op_selector o) as [s|] eqn:Es; [done|]. split; [done|]. intros _ Hmut k Hk.
    specialize (R3 eq_refl). unfold plainMutationQueryAllowed in R3.
    assert (bool_decide (Method r <> PUT) && bool_decide (Method r <> DELETE) = false) as Hb.
    { rewrite R1. destruct Hmut as [->| ->]; reflexivity. }
    rewrite Hb, forallb_forall in R3. apply qhas_iter, list_elem_of_In, R3, orb_true_iff in Hk as [Hk|Hk].
    { left. by apply bool_decide_eq_true in Hk. }
    apply andb_true_iff in Hk as [Hk Hk2%bool_decide_eq_true]. apply andb_true_iff in Hk as [Ho Hk%bool_decide_eq_true].
    right. split; [done|]. rewrite R1 in Hk. destruct o; try done. by eauto. }
  split; [|split; [done|]].
  - intros u Hu. rewrite (R4 u Hu). unfold qget.
    assert (Hsel : qhas q (str "uploadId") = true) by (clear - R2 Hu; destruct o; first [exact R2 | discriminate Hu]).
    pose proof Hsel as Hl. unfold qhas in Hl. apply bool_decide_eq_true in Hl as [ids Hids]. rewrite Hids.
    destruct (validate_uploadId _ _ _ _ Hv Hsel) as [_ Hi]. destruct (Hi ids Hids) as [(id & -> & Hid) _]. done.
  - intros Hst. rewrite Hst in Hs. apply negb_false_iff, streaming_path in Hs as (S1 & S2 & (b & k & S3) & S4 & S5).
    assert (Hpp : p = Path r) by (unfold p; by rewrite decide_False). rewrite Hpp, S3 in Hpath.
    assert (Hsel : match op_selector o with None => True | Some s => s ∈ [str "x-id"; str "uploadId"; str "partNumber"] end).
    { destruct (op_selector o); [by apply S5 | done]. }
    rewrite R1 in S1. clear - S1 S2 Hpath Hsel R5.
    destruct o; simpl in *; try done; try (by rewrite R5 in S2);
      (exfalso; pose proof (bool_decide_pack _ Hsel) as X; by vm_compute in X).
Qed.
End Dispatch.
