(* ===== verification/AuditLog.v ===== *)
(** * Audit of S3 requests (src/internal/server/audit.go)

    The classification of a request for the audit log, the keyed hashes of its
    identifiers, the response writer that counts, and the event that is logged. *)

From S2P Require Import Prelude GoStrings Crypto Http SigV4 Stream Routing.

#[local] Open Scope Z_scope.

Definition unknownS3Action := str "UnknownOperation".
Definition unsupportedS3Action := str "UnsupportedOperation".
Definition maxAuditRequestIDLen : nat := 128.

Record s3AuditRequest := { action : gostring; bucket : gostring; key : gostring }.

(** ** Keyed hashes of identifiers *)

Inductive auditHashScope := auditPrincipalScope | auditBucketScope | auditObjectKeyScope.
Definition scope_label (s : auditHashScope) : gostring :=
  match s with
  | auditPrincipalScope => str "principal"
  | auditBucketScope => str "bucket"
  | auditObjectKeyScope => str "object_key"
  end.

(** [random] is what [rand.Read] fills the key with, if it succeeds. *)
Definition newAuditMasterKey (configured : gostring) (random : option gostring) : option gostring :=
  if decide (configured <> []) then Some (sha256 (str "s3gateway/s3-audit/v1" ++ x00 :: configured)) else random.

Definition newAuditHashKeys (configured : gostring) (random : option gostring)
    : option (auditHashScope -> gostring) :=
  match newAuditMasterKey configured random with
  | Some master => Some (fun scope => hmac_sha256 master (scope_label scope))
  | None => None
  end.

(** [keys] is [None] while [auditHashReady] is false. *)
Definition auditHash (keys : option (auditHashScope -> gostring)) (scope : auditHashScope) (value : gostring) : gostring :=
  match keys with
  | Some keys => if decide (value = []) then [] else hex_encode (hmac_sha256 (keys scope) value)
  | None => []
  end.

(** ** Fields *)

Definition auditMethod (method : gostring) : gostring :=
  if (length method =? 0)%nat || (32 <? length method)%nat then str "OTHER"
  else if forallb (in_range 65 90) method then method else str "OTHER".

Section WithUnicode.
Context {U : UnicodeCase} {MI : MapIter}.

Definition auditRequestID (h : Header) : gostring :=
  let requestID := TrimSpace (hget h (str "x-amz-request-id")) in
  if bool_decide (requestID = []) || (maxAuditRequestIDLen <? length requestID)%nat then []
  else if forallb (in_range 0x21 0x7e) requestID then requestID else [].

Definition s3AuditOutcome (status : Z) (completed : bool) : gostring :=
  if negb completed then str "server_error"
  else if status <? 400 then str "success"
  else if status <? 500 then str "client_error"
  else str "server_error".

(** ** Classification *)

Definition by_name (ms : list (gostring * gostring)) (method : gostring) : gostring :=
  match list_find (fun mn : gostring * gostring => mn.1 = method) ms with
  | Some (_, (_, name)) => name
  | None => unsupportedS3Action
  end.

Definition bucketConfigReadAction (key : gostring) : gostring :=
  default unknownS3Action (snd <$> (snd <$> list_find (fun kn : gostring * gostring => kn.1 = key)
    [(str "policy", str "GetBucketPolicy"); (str "policyStatus", str "GetBucketPolicyStatus");
     (str "cors", str "GetBucketCors"); (str "website", str "GetBucketWebsite");
     (str "replication", str "GetBucketReplication"); (str "logging", str "GetBucketLogging");
     (str "notification", str "GetBucketNotificationConfiguration");
     (str "requestPayment", str "GetBucketRequestPayment");
     (str "accelerate", str "GetBucketAccelerateConfiguration");
     (str "publicAccessBlock", str "GetPublicAccessBlock")])).

(** The branches of [classifyBucketAction] that a subresource selects, in order. *)
Definition bucket_actions : list (gostring * list (gostring * gostring)) :=
  [(str "lifecycle", [(PUT, str "PutBucketLifecycleConfiguration"); (GET, str "GetBucketLifecycleConfiguration");
                      (DELETE, str "DeleteBucketLifecycleConfiguration")]);
   (str "versioning", [(PUT, str "PutBucketVersioning"); (GET, str "GetBucketVersioning")]);
   (str "tagging", [(PUT, str "PutBucketTagging"); (GET, str "GetBucketTagging"); (DELETE, str "DeleteBucketTagging")]);
   (str "acl", [(GET, str "GetBucketAcl"); (PUT, str "PutBucketAcl")])] ++
  map (fun k => (k, [(GET, bucketConfigReadAction k)])) bucketConfigReadKeys ++
  [(str "delete", [(POST, str "DeleteObjects")]);
   (str "location", [(GET, str "GetBucketLocation")]);
   (str "versions", [(GET, str "ListObjectVersions")]);
   (str "uploads", [(GET, str "ListMultipartUploads")])].

Definition select_action (q : Values) (branches : list (gostring * list (gostring * gostring)))
    : option (gostring * list (gostring * gostring)) :=
  snd <$> list_find (fun b : gostring * list (gostring * gostring) => qhas q b.1 = true) branches.

Definition classifyBucketAction (method : gostring) (q : Values) : gostring :=
  match select_action q bucket_actions with
  | Some (_, ms) => by_name ms method
  | None =>
    if negb (plainMutationQueryAllowed method false q) then unsupportedS3Action
    else
      by_name
        [(PUT, str "CreateBucket"); (DELETE, str "DeleteBucket"); (HEAD, str "HeadBucket");
         (GET, if decide (qget q (str "list-type") <> []) then str "ListObjectsV2" else str "ListObjects")] method
  end.

Definition object_actions (r : Request) : list (gostring * list (gostring * gostring)) :=
  [(str "acl", [(GET, str "GetObjectAcl"); (PUT, str "PutObjectAcl")]);
   (str "tagging", [(PUT, str "PutObjectTagging"); (GET, str "GetObjectTagging"); (DELETE, str "DeleteObjectTagging")]);
   (str "uploads", [(POST, str "CreateMultipartUpload")]);
   (str "attributes", [(GET, str "GetObjectAttributes")]);
   (str "uploadId", [(GET, str "ListParts");
                     (PUT, if has_copy_source r then str "UploadPartCopy" else str "UploadPart");
                     (POST, str "CompleteMultipartUpload"); (DELETE, str "AbortMultipartUpload")])].

Definition classifyObjectAction (r : Request) (q : Values) : gostring :=
  if existsb (fun k => bool_decide (k ∈ bucketOnlySubresources)) (map fst (map_iter q)) then unsupportedS3Action
  else
    match select_action q (object_actions r) with
    | Some (_, ms) => by_name ms (Method r)
    | None =>
      if negb (plainMutationQueryAllowed (Method r) true q) then unsupportedS3Action
      else
        by_name
          [(GET, str "GetObject"); (HEAD, str "HeadObject");
           (PUT, if has_copy_source r then str "CopyObject" else str "PutObject");
           (DELETE, str "DeleteObject")] (Method r)
    end.

Definition s3AuditResource (path : gostring) : s3AuditRequest :=
  let rest := TrimPrefix path (str "/") in
  if decide (rest = []) then {| action := unknownS3Action; bucket := []; key := [] |}
  else
    let '(b, k) := default (rest, []) (Cut rest "/"%byte) in
    {| action := unknownS3Action; bucket := b; key := k |}.

Definition with_action (a : gostring) (x : s3AuditRequest) : s3AuditRequest :=
  {| action := a; bucket := bucket x; key := key x |}.

Definition popGlobalScope := str "_all".

Definition classifyS3Request (r : Request) : s3AuditRequest :=
  let p := if decide (Path r = []) then str "/" else Path r in
  match parsePopAPIPath p with
  | Some (scope, _) =>
    {| action := if isPopAPIMethod (Method r) then str "PopObject" else unsupportedS3Action;
       bucket := if decide (scope <> popGlobalScope) then scope else []; key := [] |}
  | None =>
    let request := s3AuditResource p in
    let q := Query r in
    if negb (query_ok (RawQuery r)) || bool_decide (firstUnsupportedSubresource q <> []) ||
       match validateS3OperationQuery (Method r) p q with Ok _ => false | Err _ => true end
    then with_action unsupportedS3Action request
    else if decide (p = str "/") then
      with_action (if decide (Method r = GET) then str "ListBuckets" else unsupportedS3Action) request
    else if decide (bucket request = []) then request
    else if decide (key request = []) then with_action (classifyBucketAction (Method r) q) request
    else with_action (classifyObjectAction r q) request
  end.

(** ** The response writer *)

(** [arw_status] is 0 until a header has been written. *)
Record s3AuditResponseWriter := { arw_status : Z; arw_bytes : Z }.
Definition audit_WriteHeader (w : s3AuditResponseWriter) (status : Z) : s3AuditResponseWriter :=
  if arw_status w =? 0 then {| arw_status := status; arw_bytes := arw_bytes w |} else w.
(** A write of which the client's connection takes [n] octets. *)
Definition audit_Write (w : s3AuditResponseWriter) (n : Z) : s3AuditResponseWriter :=
  let w := if arw_status w =? 0 then audit_WriteHeader w 200 else w in
  {| arw_status := arw_status w; arw_bytes := arw_bytes w + n |}.
Definition audit_Flush (w : s3AuditResponseWriter) : s3AuditResponseWriter :=
  if arw_status w =? 0 then audit_WriteHeader w 200 else w.
Definition audit_Status (w : s3AuditResponseWriter) : Z := if arw_status w =? 0 then 200 else arw_status w.

(** ** The event *)

Record s3AuditState := { principalHash : gostring; authenticated : bool; started : instant; completed : bool }.

Record audit_event := {
  ev_action : gostring; ev_method : gostring; ev_status : Z; ev_outcome : gostring; ev_duration_us : Z;
  ev_response_bytes : Z; ev_authenticated : bool; ev_completed : bool; ev_principal_hash : gostring;
  ev_bucket_hash : gostring; ev_key_hash : gostring; ev_request_id : gostring
}.

Definition setS3AuditPrincipal (keys : option (auditHashScope -> gostring)) (st : s3AuditState) (principal : gostring)
    : s3AuditState :=
  {| principalHash := auditHash keys auditPrincipalScope (TrimSpace principal); authenticated := authenticated st;
     started := started st; completed := completed st |}.

Definition logS3Audit (keys : option (auditHashScope -> gostring)) (r : Request) (responseHeader : Header)
    (w : s3AuditResponseWriter) (st : s3AuditState) (now : instant) : audit_event :=
  let request := classifyS3Request r in
  let status := if negb (completed st) && (arw_status w =? 0) then 500 else audit_Status w in
  {| ev_action := action request; ev_method := auditMethod (Method r); ev_status := status;
     ev_outcome := s3AuditOutcome status (completed st);
     ev_duration_us := Z.quot (time_sub now (started st)) 1000;
     ev_response_bytes := arw_bytes w; ev_authenticated := authenticated st; ev_completed := completed st;
     ev_principal_hash := principalHash st; ev_bucket_hash := auditHash keys auditBucketScope (bucket request);
     ev_key_hash := auditHash keys auditObjectKeyScope (key request);
     ev_request_id := auditRequestID responseHeader |}.

End WithUnicode.

(** ** The action an operation is logged as *)

Definition op_name (o : Operation) : gostring :=
  match o with
  | OpReadyz => [] | OpPop => str "PopObject" | OpListBuckets => str "ListBuckets"
  | OpPutBucketLifecycle _ => str "PutBucketLifecycleConfiguration"
  | OpGetBucketLifecycle _ => str "GetBucketLifecycleConfiguration"
  | OpDeleteBucketLifecycle _ => str "DeleteBucketLifecycleConfiguration"
  | OpPutBucketVersioning _ => str "PutBucketVersioning" | OpGetBucketVersioning _ => str "GetBucketVersioning"
  | OpPutBucketTagging _ => str "PutBucketTagging" | OpGetBucketTagging _ => str "GetBucketTagging"
  | OpDeleteBucketTagging _ => str "DeleteBucketTagging"
  | OpGetBucketACL _ => str "GetBucketAcl" | OpPutBucketACL _ => str "PutBucketAcl"
  | OpBucketConfigRead _ k => bucketConfigReadAction k
  | OpDeleteObjects _ => str "DeleteObjects" | OpGetBucketLocation _ => str "GetBucketLocation"
  | OpListObjectVersions _ => str "ListObjectVersions" | OpListMultipartUploads _ => str "ListMultipartUploads"
  | OpCreateBucket _ => str "CreateBucket" | OpDeleteBucket _ => str "DeleteBucket" | OpHeadBucket _ => str "HeadBucket"
  | OpListObjectsV2 _ => str "ListObjectsV2" | OpListObjects _ => str "ListObjects"
  | OpGetObjectACL _ _ => str "GetObjectAcl" | OpPutObjectACL _ _ => str "PutObjectAcl"
  | OpPutObjectTagging _ _ => str "PutObjectTagging" | OpGetObjectTagging _ _ => str "GetObjectTagging"
  | OpDeleteObjectTagging _ _ => str "DeleteObjectTagging"
  | OpCreateMultipart _ _ => str "CreateMultipartUpload" | OpGetObjectAttributes _ _ => str "GetObjectAttributes"
  | OpListParts _ _ _ => str "ListParts" | OpUploadPartCopy _ _ _ _ => str "UploadPartCopy"
  | OpUploadPart _ _ _ _ => str "UploadPart" | OpCompleteMultipart _ _ _ => str "CompleteMultipartUpload"
  | OpAbortMultipart _ _ _ => str "AbortMultipartUpload"
  | OpGetObject _ _ => str "GetObject" | OpHeadObject _ _ => str "HeadObject" | OpCopyObject _ _ => str "CopyObject"
  | OpPutObject _ _ => str "PutObject" | OpDeleteObject _ _ => str "DeleteObject"
  end.

(** ** Lemmas *)

Section AuditFacts.
Context {U : UnicodeCase} {MI : MapIter}.

(** Branches that name what the router does. *)
Definition names_outcome (mo : gostring * Outcome) (mn : gostring * gostring) : Prop :=
  mo.1 = mn.1 /\ forall o, mo.2 = Handle o -> op_name o = mn.2.

Lemma by_method_name ms ns m o :
  Forall2 names_outcome ms ns -> by_method ms m = Handle o -> by_name ns m = op_name o.
Proof.
  unfold by_method, by_name. induction 1 as [|[m1 o1] [m2 n2] ms ns [Hm Ho] _ IH]; [done|].
  simpl in Hm, Ho. subst m2. cbn [list_find fst].
  destruct (decide (m1 = m)); [by intros ->%Ho|]. intros H.
  destruct (list_find _ ms) as [[i [? ?]]|]; [|done]. simpl in *. specialize (IH H).
  by destruct (list_find _ ns) as [[j [? ?]]|].
Qed.

Lemma select_names q bs ns :
  Forall2 (fun b n => b.1 = n.1 /\ Forall2 names_outcome b.2 n.2) bs ns ->
  match select_subresource q bs, select_action q ns with
  | Some (_, ms), Some (_, ns) => Forall2 names_outcome ms ns
  | None, None => True
  | _, _ => False
  end.
Proof.
  unfold select_subresource, select_action. induction 1 as [|[k1 ms1] [k2 ns2] bs ns [Hk Hms] _ IH]; [done|].
  simpl in Hk, Hms. subst k2. cbn [list_find fst]. destruct (decide (qhas q k1 = true)); [done|].
  destruct (list_find _ bs) as [[i [? ?]]|], (list_find _ ns) as [[j [? ?]]|]; done.
Qed.

Ltac names := repeat first
  [ apply Forall2_nil_2 | apply Forall2_cons; split | split; [reflexivity|] | by intros ? [= <-] ].

Lemma bucket_names b :
  Forall2 (fun b n => b.1 = n.1 /\ Forall2 names_outcome b.2 n.2) (bucket_subresources b) bucket_actions.
Proof.
  unfold bucket_subresources, bucket_actions. apply Forall2_app; [names|]. apply Forall2_app; [|names].
  induction bucketConfigReadKeys as [|k ks IH]; simpl; [done|]. constructor; [names | exact IH].
Qed.

Lemma upload_names r q b k :
  Forall2 names_outcome (upload_outcomes r q b k)
    [(GET, str "ListParts"); (PUT, if has_copy_source r then str "UploadPartCopy" else str "UploadPart");
     (POST, str "CompleteMultipartUpload"); (DELETE, str "AbortMultipartUpload")].
Proof.
  unfold upload_outcomes. constructor; [names|]. constructor; [|names]. split; [done|]. cbn [snd]. intros o.
  destruct (ParseInt _ _ _) as [pn|]; [|done]. destruct (pn <=? 0); [done|]. by destruct (has_copy_source r); intros [= <-].
Qed.

Lemma object_names r q b k :
  Forall2 (fun b n => b.1 = n.1 /\ Forall2 names_outcome b.2 n.2) (object_subresources r q b k) (object_actions r).
Proof.
  unfold object_subresources, object_actions. do 4 (constructor; [names|]). constructor; [|done].
  split; [done | apply upload_names].
Qed.

Lemma bucket_action r q b o : route_bucket r q b = Handle o -> classifyBucketAction (Method r) q = op_name o.
Proof.
  unfold route_bucket, classifyBucketAction. pose proof (select_names q _ _ (bucket_names b)) as Hs.
  destruct (select_subresource _ _) as [[k ms]|], (select_action _ _) as [[k' ns]|]; try done.
  - by apply by_method_name.
  - destruct (plainMutationQueryAllowed _ _ _); [|done]. apply by_method_name. do 3 (constructor; [names|]).
    constructor; [|done]. split; [done|]. cbn [snd]. intros o'.
    destruct (decide (qget q (str "list-type") = [])) as [E|E].
    + intros [= <-]. rewrite decide_False; [done | by intros ?].
    + rewrite (decide_True _ _ E). destruct (decide _); [by intros [= <-] | done].
Qed.

Lemma object_action r q b k o : route_object r q b k = Handle o -> classifyObjectAction r q = op_name o.
Proof.
  unfold route_object, classifyObjectAction.
  destruct (list_find _ _) as [[? ?]|] eqn:Ef; [done|]. apply list_find_None in Ef.
  assert (Hex : existsb (fun k => bool_decide (k ∈ bucketOnlySubresources)) (map fst (map_iter q)) = false).
  { apply not_true_iff_false. intros (x & Hx & Hb)%existsb_exists. apply bool_decide_eq_true in Hb.
    rewrite Forall_forall in Ef. by apply (Ef x); [apply list_elem_of_In|]. }
  rewrite Hex. pose proof (select_names q _ _ (object_names r q b k)) as Hs.
  destruct (select_subresource _ _) as [[s ms]|], (select_action _ _) as [[s' ns]|]; try done.
  - by apply by_method_name.
  - destruct (plainMutationQueryAllowed _ _ _); [|done]. apply by_method_name.
    do 2 (constructor; [names|]). constructor; [|names]. split; [done|]. cbn [snd]. intros o'.
    by destruct (has_copy_source r); intros [= <-].
Qed.

(** The audit's reading of the path is the router's. *)
Lemma resource_of_path p :
  s3AuditResource p =
  {| action := unknownS3Action;
     bucket := match path_kind p with RootPath => [] | BucketPath b | ObjectPath b _ => b end;
     key := match path_kind p with ObjectPath _ k => k | _ => [] end |}.
Proof.
  unfold s3AuditResource, path_kind. destruct (decide _); [done|].
  destruct (Cut _ _) as [[b k]|]; [|done]. simpl. by destruct (decide (k = [])) as [->|].
Qed.

Lemma path_kind_key p b k : path_kind p = ObjectPath b k -> k <> [].
Proof.
  unfold path_kind. destruct (decide _); [done|]. destruct (Cut _ _) as [[b' k']|]; [|done].
  destruct (decide (k' = [])); [done|]. by intros [= _ <-].
Qed.

Lemma pop_paths p scope group : parsePopAPIPath p = Some (scope, group) -> isPopAPIPath p = true.
Proof.
  unfold parsePopAPIPath, isPopAPIPath. destruct (HasPrefix p (str "/api/pop/")); [|done].
  intros _. by rewrite !orb_true_r.
Qed.

Definition op_bucket (o : Operation) : gostring :=
  match op_path o with Some (BucketPath b) | Some (ObjectPath b _) => b | _ => [] end.
Definition op_key (o : Operation) : gostring := match op_path o with Some (ObjectPath _ k) => k | _ => [] end.

(** C23. The audit log names what ran: a request that the router hands to an S3
    operation on a named bucket (or on the list of buckets) is logged as that
    operation on that bucket and key. *)
Theorem audit_matches_dispatch ready trailer r o :
  ServeHTTP ready trailer r = Handle o -> o <> OpReadyz -> o <> OpPop -> (o = OpListBuckets \/ op_bucket o <> []) ->
  classifyS3Request r = {| action := op_name o; bucket := op_bucket o; key := op_key o |}.
Proof.
  unfold ServeHTTP, classifyS3Request. cbv zeta. set (p := if decide (Path r = []) then _ else _). set (q := Query r).
  intros H Hr Hp Hb. revert H.
  destruct (decide (p = str "/healthz")); [done|]. destruct (decide (p = str "/readyz")).
  { destruct (negb ready); [done|]. destruct (_ && _); [done|]. by intros [= <-]. }
  destruct (hasEncryptionRequestHeaders _ _); [done|]. destruct (isPopAPIPath p) eqn:Hpop; [by intros [= <-]|].
  destruct (parsePopAPIPath p) as [[scope group]|] eqn:Epop; [by rewrite (pop_paths _ _ _ Epop) in Hpop|].
  destruct (query_ok _); [|done]. cbn [negb orb]. destruct (decide (firstUnsupportedSubresource q <> [])) as [|Hf]; [done|].
  rewrite (bool_decide_eq_false_2 _ Hf). cbn [orb]. destruct (_ && negb _); [done|].
  destruct (validateS3OperationQuery _ _ _) as [[]|]; [|done].
  destruct (decide (p = str "/" /\ Method r = GET)) as [[Hroot Hget]|Hnr].
  { intros [= <-]. rewrite decide_True by done. rewrite decide_True by done. by rewrite Hroot. }
  rewrite resource_of_path. unfold with_action. cbn [bucket key action].
  destruct (path_kind p) as [|b|b k] eqn:Ep; [done|..]; intros H.
  - assert (Hpr : p <> str "/") by (intros E; by rewrite E in Ep). rewrite (decide_False _ _ Hpr).
    pose proof (route_bucket_routed _ _ _ _ H) as [_ Hop]. unfold op_bucket, op_key in *. rewrite Hop in *.
    destruct Hb as [->|Hb]; [done|]. rewrite (decide_False _ _ Hb). rewrite decide_True by done.
    by rewrite (bucket_action _ _ _ _ H).
  - assert (Hpr : p <> str "/") by (intros E; by rewrite E in Ep). rewrite (decide_False _ _ Hpr).
    pose proof (route_object_routed _ _ _ _ _ H) as [_ Hop]. unfold op_bucket, op_key in *. rewrite Hop in *.
    destruct Hb as [->|Hb]; [done|]. rewrite (decide_False _ _ Hb).
    pose proof (path_kind_key _ _ _ Ep) as Hk.
    rewrite (decide_False _ _ Hk). by rewrite (object_action _ _ _ _ _ H).
Qed.
End AuditFacts.

(** ** Concrete requests *)

Definition sample_request (method path query : string) : Request := {|
  Method := str method; Path := str path; EscapedPath := str path; RawQuery := str query; URLHost := [];
  Host := str "gateway"; RemoteAddr := str "192.0.2.7:4711"; Hdr := ∅; ContentLength := 0; Body := NoBody; TLS := true |}.

#[local] Existing Instance latin1_case.
#[local] Existing Instance canonical_iter.

Example dispatch_examples :
  map (fun mpq : string * string * string =>
         let '(m, p, q) := mpq in ServeHTTP false ∅ (sample_request m p q))
    [("PUT", "/team1-a/k", "x-id=PutObject"); ("PUT", "/team1-a/k", "uploadId=u&partNumber=3");
     ("DELETE", "/team1-a/k", "uploadId="); ("PUT", "/team1-a/k", "policy"); ("PUT", "/team1-a", "tagging&x-id=1");
     ("PUT", "/team1-a/k", "retention"); ("GET", "/", ""); ("GET", "/team1-a", "list-type=3");
     ("PUT", "/team1-a/k", "=1&retention")]%string
  = [Handle (OpPutObject (str "team1-a") (str "k")); Handle (OpUploadPart (str "team1-a") (str "k") (str "u") 3);
     XMLError 400 (str "InvalidArgument") (str "uploadId requires an object path and one non-empty value");
     XMLError 501 (str "NotImplemented") (str "Operation not implemented: policy");
     Handle (OpPutBucketTagging (str "team1-a"));
     XMLError 501 (str "NotImplemented") (str "Operation not implemented: retention"); Handle OpListBuckets;
     XMLError 400 (str "InvalidArgument") (str "Invalid List Type");
     XMLError 400 (str "InvalidArgument") (str "query parameter names must not be empty")].
Proof. vm_compute. reflexivity. Qed.

(** The exceptions of [audit_matches_dispatch]: a bucket without a name, and the
    paths of the pop API that it answers with 404. *)
Theorem audit_misattributes :
  (ServeHTTP false ∅ (sample_request "GET" "//key" ""), action (classifyS3Request (sample_request "GET" "//key" "")))
  = (Handle (OpGetObject [] (str "key")), unknownS3Action) /\
  (ServeHTTP false ∅ (sample_request "GET" "/api/pop/x" ""), classifyS3Request (sample_request "GET" "/api/pop/x" ""))
  = (Handle OpPop, {| action := str "GetObject"; bucket := str "api"; key := str "pop/x" |}).
Proof. vm_compute. by split. Qed.

Lemma audit_matches_dispatch_witness :
  classifyS3Request (sample_request "DELETE" "/team1-a/k" "versionId=7")
  = {| action := str "DeleteObject"; bucket := str "team1-a"; key := str "k" |}.
Proof.
  apply (audit_matches_dispatch false ∅ _ (OpDeleteObject (str "team1-a") (str "k"))); [vm_compute; reflexivity | done | done | by right].
Defined.

Lemma dispatch_sound_witness :
  ServeHTTP false ∅ (sample_request "PUT" "/team1-a/k" "uploadId=u&partNumber=3")
    = Handle (OpUploadPart (str "team1-a") (str "k") (str "u") 3) /\
  Query (sample_request "PUT" "/team1-a/k" "uploadId=u&partNumber=3") !! str "uploadId" = Some [str "u"].
Proof.
  split; [vm_compute; reflexivity|].
  refine (proj1 (proj1 (proj2 (proj2 (proj2 (proj2 (dispatch_sound false ∅ _
    (OpUploadPart (str "team1-a") (str "k") (str "u") 3) _ _ _))))) (str "u") eq_refl)); [vm_compute; reflexivity | done | done].
Defined.
