(* ===== verification/Credentials.v ===== *)
(** * S3 credentials derived from LDAP credentials (src/internal/s3credentials)

    The access key is the LDAP user name and password, sealed for the gateway's
    X25519 key; the secret key is a digest of the same text.  HKDF, the Base64
    variant and the framing are modelled.  The arithmetic of the curve is the
    interface [Curve], of which the code relies on the agreement of two parties;
    the AEAD comes from a third-party package and is the interface [AEAD]. *)

From S2P Require Import Prelude GoStrings Crypto.

#[local] Open Scope Z_scope.

(** ** URL-safe Base64 *)

Definition base64url_digit (d : Z) : byte :=
  if d =? 62 then "-"%byte else if d =? 63 then "_"%byte else base64_digit d.

Definition base64url_val (b : byte) : option Z :=
  if in_range 65 90 b then Some (bz b - 65)
  else if in_range 97 122 b then Some (bz b - 97 + 26)
  else if in_range 48 57 b then Some (bz b - 48 + 52)
  else if decide (b = "-"%byte) then Some 62
  else if decide (b = "_"%byte) then Some 63
  else None.

(** Three octets as four digits; the last digits of a shorter tail are filled
    with zero bits. *)
Fixpoint to_digits (s : gostring) : list Z :=
  match s with
  | [] => []
  | [a] => let v := bz a * 16 in [v / 64; v mod 64]
  | [a; b] => let v := (bz a * 256 + bz b) * 4 in [v / 4096; v / 64 mod 64; v mod 64]
  | a :: b :: c :: s =>
    let v := bz a * 65536 + bz b * 256 + bz c in
    v / 262144 :: v / 4096 mod 64 :: v / 64 mod 64 :: v mod 64 :: to_digits s
  end.

Fixpoint of_digits (ds : list Z) : option gostring :=
  match ds with
  | [] => Some []
  | [_] => None
  | [x; y] => Some [zb ((x * 64 + y) / 16)]
  | [x; y; z] => let v := (x * 4096 + y * 64 + z) / 4 in Some [zb (v / 256); zb v]
  | x :: y :: z :: w :: ds =>
    let v := x * 262144 + y * 4096 + z * 64 + w in
    cons (zb (v / 65536)) <$> (cons (zb (v / 256)) <$> (cons (zb v) <$> of_digits ds))
  end.

(** [base64.RawURLEncoding]: no padding; line ends in the input are skipped. *)
Definition base64rawurl_encode (s : gostring) : gostring := map base64url_digit (to_digits s).
Definition base64rawurl_decode (s : gostring) : option gostring :=
  ds ← mapM base64url_val (filter (fun b => b <> x0a /\ b <> x0d) s); of_digits ds.

(** [base64.URLEncoding]: with padding. *)
Definition base64url_encode (s : gostring) : gostring :=
  let out := base64rawurl_encode s in
  out ++ replicate ((4 - length out mod 4) mod 4) "="%byte.

(** ** HKDF-SHA256 *)

(** [hkdf.Key] for one block of output. *)
Definition hkdf_key (secret salt info : gostring) (n : nat) : gostring :=
  take n (hmac_sha256 (hmac_sha256 salt secret) (info ++ [x01])).

(** ** The curve and the AEAD *)

(** What the code relies on of [ecdh.X25519()]: a key is 32 octets, and the two
    sides of an exchange get the same secret - or the same error, for a secret
    of zeros. *)
Class Curve := {
  public_key : gostring -> gostring;
  ECDH : gostring -> gostring -> option gostring;
  length_public_key k : length (public_key k) = 32%nat;
  ECDH_agree a b : ECDH a (public_key b) = ECDH b (public_key a)
}.

(** What the code relies on of [chacha20poly1305]: opening a sealed text under
    the same key, nonce and additional data gives it back. *)
Class AEAD := {
  aead_seal : gostring -> gostring -> gostring -> gostring -> gostring;           (* key nonce aad plaintext *)
  aead_open : gostring -> gostring -> gostring -> gostring -> option gostring;    (* key nonce aad ciphertext *)
  aead_open_seal key nonce aad pt : aead_open key nonce aad (aead_seal key nonce aad pt) = Some pt
}.
Definition KeySize : nat := 32.
Definition NonceSize : nat := 12.

(** ** The package *)

Definition s3CredentialsX25519V1 := str "X1".
Definition x25519KeySize : nat := 32.
Definition hkdfSaltSize : nat := 32.
Definition hkdfInfo := str "s3gateway-x25519-v1".

Inductive CredError :=
| ErrBase64 | ErrPayloadTooShort | ErrCiphertextTooShort | ErrECDH | ErrOpen
| ErrHex | ErrKeyLength | ErrColonInUsername | ErrTokenVersion | ErrTokenFormat | ErrNoPrivateKey.

(** A private key is its 32 octets. *)
Abbreviation PrivateKey := gostring.

Definition deriveKey (sharedSecret salt : gostring) : gostring := hkdf_key sharedSecret salt hkdfInfo KeySize.

Definition additional_data (pub salt : gostring) : gostring := s3CredentialsX25519V1 ++ pub ++ salt.

Definition EncodeSecretKey (secretKey : gostring) : gostring := base64url_encode (sha256 secretKey).

Section Package.
Context {U : UnicodeCase} {C : Curve} {A : AEAD}.

Definition decrypt (receiverPriv : PrivateKey) (encoded : gostring) : result CredError gostring :=
  match base64rawurl_decode encoded with
  | None => Err ErrBase64
  | Some data =>
    require! negb (length data =? 0)%nat else ErrPayloadTooShort in
    require! negb (length data <? x25519KeySize + hkdfSaltSize + NonceSize)%nat else ErrCiphertextTooShort in
    let ephemeralPub := take x25519KeySize data in
    let salt := take hkdfSaltSize (drop x25519KeySize data) in
    let nonce := take NonceSize (drop (x25519KeySize + hkdfSaltSize) data) in
    let ciphertext := drop (x25519KeySize + hkdfSaltSize + NonceSize) data in
    match ECDH receiverPriv ephemeralPub with
    | None => Err ErrECDH
    | Some sharedSecret =>
      match aead_open (deriveKey sharedSecret salt) nonce (additional_data ephemeralPub salt) ciphertext with
      | None => Err ErrOpen
      | Some pt => Ok pt
      end
    end
  end.

Definition X25519PublicKeyFromHex (hexKey : gostring) : result CredError gostring :=
  match hex_decode hexKey with
  | None => Err ErrHex
  | Some k => require! (length k =? x25519KeySize)%nat else ErrKeyLength in Ok k
  end.

Definition X25519PrivateKeyFromHex (hexKey : gostring) : result CredError PrivateKey :=
  match hex_decode hexKey with
  | None => Err ErrHex
  | Some k => require! (length k =? 32)%nat else ErrKeyLength in Ok k
  end.

(** [ephemeral], [salt] and [nonce] are what [rand.Reader] delivers. *)
Definition encrypt (receiverPub plaintext : gostring) (ephemeral : PrivateKey) (salt nonce : gostring)
    : result CredError gostring :=
  match ECDH ephemeral receiverPub with
  | None => Err ErrECDH
  | Some sharedSecret =>
    let epub := public_key ephemeral in
    let ciphertext := aead_seal (deriveKey sharedSecret salt) nonce (additional_data epub salt) plaintext in
    Ok (s3CredentialsX25519V1 ++ base64rawurl_encode (epub ++ salt ++ nonce ++ ciphertext))
  end.

Definition GenerateKeysX25519 (ldapUsername ldapPassword publicKeyHex : gostring)
    (ephemeral : PrivateKey) (salt nonce : gostring) : result CredError (gostring * gostring) :=
  let! publicKey := X25519PublicKeyFromHex publicKeyHex in
  require! bool_decide (":"%byte ∉ ldapUsername) else ErrColonInUsername in
  let token := ldapUsername ++ str ":" ++ ldapPassword in
  let! accessKey := encrypt publicKey token ephemeral salt nonce in
  Ok (accessKey, EncodeSecretKey token).

Definition decryptToken (encoded : gostring) (privateKey : PrivateKey)
    : result CredError (gostring * gostring * gostring) :=
  require! HasPrefix encoded s3CredentialsX25519V1 else ErrTokenVersion in
  let! decrypted := decrypt privateKey (drop 2 encoded) in
  match Cut decrypted ":"%byte with
  | None => Err ErrTokenFormat
  | Some (ldapUsername, ldapPassword) =>
    require! bool_decide (TrimSpace ldapUsername <> [] /\ ldapPassword <> []) else ErrTokenFormat in
    Ok (ldapUsername, ldapPassword, EncodeSecretKey decrypted)
  end.

Definition Decode (accessKey : gostring) (privateKey : option PrivateKey)
    : result CredError (gostring * gostring * gostring) :=
  match privateKey with
  | None => Err ErrNoPrivateKey
  | Some k => decryptToken accessKey k
  end.

(** [GenerateX25519TestKeys], from the octets [rand.Reader] delivers. *)
Definition GenerateX25519TestKeys (random : PrivateKey) : gostring * gostring :=
  (hex_encode random, hex_encode (public_key random)).

End Package.

(** ** Standard Base64 *)

Definition base64_val (b : byte) : option Z :=
  if decide (b = "-"%byte) then None
  else if decide (b = "_"%byte) then None
  else if decide (b = "+"%byte) then Some 62
  else if decide (b = "/"%byte) then Some 63
  else base64url_val b.

(** [base64.StdEncoding.DecodeString]. *)
Definition base64_decode (s : gostring) : option gostring :=
  let s := filter (fun b => b <> x0a /\ b <> x0d) s in
  let core := TrimSuffix (TrimSuffix s (str "=")) (str "=") in
  if negb (length s mod 4 =? 0)%nat then None
  else ds ← mapM base64_val core; of_digits ds.

(** ** Lemmas: Base64 *)

Lemma zb_mod z : zb (z mod 256) = zb z.
Proof. unfold zb. by rewrite Z.mod_mod by lia. Qed.

Lemma zb_low k b : zb (k * 256 + bz b) = b.
Proof.
  rewrite <- zb_mod, Z.add_comm, Z_mod_plus_full. pose proof (bz_range b). rewrite Z.mod_small by lia. apply zb_bz.
Qed.

Lemma digits_roundtrip s : of_digits (to_digits s) = Some s.
Proof.
  remember (length s) as n eqn:Hn. revert s Hn. induction (lt_wf n) as [n _ IH]. intros s ->.
  destruct s as [|a [|b [|c s]]]; [done|..]; pose proof (bz_range a).
  - cbn [to_digits of_digits]. do 2 f_equal. set (v := bz a * 16).
    replace (v / 64 * 64 + v mod 64) with v by (pose proof (Z.div_mod v 64); lia).
    unfold v. rewrite Z.div_mul by lia. apply zb_bz.
  - pose proof (bz_range b). cbn [to_digits of_digits]. set (v := (bz a * 256 + bz b) * 4).
    replace (v / 4096 * 4096 + v / 64 mod 64 * 64 + v mod 64) with v by (clearbody v; Z.to_euclidean_division_equations; lia).
    unfold v. rewrite Z.div_mul by lia. do 2 f_equal.
    + replace ((bz a * 256 + bz b) / 256) with (bz a) by (Z.to_euclidean_division_equations; lia). apply zb_bz.
    + by rewrite zb_low.
  - pose proof (bz_range b). pose proof (bz_range c). cbn [to_digits of_digits].
    set (v := bz a * 65536 + bz b * 256 + bz c).
    replace (v / 262144 * 262144 + v / 4096 mod 64 * 4096 + v / 64 mod 64 * 64 + v mod 64) with v
      by (clearbody v; Z.to_euclidean_division_equations; lia).
    rewrite (IH (length s)) by (simpl; lia || done). cbn [fmap option_fmap option_map]. do 2 f_equal; [|f_equal; [|f_equal]].
    + replace (v / 65536) with (bz a) by (unfold v; Z.to_euclidean_division_equations; lia). apply zb_bz.
    + replace (v / 256) with (bz a * 256 + bz b) by (unfold v; Z.to_euclidean_division_equations; lia). apply zb_low.
    + replace v with ((bz a * 256 + bz b) * 256 + bz c) by (unfold v; lia). apply zb_low.
Qed.

Definition digit_range (d : Z) : Prop := 0 <= d < 64.

Lemma to_digits_range s : Forall digit_range (to_digits s).
Proof.
  remember (length s) as n eqn:Hn. revert s Hn. induction (lt_wf n) as [n _ IH]. intros s ->. unfold digit_range in *.
  destruct s as [|a [|b [|c s]]]; [constructor|..]; pose proof (bz_range a); cbn [to_digits].
  - repeat constructor; Z.to_euclidean_division_equations; lia.
  - pose proof (bz_range b). repeat constructor; Z.to_euclidean_division_equations; lia.
  - pose proof (bz_range b). pose proof (bz_range c).
    do 4 (constructor; [Z.to_euclidean_division_equations; lia|]). eapply IH; [|done]. simpl. lia.
Qed.

Lemma url_digit_val d : digit_range d -> base64url_val (base64url_digit d) = Some d /\
  base64url_digit d <> x0a /\ base64url_digit d <> x0d.
Proof.
  intros Hd. unfold digit_range in Hd.
  assert (H : forallb (fun n => let d := Z.of_nat n in
    bool_decide (base64url_val (base64url_digit d) = Some d /\ base64url_digit d <> x0a /\ base64url_digit d <> x0d)) (seq 0 64) = true)
    by (vm_compute; reflexivity).
  rewrite forallb_forall in H. specialize (H (Z.to_nat d)). cbv zeta in H. rewrite Z2Nat.id in H by lia.
  apply bool_decide_eq_true in H; [done|]. apply in_seq. lia.
Qed.

Lemma base64rawurl_roundtrip s : base64rawurl_decode (base64rawurl_encode s) = Some s.
Proof.
  unfold base64rawurl_decode, base64rawurl_encode. pose proof (to_digits_range s) as Hr.
  assert (H : mapM base64url_val (filter (fun b => b <> x0a /\ b <> x0d) (map base64url_digit (to_digits s))) = Some (to_digits s)).
  { induction Hr as [|d ds Hd _ IH]; [done|]. destruct (url_digit_val d Hd) as (Hv & Hn).
    cbn [map]. rewrite filter_cons_True by done. cbn [mapM]. by rewrite Hv, IH. }
  rewrite H. apply digits_roundtrip.
Qed.

(** ** Lemmas: hexadecimal *)

Lemma hex_digit_roundtrip b :
  hex_val (hex_digit false (Z.shiftr (bz b) 4)) = Some (Z.shiftr (bz b) 4) /\
  hex_val (hex_digit false (Z.land (bz b) 15)) = Some (Z.land (bz b) 15) /\
  Z.shiftr (bz b) 4 * 16 + Z.land (bz b) 15 = bz b.
Proof.
  pose proof (byte_forallb (fun b => bool_decide (
    hex_val (hex_digit false (Z.shiftr (bz b) 4)) = Some (Z.shiftr (bz b) 4) /\
    hex_val (hex_digit false (Z.land (bz b) 15)) = Some (Z.land (bz b) 15) /\
    Z.shiftr (bz b) 4 * 16 + Z.land (bz b) 15 = bz b)) ltac:(by vm_compute) b) as H. cbv beta in H.
  by apply bool_decide_eq_true in H.
Qed.

Lemma hex_roundtrip s : hex_decode (hex_encode s) = Some s.
Proof.
  induction s as [|b s IH]; [done|]. destruct (hex_digit_roundtrip b) as (H1 & H2 & H3).
  change (hex_encode (b :: s)) with (hex_digit false (Z.shiftr (bz b) 4) :: hex_digit false (Z.land (bz b) 15) :: hex_encode s).
  cbn [hex_decode]. rewrite H1, H2, IH. simpl. by rewrite H3, zb_bz.
Qed.

(** ** Theorems *)

Section Theorems.
Context {U : UnicodeCase} {C : Curve} {A : AEAD}.

Lemma decrypt_encrypt priv eph salt nonce pt ak :
  length salt = hkdfSaltSize -> length nonce = NonceSize ->
  encrypt (public_key priv) pt eph salt nonce = Ok ak ->
  exists body, ak = s3CredentialsX25519V1 ++ body /\ decrypt priv body = Ok pt.
Proof.
  intros Hs Hn. unfold encrypt. destruct (ECDH eph (public_key priv)) as [secret|] eqn:E; [|done].
  intros [= <-]. eexists. split; [reflexivity|]. unfold decrypt. rewrite base64rawurl_roundtrip.
  pose proof (length_public_key eph) as Hp. set (ct := aead_seal _ _ _ _).
  rewrite !length_app, Hs, Hn, Hp. unfold hkdfSaltSize, NonceSize, x25519KeySize in *.
  rewrite (proj2 (Nat.eqb_neq _ _)), (proj2 (Nat.ltb_ge _ _)) by lia. cbn [negb rguard rbind].
  rewrite take_app_length' by done. rewrite ECDH_agree in E. rewrite E.
  rewrite (drop_app_length' (public_key eph)) by done. rewrite take_app_length' by done.
  rewrite (app_assoc (public_key eph)).
  rewrite (drop_app_length' (public_key eph ++ salt)) by (rewrite length_app, Hp, Hs; done).
  rewrite take_app_length' by done. rewrite (app_assoc _ nonce).
  rewrite drop_app_length' by (rewrite !length_app, Hp, Hs, Hn; done).
  unfold ct. by rewrite aead_open_seal.
Qed.

(** C24. Generated keys decode to the credentials they were made for: with the
    matching private key the access key yields the user name, the password and
    the secret key that were handed out - whatever octets the password has,
    colons included - unless the user name is blank or the password is empty,
    which the gateway rejects. *)
Theorem credentials_roundtrip priv eph salt nonce u p ak sk :
  length salt = hkdfSaltSize -> length nonce = NonceSize ->
  GenerateKeysX25519 u p (hex_encode (public_key priv)) eph salt nonce = Ok (ak, sk) ->
  Decode ak (Some priv) =
  (if decide (TrimSpace u = [] \/ p = []) then Err ErrTokenFormat else Ok (u, p, sk)).
Proof.
  intros Hs Hn. unfold GenerateKeysX25519, X25519PublicKeyFromHex. rewrite hex_roundtrip, length_public_key.
  cbn [Nat.eqb x25519KeySize rguard rbind]. intros [Hcolon%bool_decide_eq_true H]%require_Ok.
  apply rbind_Ok in H as (k & He & [= <- <-]). apply (decrypt_encrypt _ _ _ _ _ _ Hs Hn) in He as (body & -> & Hd).
  unfold Decode, decryptToken. rewrite HasPrefix_app. cbn [rguard rbind].
  change (drop 2 (s3CredentialsX25519V1 ++ body)) with body. rewrite Hd. cbn [rbind].
  change (u ++ str ":" ++ p) with (u ++ ":"%byte :: p). rewrite Cut_app by done.
  destruct (decide (TrimSpace u = [] \/ p = [])) as [Hb|Hb].
  - by rewrite (bool_decide_eq_false_2 (_ /\ _)) by tauto.
  - by rewrite (bool_decide_eq_true_2 (_ /\ _)) by tauto.
Qed.
End Theorems.

(** ** A concrete exchange *)

(** A curve and an AEAD that satisfy the laws, to evaluate the package with. *)
Definition mask_bytes (a b : gostring) : gostring := zip_with (fun x y => zb (Z.lxor (bz x) (bz y))) a b.

Definition toy_public (k : gostring) : gostring := take 32 (k ++ replicate 32 x00).

Lemma length_toy_public k : length (toy_public k) = 32%nat.
Proof. unfold toy_public. rewrite length_take, length_app, length_replicate. lia. Qed.

Lemma mask_bytes_comm a b : mask_bytes a b = mask_bytes b a.
Proof.
  revert b. induction a as [|x a IH]; intros [|y b]; try done. unfold mask_bytes in *. cbn [zip_with].
  by rewrite IH, Z.lxor_comm.
Qed.

Definition toy_curve : Curve := {|
  public_key := toy_public;
  ECDH a pub := Some (mask_bytes (toy_public a) pub);
  length_public_key := length_toy_public;
  ECDH_agree a b := f_equal Some (mask_bytes_comm (toy_public a) (toy_public b)) |}.

Definition toy_open (key nonce aad ct : gostring) : option gostring :=
  let pt := drop 32 ct in
  if decide (take 32 ct = hmac_sha256 key (nonce ++ aad ++ pt)) then Some pt else None.

Lemma toy_open_seal key nonce aad pt :
  toy_open key nonce aad (hmac_sha256 key (nonce ++ aad ++ pt) ++ pt) = Some pt.
Proof.
  unfold toy_open. rewrite drop_app_length' by (by rewrite length_hmac_sha256).
  rewrite take_app_length' by (by rewrite length_hmac_sha256). by rewrite decide_True.
Qed.

Definition toy_aead : AEAD := {|
  aead_seal key nonce aad pt := hmac_sha256 key (nonce ++ aad ++ pt) ++ pt;
  aead_open := toy_open; aead_open_seal := toy_open_seal |}.

#[local] Existing Instance latin1_case.
#[local] Existing Instance toy_curve.
#[local] Existing Instance toy_aead.

Definition sample_keys : result CredError (gostring * gostring) :=
  GenerateKeysX25519 (str "alice") (str "pa:ss") (hex_encode (public_key (str "gateway"))) (str "ephemeral")
    (replicate 32 x01) (replicate 12 x02).

Lemma credentials_roundtrip_witness :
  exists ak sk, sample_keys = Ok (ak, sk) /\ Decode ak (Some (str "gateway")) = Ok (str "alice", str "pa:ss", sk).
Proof.
  eexists _, _. split; [vm_compute; reflexivity|].
  refine (credentials_roundtrip (str "gateway") (str "ephemeral") (replicate 32 x01) (replicate 12 x02)
    (str "alice") (str "pa:ss") _ _ eq_refl eq_refl _). vm_compute. reflexivity.
Defined.
