(* ===== verification/AuthLookup.v ===== *)
(** * Looking up the groups of a credential (src/internal/server/server.go)

    [GroupsForCredentialsContext], [startGroupLookup] and
    [lookupCredentialGroups], as a system: the requests that wait, the shared
    lookups that run for them, the cache and the limiter they use.  Every step
    that takes a lock is one event, so a list of events is one interleaving of
    the goroutines, with the clock readings and the directory's answers it saw.
    An event that is not enabled changes nothing. *)

From S2P Require Import Prelude GoStrings Crypto.
From S2P Require GroupCache Limiter.

#[local] Open Scope Z_scope.

Abbreviation Cache := GroupCache.Cache.
Abbreviation Attempt := Limiter.Attempt.

(** ** State *)

Inductive AuthError := ErrMissingCredentials | ErrRejectedCredentials | ErrLimited | ErrCanceled | ErrDirectory.

Abbreviation groups_result := (result AuthError (gset gostring)).

(** What the directory answers: groups, a rejection of the credential
    ([authn.ErrRejectedCredentials]), or any other failure. *)
Inductive DirectoryReply := DirGroups (g : gset gostring) | DirRejected | DirFailed.

Definition reply_result (d : DirectoryReply) : groups_result :=
  match d with
  | DirGroups g => Ok g
  | DirRejected => Err ErrRejectedCredentials
  | DirFailed => Err ErrDirectory
  end.

(** Where the goroutine of a lookup is, by what it does next. *)
Inductive flight_phase :=
| FGet                                              (* gcache.Get *)
| FRejected                                         (* gcache.Rejected *)
| FAcquire                                          (* authLimiter.TryAcquire *)
| FFetch (lease : nat)                              (* fetchGroups *)
| FStore (lease : nat) (reply : DirectoryReply)     (* gcache.Set or gcache.Reject *)
| FMark (lease : nat) (g : gset gostring)           (* authLimiter.MarkAuthenticated *)
| FRelease (lease : nat) (res : groups_result)      (* the deferred release *)
| FPublish (res : groups_result)                    (* delete from groupLookups, close done *)
| FClosed (res : groups_result).

Record Flight := { fl_upn : gostring; fl_pass : gostring; fl_attempt : Attempt; fl_phase : flight_phase }.

(** Where a request is in [GroupsForCredentialsContext]. *)
Inductive wait_phase := WGet | WRejected | WJoin | WWait (flight : nat) | WDone (res : groups_result).

Record Waiter := { w_client : gostring; w_upn : gostring; w_pass : gostring; w_phase : wait_phase }.

Section System.
Context {U : UnicodeCase} {MI : MapIter} {FL : Limiter.Float64}.

Record GW := {
  gw_cache : Cache;                      (* gcache *)
  gw_limiter : Limiter.Sys;              (* authLimiter and the leases it has out *)
  gw_lookups : gmap gostring nat;        (* groupLookups *)
  gw_flights : gmap nat Flight;          (* every lookup started, by number *)
  gw_next : nat;
  gw_waiters : gmap nat Waiter
}.

Definition gw_init (ttl maxEntries : Z) (limits : Limiter.Limits) : GW :=
  {| gw_cache := GroupCache.New ttl maxEntries; gw_limiter := Limiter.sys_init limits; gw_lookups := ∅;
     gw_flights := ∅; gw_next := 0; gw_waiters := ∅ |}.

Definition with_cache (c : Cache) (s : GW) : GW :=
  {| gw_cache := c; gw_limiter := gw_limiter s; gw_lookups := gw_lookups s; gw_flights := gw_flights s;
     gw_next := gw_next s; gw_waiters := gw_waiters s |}.
Definition with_limiter (l : Limiter.Sys) (s : GW) : GW :=
  {| gw_cache := gw_cache s; gw_limiter := l; gw_lookups := gw_lookups s; gw_flights := gw_flights s;
     gw_next := gw_next s; gw_waiters := gw_waiters s |}.
Definition with_lookups (m : gmap gostring nat) (s : GW) : GW :=
  {| gw_cache := gw_cache s; gw_limiter := gw_limiter s; gw_lookups := m; gw_flights := gw_flights s;
     gw_next := gw_next s; gw_waiters := gw_waiters s |}.
Definition put_flight (f : nat) (fl : Flight) (s : GW) : GW :=
  {| gw_cache := gw_cache s; gw_limiter := gw_limiter s; gw_lookups := gw_lookups s;
     gw_flights := <[f := fl]> (gw_flights s); gw_next := gw_next s; gw_waiters := gw_waiters s |}.
Definition new_flight (key : gostring) (fl : Flight) (s : GW) : GW :=
  {| gw_cache := gw_cache s; gw_limiter := gw_limiter s; gw_lookups := <[key := gw_next s]> (gw_lookups s);
     gw_flights := <[gw_next s := fl]> (gw_flights s); gw_next := S (gw_next s); gw_waiters := gw_waiters s |}.
Definition put_waiter (w : nat) (wt : Waiter) (s : GW) : GW :=
  {| gw_cache := gw_cache s; gw_limiter := gw_limiter s; gw_lookups := gw_lookups s; gw_flights := gw_flights s;
     gw_next := gw_next s; gw_waiters := <[w := wt]> (gw_waiters s) |}.

Definition fl_to (p : flight_phase) (fl : Flight) : Flight :=
  {| fl_upn := fl_upn fl; fl_pass := fl_pass fl; fl_attempt := fl_attempt fl; fl_phase := p |}.
Definition w_to (p : wait_phase) (w : Waiter) : Waiter :=
  {| w_client := w_client w; w_upn := w_upn w; w_pass := w_pass w; w_phase := p |}.

(** ** Events *)

Inductive event :=
| ERequest (w : nat) (client upn pass : gostring)   (* a call with a live context *)
| EWaiter (w : nat) (now : instant)                 (* the next step of a request *)
| ECancel (w : nat)                                 (* its context is done *)
| EFlight (f : nat) (now : instant) (reply : DirectoryReply)  (* the next step of a lookup *)
| EIngress (now : instant) (client : gostring).     (* authLimiter.AllowIngress, for any request *)

(** [startGroupLookup]: join the lookup of the same key, or start one. *)
Definition startGroupLookup (upn pass : gostring) (attempt : Attempt) (s : GW) : GW * nat :=
  let key := GroupCache.SingleflightCredentialKey upn pass in
  match gw_lookups s !! key with
  | Some f => (s, f)
  | None =>
    (new_flight key {| fl_upn := upn; fl_pass := pass; fl_attempt := attempt; fl_phase := FGet |} s, gw_next s)
  end.

(** [GroupsForCredentialsContext], one step. *)
Definition refund (now : instant) (client : gostring) (s : GW) : GW :=
  with_limiter (Limiter.sys_step (gw_limiter s) (Limiter.EvRefundIngress now client)) s.

Definition waiter_step (w : nat) (wt : Waiter) (now : instant) (s : GW) : GW :=
  match w_phase wt with
  | WGet =>
    let '(c, hit) := GroupCache.Get (gw_cache s) now (w_upn wt) (w_pass wt) in
    let s := with_cache c s in
    match hit with
    | Some g => put_waiter w (w_to (WDone (Ok g)) wt) (refund now (w_client wt) s)
    | None => put_waiter w (w_to WRejected wt) s
    end
  | WRejected =>
    let '(c, rejected) := GroupCache.Rejected (gw_cache s) now (w_upn wt) (w_pass wt) in
    put_waiter w (w_to (if (rejected : bool) then WDone (Err ErrRejectedCredentials) else WJoin) wt) (with_cache c s)
  | WJoin =>
    let '(s, f) := startGroupLookup (w_upn wt) (w_pass wt)
                     (Limiter.NewAttempt (w_client wt) (w_upn wt) (w_pass wt)) s in
    put_waiter w (w_to (WWait f) wt) s
  | WWait f =>
    match fl_phase <$> gw_flights s !! f with
    | Some (FClosed (Ok g)) =>
      put_waiter w (w_to (WDone (Ok (GroupCache.CloneGroups g))) wt) (refund now (w_client wt) s)
    | Some (FClosed (Err e)) => put_waiter w (w_to (WDone (Err e)) wt) s
    | _ => s
    end
  | WDone _ => s
  end.

(** [lookupCredentialGroups] and the goroutine around it, one step. *)
Definition flight_step (f : nat) (fl : Flight) (now : instant) (reply : DirectoryReply) (s : GW) : GW :=
  match fl_phase fl with
  | FGet =>
    let '(c, hit) := GroupCache.Get (gw_cache s) now (fl_upn fl) (fl_pass fl) in
    put_flight f (fl_to (match hit with Some g => FPublish (Ok g) | None => FRejected end) fl) (with_cache c s)
  | FRejected =>
    let '(c, rejected) := GroupCache.Rejected (gw_cache s) now (fl_upn fl) (fl_pass fl) in
    put_flight f (fl_to (if (rejected : bool) then FPublish (Err ErrRejectedCredentials) else FAcquire) fl) (with_cache c s)
  | FAcquire =>
    let l := gw_limiter s in
    let l' := Limiter.sys_step l (Limiter.EvTryAcquire now (fl_attempt fl)) in
    put_flight f
      (fl_to (match (Limiter.TryAcquire (Limiter.sys_lim l) now (fl_attempt fl)).2 with
              | Some _ => FFetch (Limiter.sys_next l)
              | None => FPublish (Err ErrLimited)
              end) fl) (with_limiter l' s)
  | FFetch lease => put_flight f (fl_to (FStore lease reply) fl) s
  | FStore lease (DirGroups g) =>
    put_flight f (fl_to (FMark lease g) fl)
      (with_cache (GroupCache.Set_ (gw_cache s) now (fl_upn fl) (fl_pass fl) g) s)
  | FStore lease DirRejected =>
    put_flight f (fl_to (FRelease lease (Err ErrRejectedCredentials)) fl)
      (with_cache (GroupCache.Reject (gw_cache s) now (fl_upn fl) (fl_pass fl)) s)
  | FStore lease DirFailed => put_flight f (fl_to (FRelease lease (Err ErrDirectory)) fl) s
  | FMark lease g =>
    put_flight f (fl_to (FRelease lease (Ok g)) fl)
      (with_limiter (Limiter.sys_step (gw_limiter s) (Limiter.EvMarkAuthenticated now (fl_attempt fl))) s)
  | FRelease lease res =>
    put_flight f (fl_to (FPublish res) fl)
      (with_limiter (Limiter.sys_step (gw_limiter s) (Limiter.EvRelease lease)) s)
  | FPublish res =>
    put_flight f (fl_to (FClosed res) fl)
      (with_lookups (delete (GroupCache.SingleflightCredentialKey (fl_upn fl) (fl_pass fl)) (gw_lookups s)) s)
  | FClosed _ => s
  end.

Definition gw_step (s : GW) (e : event) : GW :=
  match e with
  | ERequest w client upn pass =>
    match gw_waiters s !! w with
    | Some _ => s
    | None =>
      let start := if decide (upn = [] \/ pass = []) then WDone (Err ErrMissingCredentials) else WGet in
      put_waiter w {| w_client := client; w_upn := upn; w_pass := pass; w_phase := start |} s
    end
  | EWaiter w now =>
    match gw_waiters s !! w with
    | Some wt => waiter_step w wt now s
    | None => s
    end
  | ECancel w =>
    match gw_waiters s !! w with
    | Some wt =>
      match w_phase wt with
      | WWait _ => put_waiter w (w_to (WDone (Err ErrCanceled)) wt) s
      | _ => s
      end
    | None => s
    end
  | EFlight f now reply =>
    match gw_flights s !! f with
    | Some fl => flight_step f fl now reply s
    | None => s
    end
  | EIngress now client =>
    with_limiter (Limiter.sys_step (gw_limiter s) (Limiter.EvAllowIngress now client)) s
  end.

Definition gw_run (ttl maxEntries : Z) (limits : Limiter.Limits) (es : list event) : GW :=
  fold_left gw_step es (gw_init ttl maxEntries limits).

End System.

(** ** Single flight: one open lookup per key *)

Definition flight_key (fl : Flight) : gostring := GroupCache.SingleflightCredentialKey (fl_upn fl) (fl_pass fl).
Definition waiter_key (w : Waiter) : gostring := GroupCache.SingleflightCredentialKey (w_upn w) (w_pass w).
Definition is_open (p : flight_phase) : bool := match p with FClosed _ => false | _ => true end.

Section Facts.
Context {U : UnicodeCase} {MI : MapIter} {FL : Limiter.Float64}.

Record table_inv (s : GW) : Prop := {
  ti_lookups : forall k f, gw_lookups s !! k = Some f ->
    exists fl, gw_flights s !! f = Some fl /\ flight_key fl = k /\ is_open (fl_phase fl) = true;
  ti_open : forall f fl, gw_flights s !! f = Some fl -> is_open (fl_phase fl) = true ->
    gw_lookups s !! flight_key fl = Some f;
  ti_next : forall f, is_Some (gw_flights s !! f) -> (f < gw_next s)%nat;
  ti_waiting : forall w wt f, gw_waiters s !! w = Some wt -> w_phase wt = WWait f ->
    exists fl, gw_flights s !! f = Some fl /\ flight_key fl = waiter_key wt
}.

Lemma table_put_waiter s w wt p :
  table_inv s -> (forall f, p = WWait f -> exists fl, gw_flights s !! f = Some fl /\ flight_key fl = waiter_key wt) ->
  table_inv (put_waiter w (w_to p wt) s).
Proof.
  intros [H1 H2 H3 H4] Hp. split; [done..|]. simpl. intros w' wt' f'. rewrite lookup_insert_Some.
  intros [[<- <-]|[_ Hw]] Hph; [by apply Hp | by eapply H4].
Qed.

Lemma table_put_flight s f fl p :
  table_inv s -> gw_flights s !! f = Some fl -> is_open (fl_phase fl) = true -> is_open p = true ->
  table_inv (put_flight f (fl_to p fl) s).
Proof.
  intros [H1 H2 H3 H4] Hf Hop Hp. split; simpl.
  - intros k f' Hk. destruct (H1 k f' Hk) as (fl' & Hf' & Hkey & Ho). destruct (decide (f' = f)) as [->|Hne].
    + exists (fl_to p fl). rewrite lookup_insert_eq. rewrite Hf in Hf'. by injection Hf' as <-.
    + exists fl'. by rewrite lookup_insert_ne.
  - intros f' fl'. rewrite lookup_insert_Some. intros [[<- <-]|[_ Hf']]; [|by apply H2]. intros _. by apply (H2 f fl).
  - intros f'. destruct (decide (f' = f)) as [->|Hne]; [by intros _; apply H3|]. rewrite lookup_insert_ne by done. apply H3.
  - intros w wt f' Hw Hph. destruct (H4 w wt f' Hw Hph) as (fl' & Hf' & Hk). destruct (decide (f' = f)) as [->|Hne].
    + exists (fl_to p fl). rewrite lookup_insert_eq. rewrite Hf in Hf'. by injection Hf' as <-.
    + exists fl'. by rewrite lookup_insert_ne.
Qed.

Lemma table_publish s f fl res :
  table_inv s -> gw_flights s !! f = Some fl -> is_open (fl_phase fl) = true ->
  table_inv (put_flight f (fl_to (FClosed res) fl) (with_lookups (delete (flight_key fl) (gw_lookups s)) s)).
Proof.
  intros [H1 H2 H3 H4] Hf Hop. split; simpl.
  - intros k f' [Hne Hk]%lookup_delete_Some. destruct (H1 k f' Hk) as (fl' & Hf' & Hkey & Ho).
    exists fl'. rewrite lookup_insert_ne; [done|]. intros <-. rewrite Hf in Hf'. by injection Hf' as <-.
  - intros f' fl'. rewrite lookup_insert_Some. intros [[<- <-]|[Hne Hf']]; [done|]. intros Ho.
    rewrite lookup_delete_ne; [by apply H2|]. intros E. pose proof (H2 _ _ Hf Hop) as X. pose proof (H2 _ _ Hf' Ho) as Y.
    rewrite E in X. rewrite X in Y. by injection Y.
  - intros f'. destruct (decide (f' = f)) as [->|Hne]; [by intros _; apply H3|]. rewrite lookup_insert_ne by done. apply H3.
  - intros w wt f' Hw Hph. destruct (H4 w wt f' Hw Hph) as (fl' & Hf' & Hk). destruct (decide (f' = f)) as [->|Hne].
    + exists (fl_to (FClosed res) fl). rewrite lookup_insert_eq. rewrite Hf in Hf'. by injection Hf' as <-.
    + exists fl'. by rewrite lookup_insert_ne.
Qed.

Lemma table_start upn pass a s s' f :
  table_inv s -> startGroupLookup upn pass a s = (s', f) ->
  table_inv s' /\ exists fl, gw_flights s' !! f = Some fl /\ flight_key fl = GroupCache.SingleflightCredentialKey upn pass.
Proof.
  intros [H1 H2 H3 H4]. unfold startGroupLookup. destruct (gw_lookups s !! _) as [f'|] eqn:E; intros [= <- <-].
  { split; [done|]. destruct (H1 _ _ E) as (fl & ? & ? & _). eauto. }
  assert (Hfresh : gw_flights s !! gw_next s = None).
  { destruct (gw_flights s !! gw_next s) as [fl|] eqn:E'; [|done]. specialize (H3 _ (ex_intro _ _ E')). lia. }
  split; [|by eexists; split; [apply lookup_insert_eq | done]]. split; simpl.
  - intros k f'. rewrite lookup_insert_Some. intros [[<- <-]|[Hne Hk]]; [eexists; by rewrite lookup_insert_eq|].
    destruct (H1 k f' Hk) as (fl & Hf & ? & ?). exists fl. rewrite lookup_insert_ne; [done|]. intros <-. congruence.
  - intros f' fl. rewrite lookup_insert_Some. intros [[<- <-]|[Hne Hf]] Ho; [by rewrite lookup_insert_eq|].
    rewrite lookup_insert_ne; [by apply H2|]. intros Ek. rewrite Ek in E. by rewrite (H2 _ _ Hf Ho) in E.
  - intros f' [fl Hf]. rewrite lookup_insert_Some in Hf. destruct Hf as [[<- _]|[_ Hf]]; [lia|].
    specialize (H3 f' (ex_intro _ _ Hf)). lia.
  - intros w wt f' Hw Hph. destruct (H4 w wt f' Hw Hph) as (fl & Hf & ?). exists fl.
    rewrite lookup_insert_ne; [done|]. intros <-. congruence.
Qed.

Lemma table_step s e : table_inv s -> table_inv (gw_step s e).
Proof.
  intros Hs. destruct e as [w client upn pass|w now|w|f now reply|now client]; simpl.
  - destruct (gw_waiters s !! w) eqn:E; [done|].
    apply (table_put_waiter s w {| w_client := client; w_upn := upn; w_pass := pass; w_phase := WGet |} _ Hs).
    intros f. by destruct (decide _).
  - destruct (gw_waiters s !! w) as [wt|] eqn:E; [|done]. unfold waiter_step. destruct (w_phase wt) as [| | |f|res] eqn:Ep.
    + destruct (GroupCache.Get _ _ _ _) as [c [g|]]; apply table_put_waiter; done || (destruct Hs; by split).
    + destruct (GroupCache.Rejected _ _ _ _) as [c [|]]; apply table_put_waiter; done || (destruct Hs; by split).
    + destruct (startGroupLookup _ _ _ _) as [s' f] eqn:Es.
      apply (table_start _ _ _ _ _ _ Hs) in Es as [Hs' Hf]. apply table_put_waiter; [done|]. by intros f' [= <-].
    + destruct (gw_flights s !! f) as [fl|] eqn:Ef; [|done]. cbn. destruct (fl_phase fl) as [| | | | | | | |[g|e]];
        try done; apply table_put_waiter; done || (destruct Hs; by split).
    + done.
  - destruct (gw_waiters s !! w) as [wt|] eqn:E; [|done]. destruct (w_phase wt); try done. by apply table_put_waiter.
  - destruct (gw_flights s !! f) as [fl|] eqn:E; [|done]. unfold flight_step. destruct (fl_phase fl) as [| | |l|l r|l g|l r|r|r] eqn:Ep.
    + destruct (GroupCache.Get _ _ _ _) as [c [g|]]; apply table_put_flight; rewrite ?Ep; done || (destruct Hs; by split).
    + destruct (GroupCache.Rejected _ _ _ _) as [c [|]]; apply table_put_flight; rewrite ?Ep; done || (destruct Hs; by split).
    + apply table_put_flight; rewrite ?Ep; try done; [destruct Hs; by split | by destruct (Limiter.TryAcquire _ _ _).2].
    + apply table_put_flight; rewrite ?Ep; done.
    + destruct r; apply table_put_flight; rewrite ?Ep; done || (destruct Hs; by split).
    + apply table_put_flight; rewrite ?Ep; done || (destruct Hs; by split).
    + apply table_put_flight; rewrite ?Ep; done || (destruct Hs; by split).
    + apply table_publish; rewrite ?Ep; done.
    + done.
  - destruct Hs; by split.
Qed.

Lemma table_run ttl max limits es : table_inv (gw_run ttl max limits es).
Proof.
  unfold gw_run. induction es as [|e es IH] using rev_ind.
  - split; simpl; setoid_rewrite lookup_empty; done.
  - rewrite fold_left_app. by apply table_step.
Qed.
End Facts.

(** ** Nothing but the directory authenticates *)

Section Verified.
Context {U : UnicodeCase} {MI : MapIter} {FL : Limiter.Float64}.
Variables (ttl maxEntries : Z) (limits : Limiter.Limits).
#[local] Abbreviation grun := (gw_run ttl maxEntries limits).

(** In the run of [es], a lookup for the credential asked the directory, and it
    answered with these groups. *)
Definition verified (es : list event) (upn pass : gostring) (g : gset gostring) : Prop :=
  exists pre f now post a lease,
    es = pre ++ EFlight f now (DirGroups g) :: post /\
    gw_flights (grun pre) !! f =
      Some {| fl_upn := upn; fl_pass := pass; fl_attempt := a; fl_phase := FFetch lease |}.

(** ... for a credential with the same digest. *)
Definition verified_key (es : list event) (upn pass : gostring) (g : gset gostring) : Prop :=
  exists upn' pass', GroupCache.SingleflightCredentialKey upn' pass' = GroupCache.SingleflightCredentialKey upn pass /\
    verified es upn' pass' g.

Lemma verified_mono es e u p g : verified es u p g -> verified (es ++ [e]) u p g.
Proof.
  intros (pre & f & now & post & a & l & -> & H). exists pre, f, now, (post ++ [e]), a, l. split; [|done].
  by rewrite <- app_assoc.
Qed.
Lemma verified_key_mono es e u p g : verified_key es u p g -> verified_key (es ++ [e]) u p g.
Proof. intros (u' & p' & Hk & H). exists u', p'. split; [done | by apply verified_mono]. Qed.
Lemma verified_self es u p g : verified es u p g -> verified_key es u p g.
Proof. intros H. by exists u, p. Qed.

Definition flight_ok (es : list event) (fl : Flight) : Prop :=
  match fl_phase fl with
  | FStore _ (DirGroups g) | FMark _ g => verified es (fl_upn fl) (fl_pass fl) g
  | FRelease _ (Ok g) | FPublish (Ok g) | FClosed (Ok g) => verified_key es (fl_upn fl) (fl_pass fl) g
  | _ => True
  end.
Definition waiter_ok (es : list event) (w : Waiter) : Prop :=
  match w_phase w with
  | WDone (Ok g) => verified_key es (w_upn w) (w_pass w) g
  | _ => True
  end.

Record ver_inv (es : list event) (s : GW) : Prop := {
  vi_cache : exists h, gw_cache s = GroupCache.run (GroupCache.New ttl maxEntries) h /\
    forall now u p g, GroupCache.OpSet now u p g ∈ h -> verified es u p g;
  vi_flights : forall f fl, gw_flights s !! f = Some fl -> flight_ok es fl;
  vi_waiters : forall w wt, gw_waiters s !! w = Some wt -> waiter_ok es wt
}.

Lemma ver_mono es e s : ver_inv es s -> ver_inv (es ++ [e]) s.
Proof.
  intros [(h & Hc & Hh) Hf Hw]. split.
  - exists h. split; [done|]. intros. by eapply verified_mono, Hh.
  - intros f fl H. specialize (Hf f fl H). unfold flight_ok in *.
    repeat case_match; done || (by apply verified_mono) || (by apply verified_key_mono).
  - intros w wt H. specialize (Hw w wt H). unfold waiter_ok in *. repeat case_match; done || by apply verified_key_mono.
Qed.

Lemma ver_cache es s o :
  ver_inv es s -> (forall now u p g, o = GroupCache.OpSet now u p g -> verified es u p g) ->
  ver_inv es (with_cache (GroupCache.step (gw_cache s) o) s).
Proof.
  intros [(h & Hc & Hh) Hf Hw] Ho. split; [|done..]. exists (h ++ [o]). split.
  - simpl. unfold GroupCache.run. rewrite fold_left_app. simpl. by rewrite Hc.
  - intros now u p g [H|H%list_elem_of_singleton]%elem_of_app; [by eapply Hh | by eapply Ho].
Qed.

Lemma ver_put_waiter es s w wt p :
  ver_inv es s -> waiter_ok es (w_to p wt) -> ver_inv es (put_waiter w (w_to p wt) s).
Proof.
  intros [Hc Hf Hw] Hp. split; [done..|]. simpl. intros w' wt'. rewrite lookup_insert_Some.
  intros [[_ <-]|[_ H]]; [done | by eapply Hw].
Qed.

Lemma ver_put_flight es s f fl p :
  ver_inv es s -> flight_ok es (fl_to p fl) -> ver_inv es (put_flight f (fl_to p fl) s).
Proof.
  intros [Hc Hf Hw] Hp. split; [done| |done]. simpl. intros f' fl'. rewrite lookup_insert_Some.
  intros [[_ <-]|[_ H]]; [done | by eapply Hf].
Qed.

(** The last store of a user is in the history. *)
Lemma last_set_stored h u t hash g :
  GroupCache.last_set h !! u = Some (t, hash, g) ->
  exists p, GroupCache.OpSet t u p g ∈ h /\ hash = GroupCache.cacheCredentialHash u p.
Proof.
  unfold GroupCache.last_set. induction h as [|o h IH] using rev_ind; [done|].
  rewrite fold_left_app. intros H.
  assert (Hold : fold_left GroupCache.stored h ∅ !! u = Some (t, hash, g) ->
    exists p, GroupCache.OpSet t u p g ∈ h ++ [o] /\ hash = GroupCache.cacheCredentialHash u p).
  { intros (p & Hp & Hh)%IH. exists p. split; [|done]. apply elem_of_app. by left. }
  destruct o as [| | |now u' p' g']; simpl in H; try by apply Hold.
  apply lookup_insert_Some in H as [[<- [= <- <- <-]]|[_ H]]; [|by apply Hold].
  exists p'. split; [|done]. apply elem_of_app. right. by apply list_elem_of_singleton.
Qed.

Lemma ver_hit es s now u p g :
  ver_inv es s -> (GroupCache.Get (gw_cache s) now u p).2 = Some g -> verified_key es u p g.
Proof.
  intros [(h & Hc & Hh) _ _] Hg. rewrite Hc in Hg.
  pose proof (GroupCache.inv_data _ _ (GroupCache.consistent_run h ttl maxEntries)) as Hd.
  unfold GroupCache.Get in Hg. destruct (GroupCache.data _ !! u) as [e|] eqn:E; [|done].
  destruct (GroupCache.expires e <? now); [done|]. destruct (negb _) eqn:Hhash; [done|].
  injection Hg as <-. apply negb_false_iff, bool_decide_eq_true in Hhash.
  destruct (Hd u e E) as (t & Hl & _). apply last_set_stored in Hl as (p' & Hin & Hp').
  exists u, p'. split; [|by eapply Hh]. unfold GroupCache.SingleflightCredentialKey. by rewrite <- Hp', Hhash.
Qed.

Lemma ver_start es s u p a s' f :
  ver_inv es s -> startGroupLookup u p a s = (s', f) -> ver_inv es s'.
Proof.
  intros [Hc Hf Hw]. unfold startGroupLookup. destruct (gw_lookups s !! _); intros [= <- <-]; [done|].
  split; [done| |done]. simpl. intros f' fl'. rewrite lookup_insert_Some. intros [[_ <-]|[_ H]]; [done | by eapply Hf].
Qed.

(** The cache's own steps, as the definitions take them apart. *)
Lemma ver_get es s now u p c hit :
  ver_inv es s -> GroupCache.Get (gw_cache s) now u p = (c, hit) ->
  ver_inv es (with_cache c s) /\ forall g, hit = Some g -> verified_key es u p g.
Proof.
  intros Hs E. split.
  - pose proof (ver_cache es s (GroupCache.OpGet now u p) Hs) as H. simpl in H. rewrite E in H. by apply H.
  - intros g ->. eapply (ver_hit es s now); [done|]. by rewrite E.
Qed.

Lemma ver_rejected es s now u p c b :
  ver_inv es s -> GroupCache.Rejected (gw_cache s) now u p = (c, b) -> ver_inv es (with_cache c s).
Proof.
  intros Hs E. pose proof (ver_cache es s (GroupCache.OpRejected now u p) Hs) as H. simpl in H. rewrite E in H. by apply H.
Qed.

Lemma ver_waiter es s w wt now :
  ver_inv es s -> table_inv s -> gw_waiters s !! w = Some wt -> ver_inv es (waiter_step w wt now s).
Proof.
  intros Hs Ht E. unfold waiter_step. destruct (w_phase wt) as [| | |f|res] eqn:Ep.
  - destruct (GroupCache.Get _ _ _ _) as [c [g|]] eqn:Eg; apply (ver_get _ _ _ _ _ _ _ Hs) in Eg as [Hc Hg];
      apply ver_put_waiter; done || (destruct Hc; by split) || by apply Hg.
  - destruct (GroupCache.Rejected _ _ _ _) as [c b] eqn:Eg. apply (ver_rejected _ _ _ _ _ _ _ Hs) in Eg.
    apply ver_put_waiter; [done|]. by destruct b.
  - destruct (startGroupLookup _ _ _ _) as [s' f] eqn:Es. apply (ver_start _ _ _ _ _ _ _ Hs) in Es. by apply ver_put_waiter.
  - destruct (gw_flights s !! f) as [fl|] eqn:Ef; [|done]. cbn. destruct (fl_phase fl) as [| | | | | | | |[g|e]] eqn:Eph; try done.
    + apply ver_put_waiter; [destruct Hs; by split|]. unfold waiter_ok. simpl.
      pose proof (vi_flights _ _ Hs f fl Ef) as Hok. unfold flight_ok in Hok. rewrite Eph in Hok.
      destruct Hok as (u' & p' & Hk & Hv). destruct (ti_waiting _ Ht w wt f E Ep) as (fl' & Hf' & Hkey).
      rewrite Ef in Hf'. injection Hf' as <-. exists u', p'. split; [|done]. by rewrite Hk.
    + by apply ver_put_waiter.
  - done.
Qed.

Lemma ver_flight es f now reply fl :
  ver_inv es (grun es) -> gw_flights (grun es) !! f = Some fl ->
  ver_inv (es ++ [EFlight f now reply]) (flight_step f fl now reply (grun es)).
Proof.
  intros Hs E. pose proof (vi_flights _ _ (ver_mono _ (EFlight f now reply) _ Hs) f fl E) as Hok.
  pose proof (ver_mono _ (EFlight f now reply) _ Hs) as Hm. set (s := grun es) in *.
  unfold flight_step. unfold flight_ok in Hok. destruct (fl_phase fl) as [| | |l|l r|l g|l r|r|r] eqn:Ep.
  - destruct (GroupCache.Get _ _ _ _) as [c [g|]] eqn:Eg; apply (ver_get _ _ _ _ _ _ _ Hm) in Eg as [Hc Hg];
      apply ver_put_flight; done || by apply Hg.
  - destruct (GroupCache.Rejected _ _ _ _) as [c b] eqn:Eg. apply (ver_rejected _ _ _ _ _ _ _ Hm) in Eg.
    apply ver_put_flight; [done|]. by destruct b.
  - apply ver_put_flight; [destruct Hm; by split|]. by destruct (Limiter.TryAcquire _ _ _).2.
  - apply ver_put_flight; [done|]. destruct reply as [g| |]; [|done..]. unfold flight_ok. simpl.
    exists es, f, now, [], (fl_attempt fl), l. split; [done|]. rewrite <- Ep. fold s. rewrite E. by destruct fl.
  - destruct r as [g| |]; (apply ver_put_flight; [|done || by apply verified_self]).
    + pose proof (ver_cache _ s (GroupCache.OpSet now (fl_upn fl) (fl_pass fl) g) Hm) as H. apply H.
      by intros ? ? ? ? [= <- <- <- <-].
    + by pose proof (ver_cache _ s (GroupCache.OpReject now (fl_upn fl) (fl_pass fl)) Hm ltac:(done)).
    + done.
  - apply ver_put_flight; [destruct Hm; by split|]. by apply verified_self.
  - apply ver_put_flight; [destruct Hm; by split | done].
  - apply ver_put_flight; [destruct Hm; by split | done].
  - done.
Qed.

Lemma ver_run es : ver_inv es (grun es).
Proof.
  induction es as [|e es IH] using rev_ind.
  { split; simpl; [|by setoid_rewrite lookup_empty..].
    exists []. split; [done|]. intros ? ? ? ? H. by apply not_elem_of_nil in H. }
  assert (Hr : grun (es ++ [e]) = gw_step (grun es) e) by (unfold gw_run; by rewrite fold_left_app). rewrite Hr.
  pose proof (ver_mono _ e _ IH) as Hm. destruct e as [w client upn pass|w now|w|f now reply|now client]; simpl.
  - destruct (gw_waiters _ !! w); [done|].
    apply (ver_put_waiter _ _ w {| w_client := client; w_upn := upn; w_pass := pass; w_phase := WGet |} _ Hm).
    by destruct (decide _).
  - destruct (gw_waiters _ !! w) as [wt|] eqn:E; [|done]. apply ver_waiter; [done | apply table_run | done].
  - destruct (gw_waiters _ !! w) as [wt|] eqn:E; [|done]. destruct (w_phase wt); try done. by apply ver_put_waiter.
  - destruct (gw_flights _ !! f) as [fl|] eqn:E; [|done]. by apply ver_flight.
  - destruct Hm. by split.
Qed.
End Verified.

(** ** Leases: one for every lookup that may ask the directory *)

Definition lease_of (p : flight_phase) : option nat :=
  match p with
  | FFetch l | FStore l _ | FMark l _ | FRelease l _ => Some l
  | _ => None
  end.

Section Leases.
Context {U : UnicodeCase} {MI : MapIter} {FL : Limiter.Float64}.
Variables (ttl maxEntries : Z) (limits : Limiter.Limits).
#[local] Abbreviation grun := (gw_run ttl maxEntries limits).
#[local] Abbreviation leases s := (Limiter.sys_leases (gw_limiter s)).

Record lease_inv (s : GW) : Prop := {
  ls_run : exists evs, gw_limiter s = Limiter.sys_run limits evs;
  ls_has : forall f fl n, gw_flights s !! f = Some fl -> lease_of (fl_phase fl) = Some n -> is_Some (leases s !! n);
  ls_inj : forall f1 f2 fl1 fl2 n, gw_flights s !! f1 = Some fl1 -> gw_flights s !! f2 = Some fl2 ->
    lease_of (fl_phase fl1) = Some n -> lease_of (fl_phase fl2) = Some n -> f1 = f2;
  ls_all : forall n, is_Some (leases s !! n) ->
    exists f fl, gw_flights s !! f = Some fl /\ lease_of (fl_phase fl) = Some n
}.

(** An event of the limiter that touches no lease. *)
Lemma lease_quiet s ev :
  lease_inv s -> Limiter.sys_leases (Limiter.sys_step (gw_limiter s) ev) = leases s ->
  lease_inv (with_limiter (Limiter.sys_step (gw_limiter s) ev) s).
Proof.
  intros [[evs Hr] H2 H3 H4] Hq. split; simpl; rewrite ?Hq; try done.
  exists (evs ++ [ev]). unfold Limiter.sys_run. rewrite fold_left_app. simpl. by rewrite Hr.
Qed.

(** A step of a lookup that keeps its lease, or its lack of one. *)
Lemma lease_put_flight s f fl p :
  lease_inv s -> gw_flights s !! f = Some fl -> lease_of p = lease_of (fl_phase fl) ->
  lease_inv (put_flight f (fl_to p fl) s).
Proof.
  intros [H1 H2 H3 H4] Hf Hp.
  assert (Hold : forall f' fl', <[f := fl_to p fl]> (gw_flights s) !! f' = Some fl' ->
    exists fl'', gw_flights s !! f' = Some fl'' /\ lease_of (fl_phase fl') = lease_of (fl_phase fl'')).
  { intros f' fl'. rewrite lookup_insert_Some. intros [[<- <-]|[_ H]]; eauto. }
  split; simpl; [done| | |].
  - intros f' fl' n (fl'' & ? & ->)%Hold. by apply (H2 f' fl'' n).
  - intros f1 f2 fl1 fl2 n (? & ? & ->)%Hold (? & ? & ->)%Hold. by eapply H3.
  - intros n Hn. destruct (H4 n Hn) as (f' & fl' & Hf' & Hl). destruct (decide (f' = f)) as [->|Hne].
    + exists f, (fl_to p fl). rewrite lookup_insert_eq. split; [done|]. rewrite Hf in Hf'. injection Hf' as <-. simpl. by rewrite Hp.
    + exists f', fl'. by rewrite lookup_insert_ne.
Qed.

Lemma lease_acquire s f fl now :
  lease_inv s -> gw_flights s !! f = Some fl -> fl_phase fl = FAcquire ->
  lease_inv (flight_step f fl now DirFailed s).
Proof.
  intros Hs Hf Hp. unfold flight_step. rewrite Hp. pose proof Hs as [[evs Hr] H2 H3 H4].
  set (ev := Limiter.EvTryAcquire now (fl_attempt fl)).
  assert (Hrun : exists evs, Limiter.sys_step (gw_limiter s) ev = Limiter.sys_run limits evs).
  { exists (evs ++ [ev]). unfold Limiter.sys_run. rewrite fold_left_app. simpl. by rewrite Hr. }
  pose proof (Limiter.si_next _ _ (Limiter.sys_inv_run limits evs)) as Hnext. rewrite <- Hr in Hnext.
  destruct (Limiter.TryAcquire (Limiter.sys_lim (gw_limiter s)) now (fl_attempt fl)) as [l [le|]] eqn:E.
  - assert (Hfresh : leases s !! Limiter.sys_next (gw_limiter s) = None).
    { destruct (leases s !! _) eqn:E'; [|done]. specialize (Hnext _ _ E'). lia. }
    assert (Hl : Limiter.sys_leases (Limiter.sys_step (gw_limiter s) ev) =
      <[Limiter.sys_next (gw_limiter s) := (fl_attempt fl, le)]> (leases s)) by (simpl; by rewrite E).
    cbn [snd]. split; cbn [put_flight with_limiter gw_limiter gw_flights]; rewrite ?Hl; [done| | |].
    + intros f' fl' n. rewrite lookup_insert_Some. intros [[<- <-]|[_ Hf']] Hn; [injection Hn as <-; by rewrite lookup_insert_eq|].
      destruct (H2 _ _ _ Hf' Hn) as [v Hv]. rewrite lookup_insert_ne; [done|]. intros <-. congruence.
    + assert (Hother : forall f' fl', gw_flights s !! f' = Some fl' ->
        lease_of (fl_phase fl') = Some (Limiter.sys_next (gw_limiter s)) -> False).
      { intros f' fl' Hf' Hn. destruct (H2 _ _ _ Hf' Hn). congruence. }
      intros f1 f2 fl1 fl2 n. rewrite !lookup_insert_Some.
      intros [[<- <-]|[_ Hf1]] [[<- <-]|[_ Hf2]] Hn1 Hn2; [done | | |by eapply H3].
      * injection Hn1 as <-. by destruct (Hother f2 fl2).
      * injection Hn2 as <-. by destruct (Hother f1 fl1).
    + intros n [v Hv]. apply lookup_insert_Some in Hv as [[<- _]|[_ Hv]].
      * exists f. eexists. by rewrite lookup_insert_eq.
      * destruct (H4 n (ex_intro _ _ Hv)) as (f' & fl' & Hf' & Hn). exists f', fl'.
        rewrite lookup_insert_ne; [done|]. intros <-. rewrite Hf in Hf'. injection Hf' as <-. by rewrite Hp in Hn.
  - cbn [snd]. apply lease_put_flight; [|done|by rewrite Hp]. apply lease_quiet; [done|]. simpl. by rewrite E.
Qed.

Lemma lease_release s f fl l res :
  lease_inv s -> gw_flights s !! f = Some fl -> fl_phase fl = FRelease l res ->
  lease_inv (put_flight f (fl_to (FPublish res) fl)
    (with_limiter (Limiter.sys_step (gw_limiter s) (Limiter.EvRelease l)) s)).
Proof.
  intros [[evs Hr] H2 H3 H4] Hf Hp. destruct (H2 f fl l Hf ltac:(by rewrite Hp)) as [[a le] Hl].
  assert (Hd : Limiter.sys_leases (Limiter.sys_step (gw_limiter s) (Limiter.EvRelease l)) = delete l (leases s))
    by (simpl; by rewrite Hl).
  split; cbn [put_flight with_limiter gw_limiter gw_flights]; rewrite ?Hd.
  - exists (evs ++ [Limiter.EvRelease l]). unfold Limiter.sys_run. rewrite fold_left_app. cbn [fold_left]. by rewrite Hr.
  - intros f' fl' n. rewrite lookup_insert_Some. intros [[<- <-]|[Hne Hf']] Hn; [done|].
    rewrite lookup_delete_ne; [by eapply H2|]. intros <-. apply Hne. eapply (H3 f f'); [done..| |done]. by rewrite Hp.
  - intros f1 f2 fl1 fl2 n. rewrite !lookup_insert_Some. intros [[<- <-]|[_ Hf1]] [[<- <-]|[_ Hf2]] Hn1 Hn2; try done. by eapply H3.
  - intros n [v [Hne Hv]%lookup_delete_Some]. destruct (H4 n (ex_intro _ _ Hv)) as (f' & fl' & Hf' & Hn).
    exists f', fl'. rewrite lookup_insert_ne; [done|]. intros <-. rewrite Hf in Hf'. injection Hf' as <-. rewrite Hp in Hn. by injection Hn.
Qed.

Lemma lease_waiter s w wt now : lease_inv s -> table_inv s -> lease_inv (waiter_step w wt now s).
Proof.
  intros Hs Ht. unfold waiter_step. destruct (w_phase wt) as [| | |f|res]; [| | | |done].
  - destruct (GroupCache.Get _ _ _ _) as [c [g|]]; [|by destruct Hs].
    pose proof (lease_quiet _ (Limiter.EvRefundIngress now (w_client wt)) Hs eq_refl) as H. by destruct H.
  - destruct (GroupCache.Rejected _ _ _ _) as [c b]. by destruct Hs.
  - unfold startGroupLookup. destruct (gw_lookups s !! _); [by destruct Hs|].
    destruct Hs as [H1 H2 H3 H4]. pose proof (ti_next _ Ht) as Hn.
    assert (Hfresh : gw_flights s !! gw_next s = None).
    { destruct (gw_flights s !! gw_next s) as [fl|] eqn:E'; [|done]. specialize (Hn _ (ex_intro _ _ E')). lia. }
    split; simpl; [done| | |].
    + intros f' fl' n. rewrite lookup_insert_Some. intros [[<- <-]|[_ Hf']]; [done | by eapply H2].
    + intros f1 f2 fl1 fl2 n. rewrite !lookup_insert_Some. intros [[<- <-]|[_ Hf1]] [[<- <-]|[_ Hf2]] Hn1 Hn2; try done. by eapply H3.
    + intros n Hv. destruct (H4 n Hv) as (f' & fl' & Hf' & Hl). exists f', fl'. rewrite lookup_insert_ne; [done|]. intros <-. congruence.
  - destruct (gw_flights s !! f) as [fl|]; [|done]. cbn. destruct (fl_phase fl) as [| | | | | | | |[g|e]]; try done.
    + pose proof (lease_quiet _ (Limiter.EvRefundIngress now (w_client wt)) Hs eq_refl) as H. by destruct H.
    + by destruct Hs.
Qed.

Lemma lease_step s e : lease_inv s -> table_inv s -> lease_inv (gw_step s e).
Proof.
  intros Hs Ht. destruct e as [w client upn pass|w now|w|f now reply|now client]; simpl.
  - destruct (gw_waiters s !! w); [done|]. by destruct Hs.
  - destruct (gw_waiters s !! w); [by apply lease_waiter | done].
  - destruct (gw_waiters s !! w) as [wt|]; [|done]. destruct (w_phase wt); try done. by destruct Hs.
  - destruct (gw_flights s !! f) as [fl|] eqn:E; [|done].
    assert (Hc : forall c, lease_inv (with_cache c s)) by (intros c; by destruct Hs).
    destruct (fl_phase fl) as [| | |l|l r|l g|l r|r|r] eqn:Ep;
      try (assert (Hacq := lease_acquire s f fl now Hs E Ep); unfold flight_step in *; rewrite Ep in *; exact Hacq).
    all: unfold flight_step; rewrite Ep.
    + destruct (GroupCache.Get _ _ _ _) as [c [g|]]; apply lease_put_flight; done || by rewrite Ep.
    + destruct (GroupCache.Rejected _ _ _ _) as [c [|]]; apply lease_put_flight; done || by rewrite Ep.
    + apply lease_put_flight; done || by rewrite Ep.
    + destruct r; apply lease_put_flight; done || by rewrite Ep.
    + apply lease_put_flight; [|done|by rewrite Ep].
      exact (lease_quiet s (Limiter.EvMarkAuthenticated now (fl_attempt fl)) Hs eq_refl).
    + by apply lease_release.
    + apply lease_put_flight; [|done|by rewrite Ep]. by destruct Hs.
    + done.
  - exact (lease_quiet s (Limiter.EvAllowIngress now client) Hs eq_refl).
Qed.

Lemma lease_run es : lease_inv (grun es).
Proof.
  unfold gw_run. induction es as [|e es IH] using rev_ind.
  - split; simpl; [by exists [] |..]; intros *; rewrite ?lookup_empty; done.
  - rewrite fold_left_app. apply lease_step; [done | apply table_run].
Qed.

(** The lookups that hold a lease are no more than the leases. *)
Lemma flights_le_leases s :
  lease_inv s -> (size (filter (fun kv => is_Some (lease_of (fl_phase kv.2))) (gw_flights s)) <= size (leases s))%nat.
Proof.
  intros [_ H2 H3 _]. set (P := fun kv : nat * Flight => is_Some (lease_of (fl_phase kv.2))).
  set (m := filter _ (gw_flights s)).
  assert (Hin : forall f fl, (f, fl) ∈ map_to_list m -> gw_flights s !! f = Some fl /\ is_Some (lease_of (fl_phase fl))).
  { intros f fl H%elem_of_map_to_list. by apply map_lookup_filter_Some in H. }
  pose proof (NoDup_map_to_list m) as Hnd.
  set (num := fun kv : nat * Flight => default 0%nat (lease_of (fl_phase kv.2))).
  assert (Hnum : NoDup (map num (map_to_list m))).
  { apply NoDup_fmap_2_strong; [|done]. intros [f1 fl1] [f2 fl2] I1 I2 Heq.
    destruct (Hin _ _ I1) as [F1 [n1 L1]], (Hin _ _ I2) as [F2 [n2 L2]]. unfold num in Heq. simpl in Heq.
    rewrite L1, L2 in Heq. simpl in Heq. subst n2. pose proof (H3 _ _ _ _ _ F1 F2 L1 L2) as <-. congruence. }
  rewrite <- (length_map_to_list m), <- (length_map_to_list (leases s)).
  rewrite <- (length_map num), <- (length_map fst (map_to_list (leases s))).
  apply submseteq_length, NoDup_submseteq; [done|]. intros n (kv & -> & Hkv)%list_elem_of_fmap.
  destruct kv as [f fl]. destruct (Hin _ _ Hkv) as [F [n L]]. destruct (H2 _ _ _ F L) as [v Hv].
  unfold num. simpl. rewrite L. simpl. apply list_elem_of_fmap. exists (n, v). split; [done|]. by apply elem_of_map_to_list.
Qed.
End Leases.

(** ** Progress *)

(** Steps a lookup still has to take. *)
Definition rank (p : flight_phase) : nat :=
  match p with
  | FGet => 8 | FRejected => 7 | FAcquire => 6 | FFetch _ => 5 | FStore _ _ => 4 | FMark _ _ => 3
  | FRelease _ _ => 2 | FPublish _ => 1 | FClosed _ => 0
  end.

Definition is_done (p : wait_phase) : bool := match p with WDone _ => true | _ => false end.

(** The steps of one lookup among the events. *)
Definition steps_of (f : nat) (es : list event) : nat :=
  length (List.filter (fun e => match e with EFlight f' _ _ => (f' =? f)%nat | _ => false end) es).

Section Progress.
Context {U : UnicodeCase} {MI : MapIter} {FL : Limiter.Float64}.

Lemma flight_progress s f fl now reply :
  exists fl', gw_flights (flight_step f fl now reply s) !! f = Some fl' /\
    (rank (fl_phase fl') < rank (fl_phase fl))%nat \/
  fl_phase fl = FClosed (match fl_phase fl with FClosed r => r | _ => Err ErrCanceled end) /\ flight_step f fl now reply s = s.
Proof.
  unfold flight_step. destruct (fl_phase fl) as [| | |l|l r|l g|l r|r|r] eqn:Ep; [..|eexists; right; split; done].
  all: try destruct r; repeat case_match; eexists; left; split; try (simpl; apply lookup_insert_eq); simpl; lia.
  Unshelve. all: exact fl.
Qed.

Lemma flight_other s f f' fl fl' now reply :
  f <> f' -> gw_flights s !! f = Some fl ->
  gw_flights (flight_step f' fl' now reply s) !! f = Some fl.
Proof.
  intros Hne Hf. unfold flight_step. destruct (fl_phase fl') as [| | |l|l r|l g|l r|r|r]; try destruct r;
    repeat case_match; simpl; by rewrite ?lookup_insert_ne.
Qed.

Lemma waiter_keeps_flight s w wt now f fl :
  table_inv s -> gw_flights s !! f = Some fl -> gw_flights (waiter_step w wt now s) !! f = Some fl.
Proof.
  intros Ht Hf. unfold waiter_step. destruct (w_phase wt) as [| | |f'|r]; [| | | |done].
  - by destruct (GroupCache.Get _ _ _ _) as [c [g|]].
  - by destruct (GroupCache.Rejected _ _ _ _) as [c b].
  - unfold startGroupLookup. destruct (gw_lookups s !! _); [done|]. simpl. rewrite lookup_insert_ne; [done|].
    intros <-. pose proof (ti_next _ Ht _ (ex_intro _ _ Hf)). lia.
  - destruct (fl_phase <$> gw_flights s !! f') as [[| | | | | | | |[]]|]; done.
Qed.

Lemma rank_step s e f fl :
  table_inv s -> gw_flights s !! f = Some fl ->
  exists fl', gw_flights (gw_step s e) !! f = Some fl' /\
    (rank (fl_phase fl') + steps_of f [e] <= rank (fl_phase fl) \/ rank (fl_phase fl') = 0)%nat.
Proof.
  intros Ht Hf. assert (Hsame : forall s', gw_flights s' !! f = Some fl -> steps_of f [e] = 0%nat ->
    exists fl', gw_flights s' !! f = Some fl' /\
    (rank (fl_phase fl') + steps_of f [e] <= rank (fl_phase fl) \/ rank (fl_phase fl') = 0)%nat).
  { intros s' H' H0. exists fl. split; [done|]. left. lia. }
  destruct e as [w client upn pass|w now|w|f' now reply|now client]; simpl.
  - apply Hsame; [|done]. by destruct (gw_waiters s !! w).
  - apply Hsame; [|done]. destruct (gw_waiters s !! w); [by apply waiter_keeps_flight | done].
  - apply Hsame; [|done]. destruct (gw_waiters s !! w) as [wt|]; [|done]. by destruct (w_phase wt).
  - destruct (decide (f' = f)) as [->|Hne].
    + rewrite Hf. destruct (flight_progress s f fl now reply) as [fl' [[H1 H2]|[H1 H2]]].
      * exists fl'. split; [done|]. left. unfold steps_of. simpl. rewrite Nat.eqb_refl. simpl. lia.
      * rewrite H2. exists fl. split; [done|]. right. by rewrite H1.
    + apply Hsame; [|unfold steps_of; simpl; by rewrite (proj2 (Nat.eqb_neq f' f) Hne)].
      destruct (gw_flights s !! f') as [fl'|]; [|done]. by apply flight_other.
  - by apply Hsame.
Qed.

Lemma steps_of_cons f e es : steps_of f (e :: es) = (steps_of f [e] + steps_of f es)%nat.
Proof. unfold steps_of. cbn [List.filter]. destruct (match e with EFlight _ _ _ => _ | _ => _ end); simpl; lia. Qed.

Lemma rank_run es s f fl :
  table_inv s -> gw_flights s !! f = Some fl ->
  exists fl', gw_flights (fold_left gw_step es s) !! f = Some fl' /\
    (rank (fl_phase fl') + steps_of f es <= rank (fl_phase fl) \/ rank (fl_phase fl') = 0)%nat.
Proof.
  revert s fl. induction es as [|e es IH]; intros s fl Ht Hf; [exists fl; split; [done|]; left; unfold steps_of; simpl; lia|].
  destruct (rank_step s e f fl Ht Hf) as (fl1 & H1 & R1). cbn [fold_left].
  destruct (IH _ _ (table_step s e Ht) H1) as (fl2 & H2 & R2). exists fl2. split; [done|].
  rewrite steps_of_cons. lia.
Qed.

(** A waiting request goes on waiting for the same lookup until it is done. *)
Lemma waiting_step s e w wt f :
  gw_waiters s !! w = Some wt -> w_phase wt = WWait f \/ is_done (w_phase wt) = true ->
  exists wt', gw_waiters (gw_step s e) !! w = Some wt' /\ (w_phase wt' = WWait f \/ is_done (w_phase wt') = true).
Proof.
  intros Hw Hp. assert (Hput : forall w' wt' (s' : GW), gw_waiters s' = gw_waiters s ->
    (w' = w -> w_phase wt' = WWait f \/ is_done (w_phase wt') = true) ->
    exists x, gw_waiters (put_waiter w' wt' s') !! w = Some x /\ (w_phase x = WWait f \/ is_done (w_phase x) = true)).
  { intros w' wt' s' Hs' Hd. simpl. rewrite Hs'. destruct (decide (w' = w)) as [->|Hne].
    - exists wt'. rewrite lookup_insert_eq. split; [done | by apply Hd].
    - exists wt. by rewrite lookup_insert_ne. }
  destruct e as [w' client upn pass|w' now|w'|f' now reply|now client]; simpl.
  - destruct (gw_waiters s !! w') eqn:E; [by exists wt|]. apply Hput; [done|]. intros ->. congruence.
  - destruct (gw_waiters s !! w') as [wt'|] eqn:E; [|by exists wt].
    unfold waiter_step. destruct (w_phase wt') as [| | |f'|r] eqn:Ep.
    + destruct (GroupCache.Get _ _ _ _) as [c [g|]]; (apply Hput; [done|]); intros ->; rewrite Hw in E; injection E as <-;
        rewrite Ep in Hp; by destruct Hp.
    + destruct (GroupCache.Rejected _ _ _ _) as [c b]. apply Hput; [done|]. intros ->. rewrite Hw in E. injection E as <-.
      rewrite Ep in Hp. by destruct Hp.
    + unfold startGroupLookup. destruct (gw_lookups s !! _); (apply Hput; [done|]); intros ->; rewrite Hw in E; injection E as <-;
        rewrite Ep in Hp; by destruct Hp.
    + destruct (fl_phase <$> gw_flights s !! f') as [[| | | | | | | |[g|e]]|]; try (by exists wt);
        (apply Hput; [done|]; by right).
    + by exists wt.
  - destruct (gw_waiters s !! w') as [wt'|] eqn:E; [|by exists wt]. destruct (w_phase wt'); try (by exists wt).
    apply Hput; [done|]. by right.
  - destruct (gw_flights s !! f') as [fl'|]; [|by exists wt]. exists wt. split; [|done].
    unfold flight_step. destruct (fl_phase fl') as [| | |l|l r|l g|l r|r|r]; try destruct r; repeat case_match; done.
  - by exists wt.
Qed.

Lemma waiting_run es s w wt f :
  gw_waiters s !! w = Some wt -> w_phase wt = WWait f \/ is_done (w_phase wt) = true ->
  exists wt', gw_waiters (fold_left gw_step es s) !! w = Some wt' /\ (w_phase wt' = WWait f \/ is_done (w_phase wt') = true).
Proof.
  revert s wt. induction es as [|e es IH]; intros s wt Hw Hp; [by exists wt|].
  destruct (waiting_step s e w wt f Hw Hp) as (wt' & Hw' & Hp'). cbn [fold_left]. by eapply IH.
Qed.
End Progress.

(** ** Theorems *)

Section Theorems.
Context {U : UnicodeCase} {MI : MapIter} {FL : Limiter.Float64}.
Variables (ttl maxEntries : Z) (limits : Limiter.Limits).
#[local] Abbreviation grun := (gw_run ttl maxEntries limits).

(** C26. Only the directory authenticates: whatever the interleaving of requests,
    lookups, cache hits, evictions and cancellations, a request that is given
    groups is given the groups with which the directory answered a lookup of a
    credential of the same digest - never those of another credential, never
    a rejected, limited or failed lookup's. *)
Theorem authenticated_by_directory es w wt g :
  gw_waiters (grun es) !! w = Some wt -> w_phase wt = WDone (Ok g) ->
  exists upn pass pre f now post a lease,
    GroupCache.SingleflightCredentialKey upn pass = GroupCache.SingleflightCredentialKey (w_upn wt) (w_pass wt) /\
    es = pre ++ EFlight f now (DirGroups g) :: post /\
    gw_flights (grun pre) !! f = Some {| fl_upn := upn; fl_pass := pass; fl_attempt := a; fl_phase := FFetch lease |}.
Proof.
  intros Hw Hp. pose proof (vi_waiters _ _ _ _ _ (ver_run ttl maxEntries limits es) w wt Hw) as H.
  unfold waiter_ok in H. rewrite Hp in H. destruct H as (u & p & Hk & pre & f & now & post & a & l & H).
  by exists u, p, pre, f, now, post, a, l.
Qed.

(** Lookups are coalesced and bounded: two unfinished lookups never have the
    same credential digest, no more lookups than the configured concurrency are
    past admission - so no more ask the directory at once - and when no lookup
    is open no lease is out. *)
Theorem lookups_coalesced_bounded es :
  let s := grun es in
  (forall f1 f2 fl1 fl2, gw_flights s !! f1 = Some fl1 -> gw_flights s !! f2 = Some fl2 ->
     is_open (fl_phase fl1) = true -> is_open (fl_phase fl2) = true -> flight_key fl1 = flight_key fl2 -> f1 = f2) /\
  Z.of_nat (size (filter (fun kv => is_Some (lease_of (fl_phase kv.2))) (gw_flights s)))
    <= Limiter.MaxConcurrent (Limiter.normalizeLimits limits) /\
  ((forall f fl, gw_flights s !! f = Some fl -> is_open (fl_phase fl) = false) ->
     Limiter.sys_leases (gw_limiter s) = ∅).
Proof.
  pose proof (table_run ttl maxEntries limits es) as Ht. pose proof (lease_run ttl maxEntries limits es) as Hl. split; [|split].
  - intros f1 f2 fl1 fl2 F1 F2 O1 O2 Hk. pose proof (ti_open _ Ht _ _ F1 O1) as X. pose proof (ti_open _ Ht _ _ F2 O2) as Y.
    rewrite Hk, Y in X. by injection X.
  - pose proof (flights_le_leases _ _ Hl) as H. destruct (ls_run _ _ Hl) as [evs Hr].
    pose proof (Limiter.leases_bounded limits evs) as Hb. rewrite Hr in H. lia.
  - intros Hclosed. apply map_empty. intros n. destruct (Limiter.sys_leases _ !! n) as [v|] eqn:E; [|done].
    destruct (ls_all _ _ Hl n (ex_intro _ _ E)) as (f & fl & Hf & Hn). specialize (Hclosed f fl Hf). by destruct (fl_phase fl).
Qed.

(** C27. Every lookup finishes and every request that waits for it is answered:
    once the lookup has had eight turns, in any interleaving with everything
    else, whatever the clock showed and the directory answered, the waiting
    request is answered at its next turn at the latest. *)
Theorem lookup_completes es es' w wt f now :
  gw_waiters (grun es) !! w = Some wt -> w_phase wt = WWait f -> (8 <= steps_of f es')%nat ->
  exists wt', gw_waiters (grun (es ++ es' ++ [EWaiter w now])) !! w = Some wt' /\ is_done (w_phase wt') = true.
Proof.
  intros Hw Hp Hsteps. unfold gw_run. rewrite !fold_left_app. fold (grun es).
  pose proof (table_run ttl maxEntries limits es) as Ht.
  destruct (ti_waiting _ Ht w wt f Hw Hp) as (fl & Hf & _).
  destruct (rank_run es' _ f fl Ht Hf) as (fl' & Hf' & Hr).
  assert (H8 : (rank (fl_phase fl) <= 8)%nat) by (destruct (fl_phase fl); simpl; lia).
  assert (H0 : rank (fl_phase fl') = 0%nat) by lia.
  destruct (waiting_run es' _ w wt f Hw (or_introl Hp)) as (wt' & Hw' & Hp').
  cbn [fold_left gw_step]. rewrite Hw'. destruct Hp' as [Hp'|Hp'].
  - unfold waiter_step. rewrite Hp', Hf'. cbn [fmap option_fmap option_map].
    destruct (fl_phase fl') as [| | | | | | | |[g|e]]; try done; eexists; (split; [simpl; apply lookup_insert_eq | done]).
  - unfold waiter_step. destruct (w_phase wt') eqn:Ep; try done. exists wt'. by rewrite Ep.
Qed.
End Theorems.

(** ** A concrete run *)

Section Witnesses.
#[local] Existing Instance latin1_case.
#[local] Existing Instance canonical_iter.
#[local] Existing Instance Limiter.ieee_double.

Definition sample_groups : gset gostring := {[str "team1-rw"]}.

(** A request and the eight turns of its lookup, a second request that joins
    while it runs, and one that is answered from the cache. *)
Definition joining : list event :=
  [ERequest 0 (str "192.0.2.7") (str "alice") (str "pw"); EWaiter 0 1000; EWaiter 0 1001; EWaiter 0 1002;
   ERequest 1 (str "192.0.2.8") (str "alice") (str "pw"); EWaiter 1 1003; EWaiter 1 1004; EWaiter 1 1005].
Definition answering : list event :=
  map (fun now => EFlight 0 now (DirGroups sample_groups)) [1010; 1011; 1012; 1013; 1014; 1015; 1016; 1017].
Definition sample_run : list event :=
  joining ++ answering ++ [EWaiter 0 1020; ERequest 2 (str "192.0.2.9") (str "alice") (str "pw"); EWaiter 2 1030].

Definition sample_gw (es : list event) : GW := gw_run 100000 10 Limiter.sample_limits es.
Definition answer (es : list event) (w : nat) : option wait_phase := w_phase <$> gw_waiters (sample_gw es) !! w.

Example sample_answers :
  (answer joining 0, answer joining 1, size (gw_flights (sample_gw joining)), answer sample_run 0, answer sample_run 2,
   answer (sample_run ++ [ECancel 1]) 1)
  = (Some (WWait 0), Some (WWait 0), 1%nat, Some (WDone (Ok sample_groups)), Some (WDone (Ok sample_groups)),
     Some (WDone (Err ErrCanceled))).
Proof. vm_compute. reflexivity. Qed.

Definition sample_waiter (client : string) (p : wait_phase) : Waiter :=
  {| w_client := str client; w_upn := str "alice"; w_pass := str "pw"; w_phase := p |}.

Lemma authenticated_by_directory_witness :
  gw_waiters (sample_gw sample_run) !! 2%nat = Some (sample_waiter "192.0.2.9" (WDone (Ok sample_groups))) /\
  exists upn pass pre f now post a lease,
    GroupCache.SingleflightCredentialKey upn pass = GroupCache.SingleflightCredentialKey (str "alice") (str "pw") /\
    sample_run = pre ++ EFlight f now (DirGroups sample_groups) :: post /\
    gw_flights (sample_gw pre) !! f = Some {| fl_upn := upn; fl_pass := pass; fl_attempt := a; fl_phase := FFetch lease |}.
Proof.
  split; [vm_compute; reflexivity|].
  apply (authenticated_by_directory 100000 10 Limiter.sample_limits sample_run 2
    (sample_waiter "192.0.2.9" (WDone (Ok sample_groups))) sample_groups); [vm_compute; reflexivity | reflexivity].
Defined.

Lemma lookup_completes_witness :
  exists wt', gw_waiters (sample_gw (joining ++ answering ++ [EWaiter 1 2000])) !! 1%nat = Some wt' /\
    is_done (w_phase wt') = true.
Proof.
  apply (lookup_completes 100000 10 Limiter.sample_limits joining answering 1 (sample_waiter "192.0.2.8" (WWait 0)) 0 2000).
  - vm_compute. reflexivity.
  - reflexivity.
  - vm_compute. repeat constructor.
Defined.
End Witnesses.
