(* ===== verification/Gateway.v ===== *)
(** * The gateway's front door (src/internal/server/server.go, adminpage.go)

    [WithAuth] in front of the router: which client address a request is
    attributed to, which requests pass without credentials, how the others
    authenticate, and what the authenticated request carries on.  Also the
    readiness probe with its address filter and its cache. *)

From S2P Require Import Prelude GoStrings Crypto Authz Http NetIP SigV4 Stream Routing Credentials.
From S2P Require Limiter AuthLookup.

#[local] Open Scope Z_scope.

(** ** Client addresses *)

Definition maxForwardedForHops : nat := 32.
Definition unknown : gostring := str "unknown".

Section Addresses.
Context {U : UnicodeCase}.

Definition parseRemoteIP (remoteAddress : gostring) : option Addr :=
  let remoteAddress := TrimSpace remoteAddress in
  if decide (remoteAddress = []) then None
  else
    let host := match SplitHostPort remoteAddress with Some (host, _) => host | None => remoteAddress end in
    Unmap <$> ParseAddr (Trim host (str "[]")).

Definition prefixesContain (prefixes : list Prefix) (address : Addr) : bool :=
  existsb (fun p => Contains p address) prefixes.

(** The prefixes [New] keeps of a configured list: those that parse. *)
Definition parse_prefixes (raw : list gostring) : list Prefix :=
  omap (fun p => Masked <$> ParsePrefix (TrimSpace p)) raw.

(** The hop nearest to the gateway that is not a trusted proxy. *)
Definition nearest_untrusted (trusted : list Prefix) (addresses : list Addr) : option Addr :=
  snd <$> list_find (fun a => prefixesContain trusted a = false) (reverse addresses).

Definition authenticationClientIP (trusted : list Prefix) (r : Request) : gostring :=
  match parseRemoteIP (RemoteAddr r) with
  | None => unknown
  | Some peer =>
    if negb (prefixesContain trusted peer) then addr_text peer
    else
      let forwarded := Join (hvalues (Hdr r) (str "X-Forwarded-For")) (str ",") in
      let parts := Split forwarded ","%byte in
      if bool_decide (forwarded = []) || (maxForwardedForHops <? length parts)%nat then addr_text peer
      else
        match mapM (fun part => Unmap <$> ParseAddr (TrimSpace part)) parts with
        | None => addr_text peer
        | Some addresses =>
          match nearest_untrusted trusted addresses with
          | Some a => addr_text a
          | None => addr_text (default peer (head addresses))
          end
        end
  end.

(** ** Readiness *)

Definition readinessClientAllowed (allowed : list Prefix) (r : Request) : bool :=
  match parseRemoteIP (RemoteAddr r) with
  | Some addr => prefixesContain allowed addr
  | None => false
  end.

Record readiness := { readinessCachedAt : instant; readinessCachedErr : option gostring; readinessCacheValid : bool }.

(** [Some err] when the cache answers at [now]. *)
Definition readinessCacheAt (ttl : Z) (st : readiness) (now : instant) : option (option gostring) :=
  if negb (readinessCacheValid st) then None
  else
    let age := time_sub now (readinessCachedAt st) in
    if (age <? 0) || (ttl <=? age) then None else Some (readinessCachedErr st).

(** [cachedReadiness]: the clock is read before, inside and after the shared
    check, and [check] is what the check returns. *)
Definition cachedReadiness (ttl : Z) (st : readiness) (now1 now2 now3 : instant) (check : option gostring)
    : readiness * option gostring :=
  match readinessCacheAt ttl st now1 with
  | Some err => (st, err)
  | None =>
    match readinessCacheAt ttl st now2 with
    | Some err => (st, err)
    | None => ({| readinessCachedAt := now3; readinessCachedErr := check; readinessCacheValid := true |}, check)
    end
  end.

(** [handleReadyz]: status and body. *)
Definition handleReadyz (method : gostring) (err : option gostring) : Z * gostring :=
  match err with
  | Some _ => (503, if decide (method = HEAD) then [] else str "not ready" ++ [x0a])
  | None => (200, if decide (method = HEAD) then [] else str "ok" ++ [x0a])
  end.

(** ** Browser requests (adminpage.go) *)

(** [strings.Contains]. *)
Fixpoint contains (s sub : gostring) : bool :=
  HasPrefix s sub || match s with [] => false | _ :: s => contains s sub end.

Definition IsBrowser (r : Request) : bool :=
  if HasPrefix (ToLower (TrimSpace (hget (Hdr r) (str "Authorization")))) (str "aws4-hmac-sha256 ") then false
  else
    contains (ToLower (hget (Hdr r) (str "Accept"))) (str "text/html") &&
    contains (ToLower (hget (Hdr r) (str "User-Agent"))) (str "mozilla").

Definition normalizeAdminRoutePath (path : gostring) : gostring :=
  let p := TrimSpace path in
  if decide (p = []) then str "/"
  else
    let p := if (1 <? length p)%nat then TrimRight p (str "/") else p in
    if decide (p = []) then str "/" else p.

Definition adminRoutes : list gostring := map str
  ["/"; "/login"; "/admin"; "/admin/kafka-topics"; "/admin/create-bucket"; "/admin/bucket"; "/admin/bucket/download";
   "/admin/bucket/upload"; "/admin/bucket/delete"; "/logout"]%string.
Definition IsAdminRoute (path : gostring) : bool := bool_decide (normalizeAdminRoutePath path ∈ adminRoutes).
Definition IsLoginRoute (path : gostring) : bool := bool_decide (normalizeAdminRoutePath path = str "/login").

Definition isAuthenticationIngressRequest (r : Request) : bool :=
  if IsBrowser r && IsAdminRoute (Path r) then bool_decide (Method r = POST) && IsLoginRoute (Path r) else true.

(** ** Basic credentials (net/http) *)

Definition BasicAuth (r : Request) : option (gostring * gostring) :=
  let auth := hget (Hdr r) (str "Authorization") in
  if negb (bool_decide (map lower_byte (take 6 auth) = str "basic ")) then None
  else c ← base64_decode (drop 6 auth); Cut c ":"%byte.

End Addresses.

(** ** WithAuth *)

Inductive AuthReply :=
| SlowDown                       (* 503 SlowDown in XML, Retry-After: 1 *)
| TooManyRequests                (* 429, Retry-After: 1 *)
| Unauthorized (message : gostring)   (* 401 AccessDenied in XML *)
| BasicChallenge.                (* 401 with the pop challenge *)

(** What the context of an authenticated request carries. *)
Record Identity := { id_rules : list Rule; id_uploader : gostring; id_sigv4 : option (Auth * gostring) }.

Inductive AuthOutcome :=
| ServeOpen                              (* health checks, no identity *)
| ServeAdmin (loginDeadline : bool)      (* the administration handler *)
| ServeAs (id : Identity) (r : Request)
| Reply (a : AuthReply).

Section WithAuth.
Context {U : UnicodeCase} {MI : MapIter} {FL : Limiter.Float64} {C : Curve} {A : AEAD}.

Record Config := {
  cfg_trustedProxies : list Prefix;
  cfg_maxSkew : Z;                            (* SigV4MaxSkew *)
  cfg_privateKey : option PrivateKey          (* S3GatewayPrivateX25519Key *)
}.

(** [groups] is what [GroupsForCredentialsContext] returns for this request. *)
Definition authenticatePopBasic (groups : gostring -> gostring -> AuthLookup.groups_result) (r : Request) : AuthOutcome :=
  match BasicAuth r with
  | None => Reply BasicChallenge
  | Some (upn, pass) =>
    if decide (TrimSpace upn = [] \/ pass = []) then Reply BasicChallenge
    else
      match groups upn pass with
      | Err AuthLookup.ErrLimited => Reply TooManyRequests
      | Err _ => Reply BasicChallenge
      | Ok grps => ServeAs {| id_rules := RulesFromGroups grps; id_uploader := upn; id_sigv4 := None |} r
      end
  end.

Definition authenticateSigV4 (cfg : Config) (now : instant)
    (groups : gostring -> gostring -> AuthLookup.groups_result) (r : Request) : AuthOutcome :=
  let denied := Reply (Unauthorized (str "Unauthorized")) in
  match ParseSigV4Authorization r with
  | Err _ => denied
  | Ok auth =>
    if decide (Service auth <> str "s3") then denied
    else
      match ValidateSigV4RequestTime auth now (cfg_maxSkew cfg) with
      | Err _ => denied
      | Ok _ =>
        match Decode (AccessKey auth) (cfg_privateKey cfg) with
        | Err _ => denied
        | Ok (upn, pass, secretKey) =>
          match VerifySigV4 r auth secretKey with
          | Err _ => denied
          | Ok r =>
            match groups upn pass with
            | Err AuthLookup.ErrLimited => Reply SlowDown
            | Err _ => Reply (Unauthorized (str "Bad credentials"))
            | Ok grps =>
              ServeAs {| id_rules := RulesFromGroups grps; id_uploader := upn; id_sigv4 := Some (auth, secretKey) |} r
            end
          end
        end
      end
  end.

Definition writeAuthenticationIngressLimited (r : Request) : AuthOutcome :=
  Reply (if IsBrowser r && IsAdminRoute (Path r) then TooManyRequests
         else if isPopAPIPath (Path r) then TooManyRequests else SlowDown).

Definition WithAuth (cfg : Config) (limiter : Limiter.Limiter) (now : instant)
    (groups : gostring -> gostring -> AuthLookup.groups_result) (r : Request) : Limiter.Limiter * AuthOutcome :=
  if decide (Path r = str "/healthz" \/ Path r = str "/readyz") then (limiter, ServeOpen)
  else
    let clientIP := authenticationClientIP (cfg_trustedProxies cfg) r in
    let '(limiter, allowed) :=
      if isAuthenticationIngressRequest r
      then let '(l, ok) := Limiter.AllowIngress (Some limiter) now clientIP in (default limiter l, ok)
      else (limiter, true) in
    if negb allowed then (limiter, writeAuthenticationIngressLimited r)
    else if IsBrowser r && IsAdminRoute (Path r) then
      (limiter, ServeAdmin (bool_decide (Method r = POST) && IsLoginRoute (Path r)))
    else if isPopAPIPath (Path r) then (limiter, authenticatePopBasic groups r)
    else (limiter, authenticateSigV4 cfg now groups r).

(** The request a gateway call answers: authenticated, then routed. *)
Definition UploaderFromRequest (id : Identity) : gostring := TrimSpace (id_uploader id).

End WithAuth.

(** ** Lemmas *)

Lemma Split_last s c t : c ∉ t -> Split (s ++ c :: t) c = Split s c ++ [t].
Proof.
  intros Ht. induction s as [|b s IH]; [by rewrite (Split_app [] c t) by (by intros ?%not_elem_of_nil); rewrite Split_absent|].
  cbn [app Split]. rewrite IH. destruct (decide (b = c)); [done|].
  pose proof (Split_nonempty s c). by destruct (Split s c).
Qed.

Lemma mapM_snoc {A B} (f : A -> option B) l x ys :
  mapM f (l ++ [x]) = Some ys -> exists ys' y, ys = ys' ++ [y] /\ f x = Some y /\ length ys' = length l.
Proof.
  revert ys. induction l as [|a l IH]; intros ys; cbn [app mapM].
  - destruct (f x) as [y|] eqn:E; [|done]. intros [= <-]. by exists [], y.
  - destruct (f a) as [b|]; [|done]. cbn [mbind option_bind]. destruct (mapM f (l ++ [x])) as [zs|]; [|done].
    destruct (IH zs eq_refl) as (ys' & y & -> & Hy & Hl). intros [= <-]. exists (b :: ys'), y. simpl. by rewrite Hl.
Qed.

Section Theorems.
Context {U : UnicodeCase}.

(** The address a request is rate-limited under cannot be forged: a peer that
    is not a trusted proxy counts under its own address, whatever headers it
    sends; and behind a trusted proxy that appends the address it saw, the
    request counts under that address - or, if what the client put in front of
    it is too long or malformed, under the proxy's - so that no choice of header
    makes it count under a third address. *)
Theorem client_ip_unforgeable trusted r peer :
  parseRemoteIP (RemoteAddr r) = Some peer ->
  (prefixesContain trusted peer = false -> authenticationClientIP trusted r = addr_text peer) /\
  (forall forged hop a,
     Join (hvalues (Hdr r) (str "X-Forwarded-For")) (str ",") = forged ++ ","%byte :: hop -> ","%byte ∉ hop ->
     ParseAddr (TrimSpace hop) = Some a -> prefixesContain trusted (Unmap a) = false ->
     authenticationClientIP trusted r = addr_text (Unmap a) \/ authenticationClientIP trusted r = addr_text peer).
Proof.
  intros Hpeer. unfold authenticationClientIP. rewrite Hpeer. split; [by intros ->|].
  intros forged hop a Hf Hhop Ha Hun. destruct (negb _); [by right|]. rewrite Hf, Split_last by done.
  destruct (_ || _); [by right|]. destruct (mapM _ _) as [addresses|] eqn:Em; [|by right]. left.
  apply mapM_snoc in Em as (ys & y & -> & Hy & _). rewrite Ha in Hy. injection Hy as <-.
  unfold nearest_untrusted. rewrite reverse_snoc. cbn [list_find]. rewrite decide_True by done. done.
Qed.
End Theorems.

Lemma readinessCacheAt_Some ttl st now err :
  readinessCacheAt ttl st now = Some err ->
  readinessCacheValid st = true /\ err = readinessCachedErr st /\ 0 <= time_sub now (readinessCachedAt st) < ttl.
Proof.
  unfold readinessCacheAt. destruct (readinessCacheValid st); [|done]. cbn [negb].
  destruct (Z.ltb_spec (time_sub now (readinessCachedAt st)) 0), (Z.leb_spec ttl (time_sub now (readinessCachedAt st)));
    cbn [orb]; intros [= <-]. split; [done|]. split; [done | lia].
Qed.

(** A cached readiness verdict is younger than the TTL, and otherwise the check
    has just been made, and its verdict is the one that is kept. *)
Lemma readiness_fresh ttl st now1 now2 now3 check st' err :
  cachedReadiness ttl st now1 now2 now3 check = (st', err) ->
  (st' = st /\ readinessCacheValid st = true /\ err = readinessCachedErr st /\
   exists now, (now = now1 \/ now = now2) /\ 0 <= time_sub now (readinessCachedAt st) < ttl) \/
  (err = check /\ readinessCacheValid st' = true /\ readinessCachedErr st' = check /\ readinessCachedAt st' = now3).
Proof.
  unfold cachedReadiness. destruct (readinessCacheAt ttl st now1) as [e|] eqn:E1;
    [|destruct (readinessCacheAt ttl st now2) as [e|] eqn:E2]; intros [= <- <-].
  - apply readinessCacheAt_Some in E1 as (? & ? & ?). left. eauto 10.
  - apply readinessCacheAt_Some in E2 as (? & ? & ?). left. eauto 10.
  - by right.
Qed.

Section Authentication.
Context {U : UnicodeCase} {MI : MapIter} {FL : Limiter.Float64} {C : Curve} {A : AEAD}.
Variables (ttl maxEntries : Z) (limits : Limiter.Limits).

(** The lookups that answer [WithAuth] are those of a run of the lookup system. *)
Definition answered_by (es : list AuthLookup.event) (groups : gostring -> gostring -> AuthLookup.groups_result) : Prop :=
  forall upn pass g, groups upn pass = Ok g ->
    exists w wt, AuthLookup.gw_waiters (AuthLookup.gw_run ttl maxEntries limits es) !! w = Some wt /\
      AuthLookup.w_upn wt = upn /\ AuthLookup.w_pass wt = pass /\ AuthLookup.w_phase wt = AuthLookup.WDone (Ok g).

Lemma answered_verified es groups upn pass g :
  answered_by es groups -> groups upn pass = Ok g -> AuthLookup.verified_key ttl maxEntries limits es upn pass g.
Proof.
  intros Hans Hg. destruct (Hans upn pass g Hg) as (w & wt & Hw & <- & <- & Hp).
  pose proof (AuthLookup.vi_waiters _ _ _ _ _ (AuthLookup.ver_run ttl maxEntries limits es) w wt Hw) as H.
  unfold AuthLookup.waiter_ok in H. by rewrite Hp in H.
Qed.

(** The ways to an identity. *)
Lemma WithAuth_identity groups cfg limiter now r l id r' :
  WithAuth cfg limiter now groups r = (l, ServeAs id r') ->
  exists upn pass g, groups upn pass = Ok g /\
    id_uploader id = upn /\ id_rules id = RulesFromGroups g /\
    match id_sigv4 id with
    | Some (auth, secret) =>
      ParseSigV4Authorization r = Ok auth /\ Service auth = str "s3" /\
      ValidateSigV4RequestTime auth now (cfg_maxSkew cfg) = Ok tt /\
      Decode (AccessKey auth) (cfg_privateKey cfg) = Ok (upn, pass, secret) /\
      VerifySigV4 r auth secret = Ok r'
    | None => isPopAPIPath (Path r) = true /\ BasicAuth r = Some (upn, pass) /\ r' = r
    end.
Proof.
  unfold WithAuth. destruct (decide _); [done|].
  destruct (if isAuthenticationIngressRequest r then _ else _) as [l' allowed]. destruct (negb allowed).
  { unfold writeAuthenticationIngressLimited. by intros [= <-]. }
  destruct (IsBrowser r && IsAdminRoute (Path r)); [by intros [= <-]|].
  destruct (isPopAPIPath (Path r)) eqn:Hpop.
  - unfold authenticatePopBasic. destruct (BasicAuth r) as [[upn pass]|] eqn:Eb; [|by intros [= <-]].
    destruct (decide _); [by intros [= <-]|]. destruct (groups upn pass) as [g|[]] eqn:Eg; intros [= _ <- <-].
    by exists upn, pass, g.
  - unfold authenticateSigV4. destruct (ParseSigV4Authorization r) as [auth|] eqn:Ea; [|by intros [= <-]].
    destruct (decide (Service auth <> str "s3")) as [|Hs]; [by intros [= <-]|]. apply dec_stable in Hs.
    destruct (ValidateSigV4RequestTime _ _ _) as [[]|] eqn:Et; [|by intros [= <-]].
    destruct (Decode _ _) as [[[upn pass] secret]|] eqn:Ed; [|by intros [= <-]].
    destruct (VerifySigV4 r auth secret) as [r1|] eqn:Ev; [|by intros [= <-]].
    destruct (groups upn pass) as [g|[]] eqn:Eg; intros [= _ <- <-]. by exists upn, pass, g.
Qed.

(** No identity without proof: the gateway serves a request under an identity
    only if the request named a credential - in the access key it is signed
    with, under a timely signature by the secret of that credential, or as
    basic credentials on the pop API - for which the directory has answered with
    the groups that the rights of the identity are computed from. *)
Theorem identity_needs_proof es groups cfg limiter now r l id r' :
  answered_by es groups -> WithAuth cfg limiter now groups r = (l, ServeAs id r') ->
  exists upn pass g,
    id_uploader id = upn /\ id_rules id = RulesFromGroups g /\
    AuthLookup.verified_key ttl maxEntries limits es upn pass g /\
    match id_sigv4 id with
    | Some (auth, secret) =>
      ParseSigV4Authorization r = Ok auth /\ Service auth = str "s3" /\
      ValidateSigV4RequestTime auth now (cfg_maxSkew cfg) = Ok tt /\
      Decode (AccessKey auth) (cfg_privateKey cfg) = Ok (upn, pass, secret) /\
      VerifySigV4 r auth secret = Ok r'
    | None => isPopAPIPath (Path r) = true /\ BasicAuth r = Some (upn, pass) /\ r' = r
    end.
Proof.
  intros Hans (upn & pass & g & Hg & ? & ? & ?)%WithAuth_identity. exists upn, pass, g.
  split; [done|]. split; [done|]. split; [by eapply answered_verified | done].
Qed.
End Authentication.

(** ** Witnesses *)

Section Witnesses.
#[local] Existing Instance latin1_case.
#[local] Existing Instance canonical_iter.
#[local] Existing Instance Limiter.ieee_double.
#[local] Existing Instance toy_curve.
#[local] Existing Instance toy_aead.

Definition sample_hop (path : string) (headers : Header) : Request := {|
  Method := GET; Path := str path; EscapedPath := str path; RawQuery := []; URLHost := []; Host := str "gateway";
  RemoteAddr := str "10.0.0.1:1234"; Hdr := headers; ContentLength := 0; Body := NoBody; TLS := true |}.
Definition sample_proxies : list Prefix := parse_prefixes [str "10.0.0.0/8"; str "nonsense"; str " 2001:db8::/32"].
Definition forwarded_for (v : string) : Header := {[ str "X-Forwarded-For" := [str v] ]}.

Example client_ip_examples :
  map (fun v => authenticationClientIP sample_proxies (sample_hop "/b/k" (forwarded_for v)))
    ["6.6.6.6, 203.0.113.9"; "6.6.6.6,2001:db9::1, 10.2.2.2"; "10.1.1.1"; "evil, 203.0.113.9"; ""]%string
  = [str "203.0.113.9"; str "2001:db9::1"; str "10.1.1.1"; str "10.0.0.1"; str "10.0.0.1"].
Proof. vm_compute. reflexivity. Qed.

Lemma client_ip_unforgeable_witness :
  authenticationClientIP sample_proxies (sample_hop "/b/k" (forwarded_for "6.6.6.6, 203.0.113.9")) =
    addr_text (Unmap (v4 3405803785)) \/
  authenticationClientIP sample_proxies (sample_hop "/b/k" (forwarded_for "6.6.6.6, 203.0.113.9")) =
    addr_text (v4 167772161).
Proof.
  refine (proj2 (client_ip_unforgeable sample_proxies (sample_hop "/b/k" (forwarded_for "6.6.6.6, 203.0.113.9"))
    (v4 167772161) _) (str "6.6.6.6") (str " 203.0.113.9") (v4 3405803785) _ _ _ _).
  - vm_compute. reflexivity.
  - vm_compute. reflexivity.
  - apply (bool_decide_unpack _). vm_compute. exact I.
  - vm_compute. reflexivity.
  - vm_compute. reflexivity.
Defined.

Definition sample_answers (upn pass : gostring) : AuthLookup.groups_result :=
  if decide (upn = str "alice" /\ pass = str "pw") then Ok AuthLookup.sample_groups else Err AuthLookup.ErrDirectory.

Lemma sample_answered : answered_by 100000 10 Limiter.sample_limits AuthLookup.sample_run sample_answers.
Proof.
  intros upn pass g. unfold sample_answers. destruct (decide _) as [[-> ->]|]; [|done]. intros [= <-].
  exists 2%nat, (AuthLookup.sample_waiter "192.0.2.9" (AuthLookup.WDone (Ok AuthLookup.sample_groups))).
  split; [vm_compute; reflexivity | done].
Qed.

Definition sample_config : Config :=
  {| cfg_trustedProxies := sample_proxies; cfg_maxSkew := 900; cfg_privateKey := Some (str "gateway") |}.
Definition pop_request : Request :=
  sample_hop "/api/pop/team1-a/g" {[ str "Authorization" := [str "Basic YWxpY2U6cHc="] ]}.
Definition pop_identity : Identity :=
  {| id_rules := RulesFromGroups AuthLookup.sample_groups; id_uploader := str "alice"; id_sigv4 := None |}.

Lemma identity_needs_proof_witness :
  exists l, WithAuth sample_config (Limiter.NewLimiter Limiter.sample_limits) 5 sample_answers pop_request
    = (l, ServeAs pop_identity pop_request) /\
  exists upn pass g,
    id_uploader pop_identity = upn /\ id_rules pop_identity = RulesFromGroups g /\
    AuthLookup.verified_key 100000 10 Limiter.sample_limits AuthLookup.sample_run upn pass g /\
    isPopAPIPath (Path pop_request) = true /\ BasicAuth pop_request = Some (upn, pass) /\ pop_request = pop_request.
Proof.
  exists (WithAuth sample_config (Limiter.NewLimiter Limiter.sample_limits) 5 sample_answers pop_request).1.
  assert (E : (WithAuth sample_config (Limiter.NewLimiter Limiter.sample_limits) 5 sample_answers pop_request).2
    = ServeAs pop_identity pop_request) by (vm_compute; reflexivity).
  assert (E' : WithAuth sample_config (Limiter.NewLimiter Limiter.sample_limits) 5 sample_answers pop_request =
    ((WithAuth sample_config (Limiter.NewLimiter Limiter.sample_limits) 5 sample_answers pop_request).1,
     ServeAs pop_identity pop_request)) by (rewrite <- E; apply surjective_pairing).
  split; [exact E'|].
  exact (identity_needs_proof 100000 10 Limiter.sample_limits AuthLookup.sample_run sample_answers sample_config
    (Limiter.NewLimiter Limiter.sample_limits) 5 pop_request _ pop_identity pop_request sample_answered E').
Defined.
End Witnesses.
