(* ===== verification/S3Xml.v ===== *)
(** * Writing S3 XML (src/internal/s3xml/writer.go, bucket.go)

    The streaming writer over the encoder of encoding/xml: a stack of open tags,
    the octets written so far, and the first error, after which every call is a
    no-op.  A response is a list of writer calls; [balanced] lists are those
    whose tags match and whose raw strings are character data, and for them the
    writer cannot fail and writes a well-formed element, whatever the texts are. *)

From S2P Require Import Prelude GoStrings Http SigV4.

#[local] Open Scope Z_scope.

(** ** Escaping (encoding/xml, and the replacer of writer.go) *)

Definition xml_char (r : Z) : bool :=
  (r =? 0x09) || (r =? 0x0A) || (r =? 0x0D) || ((0x20 <=? r) && (r <=? 0xD7FF)) ||
  ((0xE000 <=? r) && (r <=? 0xFFFD)) || ((0x10000 <=? r) && (r <=? 0x10FFFF)).

(** The entity [EscapeText] writes for a rune, or the octets of the rune; a rune
    XML cannot carry becomes U+FFFD. *)
Definition escape_rune (x : Z * gostring) : gostring :=
  let '(r, bs) := x in
  if r =? 0x22 then str "&#34;"
  else if r =? 0x27 then str "&#39;"
  else if r =? 0x26 then str "&amp;"
  else if r =? 0x3C then str "&lt;"
  else if r =? 0x3E then str "&gt;"
  else if r =? 0x09 then str "&#x9;"
  else if r =? 0x0A then str "&#xA;"
  else if r =? 0x0D then str "&#xD;"
  else if negb (xml_char r) || ((r =? RuneError) && (length bs =? 1)%nat) then encode_rune RuneError
  else bs.
Definition EscapeText (s : gostring) : gostring := concat (map escape_rune (runes s)).

(** [Escape]: the replacer of the five special characters; octets that are no
    character of XML stay as they are. *)
Definition escape_byte (b : byte) : gostring :=
  if decide (b = "&"%byte) then str "&amp;"
  else if decide (b = "<"%byte) then str "&lt;"
  else if decide (b = ">"%byte) then str "&gt;"
  else if decide (b = x22) then str "&quot;"
  else if decide (b = "'"%byte) then str "&apos;"
  else [b].
Definition Escape (s : gostring) : gostring := concat (map escape_byte s).

Definition BoolString (v : bool) : gostring := if v then str "true" else str "false".

(** ** Times *)

(** The date [days] days after 1970-01-01. *)
Definition civil_of_days (days : Z) : Z * Z * Z :=
  let z := days + 719468 in
  let era := z / 146097 in
  let doe := z mod 146097 in
  let yoe := (doe - doe / 1460 + doe / 36524 - doe / 146096) / 365 in
  let doy := doe - (365 * yoe + yoe / 4 - yoe / 100) in
  let mp := (5 * doy + 2) / 153 in
  let d := doy - (153 * mp + 2) / 5 + 1 in
  let m := if mp <? 10 then mp + 3 else mp - 9 in
  ((if m <=? 2 then yoe + era * 400 + 1 else yoe + era * 400), m, d).

Definition time_of_nanos (t : instant) : Time :=
  let secs := t / 1000000000 in
  let '(y, m, d) := civil_of_days (secs / 86400) in
  let s := secs mod 86400 in
  {| year := y; month := m; day := d; hour := s / 3600; minute := s / 60 mod 60; second := s mod 60;
     nsec := t mod 1000000000 |}.

Definition clock_text (t : Time) : gostring := pad 2 (hour t) ++ str ":" ++ pad 2 (minute t) ++ str ":" ++ pad 2 (second t).
Definition date_text (t : Time) : gostring := pad 4 (year t) ++ str "-" ++ pad 2 (month t) ++ str "-" ++ pad 2 (day t).

(** [FormatTime]: the layout 2006-01-02T15:04:05.000Z. *)
Definition FormatTime (i : instant) : gostring :=
  let t := time_of_nanos i in date_text t ++ str "T" ++ clock_text t ++ str "." ++ pad 3 (nsec t / 1000000) ++ str "Z".

(** [Format(http.TimeFormat)] and [Format(time.RFC3339)] of a UTC time. *)
Definition day_names : list gostring := map str ["Thu"; "Fri"; "Sat"; "Sun"; "Mon"; "Tue"; "Wed"]%string.
Definition month_names : list gostring := map str
  ["Jan"; "Feb"; "Mar"; "Apr"; "May"; "Jun"; "Jul"; "Aug"; "Sep"; "Oct"; "Nov"; "Dec"]%string.
Definition FormatHTTPTime (i : instant) : gostring :=
  let t := time_of_nanos i in
  nth (Z.to_nat ((i / 1000000000 / 86400) mod 7)) day_names [] ++ str ", " ++ pad 2 (day t) ++ str " " ++
  nth (Z.to_nat (month t - 1)) month_names [] ++ str " " ++ pad 4 (year t) ++ str " " ++ clock_text t ++ str " GMT".
Definition FormatRFC3339 (i : instant) : gostring :=
  let t := time_of_nanos i in date_text t ++ str "T" ++ clock_text t ++ str "Z".

Example format_time_examples :
  (FormatTime 1700000000123456789, FormatHTTPTime 784111777000000000, FormatRFC3339 951782400000000000, FormatTime (-1)) =
  (str "2023-11-14T22:13:20.123Z", str "Sun, 06 Nov 1994 08:49:37 GMT", str "2000-02-29T00:00:00Z",
   str "1969-12-31T23:59:59.999Z").
Proof. vm_compute. reflexivity. Qed.

(** ** The writer *)

Abbreviation Attr := (gostring * gostring)%type.

Inductive WCall :=
| Start (name : gostring) (attrs : list Attr)
| End_ (name : gostring)
| Elem (name value : gostring)
| RawString (value : gostring).

Record Writer := { w_tags : list gostring; w_out : gostring; w_err : bool }.
Definition new_writer : Writer := {| w_tags := []; w_out := []; w_err := false |}.

Definition attr_text (a : Attr) : gostring := str " " ++ a.1 ++ str "=" ++ [x22] ++ EscapeText a.2 ++ [x22].
Definition start_tag (name : gostring) (attrs : list Attr) : gostring :=
  str "<" ++ name ++ concat (map attr_text attrs) ++ str ">".
Definition end_tag (name : gostring) : gostring := str "</" ++ name ++ str ">".

Definition write_call (w : Writer) (c : WCall) : Writer :=
  if w_err w then w
  else
    let emit tags s := {| w_tags := tags; w_out := w_out w ++ s; w_err := false |} in
    match c with
    | Start name attrs => emit (name :: w_tags w) (start_tag name attrs)
    | End_ name =>
      match w_tags w with
      | t :: tags => if decide (t = name) then emit tags (end_tag name)
                     else {| w_tags := w_tags w; w_out := w_out w; w_err := true |}
      | [] => {| w_tags := []; w_out := w_out w; w_err := true |}
      end
    | Elem name value => emit (w_tags w) (start_tag name [] ++ EscapeText value ++ end_tag name)
    | RawString value => emit (w_tags w) value
    end.
Definition write_calls (calls : list WCall) (w : Writer) : Writer := fold_left write_call calls w.

Definition xmlDeclaration : gostring := str "<?xml version=" ++ [x22] ++ str "1.0" ++ [x22] ++ str " encoding=" ++ [x22] ++
  str "UTF-8" ++ [x22] ++ str "?>".
Definition s3XMLNamespace : gostring := str "http://s3.amazonaws.com/doc/2006-03-01/".

Definition ElemInt (name : gostring) (value : Z) : WCall := Elem name (FormatInt value).
Definition ElemBool (name : gostring) (value : bool) : WCall := Elem name (BoolString value).
Definition EncodeRootStart (name : gostring) : WCall := Start name [(str "xmlns", s3XMLNamespace)].

(** A field that is written when it is set, and an enumeration that is written
    when it is not empty. *)
Definition opt_elem {A} (f : A -> gostring) (name : gostring) (v : option A) : list WCall :=
  match v with Some x => [Elem name (f x)] | None => [] end.
Definition elem_str (name : string) (v : option gostring) : list WCall := opt_elem (fun s => s) (str name) v.
Definition elem_int (name : string) (v : option Z) : list WCall := opt_elem FormatInt (str name) v.
Definition elem_bool (name : string) (v : option bool) : list WCall := opt_elem BoolString (str name) v.
Definition elem_time (name : string) (v : option instant) : list WCall := opt_elem FormatTime (str name) v.
Definition elem_enum (name : string) (v : gostring) : list WCall :=
  if decide (v = []) then [] else [Elem (str name) v].
(** The calls between a start and its end. *)
Definition within (name : string) (inner : list WCall) : list WCall := Start (str name) [] :: inner ++ [End_ (str name)].
Definition root (name : string) (inner : list WCall) : list WCall :=
  EncodeRootStart (str name) :: inner ++ [End_ (str name)].

(** ** The shared pieces of S3 responses *)

Record Owner := { owner_ID : option gostring; owner_DisplayName : option gostring }.
Record RestoreStatus := { rs_inProgress : option bool; rs_expiry : option instant }.
Record Tag := { tag_Key : option gostring; tag_Value : option gostring }.

Definition EncodeCommonPrefixes (prefixes : list (option gostring)) : list WCall :=
  flat_map (fun p => match p with Some p => within "CommonPrefixes" (elem_str "Prefix" (Some p)) | None => [] end) prefixes.
Definition EncodeOwnerIDThenDisplayName (owner : option Owner) : list WCall :=
  match owner with
  | None => []
  | Some o => within "Owner" (elem_str "ID" (owner_ID o) ++ elem_str "DisplayName" (owner_DisplayName o))
  end.
Definition EncodeOwnerDisplayNameThenID (owner : option Owner) : list WCall :=
  match owner with
  | None => []
  | Some o => within "Owner" (elem_str "DisplayName" (owner_DisplayName o) ++ elem_str "ID" (owner_ID o))
  end.
Definition EncodeInitiatorDisplayNameThenID (initiator : option Owner) : list WCall :=
  match initiator with
  | None => []
  | Some o => within "Initiator" (elem_str "DisplayName" (owner_DisplayName o) ++ elem_str "ID" (owner_ID o))
  end.
Definition EncodeRestoreStatus (restore : option RestoreStatus) : list WCall :=
  match restore with
  | None => []
  | Some r => within "RestoreStatus"
                (elem_bool "IsRestoreInProgress" (rs_inProgress r) ++ elem_time "RestoreExpiryDate" (rs_expiry r))
  end.

(** ** Responses *)

Inductive RespBody :=
| EmptyBody
| XmlDoc (prolog : gostring) (calls : list WCall)
| Copied (octets : gostring) (aborted : bool).   (* io.Copy; aborted by a panic on an error *)

Record Response := { resp_status : Z; resp_headers : Header; resp_body : RespBody }.

(** The octets of a document the writer was given. *)
Definition xml_octets (prolog : gostring) (calls : list WCall) : gostring := prolog ++ w_out (write_calls calls new_writer).

(** [BeginResponse] ... [FlushResponse], over the headers already set. *)
Definition xml_response (h : Header) (status : Z) (calls : list WCall) : Response :=
  {| resp_status := status; resp_headers := hset h (str "Content-Type") (str "application/xml");
     resp_body := XmlDoc xmlDeclaration calls |}.
Definition WriteHeader (h : Header) (status : Z) : Response :=
  {| resp_status := status; resp_headers := h; resp_body := EmptyBody |}.
Definition error_calls (code msg : gostring) : list WCall :=
  within "Error" [Elem (str "Code") code; Elem (str "Message") msg].
Definition WriteError (h : Header) (status : Z) (code msg : gostring) : Response := xml_response h status (error_calls code msg).

Definition WriteTaggingResponse (h : Header) (status : Z) (tagSet : list Tag) : Response :=
  xml_response h status
    (root "Tagging" (within "TagSet" (flat_map (fun t =>
       within "Tag" (elem_str "Key" (tag_Key t) ++ elem_str "Value" (tag_Value t))) tagSet))).

(** [xml.Header], the prolog of a marshalled document. *)
Definition xmlHeader : gostring := xmlDeclaration ++ [x0a].

(** [EncodeVersioningConfig]: [xml.Marshal] of a struct writes the same calls. *)
Definition EncodeVersioningConfig (status mfaDelete : gostring) : list WCall :=
  root "VersioningConfiguration" (elem_enum "Status" status ++ elem_enum "MfaDelete" mfaDelete).

(** ** Well-formed XML

    The fragment of the XML grammar that responses use: elements with attributes,
    character data without markup, and entity references.  Character data is made
    of the characters XML allows, in UTF-8: control octets, surrogates and broken
    encodings are none. *)

Definition entities : list gostring :=
  map str ["&#34;"; "&#39;"; "&amp;"; "&lt;"; "&gt;"; "&#x9;"; "&#xA;"; "&#xD;"; "&quot;"; "&apos;"]%string.

(** Between tags a quote is plain text, in an attribute it is not. *)
Definition text_rune (r : Z) : bool := bool_decide (r ∉ [0x3C; 0x3E; 0x26]).
Definition plain_rune (r : Z) : bool := text_rune r && bool_decide (r ∉ [0x22; 0x27]).

Inductive char_data (ok : Z -> bool) : gostring -> Prop :=
| cd_nil : char_data ok []
| cd_char r s : xml_char r = true -> ok r = true -> char_data ok s -> char_data ok (encode_rune r ++ s)
| cd_entity e s : e ∈ entities -> char_data ok s -> char_data ok (e ++ s).

(** Strings of XML characters: what the XML decoder of the SDK can have read. *)
Definition xml_text (s : gostring) : Prop := exists rs, Forall (fun r => xml_char r = true) rs /\ s = utf8 rs.

Definition name_byte (b : byte) : bool := is_alnum b || bool_decide (b = ":"%byte).
Definition xml_name (n : gostring) : bool :=
  match n with b :: _ => (in_range 65 90 b || in_range 97 122 b) && forallb name_byte n | [] => false end.

Inductive attributes : gostring -> Prop :=
| at_nil : attributes []
| at_cons n v s : xml_name n = true -> char_data plain_rune v -> attributes s ->
    attributes (str " " ++ n ++ str "=" ++ [x22] ++ v ++ [x22] ++ s).

Inductive content : gostring -> Prop :=
| ct_nil : content []
| ct_text s t : char_data text_rune s -> content t -> content (s ++ t)
| ct_elem s t : element s -> content t -> content (s ++ t)
with element : gostring -> Prop :=
| el_intro n a s : xml_name n = true -> attributes a -> content s ->
    element (str "<" ++ n ++ a ++ str ">" ++ s ++ end_tag n).

(** Calls whose tags match and whose raw strings are character data. *)
Inductive balanced : list WCall -> Prop :=
| bal_nil : balanced []
| bal_elem n v l : xml_name n = true -> balanced l -> balanced (Elem n v :: l)
| bal_raw v l : char_data text_rune v -> balanced l -> balanced (RawString v :: l)
| bal_nest n a l1 l2 : xml_name n = true -> forallb (fun x => xml_name x.1) a = true ->
    balanced l1 -> balanced l2 -> balanced (Start n a :: l1 ++ End_ n :: l2).

(** ** Lemmas: decoding and encoding a piece *)

#[local] Ltac Zify.zify_post_hook ::= Z.to_euclidean_division_equations.

Lemma encode_one b : bz b < 0x80 -> encode_rune (bz b) = [b].
Proof.
  intros H. pose proof (bz_range b). rewrite encode_rune_valid by (unfold valid_rune; lia).
  destruct (Z.ltb_spec (bz b) 128); [by rewrite zb_bz|lia].
Qed.

Lemma lead_nibble b : in_range 0xE0 0xEF b = true -> Z.land (bz b) 0x0F = bz b - 0xE0.
Proof.
  intros H. pose proof (byte_forallb (fun b => negb (in_range 0xE0 0xEF b) || (Z.land (bz b) 0x0F =? bz b - 0xE0)) ltac:(vm_compute; reflexivity) b) as Hb.
  cbv beta in Hb. rewrite H in Hb. by apply Z.eqb_eq.
Qed.
Lemma lead_octal b : in_range 0xF0 0xF4 b = true -> Z.land (bz b) 0x07 = bz b - 0xF0.
Proof.
  intros H. pose proof (byte_forallb (fun b => negb (in_range 0xF0 0xF4 b) || (Z.land (bz b) 0x07 =? bz b - 0xF0)) ltac:(vm_compute; reflexivity) b) as Hb.
  cbv beta in Hb. rewrite H in Hb. by apply Z.eqb_eq.
Qed.
Lemma lead_five b : in_range 0xC2 0xDF b = true -> Z.land (bz b) 0x1F = bz b - 0xC0.
Proof.
  intros H. pose proof (byte_forallb (fun b => negb (in_range 0xC2 0xDF b) || (Z.land (bz b) 0x1F =? bz b - 0xC0)) ltac:(vm_compute; reflexivity) b) as Hb.
  cbv beta in Hb. rewrite H in Hb. by apply Z.eqb_eq.
Qed.
Lemma low6_cont b : cont b = true -> low6 b = bz b - 0x80.
Proof.
  intros H. pose proof (byte_forallb (fun b => negb (cont b) || (low6 b =? bz b - 0x80)) ltac:(vm_compute; reflexivity) b) as Hb.
  cbv beta in Hb. rewrite H in Hb. by apply Z.eqb_eq.
Qed.

Lemma octet_eq x b : x = bz b -> zb x = b.
Proof. intros ->. apply zb_bz. Qed.

Lemma in_range_wider lo hi lo' hi' b : in_range lo hi b = true -> lo' <= lo -> hi <= hi' -> in_range lo' hi' b = true.
Proof. unfold in_range. intros H ? ?. b2p. lia. Qed.

Lemma encode_two b0 b1 : valid2 b0 b1 = true -> encode_rune (rune2 b0 b1) = [b0; b1].
Proof.
  intros [H0 H1]%andb_true_iff. rewrite encode_rune_valid by apply valid_rune2. unfold rune2.
  rewrite lead_five, low6_cont, lor_add_disjoint by (done || (unfold cont, in_range in *; b2p; lia)). unfold cont, in_range in *. b2p.
  change (2 ^ 6) with 64. destruct (Z.ltb_spec ((bz b0 - 192) * 64 + (bz b1 - 128)) 128); [lia|].
  destruct (Z.ltb_spec ((bz b0 - 192) * 64 + (bz b1 - 128)) 2048); [|lia].
  repeat f_equal; apply octet_eq; lia.
Qed.

(** What the second octet of a longer sequence may be. *)
Lemma valid3_facts b0 b1 b2 :
  valid3 b0 b1 b2 = true -> in_range 0xE0 0xEF b0 = true /\ cont b1 = true /\ cont b2 = true /\ (bz b0 = 0xE0 -> 0xA0 <= bz b1).
Proof.
  unfold valid3. intros [H H2]%andb_true_iff. apply orb_true_iff in H as [[H|H]%orb_true_iff|H]; apply andb_true_iff in H as [H0 H1];
    unfold cont, in_range in *; b2p; try (apply orb_true_iff in H0 as [H0|H0]; b2p); split_and!; lia.
Qed.
Lemma encode_three b0 b1 b2 : valid3 b0 b1 b2 = true -> encode_rune (rune3 b0 b1 b2) = [b0; b1; b2].
Proof.
  intros H. rewrite encode_rune_valid by by apply valid_rune3. apply valid3_facts in H as (H0 & H1 & H2 & Hm). unfold rune3.
  rewrite lead_nibble, !low6_cont by done. unfold cont, in_range in *. b2p.
  rewrite (lor_add_disjoint (bz b1 - 128)), lor_add_disjoint by lia. change (2 ^ 6) with 64. change (2 ^ 12) with 4096.
  set (r := _ + _). assert (Hr : r = (bz b0 - 224) * 4096 + (bz b1 - 128) * 64 + (bz b2 - 128)) by (subst r; lia). clearbody r.
  destruct (Z.ltb_spec r 128); [lia|]. destruct (Z.ltb_spec r 2048); [lia|]. destruct (Z.ltb_spec r 65536); [|lia].
  repeat f_equal; apply octet_eq; lia.
Qed.

Lemma valid4_facts b0 b1 b2 b3 :
  valid4 b0 b1 b2 b3 = true ->
  in_range 0xF0 0xF4 b0 = true /\ cont b1 = true /\ cont b2 = true /\ cont b3 = true /\ (bz b0 = 0xF0 -> 0x90 <= bz b1).
Proof.
  unfold valid4. intros [[H H2]%andb_true_iff H3]%andb_true_iff. apply orb_true_iff in H as [[H|H]%orb_true_iff|H]; apply andb_true_iff in H as [H0 H1];
    unfold cont, in_range in *; b2p; split_and!; lia.
Qed.
Lemma encode_four b0 b1 b2 b3 : valid4 b0 b1 b2 b3 = true -> encode_rune (rune4 b0 b1 b2 b3) = [b0; b1; b2; b3].
Proof.
  intros H. rewrite encode_rune_valid by by apply valid_rune4. apply valid4_facts in H as (H0 & H1 & H2 & H3 & Hm). unfold rune4.
  rewrite lead_octal, !low6_cont by done. unfold cont, in_range in *. b2p.
  rewrite (lor_add_disjoint (bz b2 - 128)), (lor_add_disjoint (bz b1 - 128)), lor_add_disjoint by lia.
  change (2 ^ 6) with 64. change (2 ^ 12) with 4096. change (2 ^ 18) with 262144.
  set (r := _ + _). assert (Hr : r = (bz b0 - 240) * 262144 + (bz b1 - 128) * 4096 + (bz b2 - 128) * 64 + (bz b3 - 128)) by (subst r; lia). clearbody r.
  destruct (Z.ltb_spec r 128); [lia|]. destruct (Z.ltb_spec r 2048); [lia|]. destruct (Z.ltb_spec r 65536); [lia|].
  repeat f_equal; apply octet_eq; lia.
Qed.

(** A property of all decoded pieces follows from the four ways to decode one. *)
Lemma runes_Forall (P : Z * gostring -> Prop) :
  (forall b, P (rune1 b, [b])) ->
  (forall b0 b1, valid2 b0 b1 = true -> P (rune2 b0 b1, [b0; b1])) ->
  (forall b0 b1 b2, valid3 b0 b1 b2 = true -> P (rune3 b0 b1 b2, [b0; b1; b2])) ->
  (forall b0 b1 b2 b3, valid4 b0 b1 b2 b3 = true -> P (rune4 b0 b1 b2 b3, [b0; b1; b2; b3])) ->
  forall s, Forall P (runes s).
Proof.
  intros P1 P2 P3 P4 s. remember (length s) as n eqn:Hn. revert s Hn.
  induction n as [n IH] using lt_wf_ind. intros [|b0 s] ->; [constructor|].
  assert (Hrec : forall t, (length t < length (b0 :: s))%nat -> Forall P (runes t)) by (intros t Ht; by eapply IH).
  destruct s as [|b1 s]; [repeat constructor; apply P1|]. cbn [runes].
  destruct (valid2 b0 b1) eqn:H2; [constructor; [by apply P2 | apply Hrec; simpl; lia]|].
  destruct s as [|b2 s]; [constructor; [apply P1 | apply (Hrec [b1]); simpl; lia]|].
  destruct (valid3 b0 b1 b2) eqn:H3; [constructor; [by apply P3 | apply Hrec; simpl; lia]|].
  destruct s as [|b3 s]; [constructor; [apply P1 | apply (Hrec [b1; b2]); simpl; lia]|].
  destruct (valid4 b0 b1 b2 b3) eqn:H4; [constructor; [by apply P4 | apply Hrec; simpl; lia]|].
  constructor; [apply P1 | apply (Hrec (b1 :: b2 :: b3 :: s)); simpl; lia].
Qed.

(** What a string decodes to: characters, each from its own encoding, and single
    octets that begin none. *)
Lemma runes_pieces s :
  Forall (fun x => valid_rune x.1 /\ (x.2 = encode_rune x.1 \/ (x.1 = RuneError /\ length x.2 = 1%nat))) (runes s).
Proof.
  revert s. apply runes_Forall; intros.
  - split; [apply valid_rune1|]. unfold rune1. cbn. destruct (Z.ltb_spec (bz b) 128); [left; by rewrite encode_one|by right].
  - split; [apply valid_rune2|]. left. cbn. by rewrite encode_two.
  - split; [by apply valid_rune3|]. left. cbn. by rewrite encode_three.
  - split; [by apply valid_rune4|]. left. cbn. by rewrite encode_four.
Qed.

(** ** Lemmas: escaped text is character data *)

Lemma char_data_app ok s t : char_data ok s -> char_data ok t -> char_data ok (s ++ t).
Proof.
  induction 1; intros; cbn [app]; [done | rewrite <- (assoc_L (++)); constructor; auto..].
Qed.

Lemma char_data_one (ok : Z -> bool) r : xml_char r = true -> ok r = true -> char_data ok (encode_rune r).
Proof. intros. rewrite <- (app_nil_r (encode_rune r)). constructor; [done..|constructor]. Qed.

Lemma char_data_entity ok e : e ∈ entities -> char_data ok e.
Proof. intros He. rewrite <- (app_nil_r e). constructor; [done | constructor]. Qed.

Lemma char_data_concat ok l : Forall (char_data ok) l -> char_data ok (concat l).
Proof. induction 1; [constructor | by apply char_data_app]. Qed.

Lemma char_data_text s : char_data plain_rune s -> char_data text_rune s.
Proof. induction 1; constructor; auto. by match goal with H : plain_rune _ = true |- _ => apply andb_true_iff in H as [H _] end. Qed.

Lemma plain_other r : r <> 0x22 -> r <> 0x27 -> r <> 0x26 -> r <> 0x3C -> r <> 0x3E -> plain_rune r = true.
Proof.
  intros. unfold plain_rune, text_rune. rewrite andb_true_iff, !bool_decide_eq_true, !not_elem_of_cons.
  split_and!; (done || apply not_elem_of_nil).
Qed.

Lemma escape_rune_char_data x :
  valid_rune x.1 -> x.2 = encode_rune x.1 \/ (x.1 = RuneError /\ length x.2 = 1%nat) -> char_data plain_rune (escape_rune x).
Proof.
  destruct x as [r bs]. cbn [fst snd]. intros Hv Hbs. unfold escape_rune.
  do 8 (match goal with |- context [r =? ?k] => destruct (Z.eqb_spec r k); [apply char_data_entity; apply (bool_decide_unpack _); vm_compute; exact I|] end).
  destruct (negb (xml_char r) || ((r =? RuneError) && (length bs =? 1)%nat)) eqn:Hbad; [by apply char_data_one|].
  apply orb_false_iff in Hbad as [Hchar%negb_false_iff Hone]. destruct Hbs as [->|[-> Hlen]].
  - apply char_data_one; [done|by apply plain_other].
  - by rewrite Hlen in Hone.
Qed.

Lemma EscapeText_char_data s : char_data plain_rune (EscapeText s).
Proof.
  apply char_data_concat, Forall_map. eapply Forall_impl; [apply runes_pieces|]. intros x [? ?]. by apply escape_rune_char_data.
Qed.

Lemma xml_char_valid r : xml_char r = true -> valid_rune r.
Proof.
  unfold xml_char, valid_rune. intros H. repeat (apply orb_true_iff in H as [H|H]); b2p; lia.
Qed.

(** The octets of a character: itself, or octets above 0x7F. *)
Lemma encode_rune_octets r :
  valid_rune r -> (exists b, bz b = r /\ encode_rune r = [b]) \/ (0x80 <= r /\ encode_rune r <> [] /\ Forall (fun b => 0x80 <= bz b) (encode_rune r)).
Proof.
  intros Hv. rewrite encode_rune_valid by done. destruct Hv as [Hr Hs].
  destruct (Z.ltb_spec r 128); [left; exists (zb r); by rewrite bz_zb by lia|]. right. split; [done|].
  destruct (Z.ltb_spec r 2048); [|destruct (Z.ltb_spec r 65536)]; (split; [done|]); repeat constructor; rewrite bz_zb by lia; lia.
Qed.

Lemma escape_byte_high b : 0x80 <= bz b -> escape_byte b = [b].
Proof. intros H. unfold escape_byte. repeat (destruct (decide _) as [->|]; [vm_compute in H; congruence|]). done. Qed.

(** [Escape] works on octets, and keeps the characters whole. *)
Lemma Escape_rune_char_data r : xml_char r = true -> char_data plain_rune (Escape (encode_rune r)).
Proof.
  intros Hx. destruct (encode_rune_octets r (xml_char_valid r Hx)) as [(b & <- & E)|(Hr & _ & Hall)].
  - rewrite E. unfold Escape. cbn [map concat]. rewrite app_nil_r. unfold escape_byte.
    repeat (destruct (decide _) as [?|?]; [apply char_data_entity; apply (bool_decide_unpack _); vm_compute; exact I|]).
    rewrite <- E. apply char_data_one; [done|]. apply plain_other; intros Hb; congruence || (apply (f_equal zb) in Hb; rewrite zb_bz in Hb; subst b; done).
  - assert (Escape (encode_rune r) = encode_rune r) as ->.
    { induction Hall as [|b l Hb _ IH]; [done|]. unfold Escape in *. cbn [map concat]. by rewrite IH, escape_byte_high. }
    apply char_data_one; [done|]. apply plain_other; lia.
Qed.

Lemma Escape_char_data s : xml_text s -> char_data plain_rune (Escape s).
Proof.
  intros (rs & Hrs & ->). induction Hrs as [|r rs Hr _ IH]; [constructor|]. unfold Escape, utf8 in *. cbn [map concat].
  rewrite map_app, concat_app. apply char_data_app; [by apply Escape_rune_char_data | exact IH].
Qed.

(** Trimming quotes takes characters away. *)
Lemma drop_while_keep {A} (p : A -> bool) l s : l <> [] -> Forall (fun x => p x = false) l -> drop_while p (l ++ s) = l ++ s.
Proof. intros Hne Hl. destruct Hl as [|x l Hx]; [done|]. cbn. by rewrite Hx. Qed.

Definition is_quote (b : byte) : bool := bool_decide (b ∈ [x22]).
Lemma other_than_quote r : xml_char r = true -> r <> 0x22 -> encode_rune r <> [] /\ Forall (fun b => is_quote b = false) (encode_rune r).
Proof.
  intros Hx Hr. unfold is_quote. destruct (encode_rune_octets r (xml_char_valid r Hx)) as [(b & Hb & ->)|(_ & Hne & Hall)].
  - split; [done|]. constructor; [|done]. apply bool_decide_eq_false. intros ->%list_elem_of_singleton. by subst r.
  - split; [done|]. eapply Forall_impl; [exact Hall|]. intros b Hb. apply bool_decide_eq_false. by intros ->%list_elem_of_singleton.
Qed.

Lemma xml_text_drop s : xml_text s -> xml_text (drop_while is_quote s).
Proof.
  intros (rs & Hrs & ->). induction Hrs as [|r rs Hr Hrs IH]; [by exists []|]. unfold utf8. cbn [map concat]. fold (utf8 rs).
  destruct (decide (r = 0x22)) as [->|Hne]; [exact IH|]. destruct (other_than_quote r Hr Hne) as [Hn Hf].
  rewrite drop_while_keep by done. exists (r :: rs). by split; [constructor|].
Qed.
Lemma xml_text_drop_end s : xml_text s -> xml_text (reverse (drop_while is_quote (reverse s))).
Proof.
  intros (rs & Hrs & ->). induction rs as [|r rs IH] using rev_ind; [by exists []|]. apply Forall_app in Hrs as [Hrs [Hr _]%Forall_cons].
  unfold utf8. rewrite map_app, concat_app. cbn [map concat]. rewrite app_nil_r, reverse_app. fold (utf8 rs).
  destruct (decide (r = 0x22)) as [->|Hne]; [by apply IH|]. destruct (other_than_quote r Hr Hne) as [Hn Hf].
  rewrite drop_while_keep; [|by intros Hz%(f_equal reverse); rewrite reverse_involutive in Hz|by apply Forall_reverse].
  rewrite reverse_app, !reverse_involutive. exists (rs ++ [r]). split; [apply Forall_app; split; [done|by constructor]|].
  unfold utf8. rewrite map_app, concat_app. cbn [map concat]. by rewrite app_nil_r.
Qed.
Lemma xml_text_trim s : xml_text s -> xml_text (Trim s [x22]).
Proof. intros H. exact (xml_text_drop_end _ (xml_text_drop _ H)). Qed.

(** ** Lemmas: balanced calls *)

Lemma attributes_concat a : forallb (fun x : Attr => xml_name x.1) a = true -> attributes (concat (map attr_text a)).
Proof.
  induction a as [|[n v] a IH]; [constructor|]. cbn [forallb map concat]. intros [Hn Ha]%andb_true_iff.
  unfold attr_text at 1. rewrite <- !(assoc_L (++)). apply at_cons; [done | apply EscapeText_char_data | auto].
Qed.

Lemma content_app s t : content s -> content t -> content (s ++ t).
Proof. induction 1; intros; cbn [app]; [done|..]; rewrite <- (assoc_L (++)); by constructor; auto. Qed.

(** What a balanced list of calls does to a writer that has not failed. *)
Definition writes (calls : list WCall) (s : gostring) : Prop :=
  forall w, w_err w = false ->
    write_calls calls w = {| w_tags := w_tags w; w_out := w_out w ++ s; w_err := false |}.

Lemma writes_app l1 l2 s1 s2 : writes l1 s1 -> writes l2 s2 -> writes (l1 ++ l2) (s1 ++ s2).
Proof.
  intros H1 H2 w Hw. unfold write_calls. rewrite fold_left_app. fold (write_calls l1 w). rewrite H1 by done.
  fold (write_calls l2 {| w_tags := w_tags w; w_out := w_out w ++ s1; w_err := false |}). rewrite H2 by done.
  cbn [w_tags w_out]. by rewrite (assoc_L (++)).
Qed.

Lemma writes_nest n a l s : writes l s -> writes (Start n a :: l ++ [End_ n]) (start_tag n a ++ s ++ end_tag n).
Proof.
  intros H w Hw. unfold write_calls. cbn [fold_left]. rewrite fold_left_app.
  replace (write_call w (Start n a)) with {| w_tags := n :: w_tags w; w_out := w_out w ++ start_tag n a; w_err := false |}
    by (unfold write_call; by rewrite Hw).
  fold (write_calls l {| w_tags := n :: w_tags w; w_out := w_out w ++ start_tag n a; w_err := false |}).
  rewrite H by done. cbn [fold_left write_call w_err w_tags w_out]. rewrite decide_True by done.
  by rewrite <- !(assoc_L (++)).
Qed.

Lemma element_tag n a s :
  xml_name n = true -> forallb (fun x : Attr => xml_name x.1) a = true -> content s ->
  element (start_tag n a ++ s ++ end_tag n).
Proof.
  intros Hn Ha Hs. unfold start_tag. rewrite <- !(assoc_L (++)). apply el_intro; [done | by apply attributes_concat | done].
Qed.

Lemma balanced_writes l : balanced l -> exists s, writes l s /\ content s.
Proof.
  induction 1 as [|n v l Hn _ (s & Hw & Hs)|v l Hv _ (s & Hw & Hs)|n a l1 l2 Hn Ha _ (s1 & Hw1 & Hs1) _ (s2 & Hw2 & Hs2)].
  - exists []. split; [|constructor]. intros w Hw. rewrite app_nil_r. destruct w; simpl in *. by rewrite Hw.
  - exists ((start_tag n [] ++ EscapeText v ++ end_tag n) ++ s). split.
    + apply (writes_app [Elem n v]); [|done]. intros w E. unfold write_calls. cbn [fold_left]. unfold write_call. by rewrite E.
    + apply ct_elem; [|done]. apply element_tag; [done..|]. rewrite <- (app_nil_r (EscapeText v)).
      apply ct_text; [apply char_data_text, EscapeText_char_data | constructor].
  - exists (v ++ s). split; [|by constructor]. apply (writes_app [RawString v]); [|done]. intros w E. unfold write_calls. cbn [fold_left]. unfold write_call. by rewrite E.
  - exists ((start_tag n a ++ s1 ++ end_tag n) ++ s2). split.
    + replace (Start n a :: l1 ++ End_ n :: l2) with ((Start n a :: l1 ++ [End_ n]) ++ l2)
        by (cbn; f_equal; by rewrite <- (assoc_L (++))).
      apply writes_app; [by apply writes_nest | done].
    + apply ct_elem; [by apply element_tag | done].
Qed.

Lemma balanced_app l1 l2 : balanced l1 -> balanced l2 -> balanced (l1 ++ l2).
Proof.
  intros H1 H2. induction H1 as [|n v l Hn _ IH|v l Hv _ IH|n a l1 l3 Hn Ha H1 _ _ IH]; cbn [app]; [done|by constructor..|].
  rewrite <- (assoc_L (++)). cbn [app]. by constructor.
Qed.

Lemma balanced_flat_map {A} (f : A -> list WCall) l : (forall x, balanced (f x)) -> balanced (flat_map f l).
Proof. intros Hf. induction l; [constructor | by apply balanced_app]. Qed.

(** Documents: one element around balanced calls. *)
Definition document (calls : list WCall) : Prop :=
  exists n a l, calls = Start n a :: l ++ [End_ n] /\ xml_name n = true /\
    forallb (fun x : Attr => xml_name x.1) a = true /\ balanced l.

Lemma document_octets prolog calls :
  document calls ->
  w_err (write_calls calls new_writer) = false /\ w_tags (write_calls calls new_writer) = [] /\
  exists body, xml_octets prolog calls = prolog ++ body /\ element body.
Proof.
  intros (n & a & l & -> & Hn & Ha & Hl). destruct (balanced_writes l Hl) as (s & Hw & Hs).
  pose proof (writes_nest n a l s Hw new_writer eq_refl) as E. unfold xml_octets. rewrite E.
  split; [done|]. split; [done|]. exists (start_tag n a ++ s ++ end_tag n). split; [done | by apply element_tag].
Qed.

(** ** Hints: the shared pieces are balanced *)

Create HintDb s3xml.

Lemma bal_opt_elem {A} (f : A -> gostring) n v : xml_name n = true -> balanced (opt_elem f n v).
Proof. intros Hn. destruct v; [|constructor]. by repeat constructor. Qed.

Lemma bal_elem_enum n v : xml_name (str n) = true -> balanced (elem_enum n v).
Proof. intros Hn. unfold elem_enum. destruct (decide _); by repeat constructor. Qed.

Lemma bal_within n l : xml_name (str n) = true -> balanced l -> balanced (within n l).
Proof. intros. unfold within. by constructor; [..|constructor]. Qed.

Lemma doc_root n l : xml_name (str n) = true -> balanced l -> document (root n l).
Proof. intros. unfold root, EncodeRootStart. do 3 eexists. split_and!; [done..|by vm_compute | done]. Qed.

Lemma doc_within n l : xml_name (str n) = true -> balanced l -> document (within n l).
Proof. intros. unfold within. by do 3 eexists. Qed.

#[export] Hint Resolve bal_opt_elem bal_elem_enum bal_within balanced_app doc_root doc_within balanced_flat_map : s3xml.
#[export] Hint Constructors balanced : s3xml.
#[export] Hint Extern 1 (xml_name _ = true) => vm_compute; reflexivity : s3xml.

(** Decides that the calls of a response are balanced. *)
Ltac xml_balanced :=
  repeat match goal with
  | |- document (root _ _) => apply doc_root; [vm_compute; reflexivity|]
  | |- document (within _ _) => apply doc_within; [vm_compute; reflexivity|]
  | |- balanced [] => apply bal_nil
  | |- balanced (_ ++ _) => apply balanced_app
  | |- balanced (flat_map _ _) => apply balanced_flat_map; intros
  | |- balanced (within _ _) => apply bal_within; [vm_compute; reflexivity|]
  | |- balanced (elem_str _ _) => apply bal_opt_elem; vm_compute; reflexivity
  | |- balanced (elem_int _ _) => apply bal_opt_elem; vm_compute; reflexivity
  | |- balanced (elem_bool _ _) => apply bal_opt_elem; vm_compute; reflexivity
  | |- balanced (elem_time _ _) => apply bal_opt_elem; vm_compute; reflexivity
  | |- balanced (elem_enum _ _) => apply bal_elem_enum; vm_compute; reflexivity
  | |- balanced (Elem _ _ :: _) => apply bal_elem; [vm_compute; reflexivity|]
  | |- balanced (ElemBool _ _ :: _) => apply bal_elem; [vm_compute; reflexivity|]
  | |- balanced (ElemInt _ _ :: _) => apply bal_elem; [vm_compute; reflexivity|]
  | |- balanced (RawString (Escape _) :: _) => apply bal_raw; [apply char_data_text, Escape_char_data; assumption|]
  | |- balanced (match ?x with _ => _ end) => destruct x
  end.

Lemma bal_common_prefixes l : balanced (EncodeCommonPrefixes l).
Proof. unfold EncodeCommonPrefixes. xml_balanced. Qed.
Lemma bal_owner o : balanced (EncodeOwnerIDThenDisplayName o).
Proof. unfold EncodeOwnerIDThenDisplayName. xml_balanced. Qed.
Lemma bal_owner' o : balanced (EncodeOwnerDisplayNameThenID o).
Proof. unfold EncodeOwnerDisplayNameThenID. xml_balanced. Qed.
Lemma bal_initiator o : balanced (EncodeInitiatorDisplayNameThenID o).
Proof. unfold EncodeInitiatorDisplayNameThenID. xml_balanced. Qed.
Lemma bal_restore r : balanced (EncodeRestoreStatus r).
Proof. unfold EncodeRestoreStatus. xml_balanced. Qed.
Lemma doc_error code msg : document (error_calls code msg).
Proof. unfold error_calls. xml_balanced. Qed.
Lemma doc_versioning s m : document (EncodeVersioningConfig s m).
Proof. unfold EncodeVersioningConfig. xml_balanced. Qed.
#[export] Hint Resolve bal_common_prefixes bal_owner bal_owner' bal_initiator bal_restore doc_error doc_versioning : s3xml.

(** A response whose body, if it is XML, is one well-formed element behind the
    XML declaration. *)
Definition well_formed (resp : Response) : Prop :=
  match resp_body resp with
  | XmlDoc prolog calls => document calls /\ (prolog = xmlDeclaration \/ prolog = xmlHeader)
  | _ => True
  end.

Lemma wf_error h s c m : well_formed (WriteError h s c m).
Proof. split; [apply doc_error | by left]. Qed.
Lemma wf_header h s : well_formed (WriteHeader h s).
Proof. done. Qed.
Lemma wf_xml h s calls : document calls -> well_formed (xml_response h s calls).
Proof. split; [done | by left]. Qed.
Lemma wf_tagging h s tags : well_formed (WriteTaggingResponse h s tags).
Proof. apply wf_xml. unfold WriteTaggingResponse. xml_balanced. Qed.
#[export] Hint Resolve wf_error wf_header wf_xml wf_tagging : s3xml.
