(* ===== verification/S3Http.v ===== *)
(** * S3 request parameters and upstream errors (src/internal/s3http)

    The parsers of request headers and query values that the handlers share, and
    the translation of an upstream failure into a response.  Errors carry the
    text of the Go error, because some handlers put it into their answer. *)

From S2P Require Import Prelude GoStrings Http S3Xml.

#[local] Open Scope Z_scope.

(** ** What the parsers take from elsewhere *)

(** Enumerations of the AWS SDK: the values its [Values] methods list, and the
    constants the code names. *)
Class SDK := {
  EncodingTypeUrl : gostring;
  RequestPayerRequester : gostring;
  OptionalObjectAttributesRestoreStatus : gostring;
  MetadataDirectiveReplace : gostring;
  MetadataDirectiveValues : list gostring;
  TaggingDirectiveValues : list gostring;
  StorageClassValues : list gostring;
  TransitionStorageClassValues : list gostring;
  BucketVersioningStatusValues : list gostring;
  MFADeleteValues : list gostring;
  ObjectOwnershipBucketOwnerEnforced : gostring;
  ObjectOwnershipACLs : list gostring;           (* BucketOwnerPreferred and ObjectWriter *)
  TransitionDefaultMinimumObjectSizeValues : list gostring
}.

(** Two functions of the Go library whose tables (Unicode, time zones) are not
    transcribed: [strconv.Quote], which only shapes messages, and
    [http.ParseTime]. *)
Class GoText := {
  Quote : gostring -> gostring;
  ParseHTTPTime : gostring -> option instant
}.

(** ** Path escapes *)

(** [url.PathUnescape]. *)
Fixpoint PathUnescape (s : gostring) : option gostring :=
  match s with
  | [] => Some []
  | c :: s' =>
    if decide (c = "%"%byte) then
      match s' with
      | h :: l :: s'' =>
        match hex_val h, hex_val l with
        | Some h, Some l => cons (zb (16 * h + l)) <$> PathUnescape s''
        | _, _ => None
        end
      | _ => None
      end
    else cons c <$> PathUnescape s'
  end.

(** ** Parsers *)

Inductive ChecksumAlgorithm := Crc32 | Crc32c | Crc64nvme | Sha1 | Sha256.
Inductive ChecksumType := FullObject | Composite.
#[global] Instance ChecksumAlgorithm_eq_dec : EqDecision ChecksumAlgorithm.
Proof. solve_decision. Defined.
#[global] Instance ChecksumType_eq_dec : EqDecision ChecksumType.
Proof. solve_decision. Defined.

Definition algorithm_name (a : ChecksumAlgorithm) : gostring :=
  match a with
  | Crc32 => str "CRC32" | Crc32c => str "CRC32C" | Crc64nvme => str "CRC64NVME" | Sha1 => str "SHA1"
  | Sha256 => str "SHA256"
  end.
Definition type_name (t : ChecksumType) : gostring :=
  match t with FullObject => str "FULL_OBJECT" | Composite => str "COMPOSITE" end.

(** At most one of the five values is set. *)
Record ChecksumWriteHeaders := {
  cw_algorithm : option ChecksumAlgorithm;
  cw_type : option ChecksumType;
  cw_value : ChecksumAlgorithm -> option gostring     (* the ChecksumCRC32 ... ChecksumSHA256 fields *)
}.
Definition algorithms : list ChecksumAlgorithm := [Crc32; Crc32c; Crc64nvme; Sha1; Sha256].
Definition HasValue (c : ChecksumWriteHeaders) : bool :=
  existsb (fun a => bool_decide (is_Some (cw_value c a))) algorithms.

Section Parsers.
Context {U : UnicodeCase} {MI : MapIter} {S : SDK} {G : GoText}.

(** The three shapes of an optional enumeration: one accepted value, a list of
    accepted values, and a switch on the upper-cased text. *)
Definition parse_one (value what v : gostring) : result gostring gostring :=
  let raw := TrimSpace v in
  if decide (raw = []) then Ok []
  else if EqualFold raw value then Ok value
  else Err (str "unsupported " ++ what ++ str " " ++ Quote raw).

Definition ParseEncodingType (v : gostring) : result gostring gostring := parse_one EncodingTypeUrl (str "encoding-type") v.
Definition ParseRequestPayerHeader (h : Header) : result gostring gostring :=
  parse_one RequestPayerRequester (str "request payer") (hget h (str "x-amz-request-payer")).

Definition parse_enum (values : list gostring) (what v : gostring) : result gostring gostring :=
  let raw := TrimSpace v in
  if decide (raw = []) then Ok []
  else
    match list_find (fun allowed => EqualFold raw allowed = true) values with
    | Some (_, allowed) => Ok allowed
    | None => Err (str "unsupported " ++ what ++ str " " ++ Quote raw)
    end.

Definition ParseMetadataDirective : gostring -> result gostring gostring :=
  parse_enum MetadataDirectiveValues (str "metadata directive").
Definition ParseTaggingDirective : gostring -> result gostring gostring :=
  parse_enum TaggingDirectiveValues (str "tagging directive").
Definition ParseStorageClass : gostring -> result gostring gostring :=
  parse_enum StorageClassValues (str "storage class").

(** One token of [ParseOptionalObjectAttributes]: the only attribute is RestoreStatus. *)
Definition add_optional_attribute (acc : result gostring (list gostring)) (token : gostring) : result gostring (list gostring) :=
  let! out := acc in
  let t := TrimSpace token in
  if decide (t = []) then Ok out
  else if decide (ToLower t = ToLower OptionalObjectAttributesRestoreStatus) then
    Ok (if decide (OptionalObjectAttributesRestoreStatus ∈ out) then out
        else out ++ [OptionalObjectAttributesRestoreStatus])
  else Err (str "unsupported optional object attribute " ++ Quote t).
Definition ParseOptionalObjectAttributes (v : gostring) : result gostring (list gostring) :=
  let raw := TrimSpace v in
  if decide (raw = []) then Ok []
  else
    let! out := fold_left add_optional_attribute (Split raw ","%byte) (Ok []) in
    if decide (out = []) then Err (str "no optional object attributes requested") else Ok out.

Definition ParseOptionalHTTPTime (v : gostring) : result gostring (option instant) :=
  let raw := TrimSpace v in
  if decide (raw = []) then Ok None
  else match ParseHTTPTime raw with
       | Some t => Ok (Some t)
       | None => Err (str "parsing time")
       end.

Definition ParseOptionalBool (v : gostring) : result gostring (option bool) :=
  let raw := TrimSpace v in
  if decide (raw = []) then Ok None
  else if decide (ToLower raw = str "true") then Ok (Some true)
  else if decide (ToLower raw = str "false") then Ok (Some false)
  else Err (str "invalid boolean " ++ Quote raw).

(** A trimmed header that is absent when blank. *)
Definition trimmed_header (h : Header) (name : gostring) : option gostring :=
  let v := TrimSpace (hget h name) in if decide (v = []) then None else Some v.

Record CopyConditions := {
  cc_ifMatch : option gostring; cc_ifNoneMatch : option gostring;
  cc_ifModifiedSince : option instant; cc_ifUnmodifiedSince : option instant
}.
Definition ParseCopySourceConditionalHeaders (h : Header) : result gostring CopyConditions :=
  let! modified := ParseOptionalHTTPTime (hget h (str "x-amz-copy-source-if-modified-since")) in
  let! unmodified := ParseOptionalHTTPTime (hget h (str "x-amz-copy-source-if-unmodified-since")) in
  Ok {| cc_ifMatch := trimmed_header h (str "x-amz-copy-source-if-match");
        cc_ifNoneMatch := trimmed_header h (str "x-amz-copy-source-if-none-match");
        cc_ifModifiedSince := modified; cc_ifUnmodifiedSince := unmodified |}.

Definition SourceBucketFromCopySource (copySource : gostring) : result gostring gostring :=
  let raw := TrimSpace copySource in
  if decide (raw = []) then Err (str "empty copy source")
  else
    let raw := match Cut raw "?"%byte with Some (p, _) => p | None => raw end in
    let raw := TrimPrefix raw (str "/") in
    if decide (raw = []) then Err (str "invalid copy source")
    else
      let bucketEnc := TrimSpace (default [] (head (SplitN2 raw "/"%byte))) in
      if decide (bucketEnc = []) then Err (str "invalid copy source bucket")
      else
        match PathUnescape bucketEnc with
        | None => Err (str "invalid URL escape")
        | Some bucket =>
          let bucket := TrimSpace bucket in
          if decide (bucket = []) then Err (str "invalid copy source bucket") else Ok bucket
        end.

Definition ParseChecksumAlgorithmHeader (v : gostring) : result gostring (option ChecksumAlgorithm) :=
  let raw := TrimSpace v in
  if decide (raw = []) then Ok None
  else
    match list_find (fun a => ToUpper raw = algorithm_name a) algorithms with
    | Some (_, a) => Ok (Some a)
    | None => Err (str "unsupported checksum algorithm " ++ Quote raw)
    end.

Definition ParseChecksumTypeHeader (v : gostring) : result gostring (option ChecksumType) :=
  let raw := TrimSpace v in
  if decide (ToUpper raw = []) then Ok None
  else
    match list_find (fun t => ToUpper raw = type_name t) [FullObject; Composite] with
    | Some (_, t) => Ok (Some t)
    | None => Err (str "unsupported checksum type " ++ Quote raw)
    end.

Definition value_header (a : ChecksumAlgorithm) : gostring :=
  str "x-amz-checksum-" ++
  match a with
  | Crc32 => str "crc32" | Crc32c => str "crc32c" | Crc64nvme => str "crc64nvme" | Sha1 => str "sha1" | Sha256 => str "sha256"
  end.

Definition set_value (c : ChecksumWriteHeaders) (a : ChecksumAlgorithm) (value : gostring) : ChecksumWriteHeaders :=
  {| cw_algorithm := cw_algorithm c; cw_type := cw_type c;
     cw_value := fun b => if decide (b = a) then Some value else cw_value c b |}.
Definition set_algorithm (c : ChecksumWriteHeaders) (a : option ChecksumAlgorithm) : ChecksumWriteHeaders :=
  {| cw_algorithm := a; cw_type := cw_type c; cw_value := cw_value c |}.
Definition set_type (c : ChecksumWriteHeaders) (t : option ChecksumType) : ChecksumWriteHeaders :=
  {| cw_algorithm := cw_algorithm c; cw_type := t; cw_value := cw_value c |}.

(** The loop's state: [out], [valueAlgorithm] and [seen]. *)
Definition checksum_state : Type := ChecksumWriteHeaders * option ChecksumAlgorithm * gset gostring.

Definition is_checksum_header (name : gostring) : bool :=
  HasPrefix name (str "x-amz-checksum-") || bool_decide (name = str "x-amz-sdk-checksum-algorithm").

(** One header of [ParseChecksumWriteHeaders]. *)
Definition checksum_header (acc : result gostring checksum_state) (nv : gostring * list gostring)
    : result gostring checksum_state :=
  let! ' (out, valueAlgorithm, seen) := acc in
  let name := ToLower nv.1 in
  if negb (is_checksum_header name) then Ok (out, valueAlgorithm, seen)
  else
    match nv.2 with
    | [v] =>
      if decide (name ∈ seen) then Err (name ++ str " must contain one nonempty value")
      else
        let value := TrimSpace v in
        if decide (value = []) then Err (name ++ str " must contain one nonempty value")
        else
          let seen := {[ name ]} ∪ seen in
          if decide (name = str "x-amz-checksum-algorithm" \/ name = str "x-amz-sdk-checksum-algorithm") then
            let! algorithm := ParseChecksumAlgorithmHeader value in
            if decide (cw_algorithm out <> None /\ cw_algorithm out <> algorithm)
            then Err (str "conflicting checksum algorithm headers")
            else Ok (set_algorithm out algorithm, valueAlgorithm, seen)
          else if decide (name = str "x-amz-checksum-type") then
            let! t := ParseChecksumTypeHeader value in Ok (set_type out t, valueAlgorithm, seen)
          else
            match list_find (fun a => name = value_header a) algorithms with
            | None => Err (str "unsupported checksum header " ++ Quote name)
            | Some (_, a) =>
              if HasValue out then Err (str "multiple checksum value headers are not allowed")
              else Ok (set_value out a value, Some a, seen)
            end
    | _ => Err (name ++ str " must contain one nonempty value")
    end.

(** One declared name of [checksumTrailerAlgorithm]. *)
Definition trailer_algorithm (acc : result gostring (option ChecksumAlgorithm)) (name0 : gostring)
    : result gostring (option ChecksumAlgorithm) :=
  let! selected := acc in
  let name := ToLower (TrimSpace name0) in
  if negb (HasPrefix name (str "x-amz-checksum-")) then Ok selected
  else
    match ParseChecksumAlgorithmHeader (TrimPrefix name (str "x-amz-checksum-")) with
    | Ok (Some algorithm) =>
      if decide (selected <> None /\ selected <> Some algorithm)
      then Err (str "multiple checksum trailer algorithms are not allowed")
      else Ok (Some algorithm)
    | _ => Err (str "unsupported checksum trailer " ++ Quote name)
    end.

Definition checksumTrailerAlgorithm (h : Header) : result gostring (option ChecksumAlgorithm) :=
  if decide (ToUpper (TrimSpace (hget h (str "x-amz-content-sha256"))) ∈
             [str "STREAMING-AWS4-HMAC-SHA256-PAYLOAD-TRAILER"; str "STREAMING-UNSIGNED-PAYLOAD-TRAILER"])
  then fold_left trailer_algorithm (flat_map (fun v => Split v ","%byte) (hvalues h (str "x-amz-trailer"))) (Ok None)
  else Ok None.

Definition no_checksum : ChecksumWriteHeaders := {| cw_algorithm := None; cw_type := None; cw_value := fun _ => None |}.

Definition ParseChecksumWriteHeaders (h : Header) : result gostring ChecksumWriteHeaders :=
  let! ' (out, valueAlgorithm, _) := fold_left checksum_header (map_iter h) (Ok (no_checksum, None, ∅)) in
  let! trailerAlgorithm := checksumTrailerAlgorithm h in
  let! out :=
    match trailerAlgorithm with
    | None => Ok out
    | Some t =>
      if decide (cw_algorithm out <> None /\ cw_algorithm out <> Some t)
      then Err (str "checksum trailer does not match the selected algorithm")
      else Ok (set_algorithm out (Some t))
    end in
  if decide (valueAlgorithm <> None /\ cw_algorithm out <> None /\ valueAlgorithm <> cw_algorithm out)
  then Err (str "checksum value header does not match the selected algorithm")
  else Ok out.

Definition ParseChecksumMode (v : gostring) : result gostring bool :=
  let raw := TrimSpace v in
  if decide (raw = []) then Ok false
  else if decide (ToUpper raw = str "ENABLED") then Ok true
  else Err (str "unsupported checksum mode " ++ Quote raw).

End Parsers.

(** ** Upstream errors (errors.go) *)

(** What [errors.As] finds in an error of the SDK: an API error with its code,
    message and whether the fault is the client's, and an HTTP response with its
    status and, when present, its headers. *)
Record UpstreamError := {
  ue_api : option (gostring * gostring * bool);
  ue_response : option (Z * option Header)
}.

Record upstreamErrorInfo := { info_status : Z; info_code : gostring; info_message : gostring; info_headers : Header }.

Definition hadd (h : Header) (name value : gostring) : Header :=
  <[CanonicalMIMEHeaderKey name := hvalues h name ++ [value]]> h.

Section Errors.
Context {U : UnicodeCase} {MI : MapIter}.

Definition forwarded_header (k : gostring) : bool :=
  let kl := ToLower k in HasPrefix kl (str "x-amz-") || bool_decide (kl = str "retry-after").

Definition forward_header (acc : Header) (kv : gostring * list gostring) : Header :=
  if forwarded_header kv.1 then fold_left (fun acc v => hadd acc kv.1 v) kv.2 acc else acc.

Definition extractUpstreamErrorInfo (err : UpstreamError) : upstreamErrorInfo :=
  let '(status, code, message) :=
    match ue_api err with
    | None => (502, str "BadGateway", str "Upstream error")
    | Some (c, m, clientFault) =>
      (if clientFault then 400 else 502,
       if decide (TrimSpace c = []) then str "BadGateway" else TrimSpace c,
       if decide (TrimSpace m = []) then str "Upstream error" else TrimSpace m)
    end in
  match ue_response err with
  | None => {| info_status := status; info_code := code; info_message := message; info_headers := ∅ |}
  | Some (sc, headers) =>
    {| info_status := if (300 <=? sc) && (sc <? 600) then sc else status;
       info_code := code; info_message := message;
       info_headers := match headers with Some h => fold_left forward_header (map_iter h) ∅ | None => ∅ end |}
  end.

Definition add_headers (h : Header) (more : Header) : Header :=
  fold_left (fun acc kv => fold_left (fun acc v => hadd acc kv.1 v) kv.2 acc) (map_iter more) h.

(** [h] are the headers already set on the response. *)
Definition WriteUpstreamError (h : Header) (err : UpstreamError) : Response :=
  let info := extractUpstreamErrorInfo err in
  let h := add_headers h (info_headers info) in
  if decide (info_status info = 304) then WriteHeader h 304
  else WriteError h (info_status info) (info_code info) (info_message info).

Definition WriteUpstreamHeadError (h : Header) (err : UpstreamError) : Response :=
  let info := extractUpstreamErrorInfo err in
  WriteHeader (add_headers h (info_headers info)) (info_status info).

Lemma wf_upstream_error h err : well_formed (WriteUpstreamError h err).
Proof. unfold WriteUpstreamError. destruct (decide _); auto with s3xml. Qed.
Lemma wf_upstream_head_error h err : well_formed (WriteUpstreamHeadError h err).
Proof. done. Qed.

End Errors.
#[export] Hint Resolve wf_upstream_error wf_upstream_head_error : s3xml.

(** ** Values to evaluate with *)

Definition sample_sdk : SDK := {|
  EncodingTypeUrl := str "url"; RequestPayerRequester := str "requester";
  OptionalObjectAttributesRestoreStatus := str "RestoreStatus"; MetadataDirectiveReplace := str "REPLACE";
  MetadataDirectiveValues := [str "COPY"; str "REPLACE"]; TaggingDirectiveValues := [str "COPY"; str "REPLACE"];
  StorageClassValues := [str "STANDARD"; str "GLACIER"]; TransitionStorageClassValues := [str "GLACIER"];
  BucketVersioningStatusValues := [str "Enabled"; str "Suspended"]; MFADeleteValues := [str "Enabled"; str "Disabled"];
  ObjectOwnershipBucketOwnerEnforced := str "BucketOwnerEnforced";
  ObjectOwnershipACLs := [str "BucketOwnerPreferred"; str "ObjectWriter"];
  TransitionDefaultMinimumObjectSizeValues := [str "varies_by_storage_class"] |}.
Definition sample_text : GoText := {| Quote s := x22 :: s ++ [x22]; ParseHTTPTime _ := None |}.
