(* ===== verification/XmlDecode.v ===== *)
(** * Reading S3 XML (src/internal/s3xml, and the request documents of server)

    The token stream of encoding/xml is an interface; on top of it the limits of
    [DecodeLimited], the decoding of elements into structs, and the request
    documents with the checks that keep unknown or duplicate content from being
    dropped.  A decoder either yields the document or fails; which error it
    fails with is not observable, the handlers answer all of them alike. *)

From S2P Require Import Prelude GoStrings Http S3Xml S3Http.

#[local] Open Scope Z_scope.

(** ** Tokens *)

Record XAttr := { xa_space : gostring; xa_local : gostring; xa_value : gostring }.

Inductive Token :=
| StartElement (space local : gostring) (attrs : list XAttr)
| EndElement
| CharData (s : gostring)
| Comment
| ProcInst
| Directive.

(** [xml.NewDecoder] with [Token] up to its first error: the tokens, with
    namespaces resolved, and whether that error is the end of a document whose
    elements are all closed. *)
Class XMLLexer := { lex : gostring -> list Token * bool }.

(** ** DecodeLimited (decode.go) *)

Record DecodeLimits := {
  MaxBodyBytes : Z; MaxDepth : Z; MaxElements : Z; MaxAttributes : Z; MaxAttributeBytes : Z;
  ElementLimits : gmap gostring Z; FieldByteLimits : gmap gostring Z
}.

Record limitedXMLField := { lf_bytes : Z; lf_maxBytes : Z }.
Record limitedXMLTokenReader := {
  lt_counts : gmap gostring Z; lt_fields : list limitedXMLField; lt_elements : Z; lt_attributes : Z
}.
Definition new_limited : limitedXMLTokenReader :=
  {| lt_counts := ∅; lt_fields := []; lt_elements := 0; lt_attributes := 0 |}.

Definition zlen {A} (l : list A) : Z := Z.of_nat (length l).

(** One open element of the fields stack takes more text. *)
Definition charge_field (n : Z) (f : limitedXMLField) : option limitedXMLField :=
  if lf_maxBytes f <=? 0 then Some f
  else if lf_maxBytes f - lf_bytes f <? n then None
  else Some {| lf_bytes := lf_bytes f + n; lf_maxBytes := lf_maxBytes f |}.

(** [limitedXMLTokenReader.Token]; [None] is a limit error. *)
Definition limit_token (limits : DecodeLimits) (r : limitedXMLTokenReader) (t : Token) : option limitedXMLTokenReader :=
  match t with
  | StartElement _ name attrs =>
    let elements := lt_elements r + 1 in
    if (0 <? MaxElements limits) && (MaxElements limits <? elements) then None
    else
      let max := default 0 (ElementLimits limits !! name) in
      let count := default 0 (lt_counts r !! name) + 1 in
      if (0 <? max) && (max <? count) then None
      else if (0 <? MaxAttributes limits) && (MaxAttributes limits - lt_attributes r <? zlen attrs) then None
      else if (0 <? MaxAttributeBytes limits) && existsb (fun a => MaxAttributeBytes limits <? zlen (xa_value a)) attrs then None
      else
        let fields := {| lf_bytes := 0; lf_maxBytes := default 0 (FieldByteLimits limits !! name) |} :: lt_fields r in
        if (0 <? MaxDepth limits) && (MaxDepth limits <? zlen fields) then None
        else Some {| lt_counts := if 0 <? max then <[name := count]> (lt_counts r) else lt_counts r;
                     lt_fields := fields; lt_elements := elements; lt_attributes := lt_attributes r + zlen attrs |}
  | CharData s =>
    fields ← mapM (charge_field (zlen s)) (lt_fields r);
    Some {| lt_counts := lt_counts r; lt_fields := fields; lt_elements := lt_elements r; lt_attributes := lt_attributes r |}
  | EndElement =>
    Some {| lt_counts := lt_counts r; lt_fields := tail (lt_fields r); lt_elements := lt_elements r;
            lt_attributes := lt_attributes r |}
  | _ => Some r
  end.

Fixpoint run_tokens {St} (step : St -> Token -> option St) (ts : list Token) (st : St) : option St :=
  match ts with
  | [] => Some st
  | t :: ts => st ← step st t; run_tokens step ts st
  end.

(** ** Elements *)

#[warnings="-register-all"]
Inductive Node :=
| NText (s : gostring)
| NElem (space local : gostring) (attrs : list XAttr) (kids : list Node).

(** An open element with the children read so far, last first. *)
Record Frame := { fr_space : gostring; fr_local : gostring; fr_attrs : list XAttr; fr_kids : list Node }.
Definition close_frame (f : Frame) : Node := NElem (fr_space f) (fr_local f) (fr_attrs f) (reverse (fr_kids f)).
Definition add_kid (f : Frame) (n : Node) : Frame :=
  {| fr_space := fr_space f; fr_local := fr_local f; fr_attrs := fr_attrs f; fr_kids := n :: fr_kids f |}.

(** The element whose opening tags are on the stack, and the tokens after it. *)
Fixpoint build (ts : list Token) (stack : list Frame) : option (Node * list Token) :=
  match ts with
  | [] => None
  | StartElement space local attrs :: ts =>
    build ts ({| fr_space := space; fr_local := local; fr_attrs := attrs; fr_kids := [] |} :: stack)
  | EndElement :: ts =>
    match stack with
    | [] => None
    | [f] => Some (close_frame f, ts)
    | f :: g :: stack => build ts (add_kid g (close_frame f) :: stack)
    end
  | CharData s :: ts =>
    match stack with
    | [] => build ts []
    | f :: stack => build ts (add_kid f (NText s) :: stack)
    end
  | _ :: ts => build ts stack
  end.

Definition is_start (t : Token) : bool := match t with StartElement _ _ _ => true | _ => false end.
Definition blank_text (s : gostring) : bool := bool_decide (TrimSpace s = []).

(** The tokens in front of the root, those of the root, and those behind it. *)
Definition split_document (ts : list Token) : option (list Token * list Token * Node * list Token) :=
  let body := drop_while (fun t => negb (is_start t)) ts in
  '(node, rest) ← build body [];
  Some (take (length ts - length body) ts, take (length body - length rest) body, node, rest).

(** What may follow the root element. *)
Definition trailing_ok (t : Token) : bool :=
  match t with CharData s => blank_text s | Comment | ProcInst => true | _ => false end.

Section Decode.
Context {U : UnicodeCase} {MI : MapIter} {S : SDK} {X : XMLLexer}.

(** [DecodeLimited]: [decode] is what decoding the root element yields, given
    the tokens in front of it, its own tokens, and the element. *)
Definition DecodeLimited {A} (limits : DecodeLimits) (decode : list Token -> list Token -> Node -> option A)
    (body : gostring) : option A :=
  if MaxBodyBytes limits <? zlen body then None
  else
    let '(ts, complete) := lex body in
    if negb complete then None
    else
      _ ← run_tokens (limit_token limits) ts new_limited;
      '(front, own, node, rest) ← split_document ts;
      a ← decode front own node;
      if forallb trailing_ok rest then Some a else None.

(** ** Fields of a struct *)

Definition node_local (n : Node) : gostring := match n with NText _ => [] | NElem _ l _ _ => l end.
Definition node_kids (n : Node) : list Node := match n with NText _ => [] | NElem _ _ _ k => k end.
Definition is_named (name : gostring) (n : Node) : bool :=
  match n with NText _ => false | NElem _ l _ _ => bool_decide (l = name) end.
Definition children (name : string) (n : Node) : list Node := List.filter (is_named (str name)) (node_kids n).
Definition node_text (n : Node) : gostring :=
  flat_map (fun k => match k with NText s => s | NElem _ _ _ _ => [] end) (node_kids n).

(** A [*string] field: the text of the last such child. *)
Definition string_field (name : string) (n : Node) : option gostring := node_text <$> last (children name n).
(** An integer or boolean field; an empty one is zero, [None] outside is a failure. *)
Definition int_text (bits : Z) (s : gostring) : option Z :=
  if decide (s = []) then Some 0 else ParseInt (TrimSpace s) 10 bits.
Definition ParseBool (s : gostring) : option bool :=
  if decide (s ∈ map str ["1"; "t"; "T"; "TRUE"; "true"; "True"]%string) then Some true
  else if decide (s ∈ map str ["0"; "f"; "F"; "FALSE"; "false"; "False"]%string) then Some false
  else None.
Definition bool_text (s : gostring) : option bool := if decide (s = []) then Some false else ParseBool (TrimSpace s).
(** Every occurrence is parsed, the last one stays. *)
Definition parsed_field {A} (parse : gostring -> option A) (name : string) (n : Node) : option (option A) :=
  last <$> mapM (fun k => parse (node_text k)) (children name n).

Definition require_name {A} (name : string) (n : Node) (k : option A) : option A :=
  if decide (node_local n = str name) then k else None.

Definition limit_table (l : list (string * Z)) : gmap gostring Z :=
  fold_left (fun m '(k, v) => <[str k := v]> m) l ∅.

(** ** Bucket versioning (bucket.go) *)

Record VersioningConfiguration := { vc_Status : gostring; vc_MFADelete : gostring }.

Definition versioningDecodeLimits : DecodeLimits := {|
  MaxBodyBytes := 16 * 1024; MaxDepth := 4; MaxElements := 16; MaxAttributes := 4; MaxAttributeBytes := 2048;
  ElementLimits := limit_table [("VersioningConfiguration", 1); ("Status", 1); ("MfaDelete", 1)];
  FieldByteLimits := limit_table [("Status", 32); ("MfaDelete", 32)] |}.

(** An optional enumeration of the document. *)
Definition enum_field (allowed : list gostring) (v : option gostring) : option gostring :=
  match v with
  | None => Some []
  | Some v =>
    let raw := TrimSpace v in
    if decide (raw = []) then Some []
    else snd <$> list_find (fun a => EqualFold raw a = true) allowed
  end.

Definition DecodeVersioningConfig : gostring -> option VersioningConfiguration :=
  DecodeLimited versioningDecodeLimits (fun _ _ n =>
    require_name "VersioningConfiguration" n (
      status ← enum_field BucketVersioningStatusValues (string_field "Status" n);
      mfa ← enum_field MFADeleteValues (string_field "MfaDelete" n);
      Some {| vc_Status := status; vc_MFADelete := mfa |})).

(** ** Tagging (bucket.go) *)

Definition taggingLimits (maxBodyBytes maxTags : Z) : DecodeLimits := {|
  MaxBodyBytes := maxBodyBytes; MaxDepth := 6; MaxElements := 4 + 3 * maxTags; MaxAttributes := 4; MaxAttributeBytes := 2048;
  ElementLimits := limit_table [("Tagging", 1); ("TagSet", 1); ("Tag", maxTags); ("Key", maxTags); ("Value", maxTags)];
  FieldByteLimits := limit_table [("Key", 128 * 4); ("Value", 256 * 4)] |}.

Definition decode_tag (n : Node) : option Tag :=
  key ← string_field "Key" n;
  value ← string_field "Value" n;
  if (128 <? RuneCount key) || (256 <? RuneCount value) then None
  else Some {| tag_Key := Some key; tag_Value := Some value |}.

Definition decodeTagging (maxBodyBytes maxTags : Z) : gostring -> option (list Tag) :=
  DecodeLimited (taggingLimits maxBodyBytes maxTags) (fun _ _ n =>
    require_name "Tagging" n (
      let tags := flat_map (children "Tag") (children "TagSet" n) in
      if maxTags <? zlen tags then None else mapM decode_tag tags)).
Definition DecodeObjectTagging : gostring -> option (list Tag) := decodeTagging (64 * 1024) 10.
Definition DecodeBucketTagging : gostring -> option (list Tag) := decodeTagging (256 * 1024) 50.

(** ** Bucket creation (create_bucket.go) *)

Definition createBucketLimits : DecodeLimits := {|
  MaxBodyBytes := 16 * 1024; MaxDepth := 2; MaxElements := 2; MaxAttributes := 4; MaxAttributeBytes := 2048;
  ElementLimits := limit_table [("CreateBucketConfiguration", 1); ("LocationConstraint", 1)];
  FieldByteLimits := limit_table [("LocationConstraint", 256)] |}.

Definition validateCreateBucketElement (space : gostring) (attrs : list XAttr) : bool :=
  (bool_decide (space = []) || bool_decide (space = s3XMLNamespace)) &&
  forallb (fun a => bool_decide (xa_local a = str "xmlns" /\ xa_space a = []) || bool_decide (xa_space a = str "xmlns")) attrs.

(** [validateCreateBucketProlog]: no text and no directive before the root. *)
Definition validateCreateBucketProlog (front : list Token) : bool := forallb trailing_ok front.

(** The loop of [createBucketConfigXML.UnmarshalXML] behind the root's start:
    whether a location is open and whether one was seen, and its text. *)
Definition create_bucket_token (st : bool * bool * gostring) (t : Token) : option (bool * bool * gostring) :=
  let '(inLocation, seenLocation, location) := st in
  match t with
  | StartElement space name attrs =>
    if inLocation || bool_decide (name <> str "LocationConstraint") || seenLocation ||
       negb (validateCreateBucketElement space attrs)
    then None else Some (true, true, location)
  | EndElement => Some (false, seenLocation, location)
  | CharData s => if inLocation then Some (inLocation, seenLocation, location ++ s)
                  else if blank_text s then Some st else None
  | Comment | ProcInst => Some st
  | Directive => None
  end.

(** An empty body is no configuration. *)
Definition DecodeCreateBucketConfig (body : gostring) : option (option gostring) :=
  if decide (body = []) then Some None
  else
    Some <$> DecodeLimited createBucketLimits (fun front own n =>
      if negb (validateCreateBucketProlog front) then None
      else
        match own with
        | StartElement space name attrs :: inner =>
          if bool_decide (name <> str "CreateBucketConfiguration") || negb (validateCreateBucketElement space attrs) then None
          else '(_, _, location) ← run_tokens create_bucket_token inner (false, false, []); Some location
        | _ => None
        end) body.

(** ** DeleteObjects (handlers_object.go) *)

Record deleteObjectReqItem := { do_Key : option gostring; do_VersionID : option gostring; do_ETag : option gostring }.
Record deleteObjectsReq := { dr_Objects : list deleteObjectReqItem; dr_Quiet : option bool }.

Definition maxDeleteObjects : Z := 1000.
Definition deleteObjectsDecodeLimits : DecodeLimits := {|
  MaxBodyBytes := 4 * 1024 * 1024; MaxDepth := 8; MaxElements := 5000; MaxAttributes := 16; MaxAttributeBytes := 2048;
  ElementLimits := limit_table [("Object", maxDeleteObjects); ("Key", maxDeleteObjects); ("VersionId", maxDeleteObjects);
                                ("ETag", maxDeleteObjects); ("Quiet", 1)];
  FieldByteLimits := limit_table [("Key", 1024); ("VersionId", 1024); ("ETag", 256); ("Quiet", 8)] |}.

Record guardElement := { ge_name : gostring; ge_seen : gset gostring; ge_hasValue : bool }.
Definition open_element (name : gostring) : guardElement := {| ge_name := name; ge_seen := ∅; ge_hasValue := false |}.
Definition see (name : gostring) (e : guardElement) : guardElement :=
  {| ge_name := ge_name e; ge_seen := {[ name ]} ∪ ge_seen e; ge_hasValue := ge_hasValue e |}.
Definition with_value (e : guardElement) : guardElement :=
  {| ge_name := ge_name e; ge_seen := ge_seen e; ge_hasValue := true |}.

Definition delete_child_allowed (parent name : gostring) : bool :=
  (bool_decide (parent = str "Delete") && bool_decide (name ∈ [str "Object"; str "Quiet"])) ||
  (bool_decide (parent = str "Object") && bool_decide (name ∈ [str "Key"; str "ETag"; str "VersionId"])).

(** [deleteObjectsTokenReader.Token], on the stack of open elements. *)
Definition delete_token (elements : list guardElement) (t : Token) : option (list guardElement) :=
  match t with
  | StartElement _ name _ =>
    if bool_decide (name ∈ [str "Size"; str "LastModifiedTime"]) then None
    else
      match elements with
      | [] => Some [open_element name]
      | parent :: up =>
        if negb (delete_child_allowed (ge_name parent) name) then None
        else if bool_decide (name ∈ ge_seen parent) && bool_decide (name <> str "Object") then None
        else Some (open_element name :: see name parent :: up)
      end
  | CharData s =>
    match elements with
    | [] => Some []
    | current :: up =>
      if blank_text s then Some elements
      else if bool_decide (ge_name current ∈ [str "Delete"; str "Object"]) then None
      else Some (with_value current :: up)
    end
  | EndElement =>
    match elements with
    | [] => Some []
    | current :: up =>
      if bool_decide (ge_name current ∈ [str "ETag"; str "VersionId"]) && negb (ge_hasValue current) then None else Some up
    end
  | _ => Some elements
  end.

Definition decode_delete_item (n : Node) : deleteObjectReqItem :=
  {| do_Key := string_field "Key" n; do_VersionID := string_field "VersionId" n; do_ETag := string_field "ETag" n |}.

Definition decodeDeleteObjectsRequest : gostring -> option deleteObjectsReq :=
  DecodeLimited deleteObjectsDecodeLimits (fun _ own n =>
    _ ← run_tokens delete_token own [];
    require_name "Delete" n (
      quiet ← parsed_field bool_text "Quiet" n;
      Some {| dr_Objects := map decode_delete_item (children "Object" n); dr_Quiet := quiet |})).

(** ** Completing a multipart upload (handlers_multipart.go, handlers_multipart_xml.go) *)

Record completePart := {
  cp_PartNumber : Z; cp_ETag : gostring; cp_checksum : ChecksumAlgorithm -> option gostring
}.

Definition maxCompleteMultipartParts : Z := 10000.
Definition completeMultipartDecodeLimits : DecodeLimits := {|
  MaxBodyBytes := 4 * 1024 * 1024; MaxDepth := 8; MaxElements := 8 * maxCompleteMultipartParts + 1; MaxAttributes := 16;
  MaxAttributeBytes := 2048;
  ElementLimits := limit_table (map (fun n => (n, maxCompleteMultipartParts))
    ["Part"; "PartNumber"; "ETag"; "ChecksumCRC32"; "ChecksumCRC32C"; "ChecksumCRC64NVME"; "ChecksumSHA1"; "ChecksumSHA256"]%string);
  FieldByteLimits := limit_table [("PartNumber", 16); ("ETag", 256); ("ChecksumCRC32", 256); ("ChecksumCRC32C", 256);
    ("ChecksumCRC64NVME", 256); ("ChecksumSHA1", 256); ("ChecksumSHA256", 256)] |}.

Definition checksum_element (a : ChecksumAlgorithm) : string :=
  match a with
  | Crc32 => "ChecksumCRC32" | Crc32c => "ChecksumCRC32C" | Crc64nvme => "ChecksumCRC64NVME" | Sha1 => "ChecksumSHA1"
  | Sha256 => "ChecksumSHA256"
  end.

(** Child elements beside the known fields are refused. *)
Definition only_children (names : list string) (n : Node) : bool :=
  forallb (fun k => match k with NText _ => true | NElem _ l _ _ => bool_decide (l ∈ map str names) end) (node_kids n).

(** [decodeCompleteMultipartText]. *)
Definition decodeCompleteMultipartText (n : Node) : option gostring :=
  if negb (only_children [] n) then None
  else if blank_text (node_text n) then None else Some (node_text n).

Definition multipart_number (n : Node) : option Z := v ← decodeCompleteMultipartText n; ParseInt (TrimSpace v) 10 32.
(** A checksum may occur once. *)
Definition multipart_checksum (n : Node) (a : ChecksumAlgorithm) : option (option gostring) :=
  match children (checksum_element a) n with
  | [] => Some None
  | [k] => Some <$> decodeCompleteMultipartText k
  | _ => None
  end.

Definition checksum_of (l : list (ChecksumAlgorithm * option gostring)) (a : ChecksumAlgorithm) : option gostring :=
  match list_find (fun x : ChecksumAlgorithm * option gostring => x.1 = a) l with
  | Some (_, (_, v)) => v
  | None => None
  end.

Definition decode_part (n : Node) : option completePart :=
  if negb (only_children ("PartNumber" :: "ETag" :: map checksum_element algorithms)%string n) then None
  else
    numbers ← mapM multipart_number (children "PartNumber" n);
    etags ← mapM decodeCompleteMultipartText (children "ETag" n);
    checksums ← mapM (multipart_checksum n) algorithms;
    Some {| cp_PartNumber := default 0 (last numbers); cp_ETag := default [] (last etags);
            cp_checksum := checksum_of (zip algorithms checksums) |}.

Definition decodeCompleteMultipartUpload : gostring -> option (list completePart) :=
  DecodeLimited completeMultipartDecodeLimits (fun _ _ n =>
    require_name "CompleteMultipartUpload" n (
      if negb (only_children ["Part"]%string n) then None else mapM decode_part (children "Part" n))).

End Decode.

(** ** A lexer to evaluate with: tags and text, no attributes or entities *)

Fixpoint plain_tokens (fuel : nat) (s : gostring) (depth : nat) : list Token * bool :=
  match fuel, s with
  | O, _ => ([], false)
  | _, [] => ([], bool_decide (depth = 0%nat))
  | Datatypes.S fuel, c :: s' =>
    if decide (c = "<"%byte) then
      match Cut s' ">"%byte, depth with
      | Some ("/"%byte :: _, rest), Datatypes.S depth =>
        let '(ts, ok) := plain_tokens fuel rest depth in (EndElement :: ts, ok)
      | Some (name, rest), _ =>
        let '(ts, ok) := plain_tokens fuel rest (Datatypes.S depth) in (StartElement [] name [] :: ts, ok)
      | None, _ => ([], false)
      end
    else
      let text := match Cut s "<"%byte with Some (text, _) => text | None => s end in
      let '(ts, ok) := plain_tokens fuel (drop (length text) s) depth in (CharData text :: ts, ok)
  end.
Definition plain_lexer : XMLLexer := {| lex s := plain_tokens (Datatypes.S (length s)) s 0 |}.
