(* ===== verification/XmlBody.v ===== *)
(** * Bodies of XML requests (src/internal/server/handlers_xml.go,
    handlers_xml_checksums.go, handlers_delete_objects_checksum.go)

    A configuration document is decoded only if the octets it was read from
    agree with everything the request claims about them: the digest its
    signature covers, the Content-MD5 header and the checksum header. *)

From S2P Require Import Prelude GoStrings Crypto Credentials Http SigV4 Stream S3Xml S3Http XmlDecode.

#[local] Open Scope Z_scope.

(** ** MD5 *)

Definition le_value (s : gostring) : Z := be_value (reverse s).
Definition le_bytes (n : nat) (z : Z) : gostring := reverse (be_bytes n z).

(** floor (2^32 * |sin (i + 1)|), four constants to a row. *)
Definition md5_K : list Z := [
  0xd76aa478; 0xe8c7b756; 0x242070db; 0xc1bdceee; 0xf57c0faf; 0x4787c62a; 0xa8304613; 0xfd469501;
  0x698098d8; 0x8b44f7af; 0xffff5bb1; 0x895cd7be; 0x6b901122; 0xfd987193; 0xa679438e; 0x49b40821;
  0xf61e2562; 0xc040b340; 0x265e5a51; 0xe9b6c7aa; 0xd62f105d; 0x02441453; 0xd8a1e681; 0xe7d3fbc8;
  0x21e1cde6; 0xc33707d6; 0xf4d50d87; 0x455a14ed; 0xa9e3e905; 0xfcefa3f8; 0x676f02d9; 0x8d2a4c8a;
  0xfffa3942; 0x8771f681; 0x6d9d6122; 0xfde5380c; 0xa4beea44; 0x4bdecfa9; 0xf6bb4b60; 0xbebfbc70;
  0x289b7ec6; 0xeaa127fa; 0xd4ef3085; 0x04881d05; 0xd9d4d039; 0xe6db99e5; 0x1fa27cf8; 0xc4ac5665;
  0xf4292244; 0x432aff97; 0xab9423a7; 0xfc93a039; 0x655b59c3; 0x8f0ccc92; 0xffeff47d; 0x85845dd1;
  0x6fa87e4f; 0xfe2ce6e0; 0xa3014314; 0x4e0811a1; 0xf7537e82; 0xbd3af235; 0x2ad7d2bb; 0xeb86d391].
Definition md5_shift (i : nat) : Z :=
  nth (i mod 4) (match (i / 16)%nat with
                 | 0%nat => [7; 12; 17; 22] | 1%nat => [5; 9; 14; 20] | 2%nat => [4; 11; 16; 23] | _ => [6; 10; 15; 21]
                 end) 0.
Definition md5_index (i : nat) : nat :=
  match (i / 16)%nat with
  | 0%nat => i | 1%nat => (5 * i + 1) mod 16 | 2%nat => (3 * i + 5) mod 16 | _ => (7 * i) mod 16
  end.
Definition md5_mix (i : nat) (b c d : Z) : Z :=
  match (i / 16)%nat with
  | 0%nat => Z.lor (Z.land b c) (Z.land (word32 (Z.lnot b)) d)
  | 1%nat => Z.lor (Z.land d b) (Z.land (word32 (Z.lnot d)) c)
  | 2%nat => Z.lxor b (Z.lxor c d)
  | _ => Z.lxor c (Z.lor b (word32 (Z.lnot d)))
  end.
Definition md5_step (m : list Z) (st : Z * Z * Z * Z) (i : nat) : Z * Z * Z * Z :=
  let '(a, b, c, d) := st in
  let f := add32 (add32 (md5_mix i b c d) a) (add32 (nth i md5_K 0) (nth (md5_index i) m 0)) in
  (d, add32 b (rotl32 (md5_shift i) f), b, c).
Definition md5_block (st : Z * Z * Z * Z) (block : gostring) : Z * Z * Z * Z :=
  let '(a, b, c, d) := st in
  let '(a', b', c', d') := fold_left (md5_step (map le_value (blocks 16 4 block))) (seq 0 64) st in
  (add32 a a', add32 b b', add32 c c', add32 d d').
Definition md5_pad (s : gostring) : gostring :=
  let n := length s in
  let zeros := ((119 - n mod 64) mod 64)%nat in
  s ++ x80 :: replicate zeros x00 ++ le_bytes 8 (8 * Z.of_nat n).
Definition md5 (s : gostring) : gostring :=
  let p := md5_pad s in
  let '(a, b, c, d) := fold_left md5_block (blocks (length p / 64) 64 p) (0x67452301, 0xefcdab89, 0x98badcfe, 0x10325476) in
  le_bytes 4 a ++ le_bytes 4 b ++ le_bytes 4 c ++ le_bytes 4 d.

Example md5_vectors :
  (hex_encode (md5 []), hex_encode (md5 (str "abc")),
   hex_encode (md5 (str "12345678901234567890123456789012345678901234567890123456789012345678901234567890"))) =
  (str "d41d8cd98f00b204e9800998ecf8427e", str "900150983cd24fb0d6963f7d28e17f72", str "57edf4a22be3c955ac49da2e2107b67a").
Proof. vm_compute. reflexivity. Qed.

(** ** Declared digests *)

(** [base64.StdEncoding.Strict().DecodeString]: trailing bits must be zero. *)
Definition base64_strict (s : gostring) : option gostring :=
  d ← base64_decode s;
  if decide (base64_encode d = filter (fun b => b <> x0a /\ b <> x0d) s) then Some d else None.
Definition EncodedLen (n : nat) : nat := ((n + 2) / 3 * 4)%nat.

Definition checksum_hash (a : ChecksumAlgorithm) : gostring -> gostring :=
  match a with
  | Crc32 => crc32_ieee | Crc32c => crc32_castagnoli | Crc64nvme => crc64_nvme | Sha1 => sha1 | Sha256 => sha256
  end.
Definition digest_size (a : ChecksumAlgorithm) : nat :=
  match a with Crc32 => 4 | Crc32c => 4 | Crc64nvme => 8 | Sha1 => 20 | Sha256 => 32 end.

(** An error response: status 400 with its code and message. *)
Abbreviation Reject := (gostring * gostring)%type.

(** A digest of [size] octets in one header value, or the rejection of the value. *)
Definition parse_digest (size : nat) (v : gostring) : result Reject gostring :=
  let value := TrimSpace v in
  if negb (length value =? EncodedLen size)%nat then Err (str "InvalidDigest", str "Invalid checksum digest length")
  else
    match base64_strict value with
    | Some d => if (length d =? size)%nat then Ok d
                else Err (str "InvalidDigest", str "Invalid base64-encoded checksum digest")
    | None => Err (str "InvalidDigest", str "Invalid base64-encoded checksum digest")
    end.

Section Bodies.
Context {U : UnicodeCase} {MI : MapIter} {S : SDK} {G : GoText}.

Definition hash_of_header (name : gostring) : option ChecksumAlgorithm :=
  snd <$> list_find (fun a => name = value_header a) algorithms.

(** ** Checksums of configuration documents (handlers_xml_checksums.go) *)

Definition rejectXMLRequestTrailers (h trailer : Header) : result Reject unit :=
  rguard (negb (negb (bool_decide (trailer = ∅)) ||
                existsb (fun nv : gostring * list gostring => EqualFold nv.1 (str "Trailer") || EqualFold nv.1 (str "x-amz-trailer")) (map_iter h)))
    (str "InvalidRequest", str "Trailers are not supported for XML configuration writes; provide checksum headers").

(** The loop's state: the checksum found, the algorithm selectors, the names seen. *)
Definition xml_checksum_state : Type := option (ChecksumAlgorithm * gostring) * list gostring * gset gostring.

Definition xml_checksum_header (acc : result Reject xml_checksum_state) (nv : gostring * list gostring)
    : result Reject xml_checksum_state :=
  let! ' (checksum, selectors, seen) := acc in
  let name := ToLower nv.1 in
  if negb (is_checksum_header name) then Ok (checksum, selectors, seen)
  else if decide (name = str "x-amz-checksum-algorithm" \/ name = str "x-amz-sdk-checksum-algorithm") then
    match nv.2 with
    | [v] =>
      if decide (name ∈ seen \/ TrimSpace v = [])
      then Err (str "InvalidRequest", str "Checksum algorithm headers must contain one nonempty value")
      else Ok (checksum, selectors ++ [TrimSpace v], {[ name ]} ∪ seen)
    | _ => Err (str "InvalidRequest", str "Checksum algorithm headers must contain one nonempty value")
    end
  else
    match hash_of_header name with
    | None => Err (str "InvalidRequest", str "Unsupported checksum header for XML configuration writes")
    | Some a =>
      match nv.2 with
      | [v] =>
        if decide (name ∈ seen) then Err (str "InvalidDigest", str "Checksum headers must contain one base64-encoded digest")
        else if decide (checksum <> None) then Err (str "InvalidRequest", str "Multiple checksum value headers are not supported")
        else let! d := parse_digest (digest_size a) v in Ok (Some (a, d), selectors, {[ name ]} ∪ seen)
      | _ => Err (str "InvalidDigest", str "Checksum headers must contain one base64-encoded digest")
      end
    end.

Definition selector_ok (s : gostring) : bool := match ParseChecksumAlgorithmHeader s with Ok _ => true | Err _ => false end.

Definition parseXMLRequestChecksum (h : Header) : result Reject (option (ChecksumAlgorithm * gostring)) :=
  let! ' (checksum, selectors, _) := fold_left xml_checksum_header (map_iter h) (Ok (None, [], ∅)) in
  match checksum with
  | Some c => Ok (Some c)
  | None =>
    require! forallb selector_ok selectors
      else (str "InvalidRequest", str "Unsupported checksum algorithm for XML configuration writes") in
    require! bool_decide (selectors = [])
      else (str "InvalidRequest", str "Checksum algorithm selection requires a checksum value") in
    Ok None
  end.

(** ** Reading a body *)

(** What the octets of a request body are once it has been read to its end;
    [None] when reading fails, in the transport ([clean] is false) or because a
    digest in front of the body does not match. *)
Fixpoint read_body (clean : bool) (b : ReqBody) : option gostring :=
  match b with
  | NoBody => Some []
  | RawBody o => if clean then Some o else None
  | HashedBody inner digest =>
    o ← read_body clean inner; if decide (sha256 o = digest) then Some o else None
  end.

(** [decodeXMLWithContentMD5]; [body] is what reading the body yields. *)
Definition decodeXMLWithContentMD5 {A : Type} (h : Header) (body : option gostring) (decode : gostring -> option A)
    (malformed : gostring) : result Reject A :=
  let invalid := (str "InvalidDigest", str "Content-MD5 must contain one base64-encoded MD5 digest") in
  let! expected :=
    match hvalues h (str "Content-MD5") with
    | [] => Ok None
    | [v] =>
      let value := TrimSpace v in
      match (if (length value =? EncodedLen 16)%nat then base64_strict value else None) with
      | Some d => if (length d =? 16)%nat then Ok (Some d) else Err invalid
      | None => Err invalid
      end
    | _ => Err invalid
    end in
  match body ≫= (fun o => decoded ← decode o; Some (o, decoded)) with
  | None => Err (str "MalformedXML", malformed)
  | Some (o, decoded) =>
    match expected with
    | Some d => if decide (md5 o = d) then Ok decoded
                else Err (str "BadDigest", str "The Content-MD5 digest does not match the request body")
    | None => Ok decoded
    end
  end.

Definition checksum_matches (checksum : option (ChecksumAlgorithm * gostring)) (body : option gostring) : bool :=
  match checksum with
  | None => true
  | Some (a, expected) => bool_decide (checksum_hash a <$> body = Some expected)
  end.
Definition bad_checksum : Reject := (str "BadDigest", str "The checksum does not match the request body").

(** [decodeXMLWithChecksums]: the trailers are looked at before and after the
    body is read. *)
Definition decodeXMLWithChecksums {A : Type} (h trailer lateTrailer : Header) (body : option gostring)
    (decode : gostring -> option A) (malformed : gostring) : result Reject A :=
  let! _ := rejectXMLRequestTrailers h trailer in
  let! checksum := parseXMLRequestChecksum h in
  let! decoded := decodeXMLWithContentMD5 h body decode malformed in
  let! _ := rejectXMLRequestTrailers h lateTrailer in
  require! checksum_matches checksum body else bad_checksum in
  Ok decoded.

(** ** DeleteObjects (handlers_delete_objects_checksum.go) *)

Definition rejectDeleteObjectsTrailers (h trailer : Header) : result Reject unit :=
  rguard (bool_decide (trailer = ∅ /\ hvalues h (str "Trailer") = [] /\ hvalues h (str "x-amz-trailer") = []))
    (str "InvalidRequest", str "Trailers are not supported for DeleteObjects; provide checksum headers").

Definition delete_checksum_header (acc : result Reject (option (ChecksumAlgorithm * gostring))) (nv : gostring * list gostring)
    : result Reject (option (ChecksumAlgorithm * gostring)) :=
  let! checksum := acc in
  let name := ToLower nv.1 in
  if negb (HasPrefix name (str "x-amz-checksum-")) || bool_decide (name = str "x-amz-checksum-algorithm") then Ok checksum
  else
    match hash_of_header name with
    | None => Err (str "InvalidRequest", str "Unsupported checksum header for DeleteObjects")
    | Some a =>
      if decide (checksum <> None) then Err (str "InvalidRequest", str "Multiple checksum value headers are not supported")
      else
        match nv.2 with
        | [v] => let! d := parse_digest (digest_size a) v in Ok (Some (a, d))
        | _ => Err (str "InvalidDigest", str "Checksum headers must contain one base64-encoded digest")
        end
    end.

Definition one_selector (h : Header) (name : gostring) : bool :=
  match hvalues h name with [] => true | [v] => negb (blank_text v) | _ => false end.

Definition parseDeleteObjectsChecksum (h : Header) : result Reject (option (ChecksumAlgorithm * gostring)) :=
  require! one_selector h (str "x-amz-checksum-algorithm") && one_selector h (str "x-amz-sdk-checksum-algorithm")
    else (str "InvalidRequest", str "Checksum algorithm headers must contain one supported algorithm") in
  let! checksum := fold_left delete_checksum_header (map_iter h) (Ok None) in
  match ParseChecksumWriteHeaders h with
  | Err _ => Err (str "InvalidRequest", str "Invalid or conflicting checksum algorithm selection")
  | Ok selection =>
    require! negb (bool_decide (cw_algorithm selection <> None /\ checksum = None))
      else (str "InvalidRequest", str "Checksum algorithm selection requires a matching checksum value") in
    Ok checksum
  end.

Definition decodeDeleteObjectsWithChecksums {X : XMLLexer} (h trailer lateTrailer : Header) (body : option gostring)
    : result Reject deleteObjectsReq :=
  let! _ := rejectDeleteObjectsTrailers h trailer in
  let! checksum := parseDeleteObjectsChecksum h in
  let! decoded := decodeXMLWithContentMD5 h body decodeDeleteObjectsRequest (str "Invalid DeleteObjects payload") in
  let! _ := rejectDeleteObjectsTrailers h lateTrailer in
  require! checksum_matches checksum body else bad_checksum in
  Ok decoded.

End Bodies.
