(* ===== verification/Lifecycle.v ===== *)
(** * Lifecycle configurations (src/internal/server/handlers_lifecycle.go,
    handlers_lifecycle_xml.go)

    The request document, its validation into SDK rules, and the encoding of SDK
    rules into a response document. *)

From S2P Require Import Prelude GoStrings Http SigV4 S3Xml S3Http XmlDecode.

#[local] Open Scope Z_scope.

(** ** Dates: the four layouts of [parseLifecycleDate] *)

(** [2006-01-02] at the head of a value. *)
Definition parse_date_part (s : gostring) : option ((Z * Z * Z) * gostring) :=
  '(y, s) ← parse_year s;
  s ← skip s "-"%byte;
  '(m, s) ← getnum s true;
  if (m <=? 0) || (12 <? m) then None else
  s ← skip s "-"%byte;
  '(d, s) ← getnum s true;
  Some ((y, m, d), s).

(** [T15:04:05] behind it; the hour may have one digit. *)
Definition parse_clock_part (s : gostring) : option ((Z * Z * Z) * gostring) :=
  s ← skip s "T"%byte;
  '(h, s) ← getnum s false;
  if 24 <=? h then None else
  s ← skip s ":"%byte;
  '(mi, s) ← getnum s true;
  if 60 <=? mi then None else
  s ← skip s ":"%byte;
  '(sec, s) ← getnum s true;
  if 60 <=? sec then None else Some ((h, mi, sec), s).

(** [Z07:00]: the offset in seconds. *)
Definition parse_zone (s : gostring) : option (Z * gostring) :=
  match s with
  | c :: s' =>
    if decide (c = "Z"%byte) then Some (0, s')
    else
      '(h, s1) ← getnum s' true;
      s2 ← skip s1 ":"%byte;
      '(m, s3) ← getnum s2 true;
      if (24 <? h) || (60 <? m) then None
      else if decide (c = "+"%byte) then Some ((h * 60 + m) * 60, s3)
      else if decide (c = "-"%byte) then Some (- ((h * 60 + m) * 60), s3)
      else None
  | [] => None
  end.

Definition finish_date (ymd hms : Z * Z * Z) (ns offset : Z) (rest : gostring) : option instant :=
  let '(y, m, d) := ymd in let '(h, mi, sec) := hms in
  if bool_decide (rest <> []) || (d <? 1) || (days_in m y <? d) then None
  else Some (unix_nanos {| year := y; month := m; day := d; hour := h; minute := mi; second := sec; nsec := ns |}
             - offset * 1000000000).

(** [time.RFC3339Nano]; a fraction of a second is optional. *)
Definition parse_rfc3339nano (s : gostring) : option instant :=
  '(ymd, s) ← parse_date_part s;
  '(hms, s) ← parse_clock_part s;
  let '(ns, s) := parse_fraction s in
  '(offset, s) ← parse_zone s;
  finish_date ymd hms ns offset s.

(** [2006-01-02T15:04:05.000Z]: exactly three digits. *)
Definition parse_millis (s : gostring) : option instant :=
  '(ymd, s) ← parse_date_part s;
  '(hms, s) ← parse_clock_part s;
  match s with
  | p :: a :: b :: c :: s =>
    if bool_decide (p = "."%byte \/ p = ","%byte) && is_digit a && is_digit b && is_digit c then
      s ← skip s "Z"%byte;
      finish_date ymd hms ((100 * digit a + 10 * digit b + digit c) * 1000000) 0 s
    else None
  | _ => None
  end.

(** [2006-01-02T15:04:05Z]; a fraction the layout does not mention is accepted. *)
Definition parse_seconds (s : gostring) : option instant :=
  '(ymd, s) ← parse_date_part s;
  '(hms, s) ← parse_clock_part s;
  let '(ns, s) := parse_fraction s in
  s ← skip s "Z"%byte;
  finish_date ymd hms ns 0 s.

Definition parse_day (s : gostring) : option instant :=
  '(ymd, s) ← parse_date_part s; finish_date ymd (0, 0, 0) 0 0 s.

Definition lifecycle_layouts : list (gostring -> option instant) := [parse_rfc3339nano; parse_millis; parse_seconds; parse_day].

(** The first layout that parses. *)
Definition parseLifecycleDate (raw : gostring) : option instant :=
  let s := TrimSpace raw in
  if decide (s = []) then None else head (omap (fun layout => layout s) lifecycle_layouts).

Definition formatLifecycleDate (t : option instant) : option gostring := FormatTime <$> t.

Example lifecycle_dates :
  (parseLifecycleDate (str " 2026-03-01T00:00:00.000Z "), parseLifecycleDate (str "2026-03-01"),
   parseLifecycleDate (str "2026-03-01T02:30:00+02:30"), parseLifecycleDate (str "2026-02-29"), parseLifecycleDate []) =
  (Some 1772323200000000000, Some 1772323200000000000, Some 1772323200000000000, None, None).
Proof. vm_compute. reflexivity. Qed.

(** ** The documents *)

Record lifecycleTagXML := { lx_Key : gostring; lx_Value : gostring }.
Record lifecycleAndXML := {
  la_Prefix : option gostring; la_Tag : list lifecycleTagXML; la_GreaterThan : option Z; la_LessThan : option Z
}.
Record lifecycleFilterXML := {
  lf_Prefix : option gostring; lf_Tag : option lifecycleTagXML; lf_And : option lifecycleAndXML;
  lf_GreaterThan : option Z; lf_LessThan : option Z
}.
Record lifecycleExpirationXML := { le_Days : option Z; le_Date : option gostring; le_Marker : option bool }.
Record lifecycleTransitionXML := { ltr_Date : option gostring; ltr_Days : option Z; ltr_StorageClass : option gostring }.
Record lifecycleNoncurrentTransitionXML := {
  lnt_Days : option Z; lnt_Newer : option Z; lnt_StorageClass : option gostring
}.
Record lifecycleNoncurrentExpirationXML := { lne_Days : option Z; lne_Newer : option Z }.
Record lifecycleRuleXML := {
  lr_ID : option gostring; lr_Status : gostring; lr_Prefix : option gostring; lr_Filter : option lifecycleFilterXML;
  lr_Expiration : option lifecycleExpirationXML; lr_Transition : list lifecycleTransitionXML;
  lr_NoncurrentTransition : list lifecycleNoncurrentTransitionXML;
  lr_NoncurrentExpiration : option lifecycleNoncurrentExpirationXML;
  lr_Abort : option (option Z)         (* AbortIncompleteMultipartUpload and its DaysAfterInitiation *)
}.

(** ** SDK rules *)

Record LifecycleTag := { t_Key : gostring; t_Value : gostring }.
Record AndOperator := {
  ao_Prefix : option gostring; ao_Tags : list LifecycleTag; ao_GreaterThan : option Z; ao_LessThan : option Z
}.
Record RuleFilter := {
  rf_Prefix : option gostring; rf_Tag : option LifecycleTag; rf_And : option AndOperator;
  rf_GreaterThan : option Z; rf_LessThan : option Z
}.
Record Expiration := { ex_Days : option Z; ex_Date : option instant; ex_Marker : option bool }.
Record Transition := { tr_Date : option instant; tr_Days : option Z; tr_StorageClass : gostring }.
Record NoncurrentTransition := { nt_Days : option Z; nt_Newer : option Z; nt_StorageClass : gostring }.
Record NoncurrentExpiration := { ne_Days : option Z; ne_Newer : option Z }.
Record LifecycleRule := {
  r_ID : option gostring; r_Enabled : bool; r_Filter : option RuleFilter; r_Expiration : option Expiration;
  r_Transitions : list Transition; r_NoncurrentTransitions : list NoncurrentTransition;
  r_NoncurrentExpiration : option NoncurrentExpiration; r_AbortDays : option (option Z)
}.

(** ** Validation *)

Definition maxLifecycleRules : Z := 1000.
Definition maxLifecycleTransitionsPerRule : Z := 32.
Definition maxLifecycleTagsPerAnd : Z := 10.

(** A field that, when present, must satisfy a test. *)
Definition checked {A : Type} (ok : A -> bool) (v : option A) : option (option A) :=
  match v with Some x => if ok x then Some (Some x) else None | None => Some None end.
(** An optional part that, when present, is decoded. *)
Definition decode_opt {A B : Type} (f : A -> option B) (v : option A) : option (option B) :=
  match v with Some x => Some <$> f x | None => Some None end.
Definition given {A : Type} (v : option A) : bool := bool_decide (is_Some v).
Definition count_given (bs : list bool) : nat := length (List.filter id bs).

Definition positive (n : Z) : bool := 0 <? n.
Definition nonnegative (n : Z) : bool := 0 <=? n.

Section Validation.
Context {U : UnicodeCase} {S : SDK}.

Definition parseTransitionStorageClass (v : gostring) : option gostring :=
  let raw := ToUpper (TrimSpace v) in
  if decide (raw = []) then None else snd <$> list_find (fun a => raw = a) TransitionStorageClassValues.

Definition decodeLifecycleTag (x : lifecycleTagXML) : option LifecycleTag :=
  if decide (lx_Key x = []) then None
  else if (128 <? RuneCount (lx_Key x)) || (256 <? RuneCount (lx_Value x)) then None
  else Some {| t_Key := lx_Key x; t_Value := lx_Value x |}.

(** The prefix is not trimmed. *)
Definition decodeLifecyclePrefix (prefix : gostring) : option gostring :=
  if 1024 <? RuneCount prefix then None else Some prefix.

Definition decodeLifecycleAnd (x : lifecycleAndXML) : option AndOperator :=
  prefix ← decode_opt decodeLifecyclePrefix (la_Prefix x);
  greater ← checked nonnegative (la_GreaterThan x);
  less ← checked nonnegative (la_LessThan x);
  if match greater, less with Some g, Some l => l <=? g | _, _ => false end then None
  else if maxLifecycleTagsPerAnd <? zlen (la_Tag x) then None
  else
    tags ← mapM decodeLifecycleTag (la_Tag x);
    if negb (given prefix || given greater || given less || bool_decide (la_Tag x <> [])) then None
    else Some {| ao_Prefix := prefix; ao_Tags := tags; ao_GreaterThan := greater; ao_LessThan := less |}.

Definition decodeLifecycleFilter (x : lifecycleFilterXML) : option RuleFilter :=
  prefix ← decode_opt decodeLifecyclePrefix (lf_Prefix x);
  tag ← decode_opt decodeLifecycleTag (lf_Tag x);
  both ← decode_opt decodeLifecycleAnd (lf_And x);
  greater ← checked nonnegative (lf_GreaterThan x);
  less ← checked nonnegative (lf_LessThan x);
  if (1 <? count_given [given prefix; given tag; given both; given greater; given less])%nat then None
  else Some {| rf_Prefix := prefix; rf_Tag := tag; rf_And := both; rf_GreaterThan := greater; rf_LessThan := less |}.

Definition decodeLifecycleExpiration (x : lifecycleExpirationXML) : option Expiration :=
  days ← checked positive (le_Days x);
  date ← decode_opt parseLifecycleDate (le_Date x);
  let marker := le_Marker x in
  if negb (given days || given date || given marker) then None
  else if given marker && (given days || given date) then None
  else Some {| ex_Days := days; ex_Date := date; ex_Marker := marker |}.

Definition required_class (v : option gostring) : option gostring :=
  c ← v; if blank_text c then None else parseTransitionStorageClass c.

Definition decodeLifecycleTransition (x : lifecycleTransitionXML) : option Transition :=
  days ← checked nonnegative (ltr_Days x);
  date ← decode_opt parseLifecycleDate (ltr_Date x);
  if bool_decide (given days = given date) then None
  else
    class ← required_class (ltr_StorageClass x);
    Some {| tr_Date := date; tr_Days := days; tr_StorageClass := class |}.

Definition decodeLifecycleNoncurrentTransition (x : lifecycleNoncurrentTransitionXML) : option NoncurrentTransition :=
  days ← checked positive (lnt_Days x);
  newer ← checked positive (lnt_Newer x);
  if negb (given days) then None
  else
    class ← required_class (lnt_StorageClass x);
    Some {| nt_Days := days; nt_Newer := newer; nt_StorageClass := class |}.

Definition decodeLifecycleNoncurrentExpiration (x : lifecycleNoncurrentExpirationXML) : option NoncurrentExpiration :=
  days ← checked positive (lne_Days x);
  newer ← checked positive (lne_Newer x);
  if negb (given days || given newer) then None else Some {| ne_Days := days; ne_Newer := newer |}.

Definition decodeLifecycleAbort (x : option Z) : option (option Z) :=
  days ← x; if positive days then Some (Some days) else None.

Definition decode_status (v : gostring) : option bool :=
  let s := ToLower (TrimSpace v) in
  if decide (s = str "enabled") then Some true else if decide (s = str "disabled") then Some false else None.

Definition decode_id (v : option gostring) : option (option gostring) :=
  match v with
  | None => Some None
  | Some v => let id := TrimSpace v in
              if 255 <? RuneCount id then None else Some (if decide (id = []) then None else Some id)
  end.

(** One rule of the loop in [decodeLifecycleConfigXML]. *)
Definition decode_rule (x : lifecycleRuleXML) : option LifecycleRule :=
  enabled ← decode_status (lr_Status x);
  id ← decode_id (lr_ID x);
  if given (lr_Prefix x) && given (lr_Filter x) then None
  else
    filter ← decode_opt decodeLifecycleFilter (lr_Filter x);
    prefix ← decode_opt decodeLifecyclePrefix (lr_Prefix x);
    let filter := match prefix with
                  | Some p => Some {| rf_Prefix := Some p; rf_Tag := None; rf_And := None; rf_GreaterThan := None;
                                      rf_LessThan := None |}
                  | None => filter
                  end in
    expiration ← decode_opt decodeLifecycleExpiration (lr_Expiration x);
    if maxLifecycleTransitionsPerRule <? zlen (lr_Transition x) then None
    else
      transitions ← mapM decodeLifecycleTransition (lr_Transition x);
      if maxLifecycleTransitionsPerRule <? zlen (lr_NoncurrentTransition x) then None
      else
        noncurrent ← mapM decodeLifecycleNoncurrentTransition (lr_NoncurrentTransition x);
        nce ← decode_opt decodeLifecycleNoncurrentExpiration (lr_NoncurrentExpiration x);
        abort ← decode_opt decodeLifecycleAbort (lr_Abort x);
        Some {| r_ID := id; r_Enabled := enabled; r_Filter := filter; r_Expiration := expiration;
                r_Transitions := transitions; r_NoncurrentTransitions := noncurrent; r_NoncurrentExpiration := nce;
                r_AbortDays := abort |}.

Definition decode_rules (rules : list lifecycleRuleXML) : option (list LifecycleRule) :=
  if bool_decide (rules = []) || (maxLifecycleRules <? zlen rules) then None else mapM decode_rule rules.

End Validation.

(** ** The request document (handlers_lifecycle_xml.go) *)

(** Permitted children; [true] marks those that may repeat. *)
Definition lifecycleXMLChildren (parent : gostring) : option (list (gostring * bool)) :=
  let once := map (fun n => (str n, false)) in
  let sizes := ["ObjectSizeGreaterThan"; "ObjectSizeLessThan"]%string in
  let table : list (string * list (gostring * bool)) :=
    [("LifecycleConfiguration"%string, [(str "Rule", true)]);
     ("Rule"%string, (once ["ID"; "Status"; "Prefix"; "Filter"; "Expiration"; "NoncurrentVersionExpiration";
                    "AbortIncompleteMultipartUpload"]%string ++
              [(str "Transition", true); (str "NoncurrentVersionTransition", true)])%list);
     ("Filter"%string, once (["Prefix"; "Tag"; "And"]%string ++ sizes)%list);
     ("And"%string, ((str "Tag", true) :: once (["Prefix"]%string ++ sizes))%list);
     ("Tag"%string, once ["Key"; "Value"]%string);
     ("Expiration"%string, once ["Days"; "Date"; "ExpiredObjectDeleteMarker"]%string);
     ("Transition"%string, once ["Days"; "Date"; "StorageClass"]%string);
     ("NoncurrentVersionTransition"%string, once ["NoncurrentDays"; "NewerNoncurrentVersions"; "StorageClass"]%string);
     ("NoncurrentVersionExpiration"%string, once ["NoncurrentDays"; "NewerNoncurrentVersions"]%string);
     ("AbortIncompleteMultipartUpload"%string, once ["DaysAfterInitiation"]%string)]%string in
  match list_find (fun e : string * list (gostring * bool) => str e.1 = parent) table with
  | Some (_, (_, children)) => Some children
  | None => None
  end.

Definition child_rule (parent name : gostring) : option bool :=
  children ← lifecycleXMLChildren parent;
  '(_, (_, repeatable)) ← list_find (fun c : gostring * bool => c.1 = name) children;
  Some repeatable.

Record lifecycleXMLElement := { lxe_name : gostring; lxe_seen : gset gostring }.

Section Document.
Context {U : UnicodeCase} {MI : MapIter} {S : SDK} {X : XMLLexer}.

(** [beginElement], on the stack of open elements. *)
Definition beginElement (namespace : gostring) (elements : list lifecycleXMLElement) (space name : gostring) (attrs : list XAttr)
    : option (list lifecycleXMLElement) :=
  if bool_decide (space <> namespace) || (bool_decide (namespace <> []) && bool_decide (namespace <> s3XMLNamespace)) then None
  else if existsb (fun a => bool_decide (xa_space a <> str "xmlns") &&
                            (bool_decide (xa_space a <> []) || bool_decide (xa_local a <> str "xmlns"))) attrs then None
  else
    let opened := {| lxe_name := name; lxe_seen := ∅ |} in
    match elements with
    | [] => Some [opened]
    | parent :: up =>
      match child_rule (lxe_name parent) name with
      | None => None
      | Some repeatable =>
        if bool_decide (name ∈ lxe_seen parent) && negb repeatable then None
        else Some (opened :: {| lxe_name := lxe_name parent; lxe_seen := {[ name ]} ∪ lxe_seen parent |} :: up)
      end
    end.

(** [lifecycleXMLTokenReader.Token]. *)
Definition lifecycle_token (namespace : gostring) (elements : list lifecycleXMLElement) (t : Token)
    : option (list lifecycleXMLElement) :=
  match t with
  | StartElement space name attrs => beginElement namespace elements space name attrs
  | EndElement =>
    match elements with
    | [] => Some []
    | e :: up =>
      if bool_decide (lxe_name e = str "Tag") && negb (bool_decide (str "Key" ∈ lxe_seen e) && bool_decide (str "Value" ∈ lxe_seen e))
      then None else Some up
    end
  | CharData s =>
    match elements with
    | [] => Some []
    | e :: _ => if given (lifecycleXMLChildren (lxe_name e)) && negb (blank_text s) then None else Some elements
    end
  | Directive => None
  | Comment | ProcInst => Some elements
  end.

Definition lifecycleDecodeLimits : DecodeLimits := {|
  MaxBodyBytes := 4 * 1024 * 1024; MaxDepth := 16; MaxElements := 100000; MaxAttributes := 32; MaxAttributeBytes := 2048;
  ElementLimits := limit_table [("Rule", maxLifecycleRules); ("Transition", maxLifecycleRules * maxLifecycleTransitionsPerRule);
    ("NoncurrentVersionTransition", maxLifecycleRules * maxLifecycleTransitionsPerRule);
    ("Tag", maxLifecycleRules * (maxLifecycleTagsPerAnd + 1))];
  FieldByteLimits := limit_table [("ID", 255 * 4); ("Status", 16); ("Prefix", 1024 * 4); ("Key", 128 * 4); ("Value", 256 * 4);
    ("Date", 64); ("StorageClass", 64); ("Days", 32); ("NoncurrentDays", 32); ("NewerNoncurrentVersions", 32);
    ("DaysAfterInitiation", 32); ("ObjectSizeGreaterThan", 32); ("ObjectSizeLessThan", 32); ("ExpiredObjectDeleteMarker", 16)] |}.

(** The fields of the structs; the guard has left at most one of each that does
    not repeat. *)
Definition tag_of (n : Node) : lifecycleTagXML :=
  {| lx_Key := default [] (string_field "Key" n); lx_Value := default [] (string_field "Value" n) |}.
Definition and_of (n : Node) : option lifecycleAndXML :=
  greater ← parsed_field (int_text 64) "ObjectSizeGreaterThan" n;
  less ← parsed_field (int_text 64) "ObjectSizeLessThan" n;
  Some {| la_Prefix := string_field "Prefix" n; la_Tag := map tag_of (children "Tag" n);
          la_GreaterThan := greater; la_LessThan := less |}.
Definition filter_of (n : Node) : option lifecycleFilterXML :=
  both ← decode_opt and_of (last (children "And" n));
  greater ← parsed_field (int_text 64) "ObjectSizeGreaterThan" n;
  less ← parsed_field (int_text 64) "ObjectSizeLessThan" n;
  Some {| lf_Prefix := string_field "Prefix" n; lf_Tag := tag_of <$> last (children "Tag" n); lf_And := both;
          lf_GreaterThan := greater; lf_LessThan := less |}.
Definition expiration_of (n : Node) : option lifecycleExpirationXML :=
  days ← parsed_field (int_text 32) "Days" n;
  marker ← parsed_field bool_text "ExpiredObjectDeleteMarker" n;
  Some {| le_Days := days; le_Date := string_field "Date" n; le_Marker := marker |}.
Definition transition_of (n : Node) : option lifecycleTransitionXML :=
  days ← parsed_field (int_text 32) "Days" n;
  Some {| ltr_Date := string_field "Date" n; ltr_Days := days; ltr_StorageClass := string_field "StorageClass" n |}.
Definition noncurrent_transition_of (n : Node) : option lifecycleNoncurrentTransitionXML :=
  days ← parsed_field (int_text 32) "NoncurrentDays" n;
  newer ← parsed_field (int_text 32) "NewerNoncurrentVersions" n;
  Some {| lnt_Days := days; lnt_Newer := newer; lnt_StorageClass := string_field "StorageClass" n |}.
Definition noncurrent_expiration_of (n : Node) : option lifecycleNoncurrentExpirationXML :=
  days ← parsed_field (int_text 32) "NoncurrentDays" n;
  newer ← parsed_field (int_text 32) "NewerNoncurrentVersions" n;
  Some {| lne_Days := days; lne_Newer := newer |}.
Definition rule_of (n : Node) : option lifecycleRuleXML :=
  filter ← decode_opt filter_of (last (children "Filter" n));
  expiration ← decode_opt expiration_of (last (children "Expiration" n));
  transitions ← mapM transition_of (children "Transition" n);
  noncurrent ← mapM noncurrent_transition_of (children "NoncurrentVersionTransition" n);
  nce ← decode_opt noncurrent_expiration_of (last (children "NoncurrentVersionExpiration" n));
  abort ← decode_opt (parsed_field (int_text 32) "DaysAfterInitiation") (last (children "AbortIncompleteMultipartUpload" n));
  Some {| lr_ID := string_field "ID" n; lr_Status := default [] (string_field "Status" n); lr_Prefix := string_field "Prefix" n;
          lr_Filter := filter; lr_Expiration := expiration; lr_Transition := transitions;
          lr_NoncurrentTransition := noncurrent; lr_NoncurrentExpiration := nce; lr_Abort := abort |}.

Definition decodeLifecycleConfigXML (body : gostring) : option (list LifecycleRule) :=
  rules ← DecodeLimited lifecycleDecodeLimits (fun _ own n =>
    _ ← run_tokens (lifecycle_token (match n with NText _ => [] | NElem space _ _ _ => space end)) own [];
    require_name "LifecycleConfiguration" n (mapM rule_of (children "Rule" n))) body;
  decode_rules rules.

End Document.

(** ** Encoding *)

Definition encodeLifecycleTag (t : LifecycleTag) : lifecycleTagXML := {| lx_Key := t_Key t; lx_Value := t_Value t |}.
Definition encodeLifecycleAnd (a : AndOperator) : lifecycleAndXML :=
  {| la_Prefix := ao_Prefix a; la_Tag := map encodeLifecycleTag (ao_Tags a);
     la_GreaterThan := ao_GreaterThan a; la_LessThan := ao_LessThan a |}.
Definition encodeLifecycleFilter (f : RuleFilter) : lifecycleFilterXML :=
  {| lf_Prefix := rf_Prefix f; lf_Tag := encodeLifecycleTag <$> rf_Tag f; lf_And := encodeLifecycleAnd <$> rf_And f;
     lf_GreaterThan := rf_GreaterThan f; lf_LessThan := rf_LessThan f |}.
Definition encodeLifecycleExpiration (e : Expiration) : lifecycleExpirationXML :=
  {| le_Days := ex_Days e; le_Date := formatLifecycleDate (ex_Date e); le_Marker := ex_Marker e |}.
Definition class_text (c : gostring) : option gostring := if decide (c = []) then None else Some c.
Definition encodeLifecycleTransition (t : Transition) : lifecycleTransitionXML :=
  {| ltr_Date := formatLifecycleDate (tr_Date t); ltr_Days := tr_Days t; ltr_StorageClass := class_text (tr_StorageClass t) |}.
Definition encodeLifecycleNoncurrentTransition (t : NoncurrentTransition) : lifecycleNoncurrentTransitionXML :=
  {| lnt_Days := nt_Days t; lnt_Newer := nt_Newer t; lnt_StorageClass := class_text (nt_StorageClass t) |}.
Definition encodeLifecycleNoncurrentExpiration (e : NoncurrentExpiration) : lifecycleNoncurrentExpirationXML :=
  {| lne_Days := ne_Days e; lne_Newer := ne_Newer e |}.

(** A rule of an upstream answer: its status is a string of the SDK, and a rule
    without a filter may carry the prefix of the older schema. *)
Record UpstreamRule := { ur_status : gostring; ur_legacyPrefix : option gostring; ur_rule : LifecycleRule }.

Definition encode_rule (u : UpstreamRule) : lifecycleRuleXML :=
  let r := ur_rule u in
  let filter := match r_Filter r with
                | Some f => Some f
                | None => (fun p => {| rf_Prefix := Some p; rf_Tag := None; rf_And := None; rf_GreaterThan := None;
                                       rf_LessThan := None |}) <$> ur_legacyPrefix u
                end in
  {| lr_ID := r_ID r; lr_Status := ur_status u; lr_Prefix := None; lr_Filter := encodeLifecycleFilter <$> filter;
     lr_Expiration := encodeLifecycleExpiration <$> r_Expiration r;
     lr_Transition := map encodeLifecycleTransition (r_Transitions r);
     lr_NoncurrentTransition := map encodeLifecycleNoncurrentTransition (r_NoncurrentTransitions r);
     lr_NoncurrentExpiration := encodeLifecycleNoncurrentExpiration <$> r_NoncurrentExpiration r;
     lr_Abort := r_AbortDays r |}.

(** What [xml.Marshal] writes for the structs. *)
Definition opt_calls {A : Type} (f : A -> list WCall) (v : option A) : list WCall := match v with Some x => f x | None => [] end.
Definition tag_calls (t : lifecycleTagXML) : list WCall :=
  within "Tag" [Elem (str "Key") (lx_Key t); Elem (str "Value") (lx_Value t)].
Definition and_calls (a : lifecycleAndXML) : list WCall :=
  within "And" (elem_str "Prefix" (la_Prefix a) ++ flat_map tag_calls (la_Tag a) ++
    elem_int "ObjectSizeGreaterThan" (la_GreaterThan a) ++ elem_int "ObjectSizeLessThan" (la_LessThan a)).
Definition filter_calls (f : lifecycleFilterXML) : list WCall :=
  within "Filter" (elem_str "Prefix" (lf_Prefix f) ++ opt_calls tag_calls (lf_Tag f) ++ opt_calls and_calls (lf_And f) ++
    elem_int "ObjectSizeGreaterThan" (lf_GreaterThan f) ++ elem_int "ObjectSizeLessThan" (lf_LessThan f)).
Definition expiration_calls (e : lifecycleExpirationXML) : list WCall :=
  within "Expiration" (elem_int "Days" (le_Days e) ++ elem_str "Date" (le_Date e) ++
    elem_bool "ExpiredObjectDeleteMarker" (le_Marker e)).
Definition transition_calls (t : lifecycleTransitionXML) : list WCall :=
  within "Transition" (elem_str "Date" (ltr_Date t) ++ elem_int "Days" (ltr_Days t) ++ elem_str "StorageClass" (ltr_StorageClass t)).
Definition noncurrent_transition_calls (t : lifecycleNoncurrentTransitionXML) : list WCall :=
  within "NoncurrentVersionTransition" (elem_int "NoncurrentDays" (lnt_Days t) ++
    elem_int "NewerNoncurrentVersions" (lnt_Newer t) ++ elem_str "StorageClass" (lnt_StorageClass t)).
Definition noncurrent_expiration_calls (e : lifecycleNoncurrentExpirationXML) : list WCall :=
  within "NoncurrentVersionExpiration" (elem_int "NoncurrentDays" (lne_Days e) ++ elem_int "NewerNoncurrentVersions" (lne_Newer e)).
Definition abort_calls (days : option Z) : list WCall :=
  within "AbortIncompleteMultipartUpload" (elem_int "DaysAfterInitiation" days).
Definition rule_calls (r : lifecycleRuleXML) : list WCall :=
  within "Rule" (elem_str "ID" (lr_ID r) ++ [Elem (str "Status") (lr_Status r)] ++ elem_str "Prefix" (lr_Prefix r) ++
    opt_calls filter_calls (lr_Filter r) ++ opt_calls expiration_calls (lr_Expiration r) ++
    flat_map transition_calls (lr_Transition r) ++ flat_map noncurrent_transition_calls (lr_NoncurrentTransition r) ++
    opt_calls noncurrent_expiration_calls (lr_NoncurrentExpiration r) ++ opt_calls abort_calls (lr_Abort r)).
Definition encodeLifecycleConfigXML (rules : list UpstreamRule) : list WCall :=
  root "LifecycleConfiguration" (flat_map rule_calls (map encode_rule rules)).

(** ** The document is balanced *)

Lemma bal_opt_calls {A : Type} (f : A -> list WCall) v : (forall x, balanced (f x)) -> balanced (opt_calls f v).
Proof. intros Hf. destruct v; [apply Hf | constructor]. Qed.
Lemma bal_tag t : balanced (tag_calls t).
Proof. unfold tag_calls. xml_balanced. Qed.
Lemma bal_and a : balanced (and_calls a).
Proof. unfold and_calls. xml_balanced. apply bal_tag. Qed.
#[local] Hint Resolve bal_tag bal_and : s3xml.
Lemma bal_filter f : balanced (filter_calls f).
Proof. unfold filter_calls. xml_balanced; apply bal_opt_calls; auto with s3xml. Qed.
Lemma bal_expiration e : balanced (expiration_calls e).
Proof. unfold expiration_calls. xml_balanced. Qed.
Lemma bal_transition t : balanced (transition_calls t).
Proof. unfold transition_calls. xml_balanced. Qed.
Lemma bal_noncurrent_transition t : balanced (noncurrent_transition_calls t).
Proof. unfold noncurrent_transition_calls. xml_balanced. Qed.
Lemma bal_noncurrent_expiration e : balanced (noncurrent_expiration_calls e).
Proof. unfold noncurrent_expiration_calls. xml_balanced. Qed.
Lemma bal_abort d : balanced (abort_calls d).
Proof. unfold abort_calls. xml_balanced. Qed.
#[local] Hint Resolve bal_filter bal_expiration bal_transition bal_noncurrent_transition bal_noncurrent_expiration bal_abort
  bal_opt_calls : s3xml.
Lemma doc_lifecycle rules : document (encodeLifecycleConfigXML rules).
Proof. unfold encodeLifecycleConfigXML, rule_calls. xml_balanced; auto with s3xml. Qed.
#[export] Hint Resolve doc_lifecycle : s3xml.
