(* ===== verification/Upstream.v ===== *)
(** * Upstream calls and handler programs (src/internal/upstream, uploadnotify)

    A handler is a program that calls the S3 client and publishes upload
    notifications: a tree whose nodes are those effects and whose branches are
    the answers, so that a statement about a program holds for every behaviour
    of the upstream.  An SDK input is a record of the fields the gateway sets,
    an output a record of the fields it reads; the SDK returns an output
    whenever it returns no error. *)

From S2P Require Import Prelude GoStrings Http Stream S3Xml S3Http XmlDecode Lifecycle.

#[local] Open Scope Z_scope.

(** ** Inputs *)

Record BucketInput := { bi_Bucket : gostring; bi_ExpectedBucketOwner : option gostring }.

Record ListBucketsInput := {
  lbi_MaxBuckets : Z; lbi_BucketRegion : option gostring; lbi_Prefix : option gostring; lbi_ContinuationToken : option gostring
}.
Record CreateBucketInput := {
  cbi_Bucket : gostring; cbi_ObjectLockEnabledForBucket : option bool; cbi_ObjectOwnership : gostring;
  cbi_LocationConstraint : option gostring
}.

(** An object, or a version of it. *)
Record ObjectInput := {
  oi_Bucket : gostring; oi_Key : gostring; oi_VersionId : option gostring; oi_ExpectedBucketOwner : option gostring;
  oi_RequestPayer : gostring
}.
Record ReadObjectInput := {
  ro_object : ObjectInput; ro_PartNumber : option Z; ro_Range : option gostring;
  ro_IfMatch : option gostring; ro_IfNoneMatch : option gostring;
  ro_IfModifiedSince : option instant; ro_IfUnmodifiedSince : option instant; ro_ChecksumMode : bool;
  ro_ResponseCacheControl : option gostring; ro_ResponseContentDisposition : option gostring;
  ro_ResponseContentEncoding : option gostring; ro_ResponseContentLanguage : option gostring;
  ro_ResponseContentType : option gostring; ro_ResponseExpires : option instant
}.
(** The parameters the listings share; [None] and the empty string are unset. *)
Record ListInput := {
  li_Bucket : gostring; li_Prefix : option gostring; li_Delimiter : option gostring; li_Max : option Z;
  li_EncodingType : gostring; li_OptionalObjectAttributes : list gostring; li_ExpectedBucketOwner : option gostring;
  li_RequestPayer : gostring
}.
Record ObjectIdentifier := { id_Key : gostring; id_VersionId : option gostring; id_ETag : option gostring }.
Record DeleteObjectsInput := {
  di_Bucket : gostring; di_Objects : list ObjectIdentifier; di_Quiet : option bool; di_MFA : option gostring;
  di_ExpectedBucketOwner : option gostring; di_RequestPayer : gostring
}.

Abbreviation Metadata := (gmap gostring gostring).
Record uploadProperties := {
  up_CacheControl : option gostring; up_ContentDisposition : option gostring; up_ContentEncoding : option gostring;
  up_ContentLanguage : option gostring; up_Tagging : option gostring; up_StorageClass : gostring;
  up_WebsiteRedirectLocation : option gostring
}.
Record PutObjectInput := {
  po_object : ObjectInput; po_Body : S3Body; po_ContentLength : Z; po_Metadata : Metadata; po_Expires : option instant;
  po_properties : uploadProperties; po_IfMatch : option gostring; po_IfNoneMatch : option gostring;
  po_ContentMD5 : option gostring; po_ContentType : option gostring; po_checksum : ChecksumWriteHeaders
}.
Record CopyObjectInput := {
  co_object : ObjectInput; co_CopySource : gostring; co_Metadata : Metadata; co_Expires : option instant;
  co_IfMatch : option gostring; co_IfNoneMatch : option gostring; co_conditions : CopyConditions;
  co_MetadataDirective : gostring; co_TaggingDirective : gostring; co_ChecksumAlgorithm : option ChecksumAlgorithm;
  co_properties : uploadProperties; co_ContentType : option gostring; co_ExpectedSourceBucketOwner : option gostring
}.
Record UploadRef := { ur_object : ObjectInput; ur_UploadId : gostring }.
Record UploadPartCopyInput := {
  pc_upload : UploadRef; pc_PartNumber : Z; pc_CopySource : gostring; pc_conditions : CopyConditions;
  pc_CopySourceRange : option gostring; pc_ExpectedSourceBucketOwner : option gostring
}.
Record UploadPartInput := {
  pi_upload : UploadRef; pi_PartNumber : Z; pi_Body : S3Body; pi_ContentLength : Z; pi_checksum : ChecksumWriteHeaders;
  pi_ContentMD5 : option gostring
}.
Record CreateMultipartUploadInput := {
  cm_object : ObjectInput; cm_Metadata : Metadata; cm_Expires : option instant; cm_properties : uploadProperties;
  cm_ContentType : option gostring; cm_ChecksumAlgorithm : option ChecksumAlgorithm; cm_ChecksumType : option ChecksumType
}.
Record CompletedPart := {
  part_Number : Z; part_ETag : gostring; part_checksum : ChecksumAlgorithm -> option gostring
}.
Record CompleteMultipartUploadInput := {
  cu_upload : UploadRef; cu_Parts : list CompletedPart; cu_checksum : ChecksumWriteHeaders; cu_MpuObjectSize : option Z;
  cu_IfMatch : option gostring; cu_IfNoneMatch : option gostring
}.
Record GetObjectAttributesInput := {
  ga_object : ObjectInput; ga_ObjectAttributes : list gostring; ga_MaxParts : option Z; ga_PartNumberMarker : option gostring
}.
Record DeleteObjectInput := { dl_object : ObjectInput; dl_MFA : option gostring; dl_IfMatch : option gostring }.

(** ** Outputs *)

Record BucketEntry := { be_Name : option gostring; be_CreationDate : option instant }.
Record ListBucketsOutput := {
  lbo_Buckets : list BucketEntry; lbo_ContinuationToken : option gostring; lbo_Prefix : option gostring
}.
Record HeadBucketOutput := {
  hb_BucketRegion : option gostring; hb_BucketArn : option gostring; hb_BucketLocationName : option gostring;
  hb_BucketLocationType : gostring; hb_AccessPointAlias : option bool
}.
Record GetBucketLifecycleOutput := { bl_Rules : list UpstreamRule; bl_TransitionSize : gostring }.

Record ObjectOutput := {
  oo_AcceptRanges : option gostring; oo_ETag : option gostring; oo_LastModified : option instant;
  oo_ContentType : option gostring; oo_ContentLength : option Z; oo_ContentRange : option gostring;
  oo_CacheControl : option gostring; oo_ContentDisposition : option gostring; oo_ContentEncoding : option gostring;
  oo_ContentLanguage : option gostring; oo_ExpiresString : option gostring; oo_VersionId : option gostring;
  oo_DeleteMarker : option bool; oo_StorageClass : gostring; oo_ServerSideEncryption : gostring;
  oo_SSEKMSKeyId : option gostring; oo_SSECustomerAlgorithm : option gostring; oo_SSECustomerKeyMD5 : option gostring;
  oo_BucketKeyEnabled : option bool; oo_Expiration : option gostring; oo_Restore : option gostring;
  oo_WebsiteRedirectLocation : option gostring; oo_ReplicationStatus : gostring; oo_TagCount : option Z;
  oo_PartsCount : option Z; oo_MissingMeta : option Z; oo_ObjectLockMode : gostring; oo_LegalHold : gostring;
  oo_RetainUntil : option instant; oo_RequestCharged : gostring; oo_checksum : ChecksumAlgorithm -> option gostring;
  oo_ChecksumType : gostring; oo_Metadata : Metadata;
  oo_Body : gostring; oo_BodyFails : bool        (* the octets [io.Copy] delivers, and whether it ends in an error *)
}.

Record CopyResult := {
  cr_LastModified : option instant; cr_ETag : option gostring; cr_checksum : ChecksumAlgorithm -> option gostring;
  cr_ChecksumType : gostring
}.
(** The outputs of the writing calls; each handler reads the fields its own SDK output has. *)
Record WriteOutput := {
  wo_ETag : option gostring; wo_VersionId : option gostring; wo_CopySourceVersionId : option gostring;
  wo_ServerSideEncryption : gostring; wo_SSEKMSKeyId : option gostring; wo_SSEKMSEncryptionContext : option gostring;
  wo_SSECustomerAlgorithm : option gostring; wo_SSECustomerKeyMD5 : option gostring; wo_BucketKeyEnabled : option bool;
  wo_Expiration : option gostring; wo_RequestCharged : gostring; wo_checksum : ChecksumAlgorithm -> option gostring;
  wo_ChecksumType : gostring; wo_result : option CopyResult
}.
Record CreateMultipartUploadOutput := { cmo_UploadId : option gostring; cmo_ChecksumAlgorithm : gostring; cmo_ChecksumType : gostring }.

Record ObjectEntry := {
  oe_Key : option gostring; oe_VersionId : option gostring; oe_IsLatest : option bool; oe_LastModified : option instant;
  oe_ETag : option gostring; oe_ChecksumAlgorithm : list gostring; oe_ChecksumType : gostring; oe_Size : option Z;
  oe_StorageClass : gostring; oe_Owner : option Owner; oe_RestoreStatus : option RestoreStatus
}.
Record ListOutput := {
  lo_Name : option gostring; lo_Prefix : option gostring; lo_Marker : option gostring; lo_NextMarker : option gostring;
  lo_KeyMarker : option gostring; lo_VersionIdMarker : option gostring; lo_NextKeyMarker : option gostring;
  lo_NextVersionIdMarker : option gostring; lo_StartAfter : option gostring; lo_KeyCount : option Z;
  lo_ContinuationToken : option gostring; lo_NextContinuationToken : option gostring; lo_Delimiter : option gostring;
  lo_MaxKeys : option Z; lo_EncodingType : gostring; lo_IsTruncated : option bool; lo_CommonPrefixes : list (option gostring);
  lo_Contents : list ObjectEntry; lo_DeleteMarkers : list ObjectEntry; lo_RequestCharged : gostring
}.
Record UploadEntry := {
  ue_Key : option gostring; ue_UploadId : option gostring; ue_Initiated : option instant; ue_StorageClass : gostring;
  ue_ChecksumAlgorithm : gostring; ue_ChecksumType : gostring; ue_Owner : option Owner; ue_Initiator : option Owner
}.
Record ListUploadsOutput := {
  lu_EncodingType : gostring; lu_KeyMarker : option gostring; lu_UploadIdMarker : option gostring;
  lu_NextKeyMarker : option gostring; lu_NextUploadIdMarker : option gostring; lu_Prefix : option gostring;
  lu_Delimiter : option gostring; lu_MaxUploads : option Z; lu_IsTruncated : option bool;
  lu_CommonPrefixes : list (option gostring); lu_Uploads : list UploadEntry
}.
Record PartEntry := {
  pe_PartNumber : option Z; pe_LastModified : option instant; pe_ETag : option gostring; pe_Size : option Z;
  pe_checksum : ChecksumAlgorithm -> option gostring
}.
Record ListPartsOutput := {
  lp_PartNumberMarker : option gostring; lp_NextPartNumberMarker : option gostring; lp_MaxParts : option Z;
  lp_TotalPartsCount : option Z; lp_IsTruncated : option bool; lp_ChecksumAlgorithm : gostring; lp_ChecksumType : gostring;
  lp_Parts : list PartEntry
}.
Record ChecksumOutput := { ck_value : ChecksumAlgorithm -> option gostring; ck_type : gostring }.
Record GetObjectAttributesOutput := {
  gao_LastModified : option instant; gao_VersionId : option gostring; gao_DeleteMarker : option bool; gao_ETag : option gostring;
  gao_ObjectSize : option Z; gao_StorageClass : gostring; gao_Checksum : option ChecksumOutput; gao_ObjectParts : option ListPartsOutput
}.
Record TaggingOutput := { to_VersionId : option gostring; to_TagSet : list Tag }.
Record DeletedEntry := {
  de_Key : option gostring; de_VersionId : option gostring; de_DeleteMarker : option bool;
  de_DeleteMarkerVersionId : option gostring
}.
Record DeleteError := { der_Key : option gostring; der_VersionId : option gostring; der_Code : option gostring; der_Message : option gostring }.
Record DeleteObjectsOutput := { dso_Deleted : list DeletedEntry; dso_Errors : list DeleteError; dso_RequestCharged : gostring }.
Record DeleteObjectOutput := { dlo_DeleteMarker : option bool; dlo_VersionId : option gostring; dlo_RequestCharged : gostring }.

(** ** Calls *)

Inductive Call :=
| ListBuckets (i : ListBucketsInput)
| CreateBucket (i : CreateBucketInput)
| HeadBucket (i : BucketInput) | GetBucketLocation (i : BucketInput) | DeleteBucket (i : BucketInput)
| PutBucketVersioning (i : BucketInput) (cfg : VersioningConfiguration) (mfa : option gostring)
| GetBucketVersioning (i : BucketInput)
| PutBucketTagging (i : BucketInput) (tags : list Tag) | GetBucketTagging (i : BucketInput) | DeleteBucketTagging (i : BucketInput)
| PutBucketLifecycle (i : BucketInput) (rules : list LifecycleRule) (transitionSize : gostring)
| GetBucketLifecycle (i : BucketInput) | DeleteBucketLifecycle (i : BucketInput)
| ListObjects (i : ListInput) (marker : option gostring)
| ListObjectsV2 (i : ListInput) (continuationToken startAfter : option gostring) (fetchOwner : option bool)
| ListObjectVersions (i : ListInput) (keyMarker versionIdMarker : option gostring)
| ListMultipartUploads (i : ListInput) (keyMarker uploadIdMarker : option gostring)
| GetObject (i : ReadObjectInput) | HeadObject (i : ReadObjectInput)
| GetObjectAttributes (i : GetObjectAttributesInput)
| PutObjectTagging (i : ObjectInput) (tags : list Tag) | GetObjectTagging (i : ObjectInput) | DeleteObjectTagging (i : ObjectInput)
| PutObject (i : PutObjectInput) | CopyObject (i : CopyObjectInput)
| DeleteObject (i : DeleteObjectInput) | DeleteObjects (i : DeleteObjectsInput)
| CreateMultipartUpload (i : CreateMultipartUploadInput)
| UploadPart (i : UploadPartInput) | UploadPartCopy (i : UploadPartCopyInput)
| ListParts (i : UploadRef) (marker : option gostring) (maxParts : option Z)
| CompleteMultipartUpload (i : CompleteMultipartUploadInput) | AbortMultipartUpload (i : UploadRef).

Definition Output (c : Call) : Type :=
  match c with
  | ListBuckets _ => ListBucketsOutput
  | HeadBucket _ => HeadBucketOutput
  | GetBucketLocation _ => gostring
  | GetBucketVersioning _ => gostring * gostring
  | GetBucketTagging _ => list Tag
  | GetBucketLifecycle _ => GetBucketLifecycleOutput
  | PutBucketLifecycle _ _ _ => gostring
  | ListObjects _ _ | ListObjectsV2 _ _ _ _ | ListObjectVersions _ _ _ => ListOutput
  | ListMultipartUploads _ _ _ => ListUploadsOutput
  | GetObject _ | HeadObject _ => ObjectOutput
  | GetObjectAttributes _ => GetObjectAttributesOutput
  | PutObjectTagging _ _ | GetObjectTagging _ | DeleteObjectTagging _ => TaggingOutput
  | PutObject _ | CopyObject _ | UploadPart _ | UploadPartCopy _ | CompleteMultipartUpload _ => WriteOutput
  | DeleteObject _ => DeleteObjectOutput
  | DeleteObjects _ => DeleteObjectsOutput
  | CreateMultipartUpload _ => CreateMultipartUploadOutput
  | ListParts _ _ _ => ListPartsOutput
  | CreateBucket _ | DeleteBucket _ | PutBucketVersioning _ _ _ | PutBucketTagging _ _ | DeleteBucketTagging _
  | DeleteBucketLifecycle _ | AbortMultipartUpload _ => unit
  end.

(** A failure: the error, and for the calls that read a body the body error in
    its chain and the error the body itself has recorded. *)
Record Failure := { f_error : UpstreamError; f_cause : option StreamErr; f_body : option StreamErr }.
Abbreviation Answer c := (result Failure (Output c)).

(** ** Notifications (uploadnotify/event.go) *)

Inductive EventName := ObjectCreatedPut | ObjectCreatedCopy | ObjectCreatedCompleteMultipartUpload.
Record Event := {
  ev_name : EventName; ev_Bucket : gostring; ev_Key : gostring; ev_ETag : gostring; ev_VersionID : gostring;
  ev_UploadID : gostring; ev_Uploader : gostring; ev_OccurredAt : instant
}.

(** ** Programs *)

Inductive Prog (R : Type) : Type :=
| Ret (r : R)
| Up (c : Call) (k : Answer c -> Prog R)
| Poll (k : bool -> Prog R)                  (* ctx.Err(): whether the request is cancelled *)
| Notify (e : Event) (k : Prog R)
| Spin.                                      (* the fuel of a loop is used up: still running *)
Arguments Ret {R} r.
Arguments Up {R} c k.
Arguments Poll {R} k.
Arguments Notify {R} e k.
Arguments Spin {R}.

Fixpoint pbind {Q R} (p : Prog Q) (f : Q -> Prog R) : Prog R :=
  match p with
  | Ret q => f q
  | Up c k => Up c (fun a => pbind (k a) f)
  | Poll k => Poll (fun b => pbind (k b) f)
  | Notify e k => Notify e (pbind k f)
  | Spin => Spin
  end.

Notation "'check!' b 'or' resp 'in' k" := (if b then k else Ret resp)
  (at level 10, b at level 200, resp at level 200, k at level 200) : go_scope.
Notation "'parse!' x := m 'or' resp 'in' k" := (match m with Ok x => k | Err _ => Ret resp end)
  (at level 10, x pattern, m at level 200, resp at level 200, k at level 200) : go_scope.
Notation "'parse!' x := m 'catch' e => resp 'in' k" := (match m with Ok x => k | Err e => Ret resp end)
  (at level 10, x pattern, m at level 200, e name, resp at level 200, k at level 200) : go_scope.

(** ** Traces *)

Inductive Action :=
| Called (c : Call) (a : Answer c)
| Polled (cancelled : bool)
| Notified (e : Event).

Inductive step {R} : Prog R -> Action -> Prog R -> Prop :=
| step_up c k a : step (Up c k) (Called c a) (k a)
| step_poll k b : step (Poll k) (Polled b) (k b)
| step_notify e k : step (Notify e k) (Notified e) k.

Inductive steps {R} : Prog R -> list Action -> Prog R -> Prop :=
| steps_nil p : steps p [] p
| steps_cons p a p' tr p'' : step p a p' -> steps p' tr p'' -> steps p (a :: tr) p''.

(** The first action of a program, by its form. *)
Lemma steps_inv {R} (p : Prog R) tr q :
  steps p tr q ->
  (tr = [] /\ q = p) \/
  match p with
  | Up c k => exists a tr', tr = Called c a :: tr' /\ steps (k a) tr' q
  | Poll k => exists b tr', tr = Polled b :: tr' /\ steps (k b) tr' q
  | Notify e k => exists tr', tr = Notified e :: tr' /\ steps k tr' q
  | Ret _ | Spin => False
  end.
Proof. destruct 1 as [p|p a p' tr q [] Hs]; eauto 8. Qed.

Lemma steps_bind {Q R} (p : Prog Q) (f : Q -> Prog R) tr q :
  steps (pbind p f) tr q ->
  (exists p', steps p tr p' /\ q = pbind p' f) \/
  exists tr1 tr2 x, tr = tr1 ++ tr2 /\ steps p tr1 (Ret x) /\ steps (f x) tr2 q.
Proof.
  revert tr. induction p as [x|c k IH|k IH|e k IH|]; intros tr Hs; cbn [pbind] in Hs.
  - right. exists [], tr, x. split; [done|]. split; [constructor | done].
  - apply steps_inv in Hs as [[-> ->]|(a & tr' & -> & Hs)]; [left; exists (Up c k); split; [constructor | done]|].
    destruct (IH a tr' Hs) as [(p' & ? & ->)|(t1 & t2 & x & -> & ? & ?)]; [left | right].
    + exists p'. split; [econstructor; [constructor | done] | done].
    + exists (Called c a :: t1), t2, x. split; [done|]. split; [econstructor; [constructor | done] | done].
  - apply steps_inv in Hs as [[-> ->]|(b & tr' & -> & Hs)]; [left; exists (Poll k); split; [constructor | done]|].
    destruct (IH b tr' Hs) as [(p' & ? & ->)|(t1 & t2 & x & -> & ? & ?)]; [left | right].
    + exists p'. split; [econstructor; [constructor | done] | done].
    + exists (Polled b :: t1), t2, x. split; [done|]. split; [econstructor; [constructor | done] | done].
  - apply steps_inv in Hs as [[-> ->]|(tr' & -> & Hs)]; [left; exists (Notify e k); split; [constructor | done]|].
    destruct (IH tr' Hs) as [(p' & ? & ->)|(t1 & t2 & x & -> & ? & ?)]; [left | right].
    + exists p'. split; [econstructor; [constructor | done] | done].
    + exists (Notified e :: t1), t2, x. split; [done|]. split; [econstructor; [constructor | done] | done].
  - left. apply steps_inv in Hs as [[-> ->]|[]]. exists Spin. split; [constructor | done].
Qed.

(** A program that has ended has ended its first part. *)
Lemma steps_bind_ret {Q R} (p : Prog Q) (f : Q -> Prog R) tr y :
  steps (pbind p f) tr (Ret y) -> exists t1 t2 x, tr = t1 ++ t2 /\ steps p t1 (Ret x) /\ steps (f x) t2 (Ret y).
Proof.
  intros [([x| | | |] & Hq & Heq)|H]%steps_bind; try discriminate Heq; [|done].
  exists tr, [], x. rewrite app_nil_r. split; [done|]. split; [done|]. cbn in Heq. rewrite <- Heq. constructor.
Qed.

(** [every C E Q p]: all calls of [p] satisfy [C], all its notifications [E],
    and all its results [Q], whatever the upstream answers. *)
Fixpoint every {R} (C : Call -> Prop) (E : Event -> Prop) (Q : R -> Prop) (p : Prog R) : Prop :=
  match p with
  | Ret r => Q r
  | Up c k => C c /\ forall a, every C E Q (k a)
  | Poll k => forall b, every C E Q (k b)
  | Notify e k => E e /\ every C E Q k
  | Spin => True
  end.

Lemma every_mono {R} (C C' : Call -> Prop) (E E' : Event -> Prop) (Q Q' : R -> Prop) p :
  (forall c, C c -> C' c) -> (forall e, E e -> E' e) -> (forall r, Q r -> Q' r) -> every C E Q p -> every C' E' Q' p.
Proof. intros HC HE HQ. induction p; simpl; naive_solver. Qed.

Lemma every_bind {Q R} C E (P : R -> Prop) (p : Prog Q) f :
  every C E (fun q => every C E P (f q)) p -> every C E P (pbind p f).
Proof. induction p; simpl; naive_solver. Qed.

Lemma every_and {R} (C C' : Call -> Prop) (E E' : Event -> Prop) (Q Q' : R -> Prop) p :
  every C E Q p -> every C' E' Q' p -> every (fun c => C c /\ C' c) (fun e => E e /\ E' e) (fun r => Q r /\ Q' r) p.
Proof. induction p; simpl; naive_solver. Qed.

Lemma every_steps {R} C E (Q : R -> Prop) p tr p' :
  every C E Q p -> steps p tr p' ->
  every C E Q p' /\ forall a, a ∈ tr -> match a with Called c _ => C c | Polled _ => True | Notified e => E e end.
Proof.
  intros H Hs. induction Hs as [|p a p1 tr p2 Hst _ IH]; [split; [done | by intros a ?%elem_of_nil]|].
  assert (Ha : match a with Called c _ => C c | Polled _ => True | Notified e => E e end /\ every C E Q p1)
    by (destruct Hst; simpl in H; naive_solver).
  destruct Ha as [Ha H1]. destruct (IH H1) as [H2 Htr]. split; [done|].
  intros b [->|Hb]%elem_of_cons; [done | by apply Htr].
Qed.

(** A program run against a given upstream, its trace and where it stops. *)
Fixpoint run {R} (answers : forall c, Answer c) (cancelled : bool) (p : Prog R) : list Action * Prog R :=
  match p with
  | Up c k => let '(tr, q) := run answers cancelled (k (answers c)) in (Called c (answers c) :: tr, q)
  | Poll k => let '(tr, q) := run answers cancelled (k cancelled) in (Polled cancelled :: tr, q)
  | Notify e k => let '(tr, q) := run answers cancelled k in (Notified e :: tr, q)
  | _ => ([], p)
  end.

Lemma run_steps {R} answers cancelled (p : Prog R) : steps p (run answers cancelled p).1 (run answers cancelled p).2.
Proof.
  induction p as [r|c k IH|k IH|e k IH|]; cbn [run]; [constructor| | | |constructor].
  - specialize (IH (answers c)). destruct (run _ _ _). econstructor; [constructor | exact IH].
  - specialize (IH cancelled). destruct (run _ _ _). econstructor; [constructor | exact IH].
  - destruct (run _ _ _). econstructor; [constructor | exact IH].
Qed.

Lemma run_called {R} (P : forall c, Answer c -> Prop) answers cancelled (p : Prog R) c a :
  (forall c, P c (answers c)) -> Called c a ∈ (run answers cancelled p).1 -> P c a.
Proof.
  intros HP. assert (H : Forall (fun x => match x with Called c a => P c a | _ => True end) (run answers cancelled p).1).
  { induction p as [r|c' k IH|k IH|e k IH|]; cbn [run]; try by constructor.
    - specialize (IH (answers c')). destruct (run _ _ _). by constructor.
    - specialize (IH cancelled). destruct (run _ _ _). by constructor.
    - destruct (run _ _ _). by constructor. }
  rewrite Forall_forall in H. apply (H (Called c a)).
Qed.

(** ** All pages of the bucket list (buckets.go) *)

Definition DefaultBucketPageSize : Z := 10000.
Definition no_page : Failure :=
  {| f_error := {| ue_api := None; ue_response := None |}; f_cause := None; f_body := None |}.
Definition page_input (token : option gostring) : ListBucketsInput :=
  {| lbi_MaxBuckets := DefaultBucketPageSize; lbi_BucketRegion := None; lbi_Prefix := None; lbi_ContinuationToken := token |}.

(** The result is the first page with its buckets and token replaced. *)
Definition append_page (acc : option ListBucketsOutput) (page : ListBucketsOutput) : ListBucketsOutput :=
  match acc with
  | None => {| lbo_Buckets := lbo_Buckets page; lbo_ContinuationToken := None; lbo_Prefix := lbo_Prefix page |}
  | Some out => {| lbo_Buckets := lbo_Buckets out ++ lbo_Buckets page; lbo_ContinuationToken := lbo_ContinuationToken out;
                   lbo_Prefix := lbo_Prefix out |}
  end.

Fixpoint list_pages (fuel : nat) (acc : option ListBucketsOutput) (token : option gostring) (seen : gset gostring)
    : Prog (result Failure ListBucketsOutput) :=
  match fuel with
  | O => Spin
  | Datatypes.S fuel =>
    Poll (fun cancelled => if cancelled then Ret (Err no_page) else
    Up (ListBuckets (page_input token)) (fun answer =>
      match answer with
      | Err e => Ret (Err e)
      | Ok page =>
        Poll (fun cancelled => if cancelled then Ret (Err no_page) else
        let acc := append_page acc page in
        let next := default [] (lbo_ContinuationToken page) in
        if decide (next = []) then Ret (Ok acc)
        else if decide (next ∈ seen) then Ret (Err no_page)
        else list_pages fuel (Some acc) (Some next) ({[ next ]} ∪ seen))
      end))
  end.
Definition ListAllBuckets (fuel : nat) : Prog (result Failure ListBucketsOutput) := list_pages fuel None None ∅.
