(* ===== verification/HandlerBase.v ===== *)
(** * What the S3 handlers share (src/internal/server)

    The request's context, the parts of inputs and responses that many handlers
    build, ACL and deletion headers, and upload metadata. *)

From S2P Require Import Prelude GoStrings Http NetIP SigV4 Stream Authz S3Xml S3Http XmlDecode XmlBody Lifecycle Upstream.

#[local] Open Scope Z_scope.

(** ** The context of a request *)

Record Context := {
  cx_rules : list Rule;                        (* RulesFromRequest *)
  cx_uploader : gostring;                      (* UploaderFromRequest *)
  cx_sigv4 : option (Auth * gostring);         (* the verified signature and its secret *)
  cx_trailer : Header;                         (* r.Trailer before the body is read *)
  cx_lateTrailer : Header;                     (* r.Trailer after it was read *)
  cx_bodyEnd : StreamErr;                      (* how the transport of the body ends *)
  cx_schedule : list nat;                      (* how many octets its reads deliver *)
  cx_requiredKeys : list gostring;             (* RequiredUploadMetadataKeys *)
  cx_notifier : bool;                          (* uploadNotifier is set *)
  cx_now : instant;
  cx_pages : nat                               (* fuel for listing all buckets *)
}.

(** ** Responses *)

Definition no_headers : Header := ∅.
Definition forbidden : Response := WriteError no_headers 403 (str "AccessDenied") (str "Forbidden").
Definition refuse (code : string) (msg : gostring) : Response := WriteError no_headers 400 (str code) msg.
Definition bad (msg : gostring) : Response := refuse "InvalidArgument" msg.
Definition rejected (e : Reject) : Response := WriteError no_headers 400 e.1 e.2.
Definition not_implemented (msg : gostring) : Response := WriteError no_headers 501 (str "NotImplemented") msg.

(** A response header for each field that is set. *)
Definition set_header (h : Header) (f : string * option gostring) : Header :=
  match f.2 with Some v => hset h (str f.1) v | None => h end.
Definition set_headers (h : Header) (fields : list (string * option gostring)) : Header := fold_left set_header fields h.
Definition enum (v : gostring) : option gostring := if decide (v = []) then None else Some v.
Definition int_field (v : option Z) : option gostring := FormatInt <$> v.
Definition bool_field (v : option bool) : option gostring := BoolString <$> v.
Definition time_text (v : option instant) : option gostring := FormatHTTPTime <$> v.
Definition ToString (v : option gostring) : gostring := default [] v.

Definition checksum_headers (value : ChecksumAlgorithm -> option gostring) : list (string * option gostring) :=
  [("x-amz-checksum-crc32", value Crc32); ("x-amz-checksum-crc32c", value Crc32c); ("x-amz-checksum-crc64nvme", value Crc64nvme);
   ("x-amz-checksum-sha1", value Sha1); ("x-amz-checksum-sha256", value Sha256)]%string.
Definition checksum_elems (value : ChecksumAlgorithm -> option gostring) : list WCall :=
  elem_str "ChecksumCRC32" (value Crc32) ++ elem_str "ChecksumCRC32C" (value Crc32c) ++
  elem_str "ChecksumCRC64NVME" (value Crc64nvme) ++ elem_str "ChecksumSHA1" (value Sha1) ++
  elem_str "ChecksumSHA256" (value Sha256).

Section Shared.
Context {U : UnicodeCase} {MI : MapIter} {S : SDK} {G : GoText}.

Definition WriteFailure (f : Failure) : Response := WriteUpstreamError no_headers (f_error f).

(** ** Reading the request *)

Definition expected_owner (r : Request) : option gostring := trimmed_header (Hdr r) (str "x-amz-expected-bucket-owner").
Definition bucket_input (r : Request) (bucket : gostring) : BucketInput :=
  {| bi_Bucket := bucket; bi_ExpectedBucketOwner := expected_owner r |}.
Definition object_input (r : Request) (bucket key : gostring) (version : option gostring) (payer : gostring) : ObjectInput :=
  {| oi_Bucket := bucket; oi_Key := key; oi_VersionId := version; oi_ExpectedBucketOwner := expected_owner r;
     oi_RequestPayer := payer |}.

Definition query_value (r : Request) (name : string) : option gostring := enum (qget (Query r) (str name)).
Definition trimmed_query (r : Request) (name : string) : option gostring := enum (TrimSpace (qget (Query r) (str name))).
Definition header_value (r : Request) (name : string) : option gostring := enum (hget (Hdr r) (str name)).
Definition trimmed_value (r : Request) (name : string) : option gostring := trimmed_header (Hdr r) (str name).
Definition invalid_payer : Response := bad (str "invalid x-amz-request-payer header").

(** A decimal parameter within the bounds of an [int32]. *)
Definition int_parameter (v : option gostring) (min : Z) (msg : string) : result gostring (option Z) :=
  match v with
  | None => Ok None
  | Some v => match ParseInt v 10 32 with
              | Some n => if n <? min then Err (str msg) else Ok (Some n)
              | None => Err (str msg)
              end
  end.

(** The octets of the body, as far as they can be read. *)
Definition body_octets (cx : Context) (r : Request) : option gostring :=
  read_body (bool_decide (cx_bodyEnd cx = EOF)) (Body r).

Definition decode_checked {A : Type} (cx : Context) (r : Request) (decode : gostring -> option A) (malformed : string)
    : result Reject A :=
  decodeXMLWithChecksums (Hdr r) (cx_trailer cx) (cx_lateTrailer cx) (body_octets cx r) decode (str malformed).

(** ** Writing bodies (handlers_object.go) *)

Fixpoint raw_octets (b : ReqBody) : gostring :=
  match b with NoBody => [] | RawBody o => o | HashedBody inner _ => raw_octets inner end.
Definition body_source (cx : Context) (r : Request) : source :=
  {| src_bytes := raw_octets (Body r); src_end := cx_bodyEnd cx; src_sizes := cx_schedule cx |}.
Definition body_digest (b : ReqBody) : option gostring := match b with HashedBody _ d => Some d | _ => None end.

(** [writeBodyValidationError]: the response of the first validation error. *)
Definition body_error_response (e : StreamErr) : option Response :=
  if decide (e = ErrSig ErrPayloadHashMismatch) then
    Some (refuse "XAmzContentSHA256Mismatch" (str "The provided x-amz-content-sha256 does not match the request body"))
  else if IsTrailerChecksumMismatchError e then
    Some (refuse "BadDigest" (str "The aws-chunked payload does not match its trailing checksum"))
  else if IsChunkSignatureValidationError e then
    Some (refuse "SignatureDoesNotMatch" (str "Invalid aws-chunked chunk signature"))
  else None.
Definition writeBodyValidationError (err recorded : option StreamErr) : option Response :=
  match recorded ≫= body_error_response with
  | Some resp => Some resp
  | None => err ≫= body_error_response
  end.

(** The decoded body of a write and its length, or the error response. *)
Definition decode_body (cx : Context) (r : Request) : result Response (S3Body * Z) :=
  let '(auth, secret) := match cx_sigv4 cx with Some (a, s) => (Some a, s) | None => (None, []) end in
  match ChunkSignatureVerifierFromRequest (Hdr r) auth secret with
  | Err _ => Err (refuse "InvalidRequest" (str "Unsupported or invalid streaming payload signature"))
  | Ok verifier =>
    match DecodeBodyForS3Write (Hdr r) (ContentLength r) (body_source cx r) (body_digest (Body r)) verifier with
    | Ok bl => Ok bl
    | Err e =>
      if decide (e ∈ [ErrContentLengthRequired; ErrMissingDecodedContentLength; ErrInvalidDecodedContentLength])
      then Err (WriteError no_headers 411 (str "MissingContentLength") (str "Content-Length required"))
      else match writeBodyValidationError (Some e) None with
           | Some resp => Err resp
           | None => Err (refuse "InvalidRequest" (str "Invalid request body"))
           end
    end
  end.

(** ** ACL headers (handlers_bucket_config.go) *)

Definition aclHeadersAreNoOp (h : Header) (bucketLevel : bool) : bool :=
  if existsb (fun nv : gostring * list gostring => HasPrefix (ToLower nv.1) (str "x-amz-grant-")) (map_iter h) then false
  else
    match hvalues h (str "x-amz-acl") with
    | _ :: _ :: _ => false
    | aclValues =>
      let acl := ToLower (TrimSpace (default [] (head aclValues))) in
      if decide (acl = [] \/ acl = str "private") then true
      else if decide (acl = str "bucket-owner-read" \/ acl = str "bucket-owner-full-control") then negb bucketLevel
      else false
    end.
Definition aclWriteIsNoOp (r : Request) (bucketLevel : bool) : bool :=
  if negb (ContentLength r =? 0) then false else aclHeadersAreNoOp (Hdr r) bucketLevel.
Definition unsupported_acl (bucketLevel : bool) : Response :=
  not_implemented (if bucketLevel
    then str "Only the private canned ACL is supported; access is managed via LDAP groups"
    else str "Only owner-retaining canned ACLs are supported; access is managed via LDAP groups").

(** ** Deletion headers (handlers_object.go) *)

Definition supportedDeleteConditions (h : Header) : bool :=
  negb (existsb (fun nv : gostring * list gostring =>
    bool_decide (ToLower nv.1 ∈ [str "x-amz-if-match-size"; str "x-amz-if-match-last-modified-time"])) (map_iter h)).
Definition unsupported_condition : Response :=
  not_implemented (str "Size and last-modified-time deletion conditions are not supported").

Definition requireNoGovernanceRetentionBypass (h : Header) : result Response unit :=
  let invalid := bad (str "invalid x-amz-bypass-governance-retention header") in
  match hvalues h (str "x-amz-bypass-governance-retention") with
  | [] => Ok tt
  | [v] =>
    match ParseOptionalBool v with
    | Err _ => Err invalid
    | Ok (Some true) => Err (WriteError no_headers 403 (str "AccessDenied") (str "Governance-retention bypass is not permitted"))
    | Ok _ => Ok tt
    end
  | _ => Err invalid
  end.

(** ** Upload properties (handlers_upload_properties.go) *)

Definition requireSupportedUploadProperties (h : Header) : result Response unit :=
  match list_find (fun nv : gostring * list gostring =>
          HasPrefix (ToLower nv.1) (str "x-amz-object-lock-") = true \/ ToLower nv.1 = str "x-amz-write-offset-bytes") (map_iter h) with
  | Some (_, nv) => Err (not_implemented (str "Unsupported upload header: " ++ ToLower nv.1))
  | None => Ok tt
  end.

(** A header that may occur once. *)
Definition single_header (h : Header) (name : string) : result gostring (option gostring) :=
  match hvalues h (str name) with
  | [] => Ok None
  | [v] => Ok (Some v)
  | _ => Err (str "multiple " ++ str name ++ str " headers are not supported")
  end.
Definition joined_header (h : Header) (name : string) : option gostring :=
  match hvalues h (str name) with [] => None | values => Some (Join values (str ",")) end.

(** One token of Content-Encoding: the transport encoding is dropped. *)
Definition add_encoding (h : Header) (acc : result gostring (list gostring)) (token : gostring) : result gostring (list gostring) :=
  let! encodings := acc in
  let encoding := TrimSpace token in
  if decide (encoding = []) then Ok encodings
  else if EqualFold encoding (str "aws-chunked") then
    if IsAWSChunkedPayload h then Ok encodings
    else Err (str "aws-chunked content encoding requires a streaming payload")
  else Ok (encodings ++ [encoding]).

Definition parseUploadProperties (h : Header) : result gostring uploadProperties :=
  let! disposition := single_header h "Content-Disposition" in
  let! tagging := single_header h "x-amz-tagging" in
  let! redirect := single_header h "x-amz-website-redirect-location" in
  let! encodings := fold_left (add_encoding h)
                      (flat_map (fun v => Split v ","%byte) (hvalues h (str "Content-Encoding"))) (Ok []) in
  let! storageClass :=
    match hvalues h (str "x-amz-storage-class") with
    | [] => Ok []
    | [v] => if blank_text v then Err (str "invalid x-amz-storage-class header") else ParseStorageClass v
    | _ => Err (str "invalid x-amz-storage-class header")
    end in
  Ok {| up_CacheControl := joined_header h "Cache-Control"; up_ContentDisposition := disposition;
        up_ContentEncoding := match encodings with [] => None | _ => Some (Join encodings (str ",")) end;
        up_ContentLanguage := joined_header h "Content-Language"; up_Tagging := tagging;
        up_StorageClass := storageClass; up_WebsiteRedirectLocation := redirect |}.

(** ** Upload metadata (handlers_object.go, config.go) *)

Definition NormalizeRequiredMetadataKey (v : gostring) : gostring :=
  TrimSpace (TrimPrefix (ToLower (TrimSpace v)) (str "x-amz-meta-")).

Definition add_meta (meta : Metadata) (nv : gostring * list gostring) : Metadata :=
  let kl := ToLower nv.1 in
  if HasPrefix kl (str "x-amz-meta-") && bool_decide (nv.2 <> []) then
    let mk := NormalizeRequiredMetadataKey kl in
    if decide (mk = []) then meta else <[mk := Join nv.2 (str ",")]> meta
  else meta.
Definition extractAmzMeta (h : Header) : Metadata := fold_left add_meta (map_iter h) ∅.

Definition missingRequiredUploadMetadata (meta : Metadata) (required : list gostring) : list gostring :=
  map (fun key => str "x-amz-meta-" ++ key) (filter (fun key => meta !! key = None) required).

Definition ensureUploadedByMetadata (meta : Metadata) (uploader : gostring) : Metadata :=
  let uploader := TrimSpace uploader in
  if decide (uploader = []) then meta else <[str "uploaded-by" := uploader]> meta.

(** The metadata of a new object, or the response that refuses it. *)
Definition upload_metadata (cx : Context) (r : Request) : result Response Metadata :=
  let meta := ensureUploadedByMetadata (extractAmzMeta (Hdr r)) (cx_uploader cx) in
  match missingRequiredUploadMetadata meta (cx_requiredKeys cx) with
  | [] => Ok meta
  | missing => Err (refuse "InvalidRequest" (str "Missing required metadata header(s): " ++ Join missing (str ", ")))
  end.

Definition parseExpiresHeader (h : Header) : result Response (option instant) :=
  let raw := TrimSpace (hget h (str "Expires")) in
  if decide (raw = []) then Ok None
  else match ParseHTTPTime raw with
       | Some t => Ok (Some t)
       | None => Err (bad (str "invalid Expires header"))
       end.

(** If-Match and If-None-Match, of which a write may have one. *)
Definition write_conditions (r : Request) : result Response (option gostring * option gostring) :=
  match trimmed_value r "If-Match", trimmed_value r "If-None-Match" with
  | Some _, Some _ => Err (refuse "InvalidRequest" (str "If-Match and If-None-Match cannot both be set"))
  | ifMatch, ifNoneMatch => Ok (ifMatch, ifNoneMatch)
  end.

(** ** Notifications (upload_notifications.go) *)

Definition notifyUpload {R} (cx : Context) (name : EventName) (bucket key etag version upload : gostring) (k : Prog R) : Prog R :=
  if cx_notifier cx then
    Notify {| ev_name := name; ev_Bucket := bucket; ev_Key := key; ev_ETag := etag; ev_VersionID := version;
              ev_UploadID := upload; ev_Uploader := cx_uploader cx; ev_OccurredAt := cx_now cx |} k
  else k.

(** A parse step whose failure is already a response. *)
Definition proceed {A : Type} (m : result Response A) (k : A -> Prog Response) : Prog Response :=
  match m with Ok x => k x | Err resp => Ret resp end.

End Shared.

Notation "'need!' x := m 'in' k" := (proceed m (fun x => k))
  (at level 10, x name, m at level 200, k at level 200) : go_scope.
Notation "'need!' ' p := m 'in' k" := (proceed m (fun x => match x with p => k end))
  (at level 10, p pattern, m at level 200, k at level 200) : go_scope.
