(* ===== verification/HandlersBucket.v ===== *)
(** * Bucket handlers (src/internal/server/handlers_bucket.go,
    handlers_bucket_config.go, handlers_lifecycle.go, and the listings of
    handlers_object.go) *)

From S2P Require Import Prelude GoStrings Http NetIP SigV4 Stream Authz Routing S3Xml S3Http XmlDecode XmlBody Lifecycle Upstream HandlerBase.

#[local] Open Scope Z_scope.

Section Handlers.
Context {U : UnicodeCase} {MI : MapIter} {S : SDK} {G : GoText} {X : XMLLexer}.
Variables (cx : Context) (r : Request).

(** ** ListBuckets *)

(** One query parameter of [parseListBucketsQuery]; the flag is [paginated]. *)
Definition list_buckets_parameter (acc : result gostring (ListBucketsInput * bool)) (nv : gostring * list gostring)
    : result gostring (ListBucketsInput * bool) :=
  let! ' (i, paginated) := acc in
  let name := nv.1 in
  if decide (name = str "x-id") then Ok (i, paginated)
  else if negb (bool_decide (name ∈ map str ["max-buckets"; "bucket-region"; "prefix"; "continuation-token"]%string)) then
    Err (str "unsupported query parameter for ListBuckets")
  else
    match nv.2 with
    | [value] =>
      if decide (name = str "max-buckets") then
        match ParseInt value 10 32 with
        | Some limit =>
          if (limit <? 1) || (DefaultBucketPageSize <? limit) then Err (str "max-buckets must be between 1 and 10000")
          else Ok ({| lbi_MaxBuckets := limit; lbi_BucketRegion := lbi_BucketRegion i; lbi_Prefix := lbi_Prefix i;
                      lbi_ContinuationToken := lbi_ContinuationToken i |}, true)
        | None => Err (str "max-buckets must be between 1 and 10000")
        end
      else if decide (name = str "bucket-region") then
        if blank_text value then Err (str "bucket-region must not be empty")
        else Ok ({| lbi_MaxBuckets := lbi_MaxBuckets i; lbi_BucketRegion := Some value; lbi_Prefix := lbi_Prefix i;
                    lbi_ContinuationToken := lbi_ContinuationToken i |}, true)
      else if decide (name = str "prefix") then
        Ok ({| lbi_MaxBuckets := lbi_MaxBuckets i; lbi_BucketRegion := lbi_BucketRegion i; lbi_Prefix := Some value;
               lbi_ContinuationToken := lbi_ContinuationToken i |}, true)
      else if 1024 <? zlen value then Err (str "continuation-token must not exceed 1024 bytes")
      else Ok ({| lbi_MaxBuckets := lbi_MaxBuckets i; lbi_BucketRegion := lbi_BucketRegion i; lbi_Prefix := lbi_Prefix i;
                  lbi_ContinuationToken := Some value |}, true)
    | _ => Err (str "ListBuckets parameters require a single value")
    end.
Definition parseListBucketsQuery (q : Values) : result gostring (ListBucketsInput * bool) :=
  fold_left list_buckets_parameter (map_iter q) (Ok (page_input None, false)).

(** A page whose token repeats the one it was asked for is an error. *)
Definition list_page (i : ListBucketsInput) : Prog (result Failure ListBucketsOutput) :=
  Up (ListBuckets i) (fun answer =>
    match answer with
    | Ok out =>
      if bool_decide (ToString (lbo_ContinuationToken out) <> []) &&
         bool_decide (ToString (lbo_ContinuationToken out) = ToString (lbi_ContinuationToken i))
      then Ret (Err no_page) else Ret (Ok out)
    | Err e => Ret (Err e)
    end).

(** The buckets the caller has any permission on. *)
Definition visible (rules : list Rule) (b : BucketEntry) : bool :=
  match be_Name b with Some name => negb (BucketPerm rules name =? PermNone) | None => false end.
Definition list_buckets_response (rules : list Rule) (out : ListBucketsOutput) : Response :=
  xml_response no_headers 200 (root "ListAllMyBucketsResult" (
    within "Buckets" (flat_map (fun b =>
      within "Bucket" (elem_str "Name" (be_Name b) ++ elem_time "CreationDate" (be_CreationDate b)))
      (List.filter (visible rules) (lbo_Buckets out))) ++
    elem_enum "ContinuationToken" (ToString (lbo_ContinuationToken out)) ++
    elem_str "Prefix" (lbo_Prefix out))).

Definition handleListBuckets : Prog Response :=
  parse! (i, paginated) := parseListBucketsQuery (Query r) catch e => bad e in
  pbind (if paginated : bool then list_page i else ListAllBuckets (cx_pages cx)) (fun res =>
    match res with
    | Err f => Ret (WriteFailure f)
    | Ok out => Ret (list_buckets_response (cx_rules cx) out)
    end).

(** ** Creating and deleting buckets *)

Definition unsupported_creation (name : gostring) : bool :=
  bool_decide (name <> str "x-amz-bucket-object-lock-enabled") &&
  (HasPrefix name (str "x-amz-bucket-object-lock-") || HasPrefix name (str "x-amz-object-lock-") ||
   bool_decide (name = str "x-amz-bucket-namespace")).

(** Object lock and ownership, or the response that refuses a header. *)
Definition parseCreateBucketHeaders : result Response (option bool * gostring) :=
  match list_find (fun nv : gostring * list gostring => unsupported_creation (ToLower nv.1) = true) (map_iter (Hdr r)) with
  | Some (_, nv) => Err (not_implemented (str "Unsupported bucket creation header: " ++ ToLower nv.1))
  | None =>
    let! lock :=
      match hvalues (Hdr r) (str "x-amz-bucket-object-lock-enabled") with
      | [] => Ok None
      | [v] => if decide (v = str "true") then Ok (Some true) else if decide (v = str "false") then Ok (Some false)
               else Err (bad (str "x-amz-bucket-object-lock-enabled must contain one true or false value"))
      | _ => Err (bad (str "x-amz-bucket-object-lock-enabled must contain one true or false value"))
      end in
    let! ownership :=
      match hvalues (Hdr r) (str "x-amz-object-ownership") with
      | [] => Ok []
      | [v] => if decide (v = ObjectOwnershipBucketOwnerEnforced) then Ok v
               else if decide (v ∈ ObjectOwnershipACLs) then
                 Err (not_implemented (str "ACL-enabled Object Ownership is unsupported; use BucketOwnerEnforced"))
               else Err (bad (str "Invalid x-amz-object-ownership value"))
      | _ => Err (bad (str "x-amz-object-ownership must contain one value"))
      end in
    Ok (lock, ownership)
  end.

Definition handleCreateBucket (bucket : gostring) : Prog Response :=
  check! CanCreateBucket (cx_rules cx) bucket or forbidden in
  check! aclHeadersAreNoOp (Hdr r) true or unsupported_acl true in
  need! ' (lock, ownership) := parseCreateBucketHeaders in
  parse! location := decodeXMLWithContentMD5 (Hdr r) (body_octets cx r) DecodeCreateBucketConfig
    (str "Invalid or unsupported bucket configuration; only LocationConstraint is supported") catch e => rejected e in
  Up (CreateBucket {| cbi_Bucket := bucket; cbi_ObjectLockEnabledForBucket := lock; cbi_ObjectOwnership := ownership;
                      cbi_LocationConstraint := location |}) (fun answer =>
    parse! _ := answer catch f => WriteFailure f in Ret (WriteHeader no_headers 200)).

(** A call whose only answer is its success. *)
Definition plain_call (c : Call) (status : Z) : Prog Response :=
  Up c (fun answer => parse! _ := answer catch f => WriteFailure f in Ret (WriteHeader no_headers status)).

Definition handleDeleteBucket (bucket : gostring) : Prog Response :=
  check! CanDeleteBucket (cx_rules cx) bucket or forbidden in
  plain_call (DeleteBucket (bucket_input r bucket)) 204.

Definition handleHeadBucket (bucket : gostring) : Prog Response :=
  check! CanRead (cx_rules cx) bucket or forbidden in
  Up (HeadBucket (bucket_input r bucket)) (fun answer =>
    parse! out := answer catch f => WriteUpstreamHeadError no_headers (f_error f) in
    Ret (WriteHeader (set_headers no_headers
      [("x-amz-bucket-region", hb_BucketRegion out); ("x-amz-bucket-arn", hb_BucketArn out);
       ("x-amz-bucket-location-name", hb_BucketLocationName out);
       ("x-amz-bucket-location-type", enum (hb_BucketLocationType out));
       ("x-amz-access-point-alias", bool_field (hb_AccessPointAlias out))]%string) 200)).

Definition handleGetBucketLocation (bucket : gostring) : Prog Response :=
  check! negb (BucketPerm (cx_rules cx) bucket =? PermNone) or forbidden in
  Up (GetBucketLocation (bucket_input r bucket)) (fun answer =>
    parse! loc := answer catch f => WriteFailure f in
    Ret (xml_response no_headers 200
      (root "LocationConstraint" (if decide (loc = []) then [] else [RawString (Escape loc)])))).

(** ** Versioning and tagging *)

Definition handlePutBucketVersioning (bucket : gostring) : Prog Response :=
  check! CanConfigure (cx_rules cx) bucket or forbidden in
  parse! cfg := decode_checked cx r DecodeVersioningConfig "Invalid versioning configuration" catch e => rejected e in
  plain_call (PutBucketVersioning (bucket_input r bucket) cfg (trimmed_value r "x-amz-mfa")) 200.

Definition handleGetBucketVersioning (bucket : gostring) : Prog Response :=
  check! CanRead (cx_rules cx) bucket or forbidden in
  Up (GetBucketVersioning (bucket_input r bucket)) (fun answer =>
    parse! (status, mfaDelete) := answer catch f => WriteFailure f in
    Ret {| resp_status := 200; resp_headers := hset no_headers (str "Content-Type") (str "application/xml");
           resp_body := XmlDoc xmlHeader (EncodeVersioningConfig status mfaDelete) |}).

Definition handlePutBucketTagging (bucket : gostring) : Prog Response :=
  check! CanConfigure (cx_rules cx) bucket or forbidden in
  parse! tagging := decode_checked cx r DecodeBucketTagging "Invalid tagging payload" catch e => rejected e in
  plain_call (PutBucketTagging (bucket_input r bucket) tagging) 200.

Definition handleGetBucketTagging (bucket : gostring) : Prog Response :=
  check! CanRead (cx_rules cx) bucket or forbidden in
  Up (GetBucketTagging (bucket_input r bucket)) (fun answer =>
    parse! tags := answer catch f => WriteFailure f in Ret (WriteTaggingResponse no_headers 200 tags)).

Definition handleDeleteBucketTagging (bucket : gostring) : Prog Response :=
  check! CanDeleteBucket (cx_rules cx) bucket or forbidden in
  plain_call (DeleteBucketTagging (bucket_input r bucket)) 204.

(** ** Lifecycle *)

Definition parseLifecycleTransitionSize : result gostring gostring :=
  let invalid := str "x-amz-transition-default-minimum-object-size must contain one varies_by_storage_class or all_storage_classes_128K value" in
  match hvalues (Hdr r) (str "x-amz-transition-default-minimum-object-size") with
  | [] => Ok []
  | [v] => if decide (TrimSpace v ∈ TransitionDefaultMinimumObjectSizeValues) then Ok (TrimSpace v) else Err invalid
  | _ => Err invalid
  end.
Definition transition_size_header (size : gostring) : Header :=
  set_headers no_headers [("x-amz-transition-default-minimum-object-size"%string, enum size)].

Definition handlePutBucketLifecycleConfiguration (bucket : gostring) : Prog Response :=
  check! CanConfigure (cx_rules cx) bucket or forbidden in
  parse! transitionSize := parseLifecycleTransitionSize catch e => bad e in
  parse! cfg := decode_checked cx r decodeLifecycleConfigXML "Invalid lifecycle configuration" catch e => rejected e in
  Up (PutBucketLifecycle (bucket_input r bucket) cfg transitionSize) (fun answer =>
    parse! size := answer catch f => WriteFailure f in
    Ret (WriteHeader (transition_size_header size) 200)).

Definition handleGetBucketLifecycleConfiguration (bucket : gostring) : Prog Response :=
  check! CanRead (cx_rules cx) bucket or forbidden in
  Up (GetBucketLifecycle (bucket_input r bucket)) (fun answer =>
    parse! out := answer catch f => WriteFailure f in
    Ret {| resp_status := 200;
           resp_headers := hset (transition_size_header (bl_TransitionSize out)) (str "Content-Type") (str "application/xml");
           resp_body := XmlDoc xmlHeader (encodeLifecycleConfigXML (bl_Rules out)) |}).

Definition handleDeleteBucketLifecycleConfiguration (bucket : gostring) : Prog Response :=
  check! CanDeleteBucket (cx_rules cx) bucket or forbidden in
  plain_call (DeleteBucketLifecycle (bucket_input r bucket)) 204.

(** ** Answers of the gateway itself *)

Definition isUpstreamNotFound (f : Failure) : bool :=
  match ue_response (f_error f) with Some (status, _) => status =? 404 | None => false end.

(** [requireBucketExists] and [requireObjectExists]: go on, or answer with the error. *)
Definition requireBucketExists (bucket : gostring) (k : Prog Response) : Prog Response :=
  Up (HeadBucket (bucket_input r bucket)) (fun answer =>
    match answer with
    | Ok _ => k
    | Err f => Ret (if isUpstreamNotFound f
                    then WriteError no_headers 404 (str "NoSuchBucket") (str "The specified bucket does not exist")
                    else WriteFailure f)
    end).
Definition plain_read (o : ObjectInput) : ReadObjectInput :=
  {| ro_object := o; ro_PartNumber := None; ro_Range := None; ro_IfMatch := None; ro_IfNoneMatch := None;
     ro_IfModifiedSince := None; ro_IfUnmodifiedSince := None; ro_ChecksumMode := false; ro_ResponseCacheControl := None;
     ro_ResponseContentDisposition := None; ro_ResponseContentEncoding := None; ro_ResponseContentLanguage := None;
     ro_ResponseContentType := None; ro_ResponseExpires := None |}.
Definition requireObjectExists (bucket key : gostring) (k : Prog Response) : Prog Response :=
  parse! payer := ParseRequestPayerHeader (Hdr r) or invalid_payer in
  Up (HeadObject (plain_read (object_input r bucket key (trimmed_query r "versionId") payer))) (fun answer =>
    match answer with
    | Ok _ => k
    | Err f => Ret (if isUpstreamNotFound f
                    then WriteError no_headers 404 (str "NoSuchKey") (str "The specified key does not exist")
                    else WriteFailure f)
    end).

(** [writeCannedFullControlACL]. *)
Definition canned_acl : Response :=
  let owner := [Elem (str "ID") (str "s3gateway"); Elem (str "DisplayName") (str "s3gateway")] in
  xml_response no_headers 200 (root "AccessControlPolicy" (
    within "Owner" owner ++
    within "AccessControlList" (within "Grant" (
      (Start (str "Grantee") [(str "xmlns:xsi", str "http://www.w3.org/2001/XMLSchema-instance"); (str "xsi:type", str "CanonicalUser")]
         :: owner ++ [End_ (str "Grantee")]) ++
      [Elem (str "Permission") (str "FULL_CONTROL")])))).

Definition handleGetBucketACL (bucket : gostring) : Prog Response :=
  check! CanRead (cx_rules cx) bucket or forbidden in
  requireBucketExists bucket (Ret canned_acl).
Definition handlePutBucketACL (bucket : gostring) : Prog Response :=
  check! CanConfigure (cx_rules cx) bucket or forbidden in
  check! aclWriteIsNoOp r true or unsupported_acl true in
  requireBucketExists bucket (Ret (WriteHeader no_headers 200)).
Definition handleGetObjectACL (bucket key : gostring) : Prog Response :=
  check! CanRead (cx_rules cx) bucket or forbidden in
  requireObjectExists bucket key (Ret canned_acl).
Definition handlePutObjectACL (bucket key : gostring) : Prog Response :=
  check! CanConfigure (cx_rules cx) bucket or forbidden in
  check! aclWriteIsNoOp r false or unsupported_acl false in
  requireObjectExists bucket key (Ret (WriteHeader no_headers 200)).

Definition writeEmptyConfigElement (name : string) : Response := xml_response no_headers 200 (root name []).
Definition no_such (code msg : string) : Response := WriteError no_headers 404 (str code) (str msg).

(** What each configuration subresource answers. *)
Definition config_answers : list (string * Response) :=
  [("policy", no_such "NoSuchBucketPolicy" "The bucket policy does not exist");
   ("policyStatus", no_such "NoSuchBucketPolicy" "The bucket policy does not exist");
   ("cors", no_such "NoSuchCORSConfiguration" "The CORS configuration does not exist");
   ("website", no_such "NoSuchWebsiteConfiguration" "The specified bucket does not have a website configuration");
   ("replication", no_such "ReplicationConfigurationNotFoundError" "The replication configuration was not found");
   ("logging", writeEmptyConfigElement "BucketLoggingStatus");
   ("notification", writeEmptyConfigElement "NotificationConfiguration");
   ("accelerate", writeEmptyConfigElement "AccelerateConfiguration");
   ("requestPayment", xml_response no_headers 200 (root "RequestPaymentConfiguration" [Elem (str "Payer") (str "BucketOwner")]));
   ("publicAccessBlock", xml_response no_headers 200 (root "PublicAccessBlockConfiguration"
      [ElemBool (str "BlockPublicAcls") true; ElemBool (str "IgnorePublicAcls") true; ElemBool (str "BlockPublicPolicy") true;
       ElemBool (str "RestrictPublicBuckets") true]))]%string.

Definition handleBucketConfigRead (bucket key : gostring) : Prog Response :=
  check! CanRead (cx_rules cx) bucket or forbidden in
  requireBucketExists bucket (Ret (
    match list_find (fun a : string * Response => str a.1 = key) config_answers with
    | Some (_, (_, resp)) => resp
    | None => not_implemented (str "Operation not implemented")
    end)).

(** ** Listings *)

(** What the three object listings parse alike: encoding, attributes, owner, payer. *)
Definition list_input (bucket : gostring) (max : option Z) : result gostring ListInput :=
  match ParseEncodingType (qget (Query r) (str "encoding-type")) with
  | Err _ => Err (str "invalid encoding-type")
  | Ok et =>
    let attributes := qget (Query r) (str "optional-object-attributes") in
    let attributes := if decide (attributes = []) then TrimSpace (hget (Hdr r) (str "x-amz-optional-object-attributes")) else attributes in
    match ParseOptionalObjectAttributes attributes with
    | Err _ => Err (str "invalid optional-object-attributes")
    | Ok attrs =>
      match ParseRequestPayerHeader (Hdr r) with
      | Err _ => Err (str "invalid x-amz-request-payer header")
      | Ok payer =>
        Ok {| li_Bucket := bucket; li_Prefix := query_value r "prefix"; li_Delimiter := query_value r "delimiter"; li_Max := max;
              li_EncodingType := et; li_OptionalObjectAttributes := attrs; li_ExpectedBucketOwner := expected_owner r;
              li_RequestPayer := payer |}
      end
    end
  end.
Definition max_keys : result gostring (option Z) := int_parameter (query_value r "max-keys") 0 "invalid max-keys".

Definition charged (v : gostring) : Header := set_headers no_headers [("x-amz-request-charged"%string, enum v)].

Definition contents_calls (o : ObjectEntry) : list WCall :=
  within "Contents" (
    elem_str "Key" (oe_Key o) ++ elem_time "LastModified" (oe_LastModified o) ++ elem_str "ETag" (oe_ETag o) ++
    flat_map (elem_enum "ChecksumAlgorithm") (oe_ChecksumAlgorithm o) ++ elem_enum "ChecksumType" (oe_ChecksumType o) ++
    elem_int "Size" (oe_Size o) ++ elem_enum "StorageClass" (oe_StorageClass o) ++
    EncodeOwnerIDThenDisplayName (oe_Owner o) ++ EncodeRestoreStatus (oe_RestoreStatus o)).
Definition truncated_elem (v : option bool) : list WCall := [ElemBool (str "IsTruncated") (default false v)].

Definition handleListObjects (bucket : gostring) : Prog Response :=
  check! CanRead (cx_rules cx) bucket or forbidden in
  parse! max := max_keys catch e => bad e in
  parse! i := list_input bucket max catch e => bad e in
  Up (ListObjects i (query_value r "marker")) (fun answer =>
    parse! out := answer catch f => WriteFailure f in
    Ret (xml_response (charged (lo_RequestCharged out)) 200 (root "ListBucketResult" (
      elem_str "Name" (lo_Name out) ++ elem_str "Prefix" (lo_Prefix out) ++ elem_str "Marker" (lo_Marker out) ++
      elem_str "NextMarker" (lo_NextMarker out) ++ elem_str "Delimiter" (lo_Delimiter out) ++
      elem_int "MaxKeys" (lo_MaxKeys out) ++ elem_enum "EncodingType" (lo_EncodingType out) ++
      truncated_elem (lo_IsTruncated out) ++ EncodeCommonPrefixes (lo_CommonPrefixes out) ++
      flat_map contents_calls (lo_Contents out))))).

Definition handleListObjectsV2 (bucket : gostring) : Prog Response :=
  check! CanRead (cx_rules cx) bucket or forbidden in
  parse! max := max_keys catch e => bad e in
  parse! fetchOwner := ParseOptionalBool (qget (Query r) (str "fetch-owner")) or bad (str "invalid fetch-owner") in
  parse! i := list_input bucket max catch e => bad e in
  Up (ListObjectsV2 i (query_value r "continuation-token") (query_value r "start-after") fetchOwner) (fun answer =>
    parse! out := answer catch f => WriteFailure f in
    Ret (xml_response (charged (lo_RequestCharged out)) 200 (root "ListBucketResult" (
      elem_str "Name" (lo_Name out) ++ elem_str "Prefix" (lo_Prefix out) ++ elem_str "StartAfter" (lo_StartAfter out) ++
      elem_str "Delimiter" (lo_Delimiter out) ++ elem_int "MaxKeys" (lo_MaxKeys out) ++ elem_int "KeyCount" (lo_KeyCount out) ++
      elem_enum "EncodingType" (lo_EncodingType out) ++ elem_str "ContinuationToken" (lo_ContinuationToken out) ++
      elem_str "NextContinuationToken" (lo_NextContinuationToken out) ++ truncated_elem (lo_IsTruncated out) ++
      EncodeCommonPrefixes (lo_CommonPrefixes out) ++ flat_map contents_calls (lo_Contents out))))).

Definition version_calls (v : ObjectEntry) : list WCall :=
  within "Version" (
    elem_str "Key" (oe_Key v) ++ elem_str "VersionId" (oe_VersionId v) ++ elem_bool "IsLatest" (oe_IsLatest v) ++
    elem_time "LastModified" (oe_LastModified v) ++ elem_str "ETag" (oe_ETag v) ++ elem_int "Size" (oe_Size v) ++
    elem_enum "StorageClass" (oe_StorageClass v) ++ EncodeOwnerIDThenDisplayName (oe_Owner v) ++
    EncodeRestoreStatus (oe_RestoreStatus v)).
Definition marker_calls (d : ObjectEntry) : list WCall :=
  within "DeleteMarker" (
    elem_str "Key" (oe_Key d) ++ elem_str "VersionId" (oe_VersionId d) ++ elem_bool "IsLatest" (oe_IsLatest d) ++
    elem_time "LastModified" (oe_LastModified d) ++ EncodeOwnerIDThenDisplayName (oe_Owner d)).

Definition handleListObjectVersions (bucket : gostring) : Prog Response :=
  check! CanRead (cx_rules cx) bucket or forbidden in
  parse! max := max_keys catch e => bad e in
  parse! i := list_input bucket max catch e => bad e in
  Up (ListObjectVersions i (query_value r "key-marker") (query_value r "version-id-marker")) (fun answer =>
    parse! out := answer catch f => WriteFailure f in
    Ret (xml_response (charged (lo_RequestCharged out)) 200 (root "ListVersionsResult" (
      elem_str "Name" (lo_Name out) ++ elem_str "Prefix" (lo_Prefix out) ++ elem_str "KeyMarker" (lo_KeyMarker out) ++
      elem_str "VersionIdMarker" (lo_VersionIdMarker out) ++ elem_str "NextKeyMarker" (lo_NextKeyMarker out) ++
      elem_str "NextVersionIdMarker" (lo_NextVersionIdMarker out) ++ elem_str "Delimiter" (lo_Delimiter out) ++
      elem_int "MaxKeys" (lo_MaxKeys out) ++ elem_enum "EncodingType" (lo_EncodingType out) ++
      truncated_elem (lo_IsTruncated out) ++ EncodeCommonPrefixes (lo_CommonPrefixes out) ++
      flat_map version_calls (lo_Contents out) ++ flat_map marker_calls (lo_DeleteMarkers out))))).

(** The payer's error text is part of the answer here, and the encoding type is
    forwarded as it is. *)
Definition handleListMultipartUploads (bucket : gostring) : Prog Response :=
  check! CanRead (cx_rules cx) bucket or forbidden in
  parse! payer := ParseRequestPayerHeader (Hdr r) catch e => bad e in
  parse! max := int_parameter (query_value r "max-uploads") 1 "invalid max-uploads" catch e => bad e in
  Up (ListMultipartUploads
        {| li_Bucket := bucket; li_Prefix := query_value r "prefix"; li_Delimiter := query_value r "delimiter"; li_Max := max;
           li_EncodingType := qget (Query r) (str "encoding-type"); li_OptionalObjectAttributes := [];
           li_ExpectedBucketOwner := expected_owner r; li_RequestPayer := payer |}
        (query_value r "key-marker") (query_value r "upload-id-marker")) (fun answer =>
    parse! out := answer catch f => WriteFailure f in
    Ret (xml_response no_headers 200 (root "ListMultipartUploadsResult" (
      [Elem (str "Bucket") bucket] ++ elem_enum "EncodingType" (lu_EncodingType out) ++ elem_str "KeyMarker" (lu_KeyMarker out) ++
      elem_str "UploadIdMarker" (lu_UploadIdMarker out) ++ elem_str "NextKeyMarker" (lu_NextKeyMarker out) ++
      elem_str "NextUploadIdMarker" (lu_NextUploadIdMarker out) ++ elem_str "Prefix" (lu_Prefix out) ++
      elem_str "Delimiter" (lu_Delimiter out) ++ elem_int "MaxUploads" (lu_MaxUploads out) ++
      truncated_elem (lu_IsTruncated out) ++ EncodeCommonPrefixes (lu_CommonPrefixes out) ++
      flat_map (fun u => within "Upload" (
        elem_str "Key" (ue_Key u) ++ elem_str "UploadId" (ue_UploadId u) ++ elem_time "Initiated" (ue_Initiated u) ++
        elem_enum "StorageClass" (ue_StorageClass u) ++ elem_enum "ChecksumAlgorithm" (ue_ChecksumAlgorithm u) ++
        elem_enum "ChecksumType" (ue_ChecksumType u) ++ EncodeOwnerDisplayNameThenID (ue_Owner u) ++
        EncodeInitiatorDisplayNameThenID (ue_Initiator u))) (lu_Uploads out))))).

End Handlers.
