(* ===== verification/HandlersObject.v ===== *)
(** * Object handlers (src/internal/server/handlers_object.go) *)

From S2P Require Import Prelude GoStrings Http NetIP SigV4 Stream Authz Routing S3Xml S3Http XmlDecode XmlBody Lifecycle Upstream HandlerBase.

#[local] Open Scope Z_scope.

Definition maxSinglePutObjectSize : Z := 5 * 1024 * 1024 * 1024.
Definition quote : gostring := [x22].

Section Handlers.
Context {U : UnicodeCase} {MI : MapIter} {S : SDK} {G : GoText} {X : XMLLexer}.
Variables (cx : Context) (r : Request).

(** ** Tagging *)

Definition version_header (v : option gostring) : Header := set_headers no_headers [("x-amz-version-id"%string, v)].

Definition handlePutObjectTagging (bucket key : gostring) : Prog Response :=
  check! CanWrite (cx_rules cx) bucket or forbidden in
  parse! tagging := decode_checked cx r DecodeObjectTagging "Invalid tagging payload" catch e => rejected e in
  parse! payer := ParseRequestPayerHeader (Hdr r) or invalid_payer in
  Up (PutObjectTagging (object_input r bucket key (trimmed_query r "versionId") payer) tagging) (fun answer =>
    parse! out := answer catch f => WriteFailure f in Ret (WriteHeader (version_header (to_VersionId out)) 200)).

Definition handleGetObjectTagging (bucket key : gostring) : Prog Response :=
  check! CanRead (cx_rules cx) bucket or forbidden in
  parse! payer := ParseRequestPayerHeader (Hdr r) or invalid_payer in
  Up (GetObjectTagging (object_input r bucket key (trimmed_query r "versionId") payer)) (fun answer =>
    parse! out := answer catch f => WriteFailure f in
    Ret (WriteTaggingResponse (version_header (to_VersionId out)) 200 (to_TagSet out))).

Definition handleDeleteObjectTagging (bucket key : gostring) : Prog Response :=
  check! CanWrite (cx_rules cx) bucket or forbidden in
  Up (DeleteObjectTagging (object_input r bucket key (trimmed_query r "versionId") [])) (fun answer =>
    parse! out := answer catch f => WriteFailure f in Ret (WriteHeader (version_header (to_VersionId out)) 204)).

(** ** Reading *)

(** A positive [int32] in a trimmed value. *)
Definition part_number (v : option gostring) (msg : string) : result gostring (option Z) := int_parameter v 1 msg.

(** The input of GetObject and HeadObject. *)
Definition read_object_input (bucket key : gostring) : result Response ReadObjectInput :=
  match part_number (trimmed_query r "partNumber") "invalid partNumber" with
  | Err e => Err (bad e)
  | Ok part =>
    match ParseOptionalHTTPTime (hget (Hdr r) (str "If-Modified-Since")) with
    | Err _ => Err (bad (str "invalid If-Modified-Since header"))
    | Ok modified =>
      match ParseOptionalHTTPTime (hget (Hdr r) (str "If-Unmodified-Since")) with
      | Err _ => Err (bad (str "invalid If-Unmodified-Since header"))
      | Ok unmodified =>
        match ParseChecksumMode (hget (Hdr r) (str "x-amz-checksum-mode")) with
        | Err _ => Err (bad (str "invalid x-amz-checksum-mode header"))
        | Ok mode =>
          match ParseRequestPayerHeader (Hdr r) with
          | Err _ => Err invalid_payer
          | Ok payer =>
            match match query_value r "response-expires" with
                  | None => Ok None
                  | Some v => match ParseOptionalHTTPTime v with
                              | Ok (Some t) => Ok (Some t)
                              | _ => Err (bad (str "invalid response-expires"))
                              end
                  end with
            | Err e => Err e
            | Ok expires =>
              Ok {| ro_object := object_input r bucket key (query_value r "versionId") payer; ro_PartNumber := part;
                    ro_Range := header_value r "Range"; ro_IfMatch := trimmed_value r "If-Match";
                    ro_IfNoneMatch := trimmed_value r "If-None-Match"; ro_IfModifiedSince := modified;
                    ro_IfUnmodifiedSince := unmodified; ro_ChecksumMode := mode;
                    ro_ResponseCacheControl := query_value r "response-cache-control";
                    ro_ResponseContentDisposition := query_value r "response-content-disposition";
                    ro_ResponseContentEncoding := query_value r "response-content-encoding";
                    ro_ResponseContentLanguage := query_value r "response-content-language";
                    ro_ResponseContentType := query_value r "response-content-type"; ro_ResponseExpires := expires |}
            end
          end
        end
      end
    end
  end.

Definition metadata_headers (h : Header) (meta : Metadata) : Header :=
  fold_left (fun h (kv : gostring * gostring) => hset h (str "x-amz-meta-" ++ kv.1) kv.2) (map_iter meta) h.

(** The headers GetObject and HeadObject both propagate. *)
Definition object_headers (out : ObjectOutput) : list (string * option gostring) :=
  ([("ETag", oo_ETag out); ("Last-Modified", time_text (oo_LastModified out)); ("Content-Type", oo_ContentType out);
    ("Content-Length", int_field (oo_ContentLength out)); ("Content-Range", oo_ContentRange out);
    ("x-amz-version-id", oo_VersionId out); ("x-amz-delete-marker", bool_field (oo_DeleteMarker out));
    ("Expires", oo_ExpiresString out); ("Accept-Ranges", oo_AcceptRanges out); ("Cache-Control", oo_CacheControl out);
    ("Content-Disposition", oo_ContentDisposition out); ("Content-Encoding", oo_ContentEncoding out);
    ("Content-Language", oo_ContentLanguage out); ("x-amz-storage-class", enum (oo_StorageClass out));
    ("x-amz-server-side-encryption", enum (oo_ServerSideEncryption out));
    ("x-amz-server-side-encryption-aws-kms-key-id", oo_SSEKMSKeyId out);
    ("x-amz-server-side-encryption-customer-algorithm", oo_SSECustomerAlgorithm out);
    ("x-amz-server-side-encryption-customer-key-MD5", oo_SSECustomerKeyMD5 out);
    ("x-amz-server-side-encryption-bucket-key-enabled", bool_field (oo_BucketKeyEnabled out));
    ("x-amz-expiration", oo_Expiration out); ("x-amz-restore", oo_Restore out);
    ("x-amz-website-redirect-location", oo_WebsiteRedirectLocation out);
    ("x-amz-replication-status", enum (oo_ReplicationStatus out)); ("x-amz-tagging-count", int_field (oo_TagCount out));
    ("x-amz-mp-parts-count", int_field (oo_PartsCount out)); ("x-amz-missing-meta", int_field (oo_MissingMeta out));
    ("x-amz-request-charged", enum (oo_RequestCharged out))]%string ++
   checksum_headers (oo_checksum out) ++ [("x-amz-checksum-type"%string, enum (oo_ChecksumType out))])%list.
Definition object_lock_headers (out : ObjectOutput) : list (string * option gostring) :=
  [("x-amz-object-lock-mode", enum (oo_ObjectLockMode out)); ("x-amz-object-lock-legal-hold", enum (oo_LegalHold out));
   ("x-amz-object-lock-retain-until-date", FormatRFC3339 <$> oo_RetainUntil out)]%string.

(** A body that cannot be copied to its end aborts the response. *)
Definition handleGetObject (bucket key : gostring) : Prog Response :=
  check! CanRead (cx_rules cx) bucket or forbidden in
  need! i := read_object_input bucket key in
  Up (GetObject i) (fun answer =>
    parse! out := answer catch f => WriteFailure f in
    Ret {| resp_status := match oo_ContentRange out with Some _ => 206 | None => 200 end;
           resp_headers := metadata_headers (set_headers no_headers (object_headers out)) (oo_Metadata out);
           resp_body := Copied (oo_Body out) (oo_BodyFails out) |}).

Definition handleHeadObject (bucket key : gostring) : Prog Response :=
  check! CanRead (cx_rules cx) bucket or forbidden in
  need! i := read_object_input bucket key in
  Up (HeadObject i) (fun answer =>
    parse! out := answer catch f => WriteUpstreamHeadError no_headers (f_error f) in
    Ret (WriteHeader
      (metadata_headers (set_headers no_headers (object_headers out ++ object_lock_headers out)%list) (oo_Metadata out)) 200)).

(** ** Attributes *)

Definition object_attributes : list gostring := map str ["ETag"; "Checksum"; "ObjectParts"; "StorageClass"; "ObjectSize"]%string.

Definition add_attribute (acc : option (list gostring)) (token : gostring) : option (list gostring) :=
  out ← acc;
  let v := Trim (TrimSpace token) quote in
  if decide (v = []) then Some out
  else
    '(_, attr) ← list_find (fun a => ToLower v = map lower_byte a) object_attributes;
    Some (if decide (attr ∈ out) then out else out ++ [attr]).
(** [None] is any of its errors. *)
Definition parseObjectAttributesHeader : option (list gostring) :=
  out ← fold_left add_attribute (flat_map (fun v => Split v ","%byte) (hvalues (Hdr r) (str "x-amz-object-attributes"))) (Some []);
  if decide (out = []) then None else Some out.

Definition parts_calls (p : ListPartsOutput) : list WCall :=
  within "ObjectParts" (
    elem_str "PartNumberMarker" (lp_PartNumberMarker p) ++ elem_str "NextPartNumberMarker" (lp_NextPartNumberMarker p) ++
    elem_int "MaxParts" (lp_MaxParts p) ++ elem_int "PartsCount" (lp_TotalPartsCount p) ++
    [ElemBool (str "IsTruncated") (default false (lp_IsTruncated p))] ++
    flat_map (fun x => within "Part" (
      elem_int "PartNumber" (pe_PartNumber x) ++ elem_int "Size" (pe_Size x) ++ checksum_elems (pe_checksum x))) (lp_Parts p)).

Definition handleGetObjectAttributes (bucket key : gostring) : Prog Response :=
  check! CanRead (cx_rules cx) bucket or forbidden in
  match parseObjectAttributesHeader with
  | None => Ret (bad (str "invalid x-amz-object-attributes"))
  | Some attrs =>
    parse! payer := ParseRequestPayerHeader (Hdr r) catch e => bad e in
    parse! maxParts := part_number (trimmed_value r "x-amz-max-parts") "invalid x-amz-max-parts" catch e => bad e in
    let marker := trimmed_value r "x-amz-part-number-marker" in
    check! match marker with Some m => bool_decide (is_Some (ParseInt m 10 64)) | None => true end
      or bad (str "invalid x-amz-part-number-marker") in
    Up (GetObjectAttributes {| ga_object := object_input r bucket key (query_value r "versionId") payer;
          ga_ObjectAttributes := attrs; ga_MaxParts := maxParts; ga_PartNumberMarker := marker |}) (fun answer =>
      parse! out := answer catch f => WriteFailure f in
      let h := set_headers no_headers
        [("Last-Modified", time_text (gao_LastModified out)); ("x-amz-version-id", gao_VersionId out);
         ("x-amz-delete-marker", bool_field (gao_DeleteMarker out))]%string in
      Ret (xml_response h 200 (root "GetObjectAttributesOutput" (
        elem_str "ETag" (gao_ETag out) ++ elem_int "ObjectSize" (gao_ObjectSize out) ++
        elem_enum "StorageClass" (gao_StorageClass out) ++
        match gao_Checksum out with
        | Some c => within "Checksum" (checksum_elems (ck_value c) ++ elem_enum "ChecksumType" (ck_type c))
        | None => []
        end ++
        match gao_ObjectParts out with Some p => parts_calls p | None => [] end))))
  end.

(** ** Writing *)

Definition encryption_headers (out : WriteOutput) : list (string * option gostring) :=
  [("x-amz-server-side-encryption", enum (wo_ServerSideEncryption out));
   ("x-amz-server-side-encryption-aws-kms-key-id", wo_SSEKMSKeyId out);
   ("x-amz-server-side-encryption-context", wo_SSEKMSEncryptionContext out);
   ("x-amz-server-side-encryption-customer-algorithm", wo_SSECustomerAlgorithm out);
   ("x-amz-server-side-encryption-customer-key-MD5", wo_SSECustomerKeyMD5 out);
   ("x-amz-server-side-encryption-bucket-key-enabled", bool_field (wo_BucketKeyEnabled out));
   ("x-amz-expiration", wo_Expiration out); ("x-amz-request-charged", enum (wo_RequestCharged out))]%string.

Definition put_object_input (bucket key : gostring) : result Response PutObjectInput :=
  if negb (aclHeadersAreNoOp (Hdr r) false) then Err (unsupported_acl false)
  else
    let! _ := requireSupportedUploadProperties (Hdr r) in
    match parseUploadProperties (Hdr r) with
    | Err e => Err (bad e)
    | Ok properties =>
      let! ' (body, cl) := decode_body cx r in
      if maxSinglePutObjectSize <? cl then Err (refuse "EntityTooLarge" (str "Use multipart upload for objects larger than 5 GiB"))
      else
        let! meta := upload_metadata cx r in
        let! expires := parseExpiresHeader (Hdr r) in
        let! ' (ifMatch, ifNoneMatch) := write_conditions r in
        match ParseChecksumWriteHeaders (Hdr r) with
        | Err e => Err (bad e)
        | Ok checksum =>
          match cw_type checksum with
          | Some _ => Err (bad (str "Checksum type is not supported for PutObject"))
          | None =>
            match ParseRequestPayerHeader (Hdr r) with
            | Err _ => Err invalid_payer
            | Ok payer =>
              Ok {| po_object := object_input r bucket key None payer; po_Body := body; po_ContentLength := cl;
                    po_Metadata := meta; po_Expires := expires; po_properties := properties; po_IfMatch := ifMatch;
                    po_IfNoneMatch := ifNoneMatch; po_ContentMD5 := trimmed_value r "Content-MD5";
                    po_ContentType := header_value r "Content-Type"; po_checksum := checksum |}
            end
          end
        end
    end.

(** The answer to a failed write of a body. *)
Definition write_failure (f : Failure) : Response :=
  match writeBodyValidationError (f_cause f) (f_body f) with Some resp => resp | None => WriteFailure f end.

Definition handlePutObject (bucket key : gostring) : Prog Response :=
  check! CanWrite (cx_rules cx) bucket or forbidden in
  need! i := put_object_input bucket key in
  Up (PutObject i) (fun answer =>
    parse! out := answer catch f => write_failure f in
    notifyUpload cx ObjectCreatedPut bucket key (Trim (ToString (wo_ETag out)) quote) (ToString (wo_VersionId out)) [] (
    Ret (WriteHeader (set_headers no_headers (
      [("ETag", wo_ETag out); ("x-amz-version-id", wo_VersionId out)]%string ++ encryption_headers out ++
      checksum_headers (wo_checksum out) ++ [("x-amz-checksum-type"%string, enum (wo_ChecksumType out))])%list) 200))).

(** ** Copying *)

(** The source of a copy, readable by the caller. *)
Definition copy_source : result Response gostring :=
  let copySource := TrimSpace (hget (Hdr r) (str "x-amz-copy-source")) in
  if decide (copySource = []) then Err (refuse "InvalidRequest" (str "x-amz-copy-source is required"))
  else
    match SourceBucketFromCopySource copySource with
    | Err _ => Err (refuse "InvalidRequest" (str "invalid x-amz-copy-source"))
    | Ok sourceBucket => if CanRead (cx_rules cx) sourceBucket then Ok copySource else Err forbidden
    end.

Definition joined_trimmed (name : string) : option gostring :=
  enum (TrimSpace (Join (hvalues (Hdr r) (str name)) (str ","))).

Definition or_bad {A : Type} (m : result gostring A) (msg : string) : result Response A :=
  match m with Ok x => Ok x | Err _ => Err (bad (str msg)) end.

Definition copy_object_input (bucket key : gostring) : result Response CopyObjectInput :=
  let! copySource := copy_source in
  if negb (aclHeadersAreNoOp (Hdr r) false) then Err (unsupported_acl false)
  else
    let! _ := requireSupportedUploadProperties (Hdr r) in
    let! ' (ifMatch, ifNoneMatch) := write_conditions r in
    match ParseChecksumWriteHeaders (Hdr r) with
    | Err e => Err (bad e)
    | Ok checksum =>
      require! negb (HasValue checksum) && bool_decide (cw_type checksum = None)
        else bad (str "CopyObject supports checksum algorithm selection only") in
      let! directive := or_bad (ParseMetadataDirective (hget (Hdr r) (str "x-amz-metadata-directive"))) "invalid x-amz-metadata-directive header" in
      let! tagging := or_bad (ParseTaggingDirective (hget (Hdr r) (str "x-amz-tagging-directive"))) "invalid x-amz-tagging-directive header" in
      let! class := or_bad (ParseStorageClass (hget (Hdr r) (str "x-amz-storage-class"))) "invalid x-amz-storage-class header" in
      let! payer := or_bad (ParseRequestPayerHeader (Hdr r)) "invalid x-amz-request-payer header" in
      let! conditions := or_bad (ParseCopySourceConditionalHeaders (Hdr r)) "invalid copy-source conditional header" in
      let! expires := parseExpiresHeader (Hdr r) in
      let! meta := if decide (directive = MetadataDirectiveReplace) then upload_metadata cx r else Ok (extractAmzMeta (Hdr r)) in
      Ok {| co_object := object_input r bucket key None payer; co_CopySource := copySource; co_Metadata := meta;
            co_Expires := expires; co_IfMatch := ifMatch; co_IfNoneMatch := ifNoneMatch; co_conditions := conditions;
            co_MetadataDirective := directive; co_TaggingDirective := tagging; co_ChecksumAlgorithm := cw_algorithm checksum;
            co_properties := {|
              up_CacheControl := joined_trimmed "Cache-Control"; up_ContentDisposition := trimmed_value r "Content-Disposition";
              up_ContentEncoding := joined_trimmed "Content-Encoding"; up_ContentLanguage := joined_trimmed "Content-Language";
              up_Tagging := trimmed_value r "x-amz-tagging"; up_StorageClass := class;
              up_WebsiteRedirectLocation := trimmed_value r "x-amz-website-redirect-location" |};
            co_ContentType := trimmed_value r "Content-Type";
            co_ExpectedSourceBucketOwner := trimmed_value r "x-amz-source-expected-bucket-owner" |}
    end.

Definition copy_result_calls (res : option CopyResult) (typed : bool) : list WCall :=
  match res with
  | None => []
  | Some c => elem_time "LastModified" (cr_LastModified c) ++ elem_str "ETag" (cr_ETag c) ++ checksum_elems (cr_checksum c) ++
              (if typed then elem_enum "ChecksumType" (cr_ChecksumType c) else [])
  end.

Definition handleCopyObject (bucket key : gostring) : Prog Response :=
  check! CanWrite (cx_rules cx) bucket or forbidden in
  need! i := copy_object_input bucket key in
  Up (CopyObject i) (fun answer =>
    parse! out := answer catch f => WriteFailure f in
    let etag := match wo_result out with Some c => Trim (ToString (cr_ETag c)) quote | None => [] end in
    notifyUpload cx ObjectCreatedCopy bucket key etag (ToString (wo_VersionId out)) [] (
    Ret (xml_response (set_headers no_headers (
      [("x-amz-version-id", wo_VersionId out); ("x-amz-copy-source-version-id", wo_CopySourceVersionId out)]%string ++
      encryption_headers out)%list) 200
      (root "CopyObjectResult" (copy_result_calls (wo_result out) true))))).

Definition handleUploadPartCopy (bucket key uploadID : gostring) (partNumber : Z) : Prog Response :=
  check! CanWrite (cx_rules cx) bucket or forbidden in
  need! copySource := copy_source in
  parse! checksum := ParseChecksumWriteHeaders (Hdr r) catch e => bad e in
  check! bool_decide (cw_algorithm checksum = None) && negb (HasValue checksum) && bool_decide (cw_type checksum = None)
    or bad (str "Checksum settings are not supported for UploadPartCopy") in
  parse! conditions := ParseCopySourceConditionalHeaders (Hdr r) or bad (str "invalid copy-source conditional header") in
  parse! payer := ParseRequestPayerHeader (Hdr r) or invalid_payer in
  Up (UploadPartCopy {| pc_upload := {| ur_object := object_input r bucket key None payer; ur_UploadId := uploadID |};
        pc_PartNumber := partNumber; pc_CopySource := copySource; pc_conditions := conditions;
        pc_CopySourceRange := trimmed_value r "x-amz-copy-source-range";
        pc_ExpectedSourceBucketOwner := trimmed_value r "x-amz-source-expected-bucket-owner" |}) (fun answer =>
    parse! out := answer catch f => WriteFailure f in
    let h := set_headers no_headers
      [("x-amz-copy-source-version-id", wo_CopySourceVersionId out); ("x-amz-server-side-encryption", enum (wo_ServerSideEncryption out));
       ("x-amz-server-side-encryption-aws-kms-key-id", wo_SSEKMSKeyId out);
       ("x-amz-server-side-encryption-customer-algorithm", wo_SSECustomerAlgorithm out);
       ("x-amz-server-side-encryption-customer-key-MD5", wo_SSECustomerKeyMD5 out);
       ("x-amz-server-side-encryption-bucket-key-enabled", bool_field (wo_BucketKeyEnabled out));
       ("x-amz-request-charged", enum (wo_RequestCharged out))]%string in
    Ret (xml_response h 200 (root "CopyPartResult" (copy_result_calls (wo_result out) false)))).

(** ** Deleting *)

Definition handleDeleteObject (bucket key : gostring) : Prog Response :=
  check! CanDeleteObject (cx_rules cx) bucket or forbidden in
  check! supportedDeleteConditions (Hdr r) or unsupported_condition in
  need! _u := requireNoGovernanceRetentionBypass (Hdr r) in
  parse! payer := ParseRequestPayerHeader (Hdr r) or invalid_payer in
  Up (DeleteObject {| dl_object := object_input r bucket key (query_value r "versionId") payer;
        dl_MFA := trimmed_value r "x-amz-mfa"; dl_IfMatch := trimmed_value r "If-Match" |}) (fun answer =>
    parse! out := answer catch f => WriteFailure f in
    Ret (WriteHeader (set_headers no_headers
      [("x-amz-delete-marker", bool_field (dlo_DeleteMarker out)); ("x-amz-version-id", dlo_VersionId out);
       ("x-amz-request-charged", enum (dlo_RequestCharged out))]%string) 204)).

(** One object of the request; keys are taken as they are. *)
Definition delete_identifier (obj : deleteObjectReqItem) : option ObjectIdentifier :=
  let key := ToString (do_Key obj) in
  if decide (key = []) then None
  else Some {| id_Key := key; id_VersionId := TrimSpace <$> do_VersionID obj; id_ETag := TrimSpace <$> do_ETag obj |}.
(** The first object without a key. *)
Definition missing_key (objs : list deleteObjectReqItem) : Z :=
  match list_find (fun o => delete_identifier o = None) objs with Some (i, _) => Z.of_nat i | None => 0 end.

Definition delete_result_calls (out : DeleteObjectsOutput) : list WCall :=
  flat_map (fun d => within "Deleted" (
    elem_str "Key" (de_Key d) ++ elem_str "VersionId" (de_VersionId d) ++ elem_bool "DeleteMarker" (de_DeleteMarker d) ++
    elem_str "DeleteMarkerVersionId" (de_DeleteMarkerVersionId d))) (dso_Deleted out) ++
  flat_map (fun e => within "Error" (
    elem_str "Key" (der_Key e) ++ elem_str "VersionId" (der_VersionId e) ++ elem_str "Code" (der_Code e) ++
    elem_str "Message" (der_Message e))) (dso_Errors out).

Definition handleDeleteObjects (bucket : gostring) : Prog Response :=
  check! CanDeleteObject (cx_rules cx) bucket or forbidden in
  check! supportedDeleteConditions (Hdr r) or unsupported_condition in
  need! _u := requireNoGovernanceRetentionBypass (Hdr r) in
  parse! req := decodeDeleteObjectsWithChecksums (Hdr r) (cx_trailer cx) (cx_lateTrailer cx) (body_octets cx r)
    catch e => rejected e in
  check! negb (bool_decide (dr_Objects req = []) || (maxDeleteObjects <? zlen (dr_Objects req)))
    or refuse "MalformedXML" (str "DeleteObjects requires 1..1000 objects") in
  match mapM delete_identifier (dr_Objects req) with
  | None => Ret (refuse "MalformedXML" (str "DeleteObjects object[" ++ FormatInt (missing_key (dr_Objects req)) ++ str "] missing Key"))
  | Some objects =>
    parse! payer := ParseRequestPayerHeader (Hdr r) or invalid_payer in
    Up (DeleteObjects {| di_Bucket := bucket; di_Objects := objects; di_Quiet := dr_Quiet req; di_MFA := trimmed_value r "x-amz-mfa";
          di_ExpectedBucketOwner := expected_owner r; di_RequestPayer := payer |}) (fun answer =>
      parse! out := answer catch f => WriteFailure f in
      Ret (xml_response (set_headers no_headers [("x-amz-request-charged"%string, enum (dso_RequestCharged out))]) 200
        (root "DeleteResult" (delete_result_calls out))))
  end.

End Handlers.
