(* ===== verification/HandlersMultipart.v ===== *)
(** * Multipart uploads (src/internal/server/handlers_multipart.go) and the
    handler of each operation *)

From S2P Require Import Prelude GoStrings Http NetIP SigV4 Stream Authz Routing S3Xml S3Http XmlDecode XmlBody Lifecycle Upstream.
From S2P Require Import HandlerBase HandlersBucket HandlersObject.

#[local] Open Scope Z_scope.

Definition maxUploadPartSize : Z := 5 * 1024 * 1024 * 1024.

(** [sort.Slice] by part number, which leaves the order of equal numbers open. *)
Definition by_number (p q : CompletedPart) : Prop := part_Number p <= part_Number q.
Class PartSort := {
  sort_parts : list CompletedPart -> list CompletedPart;
  sort_parts_perm l : sort_parts l ≡ₚ l;
  sort_parts_sorted l : Sorted by_number (sort_parts l)
}.

#[export] Instance by_number_dec p q : Decision (by_number p q) := decide (part_Number p <= part_Number q).
#[export] Instance by_number_total : Total by_number.
Proof. intros p q. unfold by_number. lia. Qed.
Definition stable_sort : PartSort := {|
  sort_parts := merge_sort by_number;
  sort_parts_perm l := merge_sort_Permutation by_number l;
  sort_parts_sorted l := Sorted_merge_sort by_number l |}.

Section Handlers.
Context {U : UnicodeCase} {MI : MapIter} {S : SDK} {G : GoText} {X : XMLLexer} {PS : PartSort}.
Variables (cx : Context) (r : Request).

Definition upload_ref (bucket key uploadID payer : gostring) : UploadRef :=
  {| ur_object := object_input r bucket key None payer; ur_UploadId := uploadID |}.

Definition create_multipart_input (bucket key : gostring) : result Response CreateMultipartUploadInput :=
  if negb (aclHeadersAreNoOp (Hdr r) false) then Err (unsupported_acl false)
  else
    let! _ := requireSupportedUploadProperties (Hdr r) in
    match parseUploadProperties (Hdr r) with
    | Err e => Err (bad e)
    | Ok properties =>
      let! meta := upload_metadata cx r in
      let! expires := parseExpiresHeader (Hdr r) in
      match ParseChecksumWriteHeaders (Hdr r) with
      | Err e => Err (bad e)
      | Ok checksum =>
        require! negb (HasValue checksum) else bad (str "Checksum value headers are not supported for CreateMultipartUpload") in
        let! payer := or_bad (ParseRequestPayerHeader (Hdr r)) "invalid x-amz-request-payer header" in
        Ok {| cm_object := object_input r bucket key None payer; cm_Metadata := meta; cm_Expires := expires;
              cm_properties := properties; cm_ContentType := header_value r "Content-Type";
              cm_ChecksumAlgorithm := cw_algorithm checksum; cm_ChecksumType := cw_type checksum |}
      end
    end.

Definition handleCreateMultipart (bucket key : gostring) : Prog Response :=
  check! CanWrite (cx_rules cx) bucket or forbidden in
  need! i := create_multipart_input bucket key in
  Up (CreateMultipartUpload i) (fun answer =>
    parse! out := answer catch f => WriteFailure f in
    Ret (xml_response (set_headers no_headers
      [("x-amz-checksum-algorithm", enum (cmo_ChecksumAlgorithm out)); ("x-amz-checksum-type", enum (cmo_ChecksumType out))]%string) 200
      (root "InitiateMultipartUploadResult"
        [Elem (str "Bucket") bucket; Elem (str "Key") key; Elem (str "UploadId") (ToString (cmo_UploadId out))]))).

Definition upload_part_input (bucket key uploadID : gostring) (partNumber : Z) : result Response UploadPartInput :=
  let! ' (body, cl) := decode_body cx r in
  if maxUploadPartSize <? cl then Err (refuse "EntityTooLarge" (str "Multipart parts cannot exceed 5 GiB"))
  else
    match ParseRequestPayerHeader (Hdr r) with
    | Err e => Err (bad e)
    | Ok payer =>
      match ParseChecksumWriteHeaders (Hdr r) with
      | Err e => Err (bad e)
      | Ok checksum =>
        require! bool_decide (cw_type checksum = None) else bad (str "Checksum type is not supported for UploadPart") in
        Ok {| pi_upload := upload_ref bucket key uploadID payer; pi_PartNumber := partNumber; pi_Body := body;
              pi_ContentLength := cl; pi_checksum := checksum; pi_ContentMD5 := trimmed_value r "Content-MD5" |}
      end
    end.

Definition handleUploadPart (bucket key uploadID : gostring) (partNumber : Z) : Prog Response :=
  check! CanWrite (cx_rules cx) bucket or forbidden in
  need! i := upload_part_input bucket key uploadID partNumber in
  Up (UploadPart i) (fun answer =>
    parse! out := answer catch f => write_failure f in
    Ret (WriteHeader (set_headers no_headers (("ETag"%string, wo_ETag out) :: checksum_headers (wo_checksum out))) 200)).

Definition handleListParts (bucket key uploadID : gostring) : Prog Response :=
  check! CanRead (cx_rules cx) bucket or forbidden in
  parse! payer := ParseRequestPayerHeader (Hdr r) catch e => bad e in
  parse! marker := match query_value r "part-number-marker" with
                   | None => Ok None
                   | Some v => match ParseInt v 10 64 with
                               | Some n => if n <? 0 then Err tt else Ok (Some (FormatInt n))
                               | None => Err tt
                               end
                   end or bad (str "invalid part-number-marker") in
  parse! maxParts := part_number (query_value r "max-parts") "invalid max-parts" catch e => bad e in
  Up (ListParts (upload_ref bucket key uploadID payer) marker maxParts) (fun answer =>
    parse! out := answer catch f => WriteFailure f in
    Ret (xml_response no_headers 200 (root "ListPartsResult" (
      [Elem (str "Bucket") bucket; Elem (str "Key") key; Elem (str "UploadId") uploadID;
       Elem (str "PartNumberMarker") (ToString (lp_PartNumberMarker out));
       Elem (str "NextPartNumberMarker") (ToString (lp_NextPartNumberMarker out));
       ElemInt (str "MaxParts") (default 0 (lp_MaxParts out))] ++ truncated_elem (lp_IsTruncated out) ++
      elem_enum "ChecksumAlgorithm" (lp_ChecksumAlgorithm out) ++ elem_enum "ChecksumType" (lp_ChecksumType out) ++
      flat_map (fun p => within "Part" (
        [ElemInt (str "PartNumber") (default 0 (pe_PartNumber p))] ++ elem_time "LastModified" (pe_LastModified p) ++
        elem_str "ETag" (pe_ETag p) ++ [ElemInt (str "Size") (default 0 (pe_Size p))] ++ checksum_elems (pe_checksum p)))
        (lp_Parts out))))).

(** ** Completing *)

(** A part of the manifest: its ETag is given the quotes it lacks. *)
Definition completed_part (p : completePart) : option CompletedPart :=
  let etag := TrimSpace (cp_ETag p) in
  if bool_decide (cp_PartNumber p <= 0) || bool_decide (etag = []) then None
  else
    let etag := if HasPrefix etag quote then etag else quote ++ etag in
    let etag := if HasSuffix etag quote then etag else etag ++ quote in
    Some {| part_Number := cp_PartNumber p; part_ETag := etag; part_checksum := cp_checksum p |}.

Definition object_size : result Response (option Z) :=
  match trimmed_value r "x-amz-mp-object-size" with
  | None => Ok None
  | Some raw => match ParseInt raw 10 64 with
                | Some size => if size <? 0 then Err (bad (str "invalid multipart object size")) else Ok (Some size)
                | None => Err (bad (str "invalid multipart object size"))
                end
  end.

Definition complete_multipart_input (bucket key uploadID : gostring) : result Response CompleteMultipartUploadInput :=
  match ParseRequestPayerHeader (Hdr r) with
  | Err e => Err (bad e)
  | Ok payer =>
    let! ' (ifMatch, ifNoneMatch) := write_conditions r in
    match ParseChecksumWriteHeaders (Hdr r) with
    | Err e => Err (bad e)
    | Ok checksum =>
      require! bool_decide (cw_algorithm checksum = None)
        else bad (str "Checksum algorithm selection is not supported for CompleteMultipartUpload") in
      let! size := object_size in
      match body_octets cx r ≫= decodeCompleteMultipartUpload with
      | None => Err (refuse "MalformedXML" (str "Invalid XML"))
      | Some manifest =>
        if maxCompleteMultipartParts <? zlen manifest then Err (refuse "MalformedXML" (str "Too many multipart parts"))
        else
          match mapM completed_part manifest with
          | None => Err (refuse "MalformedXML" (str "Each part must have a positive PartNumber and a non-empty ETag"))
          | Some [] => Err (refuse "InvalidRequest" (str "No parts provided"))
          | Some parts =>
            Ok {| cu_upload := upload_ref bucket key uploadID payer; cu_Parts := sort_parts parts; cu_checksum := checksum;
                  cu_MpuObjectSize := size; cu_IfMatch := ifMatch; cu_IfNoneMatch := ifNoneMatch |}
          end
      end
    end
  end.

Definition handleCompleteMultipart (bucket key uploadID : gostring) : Prog Response :=
  check! CanWrite (cx_rules cx) bucket or forbidden in
  need! i := complete_multipart_input bucket key uploadID in
  Up (CompleteMultipartUpload i) (fun answer =>
    parse! out := answer catch f => WriteFailure f in
    notifyUpload cx ObjectCreatedCompleteMultipartUpload bucket key (Trim (ToString (wo_ETag out)) quote)
      (ToString (wo_VersionId out)) uploadID (
    Ret (xml_response (set_headers no_headers
      [("x-amz-version-id", wo_VersionId out); ("x-amz-server-side-encryption", enum (wo_ServerSideEncryption out));
       ("x-amz-server-side-encryption-aws-kms-key-id", wo_SSEKMSKeyId out);
       ("x-amz-server-side-encryption-bucket-key-enabled", bool_field (wo_BucketKeyEnabled out));
       ("x-amz-expiration", wo_Expiration out); ("x-amz-request-charged", enum (wo_RequestCharged out))]%string) 200
      (root "CompleteMultipartUploadResult" (
        [Elem (str "Bucket") bucket; Elem (str "Key") key] ++
        match wo_ETag out with
        | Some etag => within "ETag" [RawString (quote ++ Escape (Trim etag quote) ++ quote)]
        | None => []
        end ++
        checksum_elems (wo_checksum out) ++ elem_enum "ChecksumType" (wo_ChecksumType out)))))).

Definition handleAbortMultipart (bucket key uploadID : gostring) : Prog Response :=
  check! CanWrite (cx_rules cx) bucket or forbidden in
  parse! payer := ParseRequestPayerHeader (Hdr r) catch e => bad e in
  plain_call (AbortMultipartUpload (upload_ref bucket key uploadID payer)) 204.

(** ** The handler of an operation *)

(** The probe and the pop API are served elsewhere. *)
Definition serve (o : Operation) : option (Prog Response) :=
  match o with
  | OpReadyz | OpPop => None
  | OpListBuckets => Some (handleListBuckets cx r)
  | OpPutBucketLifecycle b => Some (handlePutBucketLifecycleConfiguration cx r b)
  | OpGetBucketLifecycle b => Some (handleGetBucketLifecycleConfiguration cx r b)
  | OpDeleteBucketLifecycle b => Some (handleDeleteBucketLifecycleConfiguration cx r b)
  | OpPutBucketVersioning b => Some (handlePutBucketVersioning cx r b)
  | OpGetBucketVersioning b => Some (handleGetBucketVersioning cx r b)
  | OpPutBucketTagging b => Some (handlePutBucketTagging cx r b)
  | OpGetBucketTagging b => Some (handleGetBucketTagging cx r b)
  | OpDeleteBucketTagging b => Some (handleDeleteBucketTagging cx r b)
  | OpGetBucketACL b => Some (handleGetBucketACL cx r b)
  | OpPutBucketACL b => Some (handlePutBucketACL cx r b)
  | OpBucketConfigRead b k => Some (handleBucketConfigRead cx r b k)
  | OpDeleteObjects b => Some (handleDeleteObjects cx r b)
  | OpGetBucketLocation b => Some (handleGetBucketLocation cx r b)
  | OpListObjectVersions b => Some (handleListObjectVersions cx r b)
  | OpListMultipartUploads b => Some (handleListMultipartUploads cx r b)
  | OpCreateBucket b => Some (handleCreateBucket cx r b)
  | OpDeleteBucket b => Some (handleDeleteBucket cx r b)
  | OpHeadBucket b => Some (handleHeadBucket cx r b)
  | OpListObjectsV2 b => Some (handleListObjectsV2 cx r b)
  | OpListObjects b => Some (handleListObjects cx r b)
  | OpGetObjectACL b k => Some (handleGetObjectACL cx r b k)
  | OpPutObjectACL b k => Some (handlePutObjectACL cx r b k)
  | OpPutObjectTagging b k => Some (handlePutObjectTagging cx r b k)
  | OpGetObjectTagging b k => Some (handleGetObjectTagging cx r b k)
  | OpDeleteObjectTagging b k => Some (handleDeleteObjectTagging cx r b k)
  | OpCreateMultipart b k => Some (handleCreateMultipart b k)
  | OpGetObjectAttributes b k => Some (handleGetObjectAttributes cx r b k)
  | OpListParts b k u => Some (handleListParts b k u)
  | OpUploadPartCopy b k u n => Some (handleUploadPartCopy cx r b k u n)
  | OpUploadPart b k u n => Some (handleUploadPart b k u n)
  | OpCompleteMultipart b k u => Some (handleCompleteMultipart b k u)
  | OpAbortMultipart b k u => Some (handleAbortMultipart b k u)
  | OpGetObject b k => Some (handleGetObject cx r b k)
  | OpHeadObject b k => Some (handleHeadObject cx r b k)
  | OpCopyObject b k => Some (handleCopyObject cx r b k)
  | OpPutObject b k => Some (handlePutObject cx r b k)
  | OpDeleteObject b k => Some (handleDeleteObject cx r b k)
  end.

End Handlers.
