(* ===== verification/Monitor.v ===== *)
(** * The gateway as a reference monitor

    What the handlers may do upstream, stated without them: a policy that says
    which calls and notifications an operation may issue under which rights, in
    terms of the call's own bucket and key.  The handlers refine it; together
    with the front door, every upstream call is traced back to a group the
    directory reported for the caller. *)

From S2P Require Import Prelude GoStrings Http NetIP SigV4 Stream Authz Routing S3Xml S3Http XmlDecode XmlBody Lifecycle Upstream.
From S2P Require Import HandlerBase HandlersBucket HandlersObject HandlersMultipart.
From S2P Require Credentials Limiter AuthLookup Gateway.

#[local] Open Scope Z_scope.

(** ** The policy *)

(** Rights on a bucket: any at all, or one of some permissions. *)
Inductive Need := NeedAny (bucket : gostring) | NeedOne (bucket : gostring) (bits : list Perm).

(** The bucket and the key a call names. *)
Definition call_object (c : Call) : option ObjectInput :=
  match c with
  | GetObject i | HeadObject i => Some (ro_object i)
  | GetObjectAttributes i => Some (ga_object i)
  | PutObjectTagging i _ | GetObjectTagging i | DeleteObjectTagging i => Some i
  | PutObject i => Some (po_object i)
  | CopyObject i => Some (co_object i)
  | DeleteObject i => Some (dl_object i)
  | CreateMultipartUpload i => Some (cm_object i)
  | UploadPart i => Some (ur_object (pi_upload i))
  | UploadPartCopy i => Some (ur_object (pc_upload i))
  | ListParts i _ _ | AbortMultipartUpload i => Some (ur_object i)
  | CompleteMultipartUpload i => Some (ur_object (cu_upload i))
  | _ => None
  end.
Definition call_bucket (c : Call) : option gostring :=
  match c with
  | CreateBucket i => Some (cbi_Bucket i)
  | HeadBucket i | GetBucketLocation i | DeleteBucket i | PutBucketVersioning i _ _ | GetBucketVersioning i
  | PutBucketTagging i _ | GetBucketTagging i | DeleteBucketTagging i | PutBucketLifecycle i _ _ | GetBucketLifecycle i
  | DeleteBucketLifecycle i => Some (bi_Bucket i)
  | ListObjects i _ | ListObjectsV2 i _ _ _ | ListObjectVersions i _ _ | ListMultipartUploads i _ _ => Some (li_Bucket i)
  | DeleteObjects i => Some (di_Bucket i)
  | _ => oi_Bucket <$> call_object c
  end.
Definition call_source (c : Call) : option gostring :=
  match c with CopyObject i => Some (co_CopySource i) | UploadPartCopy i => Some (pc_CopySource i) | _ => None end.

(** What a call does to its bucket, as a right of the README's table. *)
Definition call_bits (c : Call) : list Perm :=
  match c with
  | ListBuckets _ | GetBucketLocation _ => []
  | HeadBucket _ | HeadObject _ => [PermRead; PermCreateBucket]          (* also asked for by ACL writes *)
  | CreateBucket _ | PutBucketVersioning _ _ _ | PutBucketTagging _ _ | PutBucketLifecycle _ _ _ => [PermCreateBucket]
  | DeleteBucket _ | DeleteBucketTagging _ | DeleteBucketLifecycle _ => [PermDeleteBucket]
  | DeleteObject _ | DeleteObjects _ => [PermDeleteObject]
  | PutObjectTagging _ _ | DeleteObjectTagging _ | PutObject _ | CopyObject _ | CreateMultipartUpload _ | UploadPart _
  | UploadPartCopy _ | CompleteMultipartUpload _ | AbortMultipartUpload _ => [PermWrite]
  | _ => [PermRead]
  end.

Section Policy.
Context {U : UnicodeCase}.

Definition meets (rules : list Rule) (n : Need) : bool :=
  match n with
  | NeedAny bucket => negb (BucketPerm rules bucket =? PermNone)
  | NeedOne bucket bits => existsb (has (BucketPerm rules bucket)) bits
  end.

Definition call_needs (c : Call) : list Need :=
  match c with
  | ListBuckets _ => []
  | GetBucketLocation i => [NeedAny (bi_Bucket i)]
  | _ => [NeedOne (default [] (call_bucket c)) (call_bits c)]
  end ++
  match call_source c with
  | Some source => match SourceBucketFromCopySource source with
                   | Ok b => [NeedOne b [PermRead]]
                   | Err _ => [NeedOne [] []]
                   end
  | None => []
  end.

(** The call is about the bucket and the object of a path. *)
Definition on_path (p : PathKind) (c : Call) : Prop :=
  match p with
  | RootPath => call_bucket c = None
  | BucketPath b => call_bucket c = Some b /\ call_object c = None
  | ObjectPath b k => exists i, call_object c = Some i /\ oi_Bucket i = b /\ oi_Key i = k
  end.
Definition on_target (o : Operation) (c : Call) : Prop :=
  match op_path o with Some p => on_path p c | None => False end.

(** A notification tells of the creation the upstream has just confirmed. *)
Definition announces (uploader : gostring) (c : Call) : Output c -> Event -> Prop :=
  let about name (i : ObjectInput) etag version upload e :=
    ev_name e = name /\ ev_Bucket e = oi_Bucket i /\ ev_Key e = oi_Key i /\ ev_ETag e = Trim (ToString etag) quote /\
    ev_VersionID e = ToString version /\ ev_UploadID e = upload /\ ev_Uploader e = uploader in
  match c with
  | PutObject i => fun out => about ObjectCreatedPut (po_object i) (wo_ETag out) (wo_VersionId out) []
  | CopyObject i => fun out => about ObjectCreatedCopy (co_object i) (wo_result out ≫= cr_ETag) (wo_VersionId out) []
  | CompleteMultipartUpload i =>
    fun out => about ObjectCreatedCompleteMultipartUpload (ur_object (cu_upload i)) (wo_ETag out) (wo_VersionId out) (ur_UploadId (cu_upload i))
  | _ => fun _ _ => False
  end.

(** What may happen after the actions so far. *)
Definition may (rules : list Rule) (uploader : gostring) (o : Operation) (past : list Action) (a : Action) : Prop :=
  match a with
  | Called c _ => forallb (meets rules) (call_needs c) = true /\ on_target o c
  | Polled _ => o = OpListBuckets
  | Notified e => exists c out, last past = Some (Called c (Ok out)) /\ announces uploader c out e
  end.

(** The traces the policy allows. *)
Inductive allowed (rules : list Rule) (uploader : gostring) (o : Operation) : list Action -> Prop :=
| allowed_nil : allowed rules uploader o []
| allowed_snoc tr a : allowed rules uploader o tr -> may rules uploader o tr a -> allowed rules uploader o (tr ++ [a]).

(** The right an operation is refused without. *)
Definition op_granted (rules : list Rule) (o : Operation) : bool :=
  match o with
  | OpReadyz | OpPop | OpListBuckets => true
  | OpGetBucketLocation b => negb (BucketPerm rules b =? PermNone)
  | OpCreateBucket b | OpPutBucketVersioning b | OpPutBucketTagging b | OpPutBucketLifecycle b | OpPutBucketACL b
  | OpPutObjectACL b _ => CanConfigure rules b
  | OpDeleteBucket b | OpDeleteBucketTagging b | OpDeleteBucketLifecycle b => CanDeleteBucket rules b
  | OpDeleteObject b _ | OpDeleteObjects b => CanDeleteObject rules b
  | OpPutObject b _ | OpCopyObject b _ | OpCreateMultipart b _ | OpUploadPart b _ _ _ | OpUploadPartCopy b _ _ _
  | OpCompleteMultipart b _ _ | OpAbortMultipart b _ _ | OpPutObjectTagging b _ | OpDeleteObjectTagging b _ => CanWrite rules b
  | OpGetBucketLifecycle b | OpGetBucketVersioning b | OpGetBucketTagging b | OpGetBucketACL b | OpBucketConfigRead b _
  | OpListObjectVersions b | OpListMultipartUploads b | OpHeadBucket b | OpListObjectsV2 b | OpListObjects b
  | OpGetObjectACL b _ | OpGetObjectTagging b _ | OpGetObjectAttributes b _ | OpListParts b _ _ | OpGetObject b _
  | OpHeadObject b _ => CanRead rules b
  end.
End Policy.

(** ** Programs that follow a policy *)

Fixpoint follows {R} (P : list Action -> Action -> Prop) (past : list Action) (p : Prog R) : Prop :=
  match p with
  | Ret _ | Spin => True
  | Up c k => forall a, P past (Called c a) /\ follows P (past ++ [Called c a]) (k a)
  | Poll k => forall b, P past (Polled b) /\ follows P (past ++ [Polled b]) (k b)
  | Notify e k => P past (Notified e) /\ follows P (past ++ [Notified e]) k
  end.

Lemma follows_bind {Q R} P past (p : Prog Q) (f : Q -> Prog R) :
  follows P past p -> (forall past q, follows P past (f q)) -> follows P past (pbind p f).
Proof. revert past. induction p; intros past Hp Hf; simpl in *; naive_solver. Qed.

(** A program that only polls and lists pages of buckets. *)
Lemma follows_pages P fuel past acc token seen :
  (forall past i a, P past (Called (ListBuckets i) a)) -> (forall past b, P past (Polled b)) ->
  follows P past (list_pages fuel acc token seen).
Proof.
  intros Hc Hp. revert past acc token seen. induction fuel as [|fuel IH]; intros past acc token seen; [done|].
  cbn [list_pages follows]. intros b. split; [apply Hp|]. destruct b; [done|]. cbn [follows]. intros a. split; [apply Hc|].
  destruct a as [page|]; [|done]. cbn [follows]. intros b. split; [apply Hp|]. destruct b; [done|]. cbv zeta.
  repeat case_decide; [done..|]. apply IH.
Qed.

Section Follows.
Context {U : UnicodeCase} {MI : MapIter} {P : list Action -> Action -> Prop} (past : list Action).

Lemma follows_check (b : bool) resp (k : Prog Response) :
  (b = true -> follows P past k) -> follows P past (check! b or resp in k).
Proof. destruct b; [auto | done]. Qed.

Lemma follows_proceed {A : Type} (m : result Response A) (k : A -> Prog Response) :
  (forall x, m = Ok x -> follows P past (k x)) -> follows P past (proceed m k).
Proof. unfold proceed. destruct m; [auto | done]. Qed.

Lemma follows_match {E A : Type} (m : result E A) (resp : E -> Response) (k : A -> Prog Response) :
  (forall x, m = Ok x -> follows P past (k x)) ->
  follows P past (match m with Ok x => k x | Err e => Ret (resp e) end).
Proof. destruct m; [auto | done]. Qed.

Lemma follows_plain c status : (forall a, P past (Called c a)) -> follows P past (plain_call c status).
Proof. intros H a. split; [apply H|]. by destruct a. Qed.
End Follows.

Lemma follows_allowed {U : UnicodeCase} {R} rules uploader o (p : Prog R) tr p' tr0 :
  allowed rules uploader o tr0 -> follows (may rules uploader o) tr0 p -> steps p tr p' -> allowed rules uploader o (tr0 ++ tr).
Proof.
  intros Hal Hf Hs. revert tr0 Hal Hf. induction Hs as [|p a p1 tr p2 Hst _ IH]; intros tr0 Hal Hf; [by rewrite app_nil_r|].
  assert (H : may rules uploader o tr0 a /\ follows (may rules uploader o) (tr0 ++ [a]) p1).
  { destruct Hst; simpl in Hf; naive_solver. }
  destruct H as [Hm Hf1]. rewrite cons_middle, (assoc_L (++)). apply IH; [by constructor | done].
Qed.

(** Case analysis along a handler: guards, parse steps, calls and answers. *)
Ltac follow_step :=
  lazymatch goal with
  | |- follows _ _ (Ret _) => exact I
  | |- follows _ _ (proceed _ _) => apply follows_proceed; intros ? ?
  | |- follows _ _ (plain_call _ _) => apply follows_plain; intros ?
  | |- follows _ _ (notifyUpload _ _ _ _ _ _ _ _) => unfold notifyUpload
  | |- follows _ _ (if _ then _ else Ret _) => apply follows_check; intros ?
  | |- follows _ _ (if _ then Notify _ _ else _) => case_match
  | |- follows _ _ (match ?m with Ok _ => _ | Err _ => _ end) => destruct m eqn:?
  | |- follows _ _ (match ?m with Some _ => _ | None => _ end) => destruct m eqn:?
  | |- follows _ _ (let '(_, _) := ?m in _) => destruct m
  | |- follows _ _ (Up _ _) => intros ?; split
  | |- follows _ _ (Notify _ _) => split
  end.
Ltac follow := repeat (cbv zeta; follow_step).

Ltac unfold_handler :=
  unfold handlePutBucketLifecycleConfiguration, handleGetBucketLifecycleConfiguration, handleDeleteBucketLifecycleConfiguration,
    handlePutBucketVersioning, handleGetBucketVersioning, handlePutBucketTagging, handleGetBucketTagging,
    handleDeleteBucketTagging, handleGetBucketACL, handlePutBucketACL, handleBucketConfigRead, handleDeleteObjects,
    handleGetBucketLocation, handleListObjectVersions, handleListMultipartUploads, handleCreateBucket, handleDeleteBucket,
    handleHeadBucket, handleListObjectsV2, handleListObjects, handleGetObjectACL, handlePutObjectACL, handlePutObjectTagging,
    handleGetObjectTagging, handleDeleteObjectTagging, handleCreateMultipart, handleGetObjectAttributes, handleListParts,
    handleUploadPartCopy, handleUploadPart, handleCompleteMultipart, handleAbortMultipart, handleGetObject, handleHeadObject,
    handleCopyObject, handlePutObject, handleDeleteObject, requireBucketExists, requireObjectExists.

(** ** The targets of the inputs the handlers build *)

Section Refinement.
Context {U : UnicodeCase} {MI : MapIter} {S : SDK} {G : GoText} {X : XMLLexer} {PS : PartSort}.
Variables (cx : Context) (r : Request).

Definition targets (i : ObjectInput) (bucket key : gostring) : Prop := oi_Bucket i = bucket /\ oi_Key i = key.

Ltac built H := repeat (cbv zeta in H; case_match; try discriminate H; simplify_eq/=); try done.

Lemma read_object_target b k i : read_object_input r b k = Ok i -> targets (ro_object i) b k.
Proof. unfold read_object_input. intros H. built H. Qed.

Lemma put_object_target b k i : put_object_input cx r b k = Ok i -> targets (po_object i) b k.
Proof. unfold put_object_input, rbind. intros H. built H. Qed.

Lemma create_multipart_target b k i : create_multipart_input cx r b k = Ok i -> targets (cm_object i) b k.
Proof. unfold create_multipart_input, rbind, or_bad. intros H. built H. Qed.

Lemma upload_part_target b k u n i : upload_part_input cx r b k u n = Ok i -> targets (ur_object (pi_upload i)) b k.
Proof. unfold upload_part_input, rbind. intros H. built H. Qed.

Lemma complete_multipart_target b k u i :
  complete_multipart_input cx r b k u = Ok i -> targets (ur_object (cu_upload i)) b k /\ ur_UploadId (cu_upload i) = u.
Proof. unfold complete_multipart_input, rbind. intros H. built H. Qed.

Lemma list_input_bucket b max i : list_input r b max = Ok i -> li_Bucket i = b.
Proof. unfold list_input. intros H. built H. Qed.

Lemma copy_source_readable s :
  copy_source cx r = Ok s ->
  match SourceBucketFromCopySource s with Ok b => CanRead (cx_rules cx) b = true | Err _ => False end.
Proof.
  unfold copy_source. cbv zeta. generalize (TrimSpace (hget (Hdr r) (str "x-amz-copy-source"))). intros src.
  destruct (decide _); [done|].
  destruct (SourceBucketFromCopySource _) as [b|e] eqn:Es; [|done]. destruct (CanRead _ b) eqn:Er; [|done].
  intros [= <-]. by rewrite Es.
Qed.

Lemma copy_object_target b k i :
  copy_object_input cx r b k = Ok i -> targets (co_object i) b k /\ copy_source cx r = Ok (co_CopySource i).
Proof. unfold copy_object_input, rbind, or_bad. intros H. built H. Qed.

#[local] Opaque BucketPerm has SourceBucketFromCopySource PermRead PermWrite PermCreateBucket PermDeleteObject PermDeleteBucket.

Ltac know_targets :=
  repeat match goal with
  | H : read_object_input _ _ _ = Ok _ |- _ => apply read_object_target in H as [? ?]
  | H : put_object_input _ _ _ _ = Ok _ |- _ => apply put_object_target in H as [? ?]
  | H : create_multipart_input _ _ _ _ = Ok _ |- _ => apply create_multipart_target in H as [? ?]
  | H : upload_part_input _ _ _ _ _ _ = Ok _ |- _ => apply upload_part_target in H as [? ?]
  | H : complete_multipart_input _ _ _ _ _ = Ok _ |- _ => apply complete_multipart_target in H as [[? ?] ?]
  | H : copy_object_input _ _ _ _ = Ok _ |- _ => apply copy_object_target in H as [[? ?] ?]
  | H : copy_source _ _ = Ok _ |- _ => apply copy_source_readable in H
  | H : list_input _ _ _ = Ok _ |- _ => apply list_input_bucket in H
  end.
(** Goal: the policy allows the action. *)
Ltac allow :=
  know_targets; unfold CanRead, CanWrite, CanCreateBucket, CanConfigure, CanDeleteObject, CanDeleteBucket in *;
  split; [unfold call_needs; simpl; subst; simpl; try case_match; try done; simplify_eq/=;
            repeat match goal with H : _ = true |- _ => rewrite H end; by rewrite ?orb_true_r
         | simpl; subst; solve [by split | eexists; split_and!; [done | done | done]]].

Ltac announce :=
  know_targets; eexists _, _; split; [by rewrite last_snoc|]; simpl; subst; split_and!; try done;
  by match goal with |- context [wo_result ?o] => destruct (wo_result o) end.

Lemma handlers_follow o p : serve cx r o = Some p -> follows (may (cx_rules cx) (cx_uploader cx) o) [] p.
Proof.
  destruct o; intros [= <-].
  1: unfold handleListBuckets; follow.
  1: { apply follows_bind; [|by intros ? [?|?]]. destruct b; [|by apply follows_pages].
       intros a. split; [done|]. destruct a; [|done]. by case_match. }
  all: unfold_handler; follow; try (allow || announce).
Qed.

(** Without its right an operation is refused before anything else. *)
Lemma ungranted_refused o p : serve cx r o = Some p -> op_granted (cx_rules cx) o = false -> p = Ret forbidden.
Proof.
  destruct o; intros [= <-] Hg; try discriminate Hg; unfold op_granted in Hg; unfold_handler;
    unfold CanCreateBucket; by rewrite Hg.
Qed.

(** C2. The handlers refine the policy: whatever the upstream answers, an
    operation issues only calls that the caller's rights allow, each on the
    bucket and object of the operation's path - a copy only from a source the
    caller may read - and notifies only of a creation the upstream has just
    confirmed, under the caller's name; without its right it issues none and
    answers 403 AccessDenied. *)
Theorem handlers_refine_policy o p tr p' :
  serve cx r o = Some p -> steps p tr p' ->
  allowed (cx_rules cx) (cx_uploader cx) o tr /\
  (op_granted (cx_rules cx) o = false -> tr = [] /\ p' = Ret forbidden).
Proof.
  intros Hp Hs. split.
  - rewrite <- (app_nil_l tr). eapply follows_allowed; [constructor | by apply handlers_follow | exact Hs].
  - intros Hg. rewrite (ungranted_refused o p Hp Hg) in Hs. inversion Hs as [|? ? ? ? ? Hst]; [done | inversion Hst].
Qed.
End Refinement.

(** ** The whole gateway

    A request is authenticated, routed, and served under the identity it proved. *)

Section Gateway.
Context {U : UnicodeCase} {UL : UnicodeCaseLaws U} {MI : MapIter} {S : SDK} {G : GoText} {X : XMLLexer} {PS : PartSort}.
Context {FL : Limiter.Float64} {C : Credentials.Curve} {A : Credentials.AEAD}.
Variables (ttl maxEntries : Z) (limits : Limiter.Limits).

(** What the handlers read from the request's context. *)
Definition request_context (cx : Context) (id : Gateway.Identity) : Context := {|
  cx_rules := Gateway.id_rules id; cx_uploader := Gateway.UploaderFromRequest id; cx_sigv4 := Gateway.id_sigv4 id;
  cx_trailer := cx_trailer cx; cx_lateTrailer := cx_lateTrailer cx; cx_bodyEnd := cx_bodyEnd cx; cx_schedule := cx_schedule cx;
  cx_requiredKeys := cx_requiredKeys cx; cx_notifier := cx_notifier cx; cx_now := cx_now cx; cx_pages := cx_pages cx |}.

Definition gateway (cfg : Gateway.Config) (limiter : Limiter.Limiter) (now : instant)
    (groups : gostring -> gostring -> AuthLookup.groups_result) (readyAllowed : bool) (trailer : Header) (cx : Context)
    (r : Request) : option (Prog Response) :=
  match (Gateway.WithAuth cfg limiter now groups r).2 with
  | Gateway.ServeAs id r' =>
    match ServeHTTP readyAllowed trailer r' with
    | Handle o => serve (request_context cx id) r' o
    | _ => None
    end
  | _ => None
  end.

(** Groups [g] entitle to a need. *)
Definition entitles (g : gset gostring) (n : Need) : Prop :=
  match n with
  | NeedAny bucket => exists grp bit, grp ∈ g /\ bit ∈ perm_bits /\ grants grp bucket bit
  | NeedOne bucket bits => exists grp bit, grp ∈ g /\ bit ∈ bits /\ grants grp bucket bit
  end.

Lemma call_bits_known c : forall bit, bit ∈ call_bits c -> bit ∈ perm_bits.
Proof. intros bit. unfold perm_bits. destruct c; cbn [call_bits]; rewrite ?elem_of_cons, ?elem_of_nil; tauto. Qed.

Lemma meets_entitles g bucket bits :
  (forall bit, bit ∈ bits -> bit ∈ perm_bits) -> meets (RulesFromGroups g) (NeedOne bucket bits) = true ->
  entitles g (NeedOne bucket bits).
Proof.
  intros Hbits H. apply existsb_exists in H as (bit & Hin%list_elem_of_In & H).
  apply BucketPerm_groups in H as (grp & ? & ?); [|by apply Hbits]. by exists grp, bit.
Qed.

Lemma meets_any_entitles g bucket : meets (RulesFromGroups g) (NeedAny bucket) = true -> entitles g (NeedAny bucket).
Proof.
  intros H%negb_true_iff%Z.eqb_neq. apply some_permission in H as (bit & Hbit & H).
  apply BucketPerm_groups in H as (grp & ? & ?); [|done]. by exists grp, bit.
Qed.

Lemma needs_entitled g c :
  forallb (meets (RulesFromGroups g)) (call_needs c) = true -> Forall (entitles g) (call_needs c).
Proof.
  intros H. rewrite forallb_forall in H. apply Forall_forall. intros n Hn.
  specialize (H n (proj1 (list_elem_of_In _ _) Hn)). destruct n as [b|b bits]; [by apply meets_any_entitles|].
  apply meets_entitles; [|done]. intros bit Hbit.
  apply elem_of_app in Hn as [Hn|Hn].
  - apply (call_bits_known c). destruct c; cbn match in Hn; rewrite ?list_elem_of_singleton, ?elem_of_nil in Hn; try done;
      injection Hn as _ ->; exact Hbit.
  - destruct (call_source c); [|by apply not_elem_of_nil in Hn].
    destruct (SourceBucketFromCopySource _); apply list_elem_of_singleton in Hn; injection Hn as _ ->.
    + unfold perm_bits. apply list_elem_of_singleton in Hbit as ->. left.
    + by apply not_elem_of_nil in Hbit.
Qed.

Lemma allowed_Called rules uploader o tr c a :
  allowed rules uploader o tr -> Called c a ∈ tr -> forallb (meets rules) (call_needs c) = true /\ on_target o c.
Proof.
  induction 1 as [|tr b _ IH Hmay]; [by intros ?%not_elem_of_nil|]. intros [?|Hin]%elem_of_app; [by apply IH|].
  apply elem_of_cons in Hin as [<-|?%not_elem_of_nil]; [exact Hmay | done].
Qed.

Lemma gateway_path cfg limiter now groups ready trailer cx r p :
  gateway cfg limiter now groups ready trailer cx r = Some p ->
  exists l id r' o, Gateway.WithAuth cfg limiter now groups r = (l, Gateway.ServeAs id r') /\
    ServeHTTP ready trailer r' = Handle o /\ serve (request_context cx id) r' o = Some p.
Proof.
  unfold gateway. destruct (Gateway.WithAuth _ _ _ _ _) as [l []] eqn:Ea; cbn; try done.
  destruct (ServeHTTP _ _ _) as [| | | |o] eqn:Eo; try done. by exists l, id, r0, o.
Qed.

(** C1. No call without proof: every call the gateway makes upstream answers a
    request with a timely valid signature, by the secret of a credential sealed
    for this gateway, that covers the request's path; the directory has
    answered for that credential; the groups it reported entitle to every
    bucket the call touches, the source of a copy included; and the call is
    about the bucket and object of that path. *)
Theorem calls_need_directory_groups es groups cfg limiter now ready trailer cx r p tr p' c a :
  Gateway.answered_by ttl maxEntries limits es groups ->
  gateway cfg limiter now groups ready trailer cx r = Some p -> steps p tr p' -> Called c a ∈ tr ->
  exists auth upn pass secret r' g,
    ParseSigV4Authorization r = Ok auth /\ ValidateSigV4RequestTime auth now (Gateway.cfg_maxSkew cfg) = Ok tt /\
    Credentials.Decode (AccessKey auth) (Gateway.cfg_privateKey cfg) = Ok (upn, pass, secret) /\
    VerifySigV4 r auth secret = Ok r' /\
    AuthLookup.verified_key ttl maxEntries limits es upn pass g /\
    Forall (entitles g) (call_needs c) /\
    on_path (path_kind (if decide (Path r = []) then str "/" else Path r)) c.
Proof.
  intros Hans (l & id & r' & o & Hid & Ho & Hserve)%gateway_path Hs Hc.
  apply Gateway.WithAuth_identity in Hid as (upn & pass & g & Hg & _ & Hrules & Hid).
  assert (Hal : allowed (Gateway.id_rules id) (Gateway.UploaderFromRequest id) o tr).
  { rewrite <- (app_nil_l tr).
    eapply follows_allowed; [constructor | by apply (handlers_follow (request_context cx id) r') | exact Hs]. }
  destruct (allowed_Called _ _ _ _ _ _ Hal Hc) as [Hneeds Ht].
  apply ServeHTTP_routed in Ho as (Hpop & Hpath & _); [|by intros -> ..].
  unfold on_target in Ht. rewrite Hpath in Ht. rewrite Hrules in Hneeds. apply needs_entitled in Hneeds.
  destruct (Gateway.id_sigv4 id) as [[auth secret]|].
  - destruct Hid as (? & _ & ? & ? & Hv). exists auth, upn, pass, secret, r', g.
    assert (E : Path r' = Path r) by (by rewrite (VerifySigV4_request _ _ _ _ Hv)). rewrite E in Ht.
    split_and!; try done. by eapply Gateway.answered_verified.
  - exfalso. destruct Hid as (Hp & _ & ->). rewrite decide_False in Hpop by (by intros E; rewrite E in Hp). congruence.
Qed.
End Gateway.

(** ** Witnesses *)

Section Witnesses.
#[local] Existing Instance latin1_case.
#[local] Existing Instance canonical_iter.
#[local] Existing Instance Limiter.ieee_double.
#[local] Existing Instance Credentials.toy_curve.
#[local] Existing Instance sample_sdk.
#[local] Existing Instance sample_text.
#[local] Existing Instance plain_lexer.
#[local] Existing Instance stable_sort.

Definition clear_aead : Credentials.AEAD := {|
  Credentials.aead_seal _ _ _ pt := pt; Credentials.aead_open _ _ _ ct := Some ct;
  Credentials.aead_open_seal _ _ _ _ := eq_refl |}.
#[local] Existing Instance clear_aead.

(** A signed request by alice, whose groups may write and read the namespace of
    team1, to copy an object within it. *)
Definition copy_request : Request := {|
  Method := PUT; Path := str "/team1-data/new"; EscapedPath := str "/team1-data/new"; RawQuery := [];
  URLHost := []; Host := str "gateway"; RemoteAddr := str "192.0.2.1:1234";
  Hdr := list_to_map
    [(str "X-Amz-Content-Sha256", [str "e3b0c44298fc1c149afbf4c8996fb92427ae41e4649b934ca495991b7852b855"]);
     (str "X-Amz-Copy-Source", [str "/team1-other/old"]);
     (str "X-Amz-Date", [str "20130524T000000Z"]);
     (str "Authorization", [str "AWS4-HMAC-SHA256 Credential=X1ZXBoZW1lcmFsAAAAAAAAAAAAAAAAAAAAAAAAAAAAAAABAQEBAQEBAQEBAQEBAQEBAQEBAQEBAQEBAQEBAQEBAQICAgICAgICAgICAmFsaWNlOnB3/20130524/eu/s3/aws4_request, SignedHeaders=host;x-amz-content-sha256;x-amz-copy-source;x-amz-date, Signature=50ae7f30468b785b1015b5c2edad1137745f04c76bd4683766af497da787cae5"])];
  ContentLength := 0; Body := NoBody; TLS := true |}.

Definition no_output : WriteOutput := {|
  wo_ETag := None; wo_VersionId := Some (str "v1"); wo_CopySourceVersionId := None; wo_ServerSideEncryption := [];
  wo_SSEKMSKeyId := None; wo_SSEKMSEncryptionContext := None; wo_SSECustomerAlgorithm := None; wo_SSECustomerKeyMD5 := None;
  wo_BucketKeyEnabled := None; wo_Expiration := None; wo_RequestCharged := []; wo_checksum _ := None; wo_ChecksumType := [];
  wo_result := None |}.
(** An upstream that copies, and fails every other call. *)
Definition copying_upstream (c : Call) : Answer c :=
  match c with CopyObject _ => Ok no_output | _ => Err no_page end.

Definition sample_context : Context := {|
  cx_rules := RulesFromGroups AuthLookup.sample_groups; cx_uploader := str "alice"; cx_sigv4 := None; cx_trailer := ∅;
  cx_lateTrailer := ∅; cx_bodyEnd := EOF; cx_schedule := []; cx_requiredKeys := []; cx_notifier := true; cx_now := 0;
  cx_pages := 3 |}.

(** The trace starts with a call. *)
Definition calls_first (tr : list Action) : bool := match tr with Called _ _ :: _ => true | _ => false end.
Definition sample_gateway : option (Prog Response) :=
  gateway Gateway.sample_config (Limiter.NewLimiter Limiter.sample_limits) (1369353600 * 1000000000) Gateway.sample_answers
    true ∅ sample_context copy_request.

Lemma calls_need_directory_groups_witness :
  exists p tr p' c a, sample_gateway = Some p /\ steps p tr p' /\ Called c a ∈ tr /\
  exists auth upn pass secret r' g,
    ParseSigV4Authorization copy_request = Ok auth /\
    ValidateSigV4RequestTime auth (1369353600 * 1000000000) (Gateway.cfg_maxSkew Gateway.sample_config) = Ok tt /\
    Credentials.Decode (AccessKey auth) (Gateway.cfg_privateKey Gateway.sample_config) = Ok (upn, pass, secret) /\
    VerifySigV4 copy_request auth secret = Ok r' /\
    AuthLookup.verified_key 100000 10 Limiter.sample_limits AuthLookup.sample_run upn pass g /\
    Forall (entitles g) (call_needs c) /\
    on_path (path_kind (if decide (Path copy_request = []) then str "/" else Path copy_request)) c.
Proof.
  assert (H : match sample_gateway with Some p => calls_first (run copying_upstream false p).1 | None => false end = true)
    by (vm_compute; reflexivity).
  destruct sample_gateway as [p|] eqn:E; [|discriminate H].
  pose proof (run_steps copying_upstream false p) as Hs.
  destruct (run copying_upstream false p) as [[|[c a| |] tr] p']; try discriminate H.
  exists p, (Called c a :: tr), p', c, a. split; [reflexivity|]. split; [exact Hs|]. split; [left|].
  exact (calls_need_directory_groups 100000 10 Limiter.sample_limits AuthLookup.sample_run Gateway.sample_answers
    Gateway.sample_config (Limiter.NewLimiter Limiter.sample_limits) (1369353600 * 1000000000) true ∅ sample_context copy_request
    p (Called c a :: tr) p' c a Gateway.sample_answered E Hs ltac:(left)).
Defined.

(** The copy is made and announced. *)
Definition copied_first (tr : list Action) : bool :=
  match tr with [Called (CopyObject _) _; Notified _] => true | _ => false end.
Definition copy_operation : Operation := OpCopyObject (str "team1-data") (str "new").

Lemma handlers_refine_policy_witness :
  exists p tr p', serve sample_context copy_request copy_operation = Some p /\ steps p tr p' /\ copied_first tr = true /\
  allowed (cx_rules sample_context) (cx_uploader sample_context) copy_operation tr /\
  (op_granted (cx_rules sample_context) copy_operation = false -> tr = [] /\ p' = Ret forbidden).
Proof.
  assert (H : match serve sample_context copy_request copy_operation with
              | Some p => copied_first (run copying_upstream false p).1
              | None => false
              end = true) by (vm_compute; reflexivity).
  destruct (serve sample_context copy_request copy_operation) as [p|] eqn:E; [|discriminate H].
  pose proof (run_steps copying_upstream false p) as Hs. eexists p, _, _.
  split; [reflexivity|]. split; [exact Hs|]. split; [exact H|].
  exact (handlers_refine_policy sample_context copy_request copy_operation p _ _ E Hs).
Defined.
End Witnesses.
