(* ===== verification/Answers.v ===== *)
(** * What the handlers answer, and what they store

    Three results on all handlers at once: every answer is well-formed XML
    wherever it is XML; every object that is created with metadata of the request -
    by a put, a multipart upload, or a copy that replaces the metadata - names
    the caller and carries the required metadata; and the parameters of every
    call are within bounds. *)

From S2P Require Import Prelude GoStrings Http NetIP SigV4 Stream Authz Routing S3Xml S3Http XmlDecode XmlBody Lifecycle Upstream.
From S2P Require Import HandlerBase HandlersBucket HandlersObject HandlersMultipart Monitor.

#[local] Open Scope Z_scope.

(** ** Walking through a handler *)

Section Walk.
Context {U : UnicodeCase} {MI : MapIter} {C : Call -> Prop} {E : Event -> Prop} {Q : Response -> Prop}.

Lemma every_check (b : bool) resp (k : Prog Response) :
  Q resp -> (b = true -> every C E Q k) -> every C E Q (check! b or resp in k).
Proof. destruct b; [auto | done]. Qed.

Lemma every_proceed {A : Type} (m : result Response A) (k : A -> Prog Response) :
  (forall resp, m = Err resp -> Q resp) -> (forall x, m = Ok x -> every C E Q (k x)) -> every C E Q (proceed m k).
Proof. unfold proceed. destruct m; simpl; auto. Qed.

Lemma every_plain c status :
  C c -> (forall f, Q (WriteFailure f)) -> Q (WriteHeader no_headers status) -> every C E Q (plain_call c status).
Proof. intros Hc Hf Hw. split; [done|]. intros []; simpl; auto. Qed.

Lemma every_pages fuel acc token seen (Q' : result Failure ListBucketsOutput -> Prop) :
  (forall token, C (ListBuckets (page_input token))) -> (forall res, Q' res) -> every C E Q' (list_pages fuel acc token seen).
Proof.
  intros Hc Hq. revert acc token seen. induction fuel as [|fuel IH]; intros acc token seen; [done|].
  cbn [list_pages every]. intros [|]; [apply Hq|]. split; [apply Hc|]. intros [page|]; [|apply Hq].
  intros [|]; [apply Hq|]. cbv zeta. repeat case_decide; [apply Hq..|]. apply IH.
Qed.
End Walk.

Ltac walk_step :=
  lazymatch goal with
  | |- every _ _ _ (Ret _) => change_no_check (every ?C ?E ?Q (Ret ?r)) with (Q r); cbv beta
  | |- every _ _ _ (proceed _ _) => apply every_proceed; intros ? ?
  | |- every _ _ _ (plain_call _ _) => apply every_plain
  | |- every _ _ _ (notifyUpload _ _ _ _ _ _ _ _) => unfold notifyUpload
  | |- every _ _ _ (if _ then _ else Ret _) => apply every_check; [|intros ?]
  | |- every _ _ _ (if _ then Notify _ _ else _) => case_match
  | |- every _ _ _ (match ?m with Ok _ => _ | Err _ => _ end) => destruct m eqn:?
  | |- every _ _ _ (match ?m with Some _ => _ | None => _ end) => destruct m eqn:?
  | |- every _ _ _ (let '(_, _) := ?m in _) => destruct m
  | |- every _ _ _ (Up _ _) => split; [|intros ?]
  | |- every _ _ _ (Notify _ _) => split
  end.
Ltac walk := repeat (cbv zeta; walk_step).

Section Answers.
Context {U : UnicodeCase} {MI : MapIter} {S : SDK} {G : GoText} {X : XMLLexer} {PS : PartSort}.
Variables (cx : Context) (r : Request).

(** ** Well-formed answers *)

Lemma wf_failure f : well_formed (WriteFailure f).
Proof. apply wf_upstream_error. Qed.
Lemma wf_rejected e : well_formed (rejected e).
Proof. apply wf_error. Qed.
Lemma wf_bad m : well_formed (bad m).
Proof. apply wf_error. Qed.
Lemma wf_refuse c m : well_formed (refuse c m).
Proof. apply wf_error. Qed.
Lemma wf_not_implemented m : well_formed (not_implemented m).
Proof. apply wf_error. Qed.
Lemma wf_forbidden : well_formed forbidden.
Proof. apply wf_error. Qed.
Lemma wf_unsupported_acl b : well_formed (unsupported_acl b).
Proof. apply wf_error. Qed.
Hint Resolve wf_failure wf_rejected wf_bad wf_refuse wf_not_implemented wf_forbidden wf_unsupported_acl : s3xml.

Lemma wf_body_error e resp : body_error_response e = Some resp -> well_formed resp.
Proof. unfold body_error_response. intros H. repeat case_match; simplify_eq; auto with s3xml. Qed.

Lemma wf_validation err recorded resp : writeBodyValidationError err recorded = Some resp -> well_formed resp.
Proof.
  unfold writeBodyValidationError. destruct recorded as [e|]; cbn [mbind option_bind].
  - destruct (body_error_response e) eqn:Ee; [intros [= <-]; by eapply wf_body_error|].
    destruct err as [e'|]; [|done]. apply wf_body_error.
  - destruct err as [e'|]; [|done]. apply wf_body_error.
Qed.

Lemma wf_write_failure f : well_formed (write_failure f).
Proof.
  unfold write_failure. destruct (writeBodyValidationError _ _) eqn:Ev; [by eapply wf_validation | apply wf_failure].
Qed.
Hint Resolve wf_write_failure : s3xml.
Hint Resolve wf_validation : s3xml.

(** A parse step whose failures are well-formed answers. *)
Definition refuses_well {A : Type} (m : result Response A) : Prop := forall resp, m = Err resp -> well_formed resp.

Lemma rw_ok {A : Type} (x : A) : refuses_well (Ok x).
Proof. by intros ?. Qed.
Lemma rw_err {A : Type} resp : well_formed resp -> refuses_well (A := A) (Err resp).
Proof. by intros ? ? [= <-]. Qed.
Lemma rw_bind {A B : Type} (m : result Response A) (k : A -> result Response B) :
  refuses_well m -> (forall x, refuses_well (k x)) -> refuses_well (rbind m k).
Proof. intros Hm Hk. destruct m as [x|e]; [apply Hk | exact (rw_err e (Hm e eq_refl))]. Qed.
Lemma rw_guard b e : well_formed e -> refuses_well (rguard b e).
Proof. intros. destruct b; [apply rw_ok | by apply rw_err]. Qed.
Lemma rw_or_bad {A : Type} (m : result gostring A) msg : refuses_well (or_bad m msg).
Proof. unfold or_bad. destruct m; [apply rw_ok | apply rw_err, wf_bad]. Qed.
Hint Resolve rw_ok rw_err rw_bind rw_guard rw_or_bad : s3xml.

Ltac refuse :=
  repeat lazymatch goal with
  | |- refuses_well (rbind _ _) => apply rw_bind; [|intros ?]
  | |- refuses_well (let '(_, _) := ?m in _) => destruct m
  | |- refuses_well (match ?m with _ => _ end) => destruct m eqn:?
  end; eauto with s3xml.

Lemma rw_requireSupported : refuses_well (requireSupportedUploadProperties (Hdr r)).
Proof. unfold requireSupportedUploadProperties. refuse. Qed.
Lemma rw_body : refuses_well (decode_body cx r).
Proof. unfold decode_body. refuse. Qed.
Lemma rw_metadata : refuses_well (upload_metadata cx r).
Proof. unfold upload_metadata. refuse. Qed.
Lemma rw_expires : refuses_well (parseExpiresHeader (Hdr r)).
Proof. unfold parseExpiresHeader. refuse. Qed.
Lemma rw_conditions : refuses_well (write_conditions r).
Proof. unfold write_conditions. refuse. Qed.
Hint Resolve rw_requireSupported rw_body rw_metadata rw_expires rw_conditions : s3xml.

Lemma rw_read_object b k : refuses_well (read_object_input r b k).
Proof. unfold read_object_input. refuse.
  apply rw_err. repeat case_match; simplify_eq; auto with s3xml.  Qed.
Lemma rw_put_object b k : refuses_well (put_object_input cx r b k).
Proof. unfold put_object_input. refuse. Qed.
Lemma rw_copy_source : refuses_well (copy_source cx r).
Proof. unfold copy_source. cbv zeta. refuse. Qed.
Hint Resolve rw_copy_source : s3xml.
Lemma rw_copy_object b k : refuses_well (copy_object_input cx r b k).
Proof. unfold copy_object_input. refuse. Qed.
Lemma rw_create_multipart b k : refuses_well (create_multipart_input cx r b k).
Proof. unfold create_multipart_input. refuse. Qed.
Lemma rw_upload_part b k u n : refuses_well (upload_part_input cx r b k u n).
Proof. unfold upload_part_input. refuse. Qed.
Lemma rw_object_size : refuses_well (object_size r).
Proof. unfold object_size. refuse. Qed.
Hint Resolve rw_object_size : s3xml.
Lemma rw_complete_multipart b k u : refuses_well (complete_multipart_input cx r b k u).
Proof. unfold complete_multipart_input. refuse. Qed.
Lemma rw_bypass : refuses_well (requireNoGovernanceRetentionBypass (Hdr r)).
Proof. unfold requireNoGovernanceRetentionBypass. cbv zeta. refuse. Qed.
Lemma rw_create_bucket : refuses_well (parseCreateBucketHeaders r).
Proof. unfold parseCreateBucketHeaders. refuse. Qed.

(** ** What calls carry *)

(** Metadata that names the caller, whatever the client sent, and has every
    required key. *)
Definition attributed (meta : Metadata) : Prop :=
  (TrimSpace (cx_uploader cx) <> [] -> meta !! str "uploaded-by" = Some (TrimSpace (cx_uploader cx))) /\
  Forall (fun key => is_Some (meta !! key)) (cx_requiredKeys cx).
(** A copy with the default directive takes over the metadata of its source. *)
Definition attributed_call (c : Call) : Prop :=
  match c with
  | PutObject i => attributed (po_Metadata i)
  | CreateMultipartUpload i => attributed (cm_Metadata i)
  | CopyObject i => co_MetadataDirective i = MetadataDirectiveReplace -> attributed (co_Metadata i)
  | _ => True
  end.

Definition between (min max : Z) (v : option Z) : Prop := match v with Some n => min <= n <= max | None => True end.
(** An ETag in quotes; one that is a single quote is passed as it is. *)
Definition quoted (etag : gostring) : Prop := (exists inner, etag = quote ++ inner ++ quote) \/ etag = quote.
Definition part_number_ok (n : Z) : Prop := 1 <= n <= int32_max.

(** The bounds on the parameters of a call: those of the S3 API where the gateway
    enforces them, and a positive 32-bit number for a part. *)
Definition bounded_call (c : Call) : Prop :=
  match c with
  | ListBuckets i => 1 <= lbi_MaxBuckets i <= DefaultBucketPageSize
  | ListObjects i _ | ListObjectsV2 i _ _ _ | ListObjectVersions i _ _ => between 0 int32_max (li_Max i)
  | ListMultipartUploads i _ _ => between 1 int32_max (li_Max i)
  | GetObject i => between 1 int32_max (ro_PartNumber i)
  | GetObjectAttributes i => between 1 int32_max (ga_MaxParts i) /\ ga_ObjectAttributes i <> []
  | ListParts _ _ n => between 1 int32_max n
  | PutObject i => 0 <= po_ContentLength i <= maxSinglePutObjectSize /\ (po_IfMatch i = None \/ po_IfNoneMatch i = None)
  | CopyObject i => co_IfMatch i = None \/ co_IfNoneMatch i = None
  | UploadPart i => part_number_ok (pi_PartNumber i) /\ 0 <= pi_ContentLength i <= maxUploadPartSize
  | UploadPartCopy i => part_number_ok (pc_PartNumber i)
  | CompleteMultipartUpload i =>
    1 <= zlen (cu_Parts i) <= maxCompleteMultipartParts /\ Sorted by_number (cu_Parts i) /\
    Forall (fun p => part_number_ok (part_Number p) /\ quoted (part_ETag p)) (cu_Parts i) /\
    (cu_IfMatch i = None \/ cu_IfNoneMatch i = None)
  | DeleteObjects i =>
    1 <= zlen (di_Objects i) <= maxDeleteObjects /\ Forall (fun o => id_Key o <> []) (di_Objects i)
  | _ => True
  end.

(** What all calls of an operation satisfy; the bounds rest on the part number the
    router has checked. *)
Definition sound_call (o : Operation) (c : Call) : Prop := attributed_call c /\ (numbered o -> bounded_call c).

Lemma metadata_attributed meta : upload_metadata cx r = Ok meta -> attributed meta.
Proof.
  unfold upload_metadata. set (m := ensureUploadedByMetadata _ _).
  destruct (missingRequiredUploadMetadata m _) eqn:Em; [|done]. intros [= <-]. split.
  - intros Hu. unfold m, ensureUploadedByMetadata. cbv zeta. rewrite decide_False by done. by rewrite lookup_insert_eq.
  - unfold missingRequiredUploadMetadata in Em. apply map_eq_nil in Em. apply Forall_forall. intros key Hk.
    destruct (m !! key) eqn:E; [by eexists|]. exfalso.
    assert (Hin : key ∈ filter (fun key => m !! key = None) (cx_requiredKeys cx)) by (by apply list_elem_of_filter).
    rewrite Em in Hin. by apply not_elem_of_nil in Hin.
Qed.

Lemma int_parameter_between v min msg n : int_parameter v min msg = Ok n -> between min int32_max n.
Proof.
  unfold int_parameter. destruct v as [v|]; [|by intros [= <-]]. destruct (ParseInt v 10 32) as [m|] eqn:E; [|done].
  apply ParseInt_range in E; [|done]. destruct (Z.ltb_spec m min); intros [= <-]. unfold between, int32_max. lia.
Qed.

Lemma decode_body_length body cl : decode_body cx r = Ok (body, cl) -> 0 <= cl.
Proof.
  unfold decode_body. destruct (match cx_sigv4 cx with Some _ => _ | None => _ end) as [auth secret].
  destruct (ChunkSignatureVerifierFromRequest _ _ _) as [verifier|]; [|done].
  destruct (DecodeBodyForS3Write _ _ _ _ _) as [[b n]|e] eqn:E; [|by destruct (decide _); [|destruct (writeBodyValidationError _ _)]].
  intros [= _ <-]. unfold DecodeBodyForS3Write in E. destruct (IsAWSChunkedPayload _).
  - apply rbind_Ok in E as ([[v s] c] & _ & E). apply rbind_Ok in E as (d & Hd & E). unfold parseDecodedContentLength in Hd.
    apply require_Ok in Hd as [_ Hd]. destruct (ParseInt _ 10 64) as [m|]; [|done]. destruct (Z.ltb_spec m 0); [done|].
    injection Hd as ->. cbv zeta in E. destruct (d =? 0); [destruct (copy_discard _ _) as [? [|]]; [done|]|]; by injection E as _ <-.
  - apply require_Ok in E as [Hc E]. injection E as _ <-. by apply Z.leb_le.
Qed.

Lemma conditions_exclusive m n : write_conditions r = Ok (m, n) -> m = None \/ n = None.
Proof. unfold write_conditions. repeat case_match; intros [= <- <-]; auto. Qed.

(** The parse steps an input comes from. *)
Ltac parsed H :=
  repeat (cbv zeta in H; first
    [ discriminate H
    | apply require_Ok in H; let B := fresh "B" in destruct H as [B H]
    | apply rbind_Ok in H; let x := fresh "x" in let Hx := fresh "Hx" in destruct H as (x & Hx & H)
    | match type of H with
      | (let '(_, _) := ?m in _) = _ => destruct m
      | (match ?m with _ => _ end) = _ => destruct m eqn:?
      end ]); try (injection H as <-).

Lemma read_object_sound b k i : read_object_input r b k = Ok i -> between 1 int32_max (ro_PartNumber i).
Proof.
  unfold read_object_input. intros H. destruct (part_number _ _) as [n|] eqn:En; [|done].
  apply int_parameter_between in En. by parsed H.
Qed.

Lemma put_object_sound o b k i : put_object_input cx r b k = Ok i -> sound_call o (PutObject i).
Proof.
  unfold put_object_input. intros H. parsed H. split; cbn.
  - by apply metadata_attributed.
  - intros _. split; [|by eapply conditions_exclusive]. split; [by eapply decode_body_length | by apply Z.ltb_ge].
Qed.

Lemma copy_object_sound o b k i : copy_object_input cx r b k = Ok i -> sound_call o (CopyObject i).
Proof.
  unfold copy_object_input. intros H. parsed H. split; cbn; [|intros _; by eapply conditions_exclusive].
  intros Hd. apply metadata_attributed.
  match goal with H : (if decide (?d = _) then _ else _) = _ |- _ => by rewrite decide_True in H by exact Hd end.
Qed.

Lemma create_multipart_sound o b k i : create_multipart_input cx r b k = Ok i -> sound_call o (CreateMultipartUpload i).
Proof. unfold create_multipart_input. intros H. parsed H. split; [by apply metadata_attributed | done]. Qed.

Lemma upload_part_sound b k u n i : upload_part_input cx r b k u n = Ok i -> sound_call (OpUploadPart b k u n) (UploadPart i).
Proof.
  unfold upload_part_input. intros H. parsed H. split; cbn; [done|]. intros Hn.
  split; [exact Hn|]. split; [by eapply decode_body_length | by apply Z.ltb_ge].
Qed.

Lemma quoted_etag e :
  let f := if HasPrefix e quote then e else quote ++ e in quoted (if HasSuffix f quote then f else f ++ quote).
Proof.
  intros f. assert (exists t, f = quote ++ t) as [t Hf].
  { unfold f. destruct (HasPrefix e quote) eqn:Ep; [by apply HasPrefix_spec in Ep | by exists e]. }
  clearbody f. subst f. destruct (HasSuffix (quote ++ t) quote) eqn:Es; [|left; exists t; by rewrite (assoc_L (++))].
  destruct t as [|x t _] using rev_ind; [by right|]. left. exists t. revert Es. unfold HasSuffix.
  rewrite (assoc_L (++)), reverse_snoc. cbn. intros [Hx _]%andb_true_iff. by apply bool_decide_eq_true in Hx as <-.
Qed.

(** The document of a completion carries 32-bit part numbers. *)
Lemma decode_limited_from {A : Type} limits (decode : list Token -> list Token -> Node -> option A) body a :
  DecodeLimited limits decode body = Some a -> exists front own n, decode front own n = Some a.
Proof.
  unfold DecodeLimited. destruct (_ <? _); [done|]. destruct (lex body) as [ts complete]. destruct (negb complete); [done|].
  intros (_ & _ & H)%bind_Some. apply bind_Some in H as ([[[front own] n] rest] & _ & H). apply bind_Some in H as (a' & H & Hr).
  destruct (forallb _ _); [|done]. injection Hr as ->. by exists front, own, n.
Qed.
Lemma mapM_each {A B : Type} (f : A -> option B) (Q : B -> Prop) l k :
  (forall x y, f x = Some y -> Q y) -> mapM f l = Some k -> Forall Q k.
Proof. intros Hf H%mapM_Some. eapply Forall2_Forall_r; [exact H|]. apply Forall_true. exact Hf. Qed.

Lemma decode_part_number n p : decode_part n = Some p -> cp_PartNumber p <= int32_max.
Proof.
  unfold decode_part. destruct (negb _); [done|]. intros (numbers & Hn & H)%bind_Some.
  apply bind_Some in H as (etags & _ & H). apply bind_Some in H as (sums & _ & [= <-]). cbn [cp_PartNumber].
  destruct (last numbers) as [k|] eqn:Hk; [|by cbn]. apply last_Some_elem_of in Hk. cbn [default].
  assert (Hall : Forall (fun k => k <= int32_max) numbers); [|by rewrite Forall_forall in Hall; apply Hall].
  eapply mapM_each; [|exact Hn]. intros x y. unfold multipart_number. intros (v & _ & Hv)%bind_Some.
  apply ParseInt_range in Hv; [|done]. unfold int32_max. lia.
Qed.
Lemma manifest_numbers m manifest :
  m ≫= decodeCompleteMultipartUpload = Some manifest -> Forall (fun p => cp_PartNumber p <= int32_max) manifest.
Proof.
  intros (body & _ & H)%bind_Some. unfold decodeCompleteMultipartUpload in H. apply decode_limited_from in H as (_ & _ & n & H).
  unfold require_name in H. destruct (decide _); [|done]. destruct (negb _); [done|].
  eapply mapM_each; [|exact H]. apply decode_part_number.
Qed.

Lemma completed_part_sound p q :
  cp_PartNumber p <= int32_max -> completed_part p = Some q -> part_number_ok (part_Number q) /\ quoted (part_ETag q).
Proof.
  unfold completed_part. cbv zeta. destruct (_ || _) eqn:E; [done|]. apply orb_false_iff in E as [Hn _].
  intros Hmax [= <-]. split; [unfold part_number_ok; cbn; b2p; lia | apply quoted_etag].
Qed.

Lemma complete_multipart_sound o b k u i :
  complete_multipart_input cx r b k u = Ok i -> sound_call o (CompleteMultipartUpload i).
Proof.
  unfold complete_multipart_input. intros H. parsed H. split; [done|]. intros _. cbn.
  match goal with H : mapM completed_part ?m = Some ?l |- _ => set (parts := l) in *; apply mapM_Some in H as Hall end.
  match goal with H : body_octets _ _ ≫= _ = Some _ |- _ => apply manifest_numbers in H as Hmax end.
  assert (Hlen : zlen (sort_parts parts) = zlen parts) by (unfold zlen; by rewrite sort_parts_perm).
  rewrite Hlen. split; [|split; [apply sort_parts_sorted|split; [|by eapply conditions_exclusive]]].
  - apply Forall2_length in Hall. unfold zlen in *. split; [unfold parts; cbn [length]; lia|]. b2p. lia.
  - rewrite sort_parts_perm. eapply Forall2_Forall_r; [exact Hall|].
    eapply Forall_impl; [exact Hmax|]. intros p Hp q. by apply completed_part_sound.
Qed.

Lemma list_input_max b max i : list_input r b max = Ok i -> li_Max i = max.
Proof. unfold list_input. intros H. by parsed H. Qed.

Lemma delete_identifiers_sound l ids :
  mapM delete_identifier l = Some ids -> zlen ids = zlen l /\ Forall (fun o => id_Key o <> []) ids.
Proof.
  intros H%mapM_Some. split; [unfold zlen; by rewrite (Forall2_length _ _ _ H)|].
  eapply Forall2_Forall_r; [exact H|]. apply Forall_true. intros x o. unfold delete_identifier. cbv zeta.
  destruct (decide _); [done|]. by intros [= <-].
Qed.

Lemma list_buckets_parameter_bounded acc nv :
  match acc with Ok (i, _) => 1 <= lbi_MaxBuckets i <= DefaultBucketPageSize | Err _ => True end ->
  match list_buckets_parameter acc nv with Ok (i, _) => 1 <= lbi_MaxBuckets i <= DefaultBucketPageSize | Err _ => True end.
Proof.
  unfold list_buckets_parameter. destruct acc as [[i p]|]; [|done]. cbn [rbind]. intros Hi. cbv zeta.
  repeat (case_match; try done); simplify_eq; cbn; try exact Hi. b2p. lia.
Qed.
Lemma list_buckets_bounded i p : parseListBucketsQuery (Query r) = Ok (i, p) -> 1 <= lbi_MaxBuckets i <= DefaultBucketPageSize.
Proof.
  unfold parseListBucketsQuery. intros H.
  enough (Hf : forall l acc, match acc with Ok (i, _) => 1 <= lbi_MaxBuckets i <= DefaultBucketPageSize | Err _ => True end ->
    match fold_left list_buckets_parameter l acc with Ok (i, _) => 1 <= lbi_MaxBuckets i <= DefaultBucketPageSize | Err _ => True end).
  { specialize (Hf (map_iter (Query r)) (Ok (page_input None, false))). rewrite H in Hf. by apply Hf. }
  induction l as [|nv l IH]; intros acc Ha; [done|]. cbn [fold_left]. by apply IH, list_buckets_parameter_bounded.
Qed.

(** ** The documents of the answers are balanced *)

Lemma bal_truncated v : balanced (truncated_elem v).
Proof. unfold truncated_elem. repeat constructor. Qed.
Lemma bal_checksums v : balanced (checksum_elems v).
Proof. unfold checksum_elems. xml_balanced. Qed.
Hint Resolve bal_truncated bal_checksums : s3xml.
Lemma bal_contents o : balanced (contents_calls o).
Proof. unfold contents_calls. xml_balanced; auto with s3xml. Qed.
Lemma bal_version o : balanced (version_calls o).
Proof. unfold version_calls. xml_balanced; auto with s3xml. Qed.
Lemma bal_marker o : balanced (marker_calls o).
Proof. unfold marker_calls. xml_balanced; auto with s3xml. Qed.
Lemma bal_parts p : balanced (parts_calls p).
Proof. unfold parts_calls. xml_balanced; auto with s3xml.
Qed.
Lemma bal_copy_result res typed : balanced (copy_result_calls res typed).
Proof. unfold copy_result_calls. xml_balanced; auto with s3xml. Qed.
Lemma bal_delete_result out : balanced (delete_result_calls out).
Proof. unfold delete_result_calls. xml_balanced. Qed.
Hint Resolve bal_contents bal_version bal_marker bal_parts bal_copy_result bal_delete_result : s3xml.

Lemma wf_canned_acl : well_formed canned_acl.
Proof.
  apply wf_xml, doc_root; [done|]. cbv zeta. repeat (apply balanced_app || (apply bal_within; [done|])).
  all: repeat constructor.
Qed.

Lemma wf_config key :
  well_formed (match list_find (fun a : string * Response => str a.1 = key) config_answers with
               | Some (_, (_, resp)) => resp
               | None => not_implemented (str "Operation not implemented")
               end).
Proof.
  destruct (list_find _ _) as [[i [n resp]]|] eqn:E; [|apply wf_not_implemented].
  apply list_find_Some in E as (Hi & _ & _). apply list_elem_of_lookup_2 in Hi. revert Hi.
  assert (Hall : Forall (fun a : string * Response => well_formed a.2) config_answers).
  { unfold config_answers, no_such, writeEmptyConfigElement.
    repeat (apply Forall_cons_2; [first [apply wf_error | apply wf_xml; xml_balanced]|]). apply Forall_nil_2. }
  rewrite Forall_forall in Hall. apply (Hall (n, resp)).
Qed.
Hint Resolve wf_canned_acl wf_config : s3xml.

Lemma text_quote t : char_data text_rune t -> char_data text_rune (quote ++ t).
Proof. exact (cd_char text_rune 0x22 t eq_refl eq_refl). Qed.
Lemma bal_etag s : xml_text s -> balanced [RawString (quote ++ Escape (Trim s quote) ++ quote)].
Proof.
  intros Hs. apply bal_raw; [|constructor]. apply text_quote, char_data_app.
  - by apply char_data_text, Escape_char_data, xml_text_trim.
  - exact (text_quote [] (cd_nil _)).
Qed.
Hint Resolve bal_etag : s3xml.
Hint Resolve rw_read_object rw_put_object rw_copy_object rw_create_multipart rw_upload_part rw_complete_multipart rw_bypass
  rw_create_bucket : s3xml.

Lemma attributes_nonempty attrs : parseObjectAttributesHeader r = Some attrs -> attrs <> [].
Proof. unfold parseObjectAttributesHeader. destruct (fold_left _ _ _); [|done]. cbn. by case_decide; intros [= <-]. Qed.

Lemma deletions_sound (objs : list deleteObjectReqItem) ids :
  negb (bool_decide (objs = []) || (maxDeleteObjects <? zlen objs)) = true -> mapM delete_identifier objs = Some ids ->
  1 <= zlen ids <= maxDeleteObjects /\ Forall (fun o => id_Key o <> []) ids.
Proof.
  intros H%negb_true_iff%orb_false_iff [Hl Hk]%delete_identifiers_sound. destruct H as [Hne Hmax].
  split; [|done]. b2p. rewrite Hl. unfold zlen in *. destruct objs; [done|]. cbn [length] in *. lia.
Qed.

(** One walk through all handlers. *)
Ltac answer :=
  first [ exact I | by apply wf_header | by auto with s3xml
        | match goal with H : ?m = Err ?x |- well_formed ?x =>
            let Hr := fresh in assert (Hr : refuses_well m) by auto with s3xml; exact (Hr x H) end
        | by (case_match; auto with s3xml)
        | by (apply wf_xml; xml_balanced; auto with s3xml)
        | by (split; [auto with s3xml | auto]) ].

Ltac sound :=
  repeat match goal with
  | H : int_parameter _ _ _ = Ok _ |- _ => apply int_parameter_between in H
  | H : max_keys _ = Ok _ |- _ => apply int_parameter_between in H
  | H : list_input _ _ _ = Ok _ |- _ => apply list_input_max in H; subst
  | H : read_object_input _ _ _ = Ok _ |- _ => apply read_object_sound in H
  | H : parseObjectAttributesHeader _ = Some _ |- _ => apply attributes_nonempty in H
  | H : part_number _ _ = Ok _ |- _ => apply int_parameter_between in H
  end;
  first [ by eapply put_object_sound | by eapply copy_object_sound | by eapply create_multipart_sound
        | by eapply upload_part_sound | by eapply complete_multipart_sound
        | split; [done | intros _; eapply deletions_sound; eassumption] | by split ].

(** The two answers that hand on a string of the upstream's answer without
    encoding it; they are looked at separately. *)
Definition hands_on (o : Operation) : bool :=
  match o with OpGetBucketLocation _ | OpCompleteMultipart _ _ _ => true | _ => false end.

Lemma handlers_walk o p :
  serve cx r o = Some p -> every (sound_call o) (fun _ => True) (if hands_on o then fun _ => True else well_formed) p.
Proof.
  destruct o; intros [= <-]; cbn [hands_on].
  1: { unfold handleListBuckets. walk; [|auto with s3xml]. apply every_bind.
       assert (Hanswer : forall res, every (sound_call OpListBuckets) (fun _ => True) well_formed
         (match res with Err f => Ret (WriteFailure f) | Ok out => Ret (list_buckets_response (cx_rules cx) out) end)).
       { intros [out|f]; [|apply wf_failure]. apply wf_xml. xml_balanced. }
       destruct b; [|by apply every_pages; [intros; by split|]]. split; [split; [done|] | intros [out|f]; [case_match|]; apply Hanswer].
       intros _. by eapply list_buckets_bounded. }
  all: unfold_handler; walk; try answer; try sound.
Qed.

(** ** Strings handed on *)

(** The SDK has read these answers from XML documents, with a decoder that
    refuses octets that are no characters of XML. *)
Definition clean_answer (c : Call) : Answer c -> Prop :=
  match c with
  | GetBucketLocation _ => fun a => match a with Ok loc => xml_text loc | Err _ => True end
  | CompleteMultipartUpload _ => fun a => match a with Ok out => from_option xml_text True (wo_ETag out) | Err _ => True end
  | _ => fun _ => True
  end.

(** All results of a program whose upstream gives clean answers. *)
Fixpoint answers (Q : Response -> Prop) (p : Prog Response) : Prop :=
  match p with
  | Ret resp => Q resp
  | Up c k => forall a, clean_answer c a -> answers Q (k a)
  | Poll k => forall b, answers Q (k b)
  | Notify _ k => answers Q k
  | Spin => True
  end.

Lemma every_answers C E Q p : every C E Q p -> answers Q p.
Proof. induction p; simpl; naive_solver. Qed.

Lemma answers_steps Q p tr p' :
  answers Q p -> steps p tr p' -> (forall c a, Called c a ∈ tr -> clean_answer c a) -> answers Q p'.
Proof.
  intros H Hs. revert H. induction Hs as [|p a p1 tr p2 Hst _ IH]; intros H Hc; [done|].
  apply IH; [|intros c b Hb; apply Hc; by right]. destruct Hst; simpl in H; [|done..]. apply H, Hc. by left.
Qed.

Lemma location_answers b : answers well_formed (handleGetBucketLocation cx r b).
Proof.
  unfold handleGetBucketLocation. destruct (negb _); [|apply wf_forbidden]. intros [loc|f] Ha; [|apply wf_failure].
  apply wf_xml, doc_root; [done|]. destruct (decide (loc = [])); [constructor|]. xml_balanced.
Qed.

Lemma complete_answers b k u : answers well_formed (handleCompleteMultipart cx r b k u).
Proof.
  unfold handleCompleteMultipart. destruct (CanWrite _ _); [|apply wf_forbidden].
  destruct (complete_multipart_input cx r b k u) as [i|e] eqn:Ei; [|by eapply rw_complete_multipart].
  intros [out|f] Ha; [|apply wf_failure].
  assert (Hw : forall h, well_formed (xml_response h 200 (root "CompleteMultipartUploadResult" (
     [Elem (str "Bucket") b; Elem (str "Key") k] ++
     match wo_ETag out with Some etag => within "ETag" [RawString (quote ++ Escape (Trim etag quote) ++ quote)] | None => [] end ++
     checksum_elems (wo_checksum out) ++ elem_enum "ChecksumType" (wo_ChecksumType out))))).
  { intros h. apply wf_xml, doc_root; [done|]. cbn in Ha. xml_balanced; auto with s3xml. }
  unfold notifyUpload. destruct (cx_notifier cx); apply Hw.
Qed.

Lemma all_answers o p : serve cx r o = Some p -> answers well_formed p.
Proof.
  intros H. pose proof (handlers_walk o p H) as Hw. destruct (hands_on o) eqn:Ho; [|by eapply every_answers].
  destruct o; try discriminate Ho; injection H as <-; [apply location_answers | apply complete_answers].
Qed.

(** C4. Uploads are attributed: whatever headers the client sends, an object is
    created - by a put, a multipart upload, or a copy that replaces the metadata -
    only with metadata that names the authenticated caller as its uploader and
    has every required key.  A copy that keeps the metadata of its source keeps
    the source's uploader with it. *)
Theorem uploads_attributed o p tr p' c a :
  serve cx r o = Some p -> steps p tr p' -> Called c a ∈ tr -> attributed_call c.
Proof.
  intros Hp Hs Hc. destruct (every_steps _ _ _ _ _ _ (handlers_walk o p Hp) Hs) as [_ Hall].
  by destruct (Hall _ Hc).
Qed.


(** C8. Every answer that is XML is well-formed: an XML declaration and one
    element, its tags matched, its text and attribute values escaped and made of
    the characters XML allows, whatever keys, names and metadata the upstream or
    the client put into it.  Two strings are handed on without the encoder and
    only escaped, a bucket's location and the ETag of a completed upload: for
    these the answers must be text that XML can carry ([clean_answer]). *)
Theorem answers_well_formed o p tr resp :
  serve cx r o = Some p -> steps p tr (Ret resp) -> (forall c a, Called c a ∈ tr -> clean_answer c a) ->
  match resp_body resp with
  | XmlDoc prolog calls =>
    (prolog = xmlDeclaration \/ prolog = xmlHeader) /\ exists body, xml_octets prolog calls = prolog ++ body /\ element body
  | _ => True
  end.
Proof.
  intros Hp Hs Hclean. pose proof (answers_steps _ _ _ _ (all_answers o p Hp) Hs Hclean) as Hw. cbn in Hw. unfold well_formed in Hw.
  destruct (resp_body resp) as [|prolog calls|]; [done| |done]. destruct Hw as [Hd Hpr]. split; [done|].
  by destruct (document_octets prolog calls Hd) as (_ & _ & H).
Qed.
End Answers.

(** ** Witnesses *)

Section Witnesses.
#[local] Existing Instance latin1_case.
#[local] Existing Instance canonical_iter.
#[local] Existing Instance sample_sdk.
#[local] Existing Instance sample_text.
#[local] Existing Instance plain_lexer.
#[local] Existing Instance stable_sort.

(** A put by alice that claims to be mallory's. *)
Definition put_request : Request := {|
  Method := PUT; Path := str "/team1-data/k"; EscapedPath := str "/team1-data/k"; RawQuery := []; URLHost := [];
  Host := str "gateway"; RemoteAddr := str "192.0.2.1:1234";
  Hdr := list_to_map
    [(str "X-Amz-Meta-Uploaded-By", [str "mallory"]); (str "X-Amz-Meta-Project", [str "p"; str "q"]); (str "If-None-Match", [str "*"])];
  ContentLength := 5; Body := RawBody (str "hello"); TLS := true |}.
Definition strict_context : Context := {|
  cx_rules := RulesFromGroups {[str "team1-rw"]}; cx_uploader := str " alice"; cx_sigv4 := None; cx_trailer := ∅;
  cx_lateTrailer := ∅; cx_bodyEnd := EOF; cx_schedule := []; cx_requiredKeys := [str "project"]; cx_notifier := false;
  cx_now := 0; cx_pages := 3 |}.
Definition put_operation : Operation := OpPutObject (str "team1-data") (str "k").
Definition sample_put : option (Prog Response) := serve strict_context put_request put_operation.
Definition failing_upstream (c : Call) : Answer c := Err no_page.

Lemma sample_put_run :
  match sample_put with
  | Some p => match run failing_upstream false p with
              | ([Called (PutObject i) _], Ret resp) =>
                bool_decide (po_Metadata i !! str "uploaded-by" = Some (str "alice") /\
                             po_Metadata i !! str "project" = Some (str "p,q") /\ resp_status resp = 502)
              | _ => false
              end
  | None => false
  end = true.
Proof. vm_compute. reflexivity. Qed.

(** What the run of the put shows. *)
Lemma sample_put_steps : exists p i a resp, sample_put = Some p /\ steps p [Called (PutObject i) a] (Ret resp).
Proof.
  pose proof sample_put_run as H. destruct sample_put as [p|]; [|done].
  pose proof (run_steps failing_upstream false p) as Hs. destruct (run failing_upstream false p) as [tr q].
  destruct tr as [|[[]| |] [|]]; try discriminate H. destruct q as [resp| | | |]; try discriminate H. by eexists _, _, _, _.
Qed.

Lemma uploads_attributed_witness : exists i, attributed_call strict_context (PutObject i).
Proof.
  destruct sample_put_steps as (p & i & a & resp & Hp & Hs). exists i.
  exact (uploads_attributed strict_context put_request put_operation p _ _ (PutObject i) a Hp Hs ltac:(left)).
Defined.


(** A bucket's location, with the region the upstream names. *)
Lemma sample_location :
  exists p i resp, serve strict_context put_request (OpGetBucketLocation (str "team1-data")) = Some p /\
    steps p [Called (GetBucketLocation i) (Ok (str "eu-1"))] (Ret resp) /\
    resp_body resp = XmlDoc xmlDeclaration (root "LocationConstraint" [RawString (str "eu-1")]).
Proof.
  eexists _, _, _. split; [reflexivity|]. split.
  - unfold handleGetBucketLocation. replace (negb _) with true by (vm_compute; reflexivity).
    refine (steps_cons _ _ _ _ _ (step_up _ _ _) (steps_nil _)).
  - vm_compute. reflexivity.
Qed.

Lemma answers_well_formed_witness :
  exists resp, resp_body resp = XmlDoc xmlDeclaration (root "LocationConstraint" [RawString (str "eu-1")]) /\
    match resp_body resp with
    | XmlDoc prolog calls => (prolog = xmlDeclaration \/ prolog = xmlHeader) /\
                             exists body, xml_octets prolog calls = prolog ++ body /\ element body
    | _ => True
    end.
Proof.
  destruct sample_location as (p & i & resp & Hp & Hs & Hb). exists resp. split; [exact Hb|].
  refine (answers_well_formed strict_context put_request _ p _ resp Hp Hs _).
  intros c a H%list_elem_of_singleton. change (match Called c a with Called c a => clean_answer c a | _ => True end).
  rewrite H. exists (map bz (str "eu-1")). split; [by repeat constructor|reflexivity].
Defined.
End Witnesses.
