(* ===== verification/Listing.v ===== *)
(** * The list of buckets (src/internal/upstream/buckets.go, handlers_bucket.go)

    An unpaginated ListBuckets collects all upstream pages and shows the
    caller's part of them.  The pages are specified as a chain of tokens; the
    collection loop yields a whole chain or an error, and it ends. *)

From S2P Require Import Prelude GoStrings Http NetIP SigV4 Stream Authz Routing S3Xml S3Http XmlDecode XmlBody Lifecycle Upstream.
From S2P Require Import HandlerBase HandlersBucket.

#[local] Open Scope Z_scope.

(** ** The specification *)

Definition next_token (page : ListBucketsOutput) : gostring := default [] (lbo_ContinuationToken page).

(** The actions that collect all pages from [token] on, and the buckets they yield. *)
Inductive chain : option gostring -> list Action -> list BucketEntry -> Prop :=
| chain_last token page : next_token page = [] ->
    chain token [Polled false; Called (ListBuckets (page_input token)) (Ok page); Polled false] (lbo_Buckets page)
| chain_more token page tr buckets : next_token page <> [] -> chain (Some (next_token page)) tr buckets ->
    chain token (Polled false :: Called (ListBuckets (page_input token)) (Ok page) :: Polled false :: tr)
      (lbo_Buckets page ++ buckets).

Definition buckets_so_far (acc : option ListBucketsOutput) : list BucketEntry :=
  match acc with Some out => lbo_Buckets out | None => [] end.

Lemma append_page_buckets acc page : lbo_Buckets (append_page acc page) = buckets_so_far acc ++ lbo_Buckets page.
Proof. by destruct acc. Qed.
Lemma append_page_token acc page :
  match acc with Some out => lbo_ContinuationToken out = None | None => True end ->
  lbo_ContinuationToken (append_page acc page) = None.
Proof. by destruct acc. Qed.

(** ** The collection loop *)

Definition accumulated (acc : option ListBucketsOutput) : Prop :=
  match acc with Some out => lbo_ContinuationToken out = None | None => True end.

Lemma list_pages_chain fuel acc token seen tr out :
  accumulated acc -> steps (list_pages fuel acc token seen) tr (Ret (Ok out)) ->
  exists buckets, chain token tr buckets /\ lbo_Buckets out = buckets_so_far acc ++ buckets /\
    lbo_ContinuationToken out = None.
Proof.
  revert acc token seen tr. induction fuel as [|fuel IH]; intros acc token seen tr Hacc Hs; cbn [list_pages] in Hs;
    [by apply steps_inv in Hs as [[_ ?]|[]]|].
  apply steps_inv in Hs as [[_ ?]|(b & t1 & -> & Hs)]; [done|]. destruct b; [by apply steps_inv in Hs as [[_ ?]|[]]|].
  apply steps_inv in Hs as [[_ ?]|(a & t2 & -> & Hs)]; [done|]. destruct a as [page|f]; [|by apply steps_inv in Hs as [[_ ?]|[]]].
  apply steps_inv in Hs as [[_ ?]|(b & t3 & -> & Hs)]; [done|]. destruct b; [by apply steps_inv in Hs as [[_ ?]|[]]|].
  cbv zeta in Hs. fold (next_token page) in Hs. destruct (decide (next_token page = [])) as [Hn|Hn].
  - apply steps_inv in Hs as [[-> [= ->]]|[]]. exists (lbo_Buckets page). split; [by apply chain_last|].
    split; [apply append_page_buckets | by apply append_page_token].
  - destruct (decide (next_token page ∈ seen)); [by apply steps_inv in Hs as [[_ ?]|[]]|].
    apply IH in Hs as (buckets & Hc & Hb & Ht); [|by apply append_page_token].
    exists (lbo_Buckets page ++ buckets). split; [by apply chain_more|]. split; [|done].
    rewrite Hb. cbn [buckets_so_far]. by rewrite append_page_buckets, (assoc_L (++)).
Qed.

(** The tokens the upstream answers with are all in [T]. *)
Definition answers_in (T : gset gostring) (tr : list Action) : Prop :=
  forall i page, Called (ListBuckets i) (Ok page) ∈ tr -> next_token page = [] \/ next_token page ∈ T.

Lemma list_pages_ends fuel acc token seen T tr p :
  seen ⊆ T -> (size T < fuel + size seen)%nat -> steps (list_pages fuel acc token seen) tr p -> answers_in T tr ->
  p <> Spin /\ (length tr <= 3 * (size T - size seen + 1))%nat.
Proof.
  revert acc token seen tr. induction fuel as [|fuel IH]; intros acc token seen tr Hsub Hf Hs Ht.
  { pose proof (subseteq_size _ _ Hsub). lia. }
  cbn [list_pages] in Hs.
  apply steps_inv in Hs as [[-> ->]|(b & t1 & -> & Hs)]; [by split; [|cbn; lia]|].
  destruct b; [apply steps_inv in Hs as [[-> ->]|[]]; by split; [|cbn; lia]|].
  apply steps_inv in Hs as [[-> ->]|(a & t2 & -> & Hs)]; [by split; [|cbn; lia]|].
  destruct a as [page|f]; [|apply steps_inv in Hs as [[-> ->]|[]]; by split; [|cbn; lia]].
  apply steps_inv in Hs as [[-> ->]|(b & t3 & -> & Hs)]; [by split; [|cbn; lia]|].
  destruct b; [apply steps_inv in Hs as [[-> ->]|[]]; by split; [|cbn; lia]|].
  cbv zeta in Hs. fold (next_token page) in Hs.
  destruct (decide (next_token page = [])) as [Hn|Hn]; [apply steps_inv in Hs as [[-> ->]|[]]; by split; [|cbn; lia]|].
  destruct (decide (next_token page ∈ seen)) as [Hin|Hin]; [apply steps_inv in Hs as [[-> ->]|[]]; by split; [|cbn; lia]|].
  assert (HT : next_token page ∈ T).
  { destruct (Ht (page_input token) page) as [?|?]; [right; left | done..]. }
  assert (Hsize : size ({[next_token page]} ∪ seen) = S (size seen)) by (rewrite size_union, size_singleton by set_solver; lia).
  assert (Hsub' : {[next_token page]} ∪ seen ⊆ T) by set_solver.
  pose proof (subseteq_size _ _ Hsub').
  destruct (IH _ _ _ t3 Hsub' ltac:(lia) Hs) as [Hp Hl]; [intros i q Hq; apply (Ht i); by do 3 right|].
  split; [done|]. cbn [length]. lia.
Qed.

(** ** The handler *)

Section Handler.
Context {U : UnicodeCase} {UL : UnicodeCaseLaws U} {MI : MapIter} {S : SDK} {G : GoText}.
Variables (cx : Context) (r : Request).

(** A bucket is shown to the members of groups that grant something on it. *)
Definition entitled (groups : gset gostring) (b : BucketEntry) : Prop :=
  exists name grp bit, be_Name b = Some name /\ grp ∈ groups /\ bit ∈ perm_bits /\ grants grp name bit.

Lemma visible_entitled groups b : visible (RulesFromGroups groups) b = true <-> entitled groups b.
Proof.
  unfold visible, entitled. destruct (be_Name b) as [name|]; [|naive_solver]. rewrite negb_true_iff, Z.eqb_neq. split.
  - intros (bit & Hbit & H)%some_permission. apply BucketPerm_groups in H as (grp & ? & ?); [|done]. by exists name, grp, bit.
  - intros (? & grp & bit & [= <-] & Hg & Hbit & H) Hz.
    assert (Hh : has (BucketPerm (RulesFromGroups groups) name) bit = true) by (apply BucketPerm_groups; eauto).
    by rewrite Hz, has_0 in Hh.
Qed.

Definition bucket_calls (b : BucketEntry) : list WCall :=
  within "Bucket" (elem_str "Name" (be_Name b) ++ elem_time "CreationDate" (be_CreationDate b)).

(** What a listing collects, and the token it hands out: all pages, when the
    request asks for no page; the one page asked for otherwise, with the token of
    the next. *)
Inductive listing (i : ListBucketsInput) : bool -> list Action -> list BucketEntry -> gostring -> Prop :=
| listing_all tr buckets : chain None tr buckets -> listing i false tr buckets []
| listing_page page :
    next_token page = [] \/ next_token page <> ToString (lbi_ContinuationToken i) ->
    listing i true [Called (ListBuckets i) (Ok page)] (lbo_Buckets page) (next_token page).

(** A listing that answers has listed. *)
Lemma listing_steps (i : ListBucketsInput) paginated tr out :
  steps (if paginated : bool then list_page i else ListAllBuckets (cx_pages cx)) tr (Ret (Ok out)) ->
  listing i paginated tr (lbo_Buckets out) (ToString (lbo_ContinuationToken out)).
Proof.
  destruct paginated; intros Hs.
  - unfold list_page in Hs. apply steps_inv in Hs as [[_ ?]|(a & t & -> & Hs)]; [done|].
    destruct a as [page|f]; [|by apply steps_inv in Hs as [[_ ?]|[]]].
    destruct (_ && _) eqn:E; apply steps_inv in Hs as [[-> Heq]|[]]; [done|]. injection Heq as <-. apply listing_page.
    unfold next_token, ToString in *. apply andb_false_iff in E as [E|E]; b2p; [left; by apply dec_stable|by right].
  - apply list_pages_chain in Hs as (buckets & Hc & Hb & Ht); [|done]. rewrite Hb, Ht. by apply listing_all.
Qed.

(** C9. ListBuckets shows the caller exactly its buckets: an answer that is not an
    error lists, out of the buckets collected - those of all pages of the
    upstream, from the first to the one without a token, when the request has no
    pagination or filter parameter; those of the one page asked for, with the
    token of the next, when it has one - those and only those on which one of the
    caller's groups grants some permission, in the upstream's order. *)
Theorem list_buckets_complete groups i paginated tr resp :
  cx_rules cx = RulesFromGroups groups -> parseListBucketsQuery (Query r) = Ok (i, paginated) ->
  steps (handleListBuckets cx r) tr (Ret resp) ->
  (exists f, resp = WriteFailure f) \/
  exists buckets shown token prefix, listing i paginated tr buckets token /\ sublist shown buckets /\
    (forall b, b ∈ shown <-> b ∈ buckets /\ entitled groups b) /\
    resp = xml_response no_headers 200 (root "ListAllMyBucketsResult"
             (within "Buckets" (flat_map bucket_calls shown) ++ elem_enum "ContinuationToken" token ++ elem_str "Prefix" prefix)).
Proof.
  intros Hrules Hq Hs. unfold handleListBuckets in Hs. rewrite Hq in Hs.
  apply steps_bind_ret in Hs as (t1 & t2 & res & -> & Hp & Hs).
  destruct res as [out|f]; apply steps_inv in Hs as [[-> Heq]|[]]; injection Heq as ->; rewrite app_nil_r; [right | left; by eexists].
  exists (lbo_Buckets out), (List.filter (visible (RulesFromGroups groups)) (lbo_Buckets out)), (ToString (lbo_ContinuationToken out)), (lbo_Prefix out).
  split; [by apply listing_steps|]. split; [|split].
  - clear. induction (lbo_Buckets out) as [|b l IH]; [constructor|]. cbn [List.filter]. destruct (visible _ b); by constructor.
  - intros b. rewrite <- visible_entitled, !list_elem_of_In, filter_In. tauto.
  - unfold list_buckets_response. by rewrite Hrules.
Qed.

(** Listing ends: if the upstream's continuation tokens are among [n] values,
    a listing of all buckets makes at most [n + 1] calls and then answers,
    whatever the order and the repetition of the tokens. *)
Theorem list_buckets_ends T tr p :
  (size T < cx_pages cx)%nat -> steps (handleListBuckets cx r) tr p -> answers_in T tr ->
  p <> Spin /\ (length tr <= 3 * (size T + 1))%nat.
Proof.
  intros Hf Hs Ht. unfold handleListBuckets in Hs.
  destruct (parseListBucketsQuery (Query r)) as [[i [|]]|]; [| |apply steps_inv in Hs as [[-> ->]|[]]; by split; [|cbn; lia]].
  - cbn [pbind list_page] in Hs. apply steps_inv in Hs as [[-> ->]|(a & tr' & -> & Hs)]; [by split; [|cbn; lia]|].
    assert (tr' = [] /\ p <> Spin) as [-> Hp]; [|split; [done | cbn; lia]].
    destruct a as [out|f]; cbn [pbind] in Hs; [destruct (_ && _); cbn [pbind] in Hs|];
      apply steps_inv in Hs as [[-> ->]|[]]; done.
  - apply steps_bind in Hs as [(q & Hq & ->)|(t1 & t2 & res & -> & Hq & Hs)].
    + apply (list_pages_ends _ _ _ _ T) in Hq as [Hq Hl]; [|set_solver|rewrite size_empty; lia|done].
      rewrite size_empty in Hl. split; [|lia]. destruct q as [[]| | | |]; done.
    + apply (list_pages_ends _ _ _ _ T) in Hq as [_ Hl]; [|set_solver|rewrite size_empty; lia|].
      2: { intros j page Hj. apply (Ht j). apply elem_of_app. by left. }
      rewrite size_empty in Hl. destruct res; apply steps_inv in Hs as [[-> ->]|[]]; rewrite app_nil_r; (split; [done | lia]).
Qed.
End Handler.

(** ** Witnesses *)

Section Witnesses.
#[local] Existing Instance latin1_case.
#[local] Existing Instance canonical_iter.

Definition root_request : Request := {|
  Method := str "GET"; Path := str "/"; EscapedPath := str "/"; RawQuery := []; URLHost := []; Host := str "gateway";
  RemoteAddr := str "192.0.2.1:1234"; Hdr := ∅; ContentLength := 0; Body := NoBody; TLS := true |}.
Definition member_context : Context := {|
  cx_rules := RulesFromGroups {[str "team1-r"]}; cx_uploader := str "alice"; cx_sigv4 := None; cx_trailer := ∅;
  cx_lateTrailer := ∅; cx_bodyEnd := EOF; cx_schedule := []; cx_requiredKeys := []; cx_notifier := false;
  cx_now := 0; cx_pages := 2 |}.

(** An upstream with two pages. *)
Definition bucket_named (name : string) : BucketEntry := {| be_Name := Some (str name); be_CreationDate := None |}.
Definition first_page : ListBucketsOutput := {|
  lbo_Buckets := [bucket_named "team1-a"; bucket_named "team2-b"]; lbo_ContinuationToken := Some (str "more"); lbo_Prefix := None |}.
Definition last_page : ListBucketsOutput := {|
  lbo_Buckets := [bucket_named "team1-c"]; lbo_ContinuationToken := None; lbo_Prefix := None |}.
Definition two_pages (c : Call) : Answer c :=
  match c with
  | ListBuckets i => Ok match lbi_ContinuationToken i with None => first_page | Some _ => last_page end
  | _ => Err no_page
  end.

Lemma two_pages_tokens cancelled (p : Prog Response) : answers_in {[str "more"]} (run two_pages cancelled p).1.
Proof.
  intros i page Hc.
  refine (run_called (fun c => match c return Answer c -> Prop with
            | ListBuckets _ => fun a => match a with Ok page => next_token page = [] \/ next_token page ∈ {[str "more"]} | Err _ => True end
            | _ => fun _ => True
            end) two_pages cancelled p (ListBuckets i) (Ok page) _ Hc).
  intros []; try done. cbn. destruct (lbi_ContinuationToken _); [by left | right; by apply elem_of_singleton].
Qed.

Lemma list_buckets_complete_witness :
  exists tr resp, steps (handleListBuckets member_context root_request) tr (Ret resp) /\ length tr = 6%nat /\
  ((exists f, resp = WriteFailure f) \/
   exists buckets shown token prefix, listing (page_input None) false tr buckets token /\ sublist shown buckets /\
    (forall b, b ∈ shown <-> b ∈ buckets /\ entitled {[str "team1-r"]} b) /\
    resp = xml_response no_headers 200 (root "ListAllMyBucketsResult"
             (within "Buckets" (flat_map bucket_calls shown) ++ elem_enum "ContinuationToken" token ++ elem_str "Prefix" prefix))).
Proof.
  pose proof (run_steps two_pages false (handleListBuckets member_context root_request)) as Hs.
  assert (H : match run two_pages false (handleListBuckets member_context root_request) with
              | (tr, Ret _) => (length tr =? 6)%nat
              | _ => false
              end = true) by (vm_compute; reflexivity).
  destruct (run two_pages false _) as [tr [resp| | | |]]; try discriminate H.
  exists tr, resp. split; [exact Hs|]. split; [by apply Nat.eqb_eq|].
  refine (list_buckets_complete member_context root_request {[str "team1-r"]} (page_input None) false tr resp eq_refl _ Hs).
  vm_compute. reflexivity.
Defined.

Lemma list_buckets_ends_witness :
  let run := run two_pages false (handleListBuckets member_context root_request) in
  run.2 <> Spin /\ (length run.1 <= 3 * (size ({[str "more"]} : gset gostring) + 1))%nat.
Proof.
  apply (list_buckets_ends member_context root_request {[str "more"]}).
  - vm_compute. lia.
  - apply run_steps.
  - apply two_pages_tokens.
Defined.
End Witnesses.
