(* ===== verification/AdminSession.v ===== *)
(** * Sessions of the administration pages (src/internal/adminpage/adminpage.go)

    The server keeps the sessions; the browser gets a cookie that seals an opaque
    identifier.  [AdminSessionStore] is a bounded table with a sliding
    expiry under one lock, so a history is a sequence of its operations;
    [AdminGorillaStore] connects it to a request's cookie.  The sealing itself is
    third-party code: the interface [CookieCodec]. *)

From S2P Require Import Prelude GoStrings Http.
From S2P Require GroupCache.

#[local] Open Scope Z_scope.

(** ** The store *)

Definition one_second : Z := 1000000000.
Definition defaultAdminSessionTTL : Z := 1800 * one_second.

Record adminSession := {
  as_Username : gostring; as_Groups : gset gostring; as_Expires : instant; as_LastSeen : instant
}.
Record AdminSessionStore := { as_ttl : Z; as_maxEntries : Z; as_data : gmap gostring adminSession }.

Definition NewAdminSessionStore (ttl maxEntries : Z) : AdminSessionStore := {|
  as_ttl := if ttl <=? 0 then defaultAdminSessionTTL else ttl;
  as_maxEntries := if maxEntries <=? 0 then 100 else maxEntries;
  as_data := ∅ |}.

Definition with_data (f : gmap gostring adminSession -> gmap gostring adminSession) (s : AdminSessionStore) : AdminSessionStore :=
  {| as_ttl := as_ttl s; as_maxEntries := as_maxEntries s; as_data := f (as_data s) |}.

(** [cloneGroups] of a set is that set. *)
Definition new_session (s : AdminSessionStore) (now : instant) (username : gostring) (groups : gset gostring) : adminSession :=
  {| as_Username := username; as_Groups := groups; as_Expires := now + as_ttl s; as_LastSeen := now |}.

(** [newAdminSessionID] of what the random source delivers; [None] is its error. *)
Definition newAdminSessionID (raw : option gostring) : option gostring := hex_encode <$> raw.

(** The loop that looks for an unused identifier. *)
Fixpoint unused_id (tries : nat) (raws : list (option gostring)) (data : gmap gostring adminSession) : option gostring :=
  match tries, raws with
  | S tries, raw :: raws =>
    match newAdminSessionID raw with
    | None => None
    | Some id => match data !! id with Some _ => unused_id tries raws data | None => Some id end
    end
  | _, _ => None
  end.

Section Store.
Context {MI : MapIter}.

Definition evict_expired (now : instant) (data : gmap gostring adminSession) : gmap gostring adminSession :=
  fold_left (fun data' ke => if as_Expires ke.2 <? now then delete ke.1 data' else data') (map_iter data) data.

Definition older_session (victim : option (gostring * adminSession)) (kv : gostring * adminSession)
    : option (gostring * adminSession) :=
  match victim with
  | None => Some kv
  | Some v => if as_LastSeen kv.2 <? as_LastSeen v.2 then Some kv else victim
  end.
Definition evict_oldest (data : gmap gostring adminSession) : gmap gostring adminSession :=
  match fold_left older_session (map_iter data) None with Some v => delete v.1 data | None => data end.

(** The identifier the session is saved under, if it is. *)
Definition save (sessionID username : gostring) (groups : gset gostring) (now : instant) (raws : list (option gostring))
    (s : AdminSessionStore) : AdminSessionStore * option gostring :=
  if decide (username = []) then (s, None)
  else
    let s := with_data (evict_expired now) s in
    let existingID := TrimSpace sessionID in
    let keep id := (with_data (insert id (new_session s now username groups)) s, Some id) in
    if bool_decide (existingID <> []) && bool_decide (is_Some (as_data s !! existingID)) then keep existingID
    else
      let s := if as_maxEntries s <=? Z.of_nat (size (as_data s)) then with_data evict_oldest s else s in
      match unused_id 5 raws (as_data s) with
      | None => (s, None)
      | Some id => (with_data (insert id (new_session s now username groups)) s, Some id)
      end.

Definition get (sessionID : gostring) (now : instant) (s : AdminSessionStore) : AdminSessionStore * option adminSession :=
  if decide (sessionID = []) then (s, None)
  else
    match as_data s !! sessionID with
    | None => (s, None)
    | Some e =>
      if as_Expires e <? now then (with_data (delete sessionID) s, None)
      else
        let e := {| as_Username := as_Username e; as_Groups := as_Groups e; as_Expires := now + as_ttl s; as_LastSeen := now |} in
        (with_data (insert sessionID e) s, Some e)
    end.

Definition delete_session (sessionID : gostring) (s : AdminSessionStore) : AdminSessionStore :=
  if decide (sessionID = []) then s else with_data (delete sessionID) s.

(** ** Histories *)

Inductive op :=
| OpSave (now : instant) (sessionID username : gostring) (groups : gset gostring) (raws : list (option gostring))
| OpGet (now : instant) (sessionID : gostring)
| OpDelete (sessionID : gostring).

Definition store_step (s : AdminSessionStore) (o : op) : AdminSessionStore :=
  match o with
  | OpSave now id username groups raws => (save id username groups now raws s).1
  | OpGet now id => (get id now s).1
  | OpDelete id => delete_session id s
  end.
Definition store_run (s : AdminSessionStore) (h : list op) : AdminSessionStore := fold_left store_step h s.

(** The operation saves a session under the identifier, in a given store. *)
Definition saves (s : AdminSessionStore) (id : gostring) (o : op) : Prop :=
  match o with OpSave now sid username groups raws => (save sid username groups now raws s).2 = Some id | _ => False end.

(** The instants at which a session is asked for. *)
Fixpoint touches (id : gostring) (h : list op) : list instant :=
  match h with
  | [] => []
  | OpGet now id' :: h => if decide (id' = id) then now :: touches id h else touches id h
  | _ :: h => touches id h
  end.
(** No two successive instants are further apart than the time to live. *)
Fixpoint kept_up (ttl : Z) (since : instant) (l : list instant) : Prop :=
  match l with [] => True | t :: l => t <= since + ttl /\ kept_up ttl t l end.
Definition last_of (since : instant) (l : list instant) : instant := fold_left (fun _ t => t) l since.
End Store.

(** ** Lemmas *)

Section Lemmas.
Context {MI : MapIter}.

Lemma sessions_expired_lookup now data id :
  evict_expired now data !! id =
  match data !! id with Some e => if as_Expires e <? now then None else Some e | None => None end.
Proof. apply (GroupCache.evict_expired_lookup (fun ke : gostring * adminSession => as_Expires ke.2 <? now)). Qed.

Lemma evict_expired_subseteq now data : evict_expired now data ⊆ data.
Proof.
  apply map_subseteq_spec. intros id e. rewrite sessions_expired_lookup.
  destruct (data !! id); [|done]. by destruct (_ <? _).
Qed.

Lemma older_session_In l v : fold_left older_session l None = Some v -> v ∈ l.
Proof.
  assert (H : forall acc, fold_left older_session l acc = Some v -> acc = Some v \/ v ∈ l).
  { induction l as [|x l IH]; intros acc; cbn; [by left|]. intros [Ha|Ha]%IH; [|right; by right].
    unfold older_session in Ha. destruct acc as [a|]; [|injection Ha as ->; right; left].
    destruct (_ <? _); [injection Ha as ->; right; left | by left]. }
  intros [?|?]%H; done.
Qed.

Lemma older_session_None l acc : fold_left older_session l (Some acc) <> None.
Proof. revert acc. induction l as [|x l IH]; intros acc; cbn; [done|]. by destruct (_ <? _). Qed.

Lemma evict_oldest_subseteq data : evict_oldest data ⊆ data.
Proof. unfold evict_oldest. destruct (fold_left _ _ _); [apply delete_subseteq | done]. Qed.

Lemma evict_oldest_lt data : data <> ∅ -> (size (evict_oldest data) < size data)%nat.
Proof.
  intros Hne. unfold evict_oldest. destruct (fold_left _ _ _) as [[k v]|] eqn:E.
  - apply GroupCache.delete_lt. apply older_session_In, elem_of_map_iter in E. by exists v.
  - destruct (map_iter data) as [|x l] eqn:El; [|by apply older_session_None in E].
    apply (f_equal length) in El. rewrite length_map_iter in El. by apply map_size_empty_inv in El.
Qed.

Lemma unused_id_free tries raws data id : unused_id tries raws data = Some id -> data !! id = None.
Proof.
  revert raws. induction tries as [|n IH]; intros [|raw raws]; cbn; try done.
  destruct (newAdminSessionID raw) as [id'|]; [|done]. destruct (data !! id') eqn:E; [apply IH | by intros [= <-]].
Qed.

(** What a save does to the table: the saved session, and otherwise only what
    was there and had not expired. *)
Lemma save_lookup sid username groups now raws s id e :
  as_data (save sid username groups now raws s).1 !! id = Some e ->
  ((save sid username groups now raws s).2 = Some id /\ e = new_session s now username groups) \/
  ((save sid username groups now raws s).2 <> Some id /\ as_data s !! id = Some e).
Proof.
  assert (Hold : forall data, data ⊆ evict_expired now (as_data s) -> data !! id = Some e -> as_data s !! id = Some e).
  { intros data Hsub He. eapply lookup_weaken; [exact He|]. etrans; [exact Hsub | apply evict_expired_subseteq]. }
  unfold save. destruct (decide (username = [])); [by right|]. cbv zeta. cbn [with_data as_data as_maxEntries].
  destruct (_ && _) eqn:E; cbn [fst snd as_data with_data].
  - destruct (decide (TrimSpace sid = id)) as [->|Hne]; [rewrite lookup_insert_eq | rewrite lookup_insert_ne by done].
    + intros [= <-]. by left.
    + intros He. right. split; [congruence | by eapply Hold].
  - set (data := as_data (if as_maxEntries s <=? _ then _ else _)).
    assert (Hsub : data ⊆ evict_expired now (as_data s)).
    { unfold data. destruct (_ <=? _); cbn; [apply evict_oldest_subseteq | done]. }
    destruct (unused_id 5 raws data) as [id'|]; cbn [fst snd as_data with_data].
    + destruct (decide (id' = id)) as [->|Hne].
      * intros He. left. split; [done|]. destruct (_ <=? _); cbn in He; rewrite lookup_insert_eq in He; by injection He.
      * intros He. right. split; [congruence|]. apply (Hold data Hsub). unfold data.
        destruct (_ <=? _); cbn in *; by rewrite lookup_insert_ne in He.
    + intros He. right. split; [done|]. apply (Hold data Hsub He).
Qed.

Lemma save_found sid username groups now raws s id :
  (save sid username groups now raws s).2 = Some id ->
  as_data (save sid username groups now raws s).1 !! id = Some (new_session s now username groups).
Proof.
  unfold save. destruct (decide (username = [])); [done|]. cbv zeta. destruct (_ && _); cbn [fst snd as_data with_data].
  - intros [= <-]. by rewrite lookup_insert_eq.
  - destruct (unused_id 5 raws _) as [id'|]; cbn [fst snd as_data with_data]; [|done]. intros [= <-].
    destruct (_ <=? _); cbn; by rewrite lookup_insert_eq.
Qed.

(** Random octets make an identifier. *)
Lemma unused_id_nonempty tries raws data id :
  Forall (fun raw => raw <> Some []) raws -> unused_id tries raws data = Some id -> id <> [].
Proof.
  intros Hr. revert raws Hr. induction tries as [|n IH]; intros [|raw raws] Hr; cbn; try done. apply Forall_cons in Hr as [Hraw Hr].
  destruct raw as [[|b raw]|]; [done| |done]. cbn [newAdminSessionID fmap option_fmap option_map].
  destruct (data !! _); [by apply IH|]. intros [= <-]. done.
Qed.

Lemma save_size sid username groups now raws s :
  0 < as_maxEntries s -> Z.of_nat (size (as_data s)) <= as_maxEntries s ->
  Z.of_nat (size (as_data (save sid username groups now raws s).1)) <= as_maxEntries s.
Proof.
  intros Hmax Hs. unfold save. destruct (decide (username = [])); [done|]. cbv zeta.
  change (as_maxEntries (with_data (evict_expired now) s)) with (as_maxEntries s). set (s1 := with_data (evict_expired now) s).
  assert (H1 : Z.of_nat (size (as_data s1)) <= as_maxEntries s).
  { etrans; [apply inj_le, map_subseteq_size, evict_expired_subseteq | done]. }
  destruct (_ && _) eqn:Ek; cbn [fst as_data with_data]; [b2p; by rewrite map_size_insert_Some|].
  set (s2 := if _ <=? _ then _ else s1).
  assert (H2 : Z.of_nat (size (as_data s2)) < as_maxEntries s).
  { unfold s2. destruct (Z.leb_spec (as_maxEntries s) (Z.of_nat (size (as_data s1)))) as [Hf|]; [|done]. cbn [as_data with_data].
    assert (Hne : as_data s1 <> ∅) by (intros E; rewrite E, map_size_empty in Hf; lia). pose proof (evict_oldest_lt _ Hne). lia. }
  destruct (unused_id 5 raws (as_data s2)) as [id|] eqn:Eu; cbn [fst as_data with_data]; [|lia].
  apply unused_id_free in Eu. rewrite map_size_insert_None by done. lia.
Qed.

Lemma save_settings sid username groups now raws s :
  as_ttl (save sid username groups now raws s).1 = as_ttl s /\ as_maxEntries (save sid username groups now raws s).1 = as_maxEntries s.
Proof.
  unfold save. destruct (decide (username = [])); [done|]. cbv zeta. destruct (_ && _); [done|].
  destruct (unused_id _ _ _); cbn; by destruct (_ <=? _).
Qed.

Lemma step_settings s o : as_ttl (store_step s o) = as_ttl s /\ as_maxEntries (store_step s o) = as_maxEntries s.
Proof.
  destruct o as [now sid username groups raws|now sid|sid]; cbn [store_step]; [apply save_settings| |].
  - unfold get. destruct (decide _); [done|]. destruct (as_data s !! sid); [|done]. by destruct (_ <? _).
  - unfold delete_session. by destruct (decide _).
Qed.

Lemma run_settings s h : as_ttl (store_run s h) = as_ttl s /\ as_maxEntries (store_run s h) = as_maxEntries s.
Proof.
  unfold store_run. revert s. induction h as [|o h IH]; intros s; cbn [fold_left]; [done|].
  destruct (IH (store_step s o)) as [-> ->]. apply step_settings.
Qed.

(** Where a session of the table comes from, one operation back. *)
Lemma step_origin s o id e :
  id <> [] -> as_data (store_step s o) !! id = Some e ->
  (saves s id o /\ exists t sid raws, o = OpSave t sid (as_Username e) (as_Groups e) raws /\ as_LastSeen e = t /\ as_Expires e = t + as_ttl s) \/
  (~ saves s id o /\ o <> OpDelete id /\ exists e0, as_data s !! id = Some e0 /\ as_Username e = as_Username e0 /\ as_Groups e = as_Groups e0 /\
   ((touches id [o] = [] /\ e = e0) \/
    exists t, touches id [o] = [t] /\ t <= as_Expires e0 /\ as_LastSeen e = t /\ as_Expires e = t + as_ttl s)).
Proof.
  intros Hid. destruct o as [now sid username groups raws|now sid|sid]; cbn [store_step saves touches].
  - intros [[Hs ->]|[Hs He]]%save_lookup; [left | right].
    + split; [done|]. by exists now, sid, raws.
    + split; [done|]. split; [done|]. exists e. split_and!; [done..|by left].
  - intros He. right. split; [intros []|]. split; [done|]. revert He. unfold get.
    destruct (decide (sid = id)) as [->|Hne].
    + rewrite decide_False by done. destruct (as_data s !! id) as [e0|] eqn:E; [|cbn; congruence].
      destruct (Z.ltb_spec (as_Expires e0) now); cbn; [by rewrite lookup_delete_eq|]. rewrite lookup_insert_eq. intros [= <-].
      exists e0. cbn. split_and!; try done. right. by exists now.
    + intros He. exists e. split_and!; try done; [|by left]. revert He. destruct (decide _); [done|].
      destruct (as_data s !! sid) as [e0|]; [|done]. destruct (_ <? _); cbn; [by rewrite lookup_delete_ne | by rewrite lookup_insert_ne].
  - intros He. right. split; [intros []|]. revert He. unfold delete_session.
    destruct (decide (sid = [])) as [->|Hs].
    + intros He. split; [congruence|]. exists e. split_and!; try done. by left.
    + cbn. intros [Hne He]%lookup_delete_Some. split; [congruence|]. exists e. split_and!; try done. by left.
Qed.

Lemma kept_up_snoc ttl t l u : kept_up ttl t (l ++ [u]) <-> kept_up ttl t l /\ u <= last_of t l + ttl.
Proof. revert t. induction l as [|x l IH]; intros t; cbn [kept_up app]; [cbn; naive_solver|]. rewrite IH. cbn. naive_solver. Qed.

Lemma touches_app id h1 h2 : touches id (h1 ++ h2) = touches id h1 ++ touches id h2.
Proof. induction h1 as [|[] h1 IH]; cbn; [done|done| |done]. destruct (decide _); cbn; by rewrite IH. Qed.
End Lemmas.

(** ** What the store promises *)

Section Theorems.
Context {MI : MapIter}.
Variables (ttl maxEntries : Z).
Implicit Types (h : list op).

Definition store_after h : AdminSessionStore := store_run (NewAdminSessionStore ttl maxEntries) h.
Definition time_to_live : Z := as_ttl (NewAdminSessionStore ttl maxEntries).

(** The session [id] is the one that was last saved under it, at [t], for that
    user and those groups, and has not been deleted since. *)
Definition goes_back_to h (id username : gostring) (groups : gset gostring) h1 (t : instant) h2 : Prop :=
  exists sid (raws : list (option gostring)),
    let o := OpSave t sid username groups raws in
    h = h1 ++ o :: h2 /\ saves (store_after h1) id o /\ OpDelete id ∉ h2 /\
    forall h3 o' h4, h2 = h3 ++ o' :: h4 -> ~ saves (store_after (h1 ++ o :: h3)) id o'.

Lemma store_after_snoc h o : store_after (h ++ [o]) = store_step (store_after h) o.
Proof. unfold store_after, store_run. by rewrite fold_left_app. Qed.

Lemma store_settings h : as_ttl (store_after h) = time_to_live /\ as_maxEntries (store_after h) = as_maxEntries (NewAdminSessionStore ttl maxEntries).
Proof. apply run_settings. Qed.

Lemma session_origin h id e :
  id <> [] -> as_data (store_after h) !! id = Some e ->
  as_Expires e = as_LastSeen e + time_to_live /\
  exists h1 t h2, goes_back_to h id (as_Username e) (as_Groups e) h1 t h2 /\
    kept_up time_to_live t (touches id h2) /\ last_of t (touches id h2) = as_LastSeen e.
Proof.
  intros Hid. revert e. induction h as [|o h IH] using rev_ind; intros e.
  { unfold store_after, store_run. cbn. by rewrite lookup_empty. }
  rewrite store_after_snoc. intros He. apply step_origin in He; [|done]. rewrite (proj1 (store_settings h)) in He.
  destruct He as [(Hs & t & sid & raws & -> & <- & Hx)|(Hns & Hd & e0 & H0 & -> & -> & Ht)].
  - split; [done|]. exists h, (as_LastSeen e), []. split; [|done]. exists sid, raws. split_and!; [done|done|apply not_elem_of_nil|].
    intros [|] ? ? [=].
  - destruct (IH _ H0) as (Hx & h1 & t & h2 & (sid & raws & Hh & Hs & Hdel & Hno) & Hk & Hl). cbv zeta in *.
    split; [destruct Ht as [[_ ->]|(? & _ & _ & -> & ->)]; done|].
    exists h1, t, (h2 ++ [o]). split.
    + exists sid, raws. cbv zeta. split; [by rewrite Hh, <- app_assoc|]. split; [done|].
      split; [rewrite elem_of_app, list_elem_of_singleton; naive_solver|].
      intros h3 o' h4 E. destruct h4 as [|x h4 _] using rev_ind.
      * apply app_inj_tail in E as [-> ->]. by rewrite <- Hh.
      * rewrite app_comm_cons, app_assoc in E. apply app_inj_tail in E as [-> _]. by eapply Hno.
    + rewrite touches_app. destruct Ht as [[-> ->]|(u & -> & Hu & -> & _)]; [by rewrite app_nil_r|].
      split; [apply kept_up_snoc; split; [done | lia]|]. unfold last_of. by rewrite fold_left_app.
Qed.

(** C13. Whoever is served in a session has logged in: if the store answers for an
    identifier, then the user and the groups are those of the latest login that
    was given this identifier; it was not logged out since; and it has been
    asked for at intervals of at most the time to live. *)
Theorem session_sound h id now e :
  (get id now (store_after h)).2 = Some e ->
  exists h1 t h2, goes_back_to h id (as_Username e) (as_Groups e) h1 t h2 /\ kept_up time_to_live t (touches id h2 ++ [now]).
Proof.
  unfold get. destruct (decide (id = [])); [done|]. destruct (as_data (store_after h) !! id) as [e0|] eqn:E; [|done].
  destruct (Z.ltb_spec (as_Expires e0) now); cbn [fst snd]; [done|]. intros [= <-]. cbn [as_Username as_Groups].
  apply session_origin in E as (Hx & h1 & t & h2 & Hb & Hk & Hl); [|done]. exists h1, t, h2. split; [done|].
  apply kept_up_snoc. split; [done | lia].
Qed.

(** The table of sessions is bounded: after any history of logins, requests
    and logouts it holds at most the configured number of sessions. *)
Theorem sessions_bounded h :
  Z.of_nat (size (as_data (store_after h))) <= as_maxEntries (NewAdminSessionStore ttl maxEntries).
Proof.
  set (max := as_maxEntries (NewAdminSessionStore ttl maxEntries)).
  assert (Hmax : 0 < max) by (unfold max; cbn; destruct (Z.leb_spec maxEntries 0); lia).
  induction h as [|o h IH] using rev_ind; [unfold store_after, store_run; cbn [fold_left NewAdminSessionStore as_data]; rewrite map_size_empty; lia|].
  rewrite store_after_snoc. pose proof (proj2 (store_settings h)) as Hm. fold max in Hm.
  destruct o as [now sid username groups raws|now sid|sid]; cbn [store_step].
  - rewrite <- Hm. apply save_size; lia.
  - unfold get. destruct (decide _); [done|]. destruct (as_data (store_after h) !! sid) as [e|] eqn:E; [|done].
    destruct (_ <? _); cbn; [by etrans; [apply inj_le, map_subseteq_size, delete_subseteq|]|]. by rewrite map_size_insert_Some by (by eexists).
  - unfold delete_session. destruct (decide _); [done|]. cbn. by etrans; [apply inj_le, map_subseteq_size, delete_subseteq|].
Qed.
End Theorems.

(** ** Witnesses *)

Section Witnesses.
#[local] Existing Instance canonical_iter.

(** Alice logs in and is served twice. *)
Definition sample_groups : gset gostring := {[str "team1-rw"]}.
Definition sample_id : gostring := str "3031".
Definition sample_history : list op := [OpSave 5 [] (str "alice") sample_groups [Some (str "01")]; OpGet 10 sample_id].
Definition sample_session : adminSession :=
  {| as_Username := str "alice"; as_Groups := sample_groups; as_Expires := 20 + defaultAdminSessionTTL; as_LastSeen := 20 |}.

Lemma session_sound_witness :
  (get sample_id 20 (store_after 0 0 sample_history)).2 = Some sample_session /\
  exists h1 t h2, goes_back_to 0 0 sample_history sample_id (str "alice") sample_groups h1 t h2 /\
    kept_up (time_to_live 0 0) t (touches sample_id h2 ++ [20]).
Proof.
  assert (E : (get sample_id 20 (store_after 0 0 sample_history)).2 = Some sample_session) by (vm_compute; reflexivity).
  split; [exact E|]. exact (session_sound 0 0 sample_history sample_id 20 sample_session E).
Defined.
End Witnesses.
