(* ===== verification/AdminWeb.v ===== *)
(** * Origins and cookies of the administration pages (src/internal/config/admin.go,
    adminpage/adminpage.go)

    What makes a browser's form post trustworthy: it comes from a page of the
    gateway's own origin, and it carries the cookie of a session.  [url.Parse]
    and the sealing of cookies are interfaces. *)

From S2P Require Import Prelude GoStrings Http NetIP Authz AdminSession.
From S2P Require Gateway Credentials.

#[local] Open Scope Z_scope.

(** ** Origins (config/admin.go) *)

(** The fields of a [url.URL] that are read; [u_User] is whether it has userinfo. *)
Record URL := {
  u_Scheme : gostring; u_Opaque : gostring; u_User : bool; u_Host : gostring; u_Path : gostring; u_RawQuery : gostring;
  u_ForceQuery : bool
}.
(** [url.Parse]; [None] is its error. *)
Class URLParser := { url_Parse : gostring -> option URL }.

(** [URL.Hostname] and [URL.Port]. *)
Definition validOptionalPort (port : gostring) : bool :=
  match port with [] => true | c :: digits => bool_decide (c = ":"%byte) && forallb (in_range 48 57) digits end.
Definition split_host_port (hostPort : gostring) : gostring * gostring :=
  let colon := LastIndex hostPort ":"%byte in
  let '(host, port) :=
    if negb (colon =? -1) && validOptionalPort (slice_from hostPort colon)
    then (slice_to hostPort colon, slice_from hostPort (colon + 1)) else (hostPort, []) in
  ((if HasPrefix host (str "[") && HasSuffix host (str "]") then take (length host - 2) (drop 1 host) else host), port).
Definition Hostname (u : URL) : gostring := (split_host_port (u_Host u)).1.
Definition Port (u : URL) : gostring := (split_host_port (u_Host u)).2.

Section Origin.
Context {U : UnicodeCase} {P : URLParser}.

(** [None] is its error; the empty origin is no origin. *)
Definition NormalizeAdminPublicOrigin (raw : gostring) : option gostring :=
  let raw := TrimSpace raw in
  if decide (raw = []) then Some []
  else
    match url_Parse raw with
    | None => None
    | Some origin =>
      let scheme := ToLower (u_Scheme origin) in
      if negb (bool_decide (u_Opaque origin = [])) || u_User origin || bool_decide (Hostname origin = []) ||
         negb (bool_decide (scheme = str "http") || bool_decide (scheme = str "https")) || negb (bool_decide (u_Path origin = [])) ||
         negb (bool_decide (u_RawQuery origin = [])) || u_ForceQuery origin || bool_decide ("#"%byte ∈ raw) then None
      else if (bool_decide (":"%byte ∈ Hostname origin) || HasPrefix (u_Host origin) (str "[")) &&
              (bool_decide (ParseAddr (Hostname origin) = None) || negb (HasPrefix (u_Host origin) (str "["))) then None
      else
        let port := Port origin in
        let bad_port := match ParseUint port 10 with Some n => (2 ^ 16 <=? n) || (n =? 0) | None => true end in
        if bool_decide (port <> []) && bad_port then None
        else if bool_decide (port = []) && HasSuffix (u_Host origin) (str ":") then None
        else
          let host := ToLower (u_Host origin) in
          let default_port := (bool_decide (scheme = str "https") && bool_decide (port = str "443")) ||
                              (bool_decide (scheme = str "http") && bool_decide (port = str "80")) in
          Some (scheme ++ str "://" ++ if default_port then TrimSuffix host (str ":" ++ port) else host)
    end.

(** ** Trusted form posts *)

Record AdminOrigin := { publicOrigin : gostring; publicOriginInvalid : bool }.
(** [WithPublicOrigin], and whether it makes the session cookies secure. *)
Definition WithPublicOrigin (origin : gostring) : AdminOrigin * bool :=
  let o := {| publicOrigin := default [] (NormalizeAdminPublicOrigin origin);
              publicOriginInvalid := bool_decide (NormalizeAdminPublicOrigin origin = None) |} in
  (o, HasPrefix (publicOrigin o) (str "https://")).
Definition no_public_origin : AdminOrigin := {| publicOrigin := []; publicOriginInvalid := false |}.

Definition requestOrigin (r : Request) : gostring :=
  let host := TrimSpace (Host r) in
  let host := if decide (host = []) then TrimSpace (URLHost r) else host in
  if decide (host = []) then []
  else default [] (NormalizeAdminPublicOrigin ((if TLS r then str "https" else str "http") ++ str "://" ++ host)).

Definition isSameOrigin (rawURL expectedOrigin : gostring) : bool :=
  let rawURL := TrimSpace rawURL in
  if decide (rawURL = [] \/ expectedOrigin = []) then false
  else
    match url_Parse rawURL with
    | None => false
    | Some u =>
      if decide (u_Scheme u = [] \/ u_Host u = [] \/ u_User u = true) then false
      else bool_decide (NormalizeAdminPublicOrigin (u_Scheme u ++ str "://" ++ u_Host u) = Some expectedOrigin)
    end.

Definition hasTrustedAdminOrigin (h : AdminOrigin) (r : Request) : bool :=
  if negb (Gateway.IsBrowser r) then true
  else if publicOriginInvalid h then false
  else
    let expectedOrigin := if decide (publicOrigin h = []) then requestOrigin r else publicOrigin h in
    if decide (expectedOrigin = []) then false
    else
      let origin := TrimSpace (hget (Hdr r) (str "Origin")) in
      if decide (origin <> []) then bool_decide (NormalizeAdminPublicOrigin origin = Some expectedOrigin)
      else
        let referer := TrimSpace (hget (Hdr r) (str "Referer")) in
        if decide (referer <> []) then isSameOrigin referer expectedOrigin else false.
End Origin.

(** ** Cookies (net/http) *)

Definition adminSessionCookieName : gostring := str "s3gateway_admin_session".

Definition trim_ascii (s : gostring) : gostring := trim_both (fun b => bool_decide (b ∈ [" "; x09; x0a; x0d]%byte)) s.
Definition valid_cookie_byte (b : byte) : bool :=
  in_range 0x20 0x7e b && negb (bool_decide (b ∈ [x22; ";"; x5c]%byte)).
Definition cookie_value (raw : gostring) : option gostring :=
  let raw :=
    if (1 <? Z.of_nat (length raw)) && HasPrefix raw [x22] && HasSuffix raw [x22] then take (length raw - 2) (drop 1 raw) else raw in
  if forallb valid_cookie_byte raw then Some raw else None.

(** One part of a Cookie header, if it is that cookie. *)
Definition named_cookie (name part : gostring) : option gostring :=
  let '(n, v) := default (trim_ascii part, []) (Cut (trim_ascii part) "="%byte) in
  if decide (trim_ascii n = name) then cookie_value v else None.
(** [Request.Cookie]; [None] is its error. *)
Definition CookieOf (r : Request) (name : gostring) : option gostring :=
  head (omap (named_cookie name) (concat (map (fun line => Split line ";"%byte) (hvalues (Hdr r) (str "Cookie"))))).

(** ** Sessions of requests *)

(** The codecs that seal an identifier into a cookie at an instant, and open
    cookies no older than an age in seconds; [None] is an error. *)
Class CookieCodec := {
  EncodeMulti : instant -> gostring -> option gostring;
  DecodeMulti : Z -> instant -> gostring -> option gostring
}.
(** What the program relies on: a sealed identifier can be opened until it is too
    old, and a cookie header can carry it. *)
Class CookieCodecLaws (K : CookieCodec) := {
  codec_opens now maxAge now' id c :
    EncodeMulti now id = Some c -> now <= now' <= now + maxAge * one_second -> DecodeMulti maxAge now' c = Some id;
  codec_text now id c : EncodeMulti now id = Some c -> c <> [] /\ forallb valid_cookie_byte c = true /\ " "%byte ∉ c
}.

Record Options := { opt_MaxAge : Z; opt_Secure : bool }.
Record SetCookie := { ck_Value : gostring; ck_MaxAge : Z; ck_Secure : bool }.   (* Path=/, HttpOnly, SameSite=Lax *)

(** The value under "groups" in a session. *)
Inductive GroupsValue :=
| GroupStrings (l : list gostring)            (* []string *)
| GroupItems (l : list (option gostring))     (* []any; [None] is an element that is no string *)
| GroupSet (s : gset gostring)
| NoGroups.                                   (* anything else *)
Record WebSession := {
  ws_ID : gostring; ws_username : option gostring; ws_groups : GroupsValue; ws_IsNew : bool; ws_Options : Options
}.

Section Session.
Context {U : UnicodeCase} {MI : MapIter} {K : CookieCodec}.

Definition sessionGroupsSlice (groups : gset gostring) : list gostring := sort_strings (set_iter groups).

Definition session_group (g : gostring) : option gostring :=
  let g := TrimSpace (ToLower g) in if decide (g = []) then None else Some g.
Definition parseSessionGroups (v : GroupsValue) : gset gostring :=
  list_to_set (omap session_group
    match v with GroupStrings l => l | GroupItems l => omap id l | GroupSet s => set_iter s | NoGroups => [] end).

(** [adminSessionFromValues]; [None] is its error. *)
Definition adminSessionFromValues (w : WebSession) : option (gostring * gset gostring) :=
  match ws_username w with
  | None => None
  | Some username =>
    let username := TrimSpace username in
    if decide (username = []) then None else Some (username, parseSessionGroups (ws_groups w))
  end.

(** [NewAdminGorillaStore]'s options. *)
Definition store_options (ttl : Z) (secure : bool) : Options :=
  {| opt_MaxAge := (if ttl <=? 0 then defaultAdminSessionTTL else ttl) `quot` one_second; opt_Secure := secure |}.

(** [AdminGorillaStore.New]: also whether it returns an error. *)
Definition load_session (opts : Options) (now : instant) (r : Request) (s : AdminSessionStore)
    : AdminSessionStore * (WebSession * bool) :=
  let blank := {| ws_ID := []; ws_username := None; ws_groups := NoGroups; ws_IsNew := true;
                  ws_Options := {| opt_MaxAge := opt_MaxAge opts; opt_Secure := opt_Secure opts || TLS r |} |} in
  match CookieOf r adminSessionCookieName with
  | None => (s, (blank, false))
  | Some c =>
    match DecodeMulti (opt_MaxAge opts) now c with
    | None => (s, (blank, true))
    | Some id =>
      if decide (id = []) then (s, (blank, false))
      else
        match get id now s with
        | (s', None) => (s', (blank, false))
        | (s', Some stored) =>
          (s', ({| ws_ID := id; ws_username := Some (as_Username stored);
                   ws_groups := GroupStrings (sessionGroupsSlice (as_Groups stored)); ws_IsNew := false;
                   ws_Options := ws_Options blank |}, false))
        end
    end
  end.

(** [AdminGorillaStore.Save]: the cookie it sets; [None] is its error. *)
Definition save_session (opts : Options) (now : instant) (raws : list (option gostring)) (r : Request) (w : WebSession)
    (s : AdminSessionStore) : AdminSessionStore * option SetCookie :=
  let secure := opt_Secure (ws_Options w) || opt_Secure opts || TLS r in
  let maxAge := opt_MaxAge (ws_Options w) in
  if maxAge <=? 0 then
    (if decide (ws_ID w = []) then s else delete_session (ws_ID w) s, Some {| ck_Value := []; ck_MaxAge := maxAge; ck_Secure := secure |})
  else
    match adminSessionFromValues w with
    | None => (s, None)
    | Some (username, groups) =>
      match save (ws_ID w) username groups now raws s with
      | (s', None) => (s', None)
      | (s', Some id) =>
        (s', (fun encoded => {| ck_Value := encoded; ck_MaxAge := maxAge; ck_Secure := secure |}) <$> EncodeMulti now id)
      end
    end.

(** [currentAdminSession] of the loaded session: the user and the groups. *)
Definition currentAdminSession (loaded : WebSession * bool) : option (gostring * gset gostring) :=
  let '(w, failed) := loaded in
  if failed || ws_IsNew w || bool_decide (ws_ID w = []) then None else adminSessionFromValues w.

Definition clearAdminSession (opts : Options) (now : instant) (r : Request) (w : WebSession) (s : AdminSessionStore)
    : AdminSessionStore * option SetCookie :=
  save_session opts now [] r
    {| ws_ID := ws_ID w; ws_username := None; ws_groups := NoGroups; ws_IsNew := ws_IsNew w;
       ws_Options := {| opt_MaxAge := -1; opt_Secure := opt_Secure (ws_Options w) |} |} s.
End Session.

(** ** Sessions keep the rights of their groups *)

Section Rights.
Context {U : UnicodeCase} {UL : UnicodeCaseLaws U} {MI : MapIter}.

Lemma session_group_text g : ToLower (TrimSpace (TrimSpace (ToLower g))) = ToLower (TrimSpace g).
Proof. by rewrite TrimSpace_idem, !ToLower_TrimSpace, (lowered_ToLower (ToLower g)) by apply ToLower_lowered. Qed.

Lemma session_group_grants g g' bucket bit : session_group g = Some g' -> grants g' bucket bit <-> grants g bucket bit.
Proof.
  unfold session_group. destruct (decide _); [done|]. intros [= <-]. unfold grants, ParseGroup. by rewrite session_group_text.
Qed.

Lemma session_group_None g : session_group g = None -> ParseGroup g = None.
Proof.
  unfold session_group. destruct (decide _) as [E|]; [|done]. intros _. unfold ParseGroup. by rewrite ToLower_TrimSpace, E.
Qed.

Lemma elem_of_session_groups G g :
  g ∈ parseSessionGroups (GroupStrings (sessionGroupsSlice G)) <-> exists g0, g0 ∈ G /\ session_group g0 = Some g.
Proof.
  unfold parseSessionGroups. rewrite elem_of_list_to_set, list_elem_of_omap. unfold sessionGroupsSlice, sort_strings.
  setoid_rewrite merge_sort_Permutation. by setoid_rewrite elem_of_set_iter.
Qed.

Lemma session_grants G bucket bit :
  (exists g, g ∈ parseSessionGroups (GroupStrings (sessionGroupsSlice G)) /\ grants g bucket bit) <->
  exists g, g ∈ G /\ grants g bucket bit.
Proof.
  setoid_rewrite elem_of_session_groups. split.
  - intros (g & (g0 & Hin & Hs) & Hg). exists g0. split; [done|]. by apply (session_group_grants _ _ _ _ Hs).
  - intros (g0 & Hin & H). destruct (session_group g0) as [g|] eqn:Hs.
    + exists g. split; [by exists g0|]. by apply (session_group_grants _ _ _ _ Hs).
    + destruct H as (p & m & Hp & _). apply session_group_None in Hs. congruence.
Qed.
End Rights.

(** ** A login is found again *)

Section Login.
Context {U : UnicodeCase} {UL : UnicodeCaseLaws U} {MI : MapIter} {K : CookieCodec} {KL : CookieCodecLaws K}.

(** The Cookie header a browser sends back. *)
Definition cookie_header (value : gostring) : gostring := adminSessionCookieName ++ str "=" ++ value.

Lemma cookie_bytes value b :
  forallb valid_cookie_byte value = true -> b ∈ value -> b <> " "%byte ->
  b <> x22 /\ b <> ";"%byte /\ b ∉ [" "; x09; x0a; x0d]%byte.
Proof.
  intros Hv Hb Hs. rewrite forallb_forall in Hv. specialize (Hv b (proj1 (list_elem_of_In _ _) Hb)). clear Hb.
  revert Hs Hv. destruct b; vm_compute; intros Hs Hv; try discriminate Hv; try (by destruct Hs);
    (split; [discriminate|split; [discriminate|]]; intros H; repeat (apply elem_of_cons in H as [H|H]; [discriminate H|]); by apply elem_of_nil in H).
Qed.

Lemma trim_ascii_id s :
  (forall b, head s = Some b \/ last s = Some b -> b ∉ [" "; x09; x0a; x0d]%byte) -> trim_ascii s = s.
Proof. intros H. apply trim_both_id. split; intros b Hb; apply bool_decide_false, H; auto. Qed.

Lemma cookie_roundtrip value :
  value <> [] -> forallb valid_cookie_byte value = true -> " "%byte ∉ value ->
  named_cookie adminSessionCookieName (cookie_header value) = Some value.
Proof.
  intros Hne Hv Hs.
  assert (Hb : forall b, b ∈ value -> b <> x22 /\ b <> ";"%byte /\ b ∉ [" "; x09; x0a; x0d]%byte).
  { intros b Hb. apply (cookie_bytes value); [done|done|]. by intros ->. }
  assert (Ht : trim_ascii (cookie_header value) = cookie_header value).
  { apply trim_ascii_id. intros b [Hh|Hl].
    - injection Hh as <-. apply (bool_decide_unpack _). vm_compute. exact I.
    - unfold cookie_header in Hl. rewrite app_assoc, last_app in Hl. destruct (last value) as [c|] eqn:E; [|by apply last_None in E].
      injection Hl as ->. apply Hb. by apply last_Some_elem_of. }
  assert (Ec : Cut (cookie_header value) "="%byte = Some (adminSessionCookieName, value)).
  { unfold cookie_header. change (str "=" ++ value) with ("="%byte :: value). apply Cut_app. apply (bool_decide_unpack _). vm_compute. exact I. }
  unfold named_cookie. rewrite Ht, Ec. cbn [from_option id].
  rewrite decide_True by (vm_compute; reflexivity). unfold cookie_value.
  destruct value as [|v value]; [done|].
  cbv zeta. replace (HasPrefix (v :: value) [x22]) with false; [rewrite andb_false_r; cbn [andb]; by rewrite Hv|].
  symmetry. cbn [HasPrefix]. rewrite bool_decide_false; [done|]. intros <-. by destruct (Hb x22 ltac:(left)) as [? _].
Qed.

Lemma CookieOf_sent r value :
  hvalues (Hdr r) (str "Cookie") = [cookie_header value] ->
  value <> [] -> forallb valid_cookie_byte value = true -> " "%byte ∉ value -> CookieOf r adminSessionCookieName = Some value.
Proof.
  intros Hh Hne Hv Hs. unfold CookieOf. rewrite Hh. cbn [map concat]. rewrite Split_absent.
  - rewrite app_nil_r. cbn [omap list_omap]. by rewrite cookie_roundtrip.
  - unfold cookie_header. rewrite !elem_of_app. intros [H|[H|H]].
    + revert H. apply (bool_decide_unpack _). vm_compute. exact I.
    + revert H. apply (bool_decide_unpack _). vm_compute. exact I.
    + destruct (cookie_bytes value _ Hv H ltac:(done)) as (_ & Hn & _). done.
Qed.

(** A login is found again: the cookie that saving a new session sets, sent
    back before it and the session are too old, loads a session of the same user
    whose groups grant exactly what the groups given at the login grant, however
    the groups were written and whatever the store held. *)
Theorem login_roundtrip opts now raws r w s s' ck upn groups now' r' :
  ws_ID w = [] -> ws_username w = Some upn -> ws_groups w = GroupStrings (sessionGroupsSlice groups) -> 0 < opt_MaxAge (ws_Options w) ->
  Forall (fun raw => raw <> Some []) raws -> save_session opts now raws r w s = (s', Some ck) ->
  hvalues (Hdr r') (str "Cookie") = [cookie_header (ck_Value ck)] ->
  now <= now' <= now + opt_MaxAge opts * one_second -> now' <= now + as_ttl s ->
  exists s'' loaded groups', load_session opts now' r' s' = (s'', loaded) /\
    currentAdminSession loaded = Some (TrimSpace upn, groups') /\
    forall bucket bit, (exists g, g ∈ groups' /\ grants g bucket bit) <-> exists g, g ∈ groups /\ grants g bucket bit.
Proof.
  intros Hid Hu Hg Hm Hraws Hsave Hcookie Hage Httl. unfold save_session in Hsave.
  destruct (Z.leb_spec (opt_MaxAge (ws_Options w)) 0) as [|_]; [lia|]. unfold adminSessionFromValues in Hsave. rewrite Hu, Hg, Hid in Hsave.
  destruct (decide (TrimSpace upn = [])) as [|Hne]; [done|]. set (stored := parseSessionGroups _) in Hsave.
  destruct (save [] (TrimSpace upn) stored now raws s) as [s1 [id|]] eqn:Es; [|done]. injection Hsave as -> Hck.
  pose proof (save_found [] (TrimSpace upn) stored now raws s id ltac:(by rewrite Es)) as Hfound. rewrite Es in Hfound. cbn in Hfound.
  assert (Hidne : id <> []).
  { unfold save in Es. rewrite decide_False in Es by done. cbv zeta in Es. change (TrimSpace []) with ([] : gostring) in Es.
    rewrite bool_decide_false in Es by tauto. cbn [andb] in Es. destruct (unused_id _ _ _) as [id'|] eqn:Eu; [|done].
    injection Es as _ <-. by eapply unused_id_nonempty. }
  destruct (EncodeMulti now id) as [c|] eqn:Ec; [|done]. injection Hck as <-. cbn [ck_Value] in Hcookie.
  destruct (codec_text _ _ _ Ec) as (Hc1 & Hc2 & Hc3). unfold load_session. rewrite (CookieOf_sent _ _ Hcookie Hc1 Hc2 Hc3).
  rewrite (codec_opens _ _ _ _ _ Ec Hage), decide_False by done. unfold get. rewrite decide_False, Hfound by done.
  cbn [as_Expires new_session]. destruct (Z.ltb_spec (now + as_ttl s) now') as [|_]; [lia|].
  cbn [new_session as_Username as_Groups]. eexists _, _, _. split; [reflexivity|]. unfold currentAdminSession, adminSessionFromValues.
  cbn [ws_IsNew ws_ID ws_username ws_groups orb as_Username new_session]. rewrite bool_decide_false, TrimSpace_idem, decide_False by done.
  split; [reflexivity|]. intros bucket bit. rewrite session_grants. unfold stored. apply session_grants.
Qed.
End Login.

(** ** Witnesses *)

Section Witnesses.
#[local] Existing Instance latin1_case.
#[local] Existing Instance canonical_iter.

(** A codec that seals nothing: the identifier in hexadecimal. *)
Definition open_cookie (c : gostring) : option gostring :=
  match c with b :: h => if decide (b = "v"%byte) then hex_decode h else None | [] => None end.
Definition toy_cookies : CookieCodec := {| EncodeMulti _ id := Some ("v"%byte :: hex_encode id); DecodeMulti _ _ c := open_cookie c |}.
#[local] Existing Instance toy_cookies.

Lemma hex_text s b : b ∈ hex_encode s -> valid_cookie_byte b = true /\ b <> " "%byte.
Proof.
  unfold hex_encode. intros (x & (c & <- & _)%in_map_iff & Hb)%list_elem_of_In%in_concat.
  assert (H : forallb (fun d => valid_cookie_byte d && bool_decide (d <> " "%byte)) (hex_byte false c) = true) by (destruct c; reflexivity).
  rewrite forallb_forall in H. specialize (H b Hb). by b2p.
Qed.
#[local] Instance toy_cookie_laws : CookieCodecLaws toy_cookies.
Proof.
  split.
  - intros now maxAge now' id c [= <-] _. apply Credentials.hex_roundtrip.
  - intros now id c [= <-]. split; [done|]. split.
    + cbn [forallb]. apply forallb_forall. intros b Hb%list_elem_of_In. by apply hex_text in Hb as [? _].
    + intros [?|H]%elem_of_cons; [done|]. by apply hex_text in H as [_ ?].
Qed.

Definition sample_options : Options := store_options 0 true.
Definition sample_login : WebSession := {|
  ws_ID := []; ws_username := Some (str " alice"); ws_groups := GroupStrings (sessionGroupsSlice {[str "Team1-RW "]}); ws_IsNew := true;
  ws_Options := sample_options |}.
Definition sample_saved : AdminSessionStore * option SetCookie :=
  save_session sample_options 5 [Some (str "01")] Gateway.pop_request sample_login (NewAdminSessionStore 0 0).
Definition sample_cookie : SetCookie := {| ck_Value := str "v33303331"; ck_MaxAge := 1800; ck_Secure := true |}.
Definition sample_return : Request := Gateway.sample_hop "/admin" {[ str "Cookie" := [cookie_header (ck_Value sample_cookie)] ]}.

Lemma login_roundtrip_witness :
  sample_saved.2 = Some sample_cookie /\
  exists s'' loaded groups', load_session sample_options 10 sample_return sample_saved.1 = (s'', loaded) /\
    currentAdminSession loaded = Some (str "alice", groups') /\
    forall bucket bit, (exists g, g ∈ groups' /\ grants g bucket bit) <-> exists g, g ∈ ({[str "Team1-RW "]} : gset gostring) /\ grants g bucket bit.
Proof.
  assert (E : sample_saved.2 = Some sample_cookie) by (vm_compute; reflexivity). split; [exact E|].
  assert (Hs : save_session sample_options 5 [Some (str "01")] Gateway.pop_request sample_login (NewAdminSessionStore 0 0) =
    (sample_saved.1, Some sample_cookie)) by (rewrite <- E; apply surjective_pairing).
  assert (Hr : Forall (fun raw : option gostring => raw <> Some []) [Some (str "01")]) by (repeat constructor; discriminate).
  change (str "alice") with (TrimSpace (str " alice")).
  exact (login_roundtrip sample_options 5 [Some (str "01")] Gateway.pop_request sample_login (NewAdminSessionStore 0 0) sample_saved.1
    sample_cookie (str " alice") {[str "Team1-RW "]} 10 sample_return eq_refl eq_refl eq_refl ltac:(vm_compute; reflexivity) Hr Hs
    ltac:(vm_compute; reflexivity) ltac:(vm_compute; split; discriminate) ltac:(vm_compute; discriminate)).
Defined.
End Witnesses.
