(* ===== verification/KafkaTopics.v ===== *)
(** * Statistics of Kafka topics (src/internal/kafkatopic/lister.go)

    [List] asks the Kafka admin client for the topics, the offsets of their
    partitions and the offsets of all consumer groups, and combines the answers,
    any of which may be missing or partial.  The client's answers are the
    record [Answers]; sizes are [int64] and saturate. *)

From S2P Require Import Prelude GoStrings.

#[local] Open Scope Z_scope.

(** ** What is reported *)

Record ConsumerGroupOffset := { co_Partition : Z; co_CurrentOffset : Z; co_IsCommitted : bool; co_HasUnavailableData : bool }.
Record ConsumerGroup := { cg_Name : gostring; cg_State : gostring; cg_Offsets : list ConsumerGroupOffset }.
Record Topic := {
  tp_Name : gostring; tp_Partitions : Z; tp_Elements : Z; tp_IsInternal : bool; tp_HasUnavailableData : bool;
  tp_HasUnavailableConsumerGroups : bool; tp_ConsumerGroups : list ConsumerGroup
}.

(** ** What the admin client answers *)

(** A listed offset, and whether it carries an error. *)
Record ListedOffset := { lo_Offset : Z; lo_Err : bool }.
Record TopicDetail := { td_Partitions : gset Z; td_IsInternal : bool; td_Err : bool }.
Record ListedGroup := { lg_Group : gostring; lg_State : gostring }.
Record OffsetResponse := { or_Topic : gostring; or_Partition : Z; or_At : Z; or_Err : bool }.
Record Answers := {
  an_topics : option (gmap gostring TopicDetail);          (* [None] is an error *)
  an_start : gmap (gostring * Z) ListedOffset; an_startErr : bool;
  an_end : gmap (gostring * Z) ListedOffset; an_endErr : bool;
  an_groups : list ListedGroup;                            (* sorted *)
  an_groupsErr : bool;
  an_fetched : gmap gostring (option (list OffsetResponse))  (* per group: an error, or offsets by topic and partition *)
}.

Section List.
Context {MI : MapIter}.

(** ** Elements *)

Definition mark_unavailable (t : Topic) : Topic := {|
  tp_Name := tp_Name t; tp_Partitions := tp_Partitions t; tp_Elements := tp_Elements t; tp_IsInternal := tp_IsInternal t;
  tp_HasUnavailableData := true; tp_HasUnavailableConsumerGroups := tp_HasUnavailableConsumerGroups t;
  tp_ConsumerGroups := tp_ConsumerGroups t |}.
Definition set_elements (n : Z) (t : Topic) : Topic := {|
  tp_Name := tp_Name t; tp_Partitions := tp_Partitions t; tp_Elements := n; tp_IsInternal := tp_IsInternal t;
  tp_HasUnavailableData := tp_HasUnavailableData t; tp_HasUnavailableConsumerGroups := tp_HasUnavailableConsumerGroups t;
  tp_ConsumerGroups := tp_ConsumerGroups t |}.

(** The records of a partition, if both its offsets are known and in order. *)
Definition partition_elements (a : Answers) (name : gostring) (partition : Z) : option Z :=
  match an_start a !! (name, partition), an_end a !! (name, partition) with
  | Some start, Some end_ =>
    if lo_Err start || lo_Err end_ || (lo_Offset start <? 0) || (lo_Offset end_ <? lo_Offset start) then None
    else Some (lo_Offset end_ - lo_Offset start)
  | _, _ => None
  end.

Definition add_partition (a : Answers) (t : Topic) (partition : Z) : Topic :=
  match partition_elements a (tp_Name t) partition with
  | None => mark_unavailable t
  | Some elements =>
    if int64_max - tp_Elements t <? elements then mark_unavailable (set_elements int64_max t)
    else set_elements (tp_Elements t + elements) t
  end.

Definition list_topic (a : Answers) (name : gostring) (detail : TopicDetail) : Topic :=
  fold_left (add_partition a) (set_iter (td_Partitions detail))
    {| tp_Name := name; tp_Partitions := Z.of_nat (size (td_Partitions detail)); tp_Elements := 0; tp_IsInternal := td_IsInternal detail;
       tp_HasUnavailableData := td_Err detail; tp_HasUnavailableConsumerGroups := false; tp_ConsumerGroups := [] |}.

(** [details.Names()] is sorted. *)
Definition topic_names (details : gmap gostring TopicDetail) : list gostring := sort_strings (map fst (map_iter details)).
Definition list_topics (a : Answers) (details : gmap gostring TopicDetail) : list Topic :=
  omap (fun name => list_topic a name <$> details !! name) (topic_names details).

(** ** Consumer groups *)

Definition mark_groups (t : Topic) : Topic := {|
  tp_Name := tp_Name t; tp_Partitions := tp_Partitions t; tp_Elements := tp_Elements t; tp_IsInternal := tp_IsInternal t;
  tp_HasUnavailableData := tp_HasUnavailableData t; tp_HasUnavailableConsumerGroups := true;
  tp_ConsumerGroups := tp_ConsumerGroups t |}.
Definition add_group (g : ConsumerGroup) (t : Topic) : Topic := {|
  tp_Name := tp_Name t; tp_Partitions := tp_Partitions t; tp_Elements := tp_Elements t; tp_IsInternal := tp_IsInternal t;
  tp_HasUnavailableData := tp_HasUnavailableData t; tp_HasUnavailableConsumerGroups := tp_HasUnavailableConsumerGroups t;
  tp_ConsumerGroups := tp_ConsumerGroups t ++ [g] |}.

Definition markConsumerGroupsUnavailable : list Topic -> list Topic := map mark_groups.

(** [topicIndexes]: the last position of each name. *)
Definition topicIndexes (topics : list Topic) : gmap gostring nat :=
  fold_left (fun (m : gmap gostring nat) it => <[tp_Name it.2 := it.1]> m) (imap pair topics) ∅.

(** One offset of a group: the topics, the offsets by topic, and whether an error is noted. *)
Definition offset_state : Type := list Topic * gmap nat (list ConsumerGroupOffset) * bool.
Definition add_offset (indexes : gmap gostring nat) (st : offset_state) (offset : OffsetResponse) : offset_state :=
  let '(topics, byTopic, failed) := st in
  match indexes !! or_Topic offset with
  | None => st
  | Some i =>
    let unavailable := or_Err offset in
    ((if unavailable then alter mark_groups i topics else topics),
     <[i := default [] (byTopic !! i) ++
            [{| co_Partition := or_Partition offset; co_CurrentOffset := or_At offset; co_IsCommitted := 0 <=? or_At offset;
                co_HasUnavailableData := unavailable |}]]> byTopic,
     failed || unavailable)
  end.

(** One group: the topics, and whether an error is noted. *)
Definition add_listed_group (a : Answers) (indexes : gmap gostring nat) (st : list Topic * bool) (g : ListedGroup) : list Topic * bool :=
  let '(topics, failed) := st in
  match an_fetched a !! lg_Group g with
  | None | Some None => (markConsumerGroupsUnavailable topics, true)
  | Some (Some offsets) =>
    let '(topics, byTopic, failed) := fold_left (add_offset indexes) offsets (topics, ∅, failed) in
    (fold_left (fun topics io => alter (add_group {| cg_Name := lg_Group g; cg_State := lg_State g; cg_Offsets := io.2 |}) io.1 topics)
       (map_iter byTopic) topics, failed)
  end.

(** [addConsumerGroups]: the topics, and whether it returns an error. *)
Definition addConsumerGroups (a : Answers) (topics : list Topic) : list Topic * bool :=
  let topics := if an_groupsErr a then markConsumerGroupsUnavailable topics else topics in
  match an_groups a with
  | [] => (topics, an_groupsErr a)
  | groups => fold_left (add_listed_group a (topicIndexes topics)) groups (topics, an_groupsErr a)
  end.

(** [List]: the topics, and whether an error accompanies them. *)
Definition List (a : Answers) : list Topic * bool :=
  match an_topics a with
  | None => ([], true)
  | Some details =>
    let topics := list_topics a details in
    match topics with
    | [] => ([], false)
    | _ => let '(topics, failed) := addConsumerGroups a topics in (topics, failed || an_startErr a || an_endErr a)
    end
  end.
End List.

(** ** Elements are counted, in any order *)

Definition zsum (l : list Z) : Z := foldr Z.add 0 l.
Lemma zsum_perm l l' : l ≡ₚ l' -> zsum l = zsum l'.
Proof. unfold zsum. induction 1; cbn; lia. Qed.
Lemma zsum_nonneg l : Forall (fun n => 0 <= n) l -> 0 <= zsum l.
Proof. unfold zsum. induction 1; cbn; lia. Qed.

(** What is known of the partitions of a topic. *)
Definition known_elements (a : Answers) (name : gostring) (d : TopicDetail) : Z :=
  zsum (omap (partition_elements a name) (elements (td_Partitions d))).

Lemma partition_elements_nonneg a name p n : partition_elements a name p = Some n -> 0 <= n.
Proof.
  unfold partition_elements. destruct (an_start a !! _) as [s|]; [|done]. destruct (an_end a !! _) as [e|]; [|done].
  destruct (_ || _) eqn:E; [done|]. intros [= <-]. b2p. lia.
Qed.

Section Elements.
Context {MI : MapIter}.

Lemma add_partitions a l t :
  0 <= tp_Elements t <= int64_max ->
  let t' := fold_left (add_partition a) l t in
  let n := tp_Elements t + zsum (omap (partition_elements a (tp_Name t)) l) in
  tp_Name t' = tp_Name t /\ tp_IsInternal t' = tp_IsInternal t /\ tp_Partitions t' = tp_Partitions t /\
  tp_HasUnavailableConsumerGroups t' = tp_HasUnavailableConsumerGroups t /\ tp_ConsumerGroups t' = tp_ConsumerGroups t /\
  tp_Elements t' = Z.min int64_max n /\
  (tp_HasUnavailableData t' = true <->
     tp_HasUnavailableData t = true \/ (exists p, p ∈ l /\ partition_elements a (tp_Name t) p = None) \/ int64_max < n).
Proof.
  revert t. induction l as [|p l IH]; intros t Ht; cbv zeta; cbn [fold_left omap list_omap].
  - cbn [zsum foldr]. split_and!; try done; [lia|]. split; [by left|]. intros [?|[(p & ?%not_elem_of_nil & _)|?]]; [done|done|lia].
  - assert (Hl : 0 <= zsum (omap (partition_elements a (tp_Name t)) l)).
    { apply zsum_nonneg, Forall_forall. intros n (p' & _ & Hp)%list_elem_of_omap. by eapply partition_elements_nonneg. }
    set (t1 := add_partition a t p). unfold add_partition in t1. subst t1. destruct (partition_elements a (tp_Name t) p) as [n|] eqn:E.
    + pose proof (partition_elements_nonneg _ _ _ _ E). cbn [zsum foldr]. fold (zsum (omap (partition_elements a (tp_Name t)) l)).
      destruct (Z.ltb_spec (int64_max - tp_Elements t) n).
      * destruct (IH (mark_unavailable (set_elements int64_max t))) as (-> & -> & -> & -> & -> & -> & Hu); [cbn; unfold int64_max; lia|].
        cbn in *. split_and!; try done; [lia|]. split; [intros _; right; right; lia | intros _; apply Hu; by left].
      * destruct (IH (set_elements (tp_Elements t + n) t)) as (-> & -> & -> & -> & -> & -> & Hu); [cbn; lia|].
        cbn in *. split_and!; try done; [lia|]. rewrite Hu, exists_cons, E. replace (tp_Elements t + n + _) with (tp_Elements t + (n + zsum (omap (partition_elements a (tp_Name t)) l))) by lia.
        naive_solver.
    + destruct (IH (mark_unavailable t)) as (-> & -> & -> & -> & -> & -> & Hu); [done|]. cbn in *. split_and!; try done.
      split; [intros _; right; left; exists p; split; [left | done] | intros _; apply Hu; by left].
Qed.

Lemma list_topic_correct a name d :
  let t := list_topic a name d in
  tp_Name t = name /\ tp_ConsumerGroups t = [] /\ tp_HasUnavailableConsumerGroups t = false /\
  tp_Elements t = Z.min int64_max (known_elements a name d) /\
  (tp_HasUnavailableData t = true <->
     td_Err d = true \/ (exists p, p ∈ td_Partitions d /\ partition_elements a name p = None) \/ int64_max < known_elements a name d).
Proof.
  cbv zeta. unfold list_topic. edestruct (add_partitions a (set_iter (td_Partitions d))) as (-> & _ & _ & -> & -> & -> & ->); [cbn; unfold int64_max; lia|].
  cbn [tp_Name tp_Elements tp_HasUnavailableData tp_ConsumerGroups tp_HasUnavailableConsumerGroups].
  assert (E : zsum (omap (partition_elements a name) (set_iter (td_Partitions d))) = known_elements a name d).
  { apply zsum_perm. assert (Hp : set_iter (td_Partitions d) ≡ₚ elements (td_Partitions d)); [|by rewrite Hp].
    apply NoDup_Permutation; [apply NoDup_fst_map_iter | apply NoDup_elements|]. intros p. rewrite elem_of_elements. apply elem_of_set_iter. }
  rewrite E, Z.add_0_l. split_and!; try done. setoid_rewrite elem_of_set_iter. done.
Qed.
End Elements.

(** ** Consumer groups are reported under their topics *)

(** What does not change while consumer groups are added. *)
Definition stats (t : Topic) : gostring * Z * Z * bool * bool :=
  (tp_Name t, tp_Partitions t, tp_Elements t, tp_IsInternal t, tp_HasUnavailableData t).

Definition reported (o : OffsetResponse) : ConsumerGroupOffset :=
  {| co_Partition := or_Partition o; co_CurrentOffset := or_At o; co_IsCommitted := 0 <=? or_At o; co_HasUnavailableData := or_Err o |}.
Definition offsets_of (name : gostring) (offsets : list OffsetResponse) : list ConsumerGroupOffset :=
  map reported (filter (fun o => or_Topic o = name) offsets).

(** What one listed group adds to a topic. *)
Definition group_of (a : Answers) (name : gostring) (g : ListedGroup) : list ConsumerGroup :=
  match an_fetched a !! lg_Group g with
  | Some (Some offsets) =>
    match offsets_of name offsets with
    | [] => []
    | l => [{| cg_Name := lg_Group g; cg_State := lg_State g; cg_Offsets := l |}]
    end
  | _ => []
  end.
(** Whether it makes what is known of the topic's groups incomplete. *)
Definition group_fails (a : Answers) (name : gostring) (g : ListedGroup) : bool :=
  match an_fetched a !! lg_Group g with
  | Some (Some offsets) => existsb (fun o => bool_decide (or_Topic o = name) && or_Err o) offsets
  | _ => true
  end.

Section Groups.
Context {MI : MapIter}.
Implicit Types (topics : list Topic).

Lemma topicIndexes_from topics (k : nat) (m : gmap gostring nat) (i : nat) (n : gostring) :
  NoDup (tp_Name <$> topics) ->
  fold_left (fun (m : gmap gostring nat) it => <[tp_Name it.2 := it.1]> m) (imap (fun j t => (k + j, t)%nat) topics) m !! n = Some i ->
  (exists t, topics !! (i - k)%nat = Some t /\ tp_Name t = n /\ (k <= i)%nat) \/ m !! n = Some i.
Proof.
  revert k m. induction topics as [|t topics IH]; intros k m Hnd Hi; [by right|].
  apply NoDup_cons in Hnd as [Hn Hnd]. cbn [imap fold_left] in Hi. rewrite Nat.add_0_r in Hi.
  rewrite (imap_ext _ (fun j t => (S k + j, t)%nat)) in Hi by (intros; cbn; f_equal; lia).
  apply IH in Hi as [(t' & Ht & Hname & Hle)|Hm]; [|..|done].
  - left. exists t'. replace (i - k)%nat with (S (i - S k)) by lia. split_and!; [done|done|lia].
  - cbn in Hm. apply lookup_insert_Some in Hm as [[<- <-]|[_ ?]]; [|by right]. left. exists t. rewrite Nat.sub_diag. split_and!; [done|done|lia].
Qed.

Lemma topicIndexes_Some topics n i :
  NoDup (tp_Name <$> topics) -> topicIndexes topics !! n = Some i -> exists t, topics !! i = Some t /\ tp_Name t = n.
Proof.
  intros Hnd Hi. destruct (topicIndexes_from topics 0 ∅ i n Hnd) as [(t & Ht & Hn & _)|He]; [exact Hi| |by rewrite lookup_empty in He].
  rewrite Nat.sub_0_r in Ht. by exists t.
Qed.

Lemma topicIndexes_dom topics n t : t ∈ topics -> tp_Name t = n -> is_Some (topicIndexes topics !! n).
Proof.
  intros Ht Hn. unfold topicIndexes.
  assert (H : forall (l : list (nat * Topic)) (m : gmap gostring nat), (is_Some (m !! n) \/ exists it, it ∈ l /\ tp_Name it.2 = n) ->
    is_Some (fold_left (fun (m : gmap gostring nat) it => <[tp_Name it.2 := it.1]> m) l m !! n)).
  { induction l as [|it l IH]; intros m [H|(it' & Hin & H)]; cbn; [done|by apply not_elem_of_nil in Hin|..]; apply IH.
    - left. destruct (decide (tp_Name it.2 = n)) as [->|]; [by rewrite lookup_insert_eq | by rewrite lookup_insert_ne].
    - apply elem_of_cons in Hin as [->|Hin]; [left; by rewrite H, lookup_insert_eq | right; by exists it']. }
  apply H. right. apply list_elem_of_lookup in Ht as [i Hi]. exists (i, t). split; [|done].
  apply list_elem_of_lookup. exists i. by rewrite list_lookup_imap, Hi.
Qed.

Lemma topicIndexes_lookup topics i t :
  NoDup (tp_Name <$> topics) -> topics !! i = Some t -> topicIndexes topics !! tp_Name t = Some i.
Proof.
  intros Hnd Hi. destruct (topicIndexes_dom topics (tp_Name t) t) as [j Hj]; [by eapply list_elem_of_lookup_2|done|].
  rewrite Hj. f_equal. destruct (topicIndexes_Some _ _ _ Hnd Hj) as (t' & Ht' & Hn).
  apply (NoDup_lookup _ _ _ (tp_Name t) Hnd); rewrite list_lookup_fmap; [by rewrite Ht', <- Hn | by rewrite Hi].
Qed.

(** The three parts of the state of a group's offsets do not interact. *)
Definition at_index (indexes : gmap gostring nat) (i : nat) (o : OffsetResponse) : Prop := indexes !! or_Topic o = Some i.
#[local] Instance at_index_dec indexes i o : Decision (at_index indexes i o) := decide (indexes !! or_Topic o = Some i).

Definition joined (old : option (list ConsumerGroupOffset)) (l : list ConsumerGroupOffset) : option (list ConsumerGroupOffset) :=
  match old, l with None, [] => None | _, _ => Some (default [] old ++ l) end.

Lemma joined_app old l l' : joined (joined old l) l' = joined old (l ++ l').
Proof. destruct old, l, l'; cbn; by rewrite ?app_nil_r, <- ?app_assoc. Qed.

Lemma mark_groups_idem t : mark_groups (mark_groups t) = mark_groups t.
Proof. done. Qed.

Lemma add_offsets indexes offsets topics byTopic failed topics' byTopic' failed' :
  fold_left (add_offset indexes) offsets (topics, byTopic, failed) = (topics', byTopic', failed') ->
  (forall i, topics' !! i = (fun t => if existsb (fun o => bool_decide (at_index indexes i o) && or_Err o) offsets then mark_groups t else t) <$> topics !! i) /\
  (forall i, byTopic' !! i = joined (byTopic !! i) (map reported (filter (at_index indexes i) offsets))) /\
  failed' = failed || existsb (fun o => bool_decide (is_Some (indexes !! or_Topic o)) && or_Err o) offsets.
Proof.
  revert topics byTopic failed. induction offsets as [|o offsets IH]; intros topics byTopic failed; cbn [fold_left].
  { intros [= <- <- <-]. cbn. split_and!; [|..|by rewrite orb_false_r].
    - intros i. by destruct (topics !! i).
    - intros i. by destruct (byTopic !! i) as [l|]; cbn; rewrite ?app_nil_r. }
  unfold add_offset at 2. destruct (indexes !! or_Topic o) as [j|] eqn:Ej.
  2: { intros H. apply IH in H as (H1 & H2 & H3). cbn [existsb]. rewrite (bool_decide_false (is_Some (indexes !! or_Topic o))) by (rewrite Ej; by intros [? ?]).
       split_and!; [|..|done].
       - intros i. by rewrite H1, (bool_decide_false (at_index indexes i o)) by (unfold at_index; congruence).
       - intros i. by rewrite H2, filter_cons_False by (unfold at_index; congruence). }
  intros H. apply IH in H as (H1 & H2 & H3). cbn [existsb]. rewrite (bool_decide_true (is_Some (indexes !! or_Topic o))) by (rewrite Ej; by eexists).
  split_and!.
  - intros i. rewrite H1. destruct (decide (j = i)) as [->|Hne].
    + rewrite (bool_decide_true (at_index indexes i o)) by done. cbn [andb]. clear H3.
      destruct (or_Err o); [rewrite list_lookup_alter_eq|]; (destruct (topics !! i); [|done]); cbn [fmap option_fmap option_map orb]; by case_match.
    + rewrite (bool_decide_false (at_index indexes i o)) by (unfold at_index; congruence). cbn [andb orb]. destruct (or_Err o); [by rewrite list_lookup_alter_ne | done].
  - intros i. rewrite H2. destruct (decide (j = i)) as [->|Hne].
    + rewrite lookup_insert_eq, filter_cons_True by done. cbn [map].
      change (Some (default [] (byTopic !! i) ++ [reported o])) with (Some (default [] (byTopic !! i) ++ [reported o])).
      replace (Some (default [] (byTopic !! i) ++ [_])) with (joined (byTopic !! i) [reported o]) by (by destruct (byTopic !! i)).
      by rewrite joined_app.
    + rewrite lookup_insert_ne, filter_cons_False by (done || (unfold at_index; congruence)). done.
  - rewrite H3. cbn [andb]. by rewrite orb_assoc.
Qed.

(** Reporting the offsets by topic touches each topic once. *)
Lemma report_offsets (f : list ConsumerGroupOffset -> Topic -> Topic) (l : list (nat * list ConsumerGroupOffset)) topics i :
  NoDup l.*1 ->
  fold_left (fun topics io => alter (f io.2) io.1 topics) l topics !! i =
  match list_to_map (M := gmap nat (list ConsumerGroupOffset)) l !! i with Some x => f x <$> topics !! i | None => topics !! i end.
Proof.
  revert topics. induction l as [|[j x] l IH]; intros topics Hnd; cbn [fold_left]; [done|].
  apply NoDup_cons in Hnd as [Hj Hnd]. rewrite IH by done. cbn [list_to_map foldr fst snd uncurry].
  destruct (decide (j = i)) as [->|Hne].
  - rewrite lookup_insert_eq, list_lookup_alter_eq. apply not_elem_of_list_to_map_1 in Hj. cbn in Hj. by rewrite Hj.
  - by rewrite lookup_insert_ne, list_lookup_alter_ne by done.
Qed.

(** What a listed group does to one topic. *)
Definition with_group (a : Answers) (t : Topic) (g : ListedGroup) : Topic :=
  fold_left (fun t cg => add_group cg t) (group_of a (tp_Name t) g) (if group_fails a (tp_Name t) g then mark_groups t else t).

Lemma with_group_fields a t g :
  stats (with_group a t g) = stats t /\ tp_ConsumerGroups (with_group a t g) = tp_ConsumerGroups t ++ group_of a (tp_Name t) g /\
  tp_HasUnavailableConsumerGroups (with_group a t g) = tp_HasUnavailableConsumerGroups t || group_fails a (tp_Name t) g.
Proof.
  unfold with_group.
  assert (Hg : group_of a (tp_Name t) g = [] \/ exists cg, group_of a (tp_Name t) g = [cg]).
  { unfold group_of. destruct (an_fetched a !! _) as [[l|]|]; try by left. destruct (offsets_of _ l); [by left | right; by eexists]. }
  destruct (group_fails a (tp_Name t) g), Hg as [->|[cg ->]]; cbn; by rewrite ?app_nil_r, ?orb_true_r, ?orb_false_r.
Qed.

Definition failing (a : Answers) (indexes : gmap gostring nat) (g : ListedGroup) : bool :=
  match an_fetched a !! lg_Group g with
  | Some (Some offsets) => existsb (fun o => bool_decide (is_Some (indexes !! or_Topic o)) && or_Err o) offsets
  | _ => true
  end.

Lemma add_listed_group_spec a indexes topics failed g :
  (forall i t, topics !! i = Some t -> forall n, indexes !! n = Some i <-> n = tp_Name t) ->
  add_listed_group a indexes (topics, failed) g = ((fun t => with_group a t g) <$> topics, failed || failing a indexes g).
Proof.
  intros Hidx. unfold add_listed_group, failing. destruct (an_fetched a !! lg_Group g) as [[offsets|]|] eqn:Ef.
  2,3: rewrite orb_true_r; unfold markConsumerGroupsUnavailable; f_equal; apply map_ext; intros t;
    unfold with_group, group_of, group_fails; by rewrite Ef.
  destruct (fold_left (add_offset indexes) offsets _) as [[topics' byTopic] failed'] eqn:E.
  apply add_offsets in E as (H1 & H2 & ->). f_equal. apply list_eq. intros i.
  rewrite (report_offsets (fun l => add_group {| cg_Name := lg_Group g; cg_State := lg_State g; cg_Offsets := l |})) by apply NoDup_fst_map_iter.
  assert (Hm : list_to_map (M := gmap nat (list ConsumerGroupOffset)) (map_iter byTopic) = byTopic).
  { rewrite <- (list_to_map_to_list byTopic) at 2. apply list_to_map_proper; [apply NoDup_fst_map_iter | apply map_iter_perm]. }
  rewrite Hm, H2, H1, lookup_empty, list_lookup_fmap. destruct (topics !! i) as [t|] eqn:Hi; [|by destruct (joined _ _)].
  specialize (Hidx i t Hi). cbn [fmap option_fmap option_map].
  assert (E1 : filter (at_index indexes i) offsets = filter (fun o => or_Topic o = tp_Name t) offsets).
  { apply list_filter_iff. intros o. apply Hidx. }
  assert (E2 : existsb (fun o => bool_decide (at_index indexes i o) && or_Err o) offsets = group_fails a (tp_Name t) g).
  { unfold group_fails. rewrite Ef. clear - Hidx. induction offsets as [|o l IH]; [done|]. cbn [existsb]. rewrite IH. do 2 f_equal.
    apply bool_decide_ext, Hidx. }
  rewrite E1, E2. fold (offsets_of (tp_Name t) offsets). unfold with_group, group_of. rewrite Ef.
  by destruct (offsets_of (tp_Name t) offsets).
Qed.

Lemma add_listed_groups a indexes groups topics failed :
  (forall i t, topics !! i = Some t -> forall n, indexes !! n = Some i <-> n = tp_Name t) ->
  fold_left (add_listed_group a indexes) groups (topics, failed) =
  ((fun t => fold_left (with_group a) groups t) <$> topics, failed || existsb (failing a indexes) groups).
Proof.
  revert topics failed. induction groups as [|g groups IH]; intros topics failed Hidx; cbn [fold_left existsb].
  - rewrite orb_false_r. f_equal. symmetry. apply list_fmap_id.
  - rewrite add_listed_group_spec, IH by done || (intros i t Ht n; rewrite list_lookup_fmap in Ht; destruct (topics !! i) as [t0|] eqn:Hi; [|done];
      injection Ht as <-; destruct (with_group_fields a t0 g) as [[= -> _ _ _ _] _]; by apply Hidx).
    rewrite <- list_fmap_compose, orb_assoc. done.
Qed.

Lemma with_groups_fields a groups t :
  let t' := fold_left (with_group a) groups t in
  stats t' = stats t /\ tp_ConsumerGroups t' = tp_ConsumerGroups t ++ concat (map (group_of a (tp_Name t)) groups) /\
  tp_HasUnavailableConsumerGroups t' = tp_HasUnavailableConsumerGroups t || existsb (group_fails a (tp_Name t)) groups.
Proof.
  revert t. induction groups as [|g groups IH]; intros t; cbv zeta; cbn [fold_left map concat existsb].
  - by rewrite app_nil_r, orb_false_r.
  - destruct (IH (with_group a t g)) as (-> & -> & ->). destruct (with_group_fields a t g) as (Hs & -> & ->).
    assert (Hn : tp_Name (with_group a t g) = tp_Name t) by congruence || (unfold stats in Hs; congruence).
    by rewrite Hn, <- app_assoc, orb_assoc.
Qed.

Lemma group_failing a topics t g :
  NoDup (tp_Name <$> topics) -> t ∈ topics -> group_fails a (tp_Name t) g = true -> failing a (topicIndexes topics) g = true.
Proof.
  intros Hnd Ht. unfold group_fails, failing. destruct (an_fetched a !! _) as [[l|]|]; try done.
  intros (o & Hin & Ho)%existsb_exists. apply existsb_exists. exists o. split; [done|]. b2p. rewrite H0, andb_true_r.
  apply bool_decide_true. by eapply topicIndexes_dom.
Qed.

Lemma list_topics_names a details : tp_Name <$> list_topics a details = topic_names details.
Proof.
  unfold list_topics.
  assert (H : forall n, n ∈ topic_names details -> is_Some (details !! n)).
  { intros n. unfold topic_names, sort_strings. rewrite merge_sort_Permutation. intros ((n' & d) & -> & Hn)%list_elem_of_fmap.
    apply elem_of_map_iter in Hn. by exists d. }
  induction (topic_names details) as [|n l IH]; [done|]. cbn [omap list_omap].
  destruct (H n ltac:(left)) as [d ->]. cbn [fmap option_fmap option_map]. cbn [list_fmap fmap].
  rewrite (proj1 (list_topic_correct a n d)). f_equal. apply IH. intros n' Hn. apply H. by right.
Qed.

Lemma topic_names_NoDup details : NoDup (topic_names details).
Proof. unfold topic_names, sort_strings. rewrite merge_sort_Permutation. apply NoDup_fst_map_iter. Qed.

(** The topics [addConsumerGroups] starts from. *)
Definition listed (a : Answers) (t : Topic) : Topic := if an_groupsErr a then mark_groups t else t.

Lemma names_preserved (f : Topic -> Topic) topics :
  (forall t, tp_Name (f t) = tp_Name t) -> tp_Name <$> (f <$> topics) = tp_Name <$> topics.
Proof. intros H. induction topics as [|t topics IH]; [done|]. cbn [fmap list_fmap]. by rewrite H, IH. Qed.

Lemma listed_names a topics : tp_Name <$> (listed a <$> topics) = tp_Name <$> topics.
Proof. apply names_preserved. intros t. unfold listed. by destruct (an_groupsErr a). Qed.

Lemma addConsumerGroups_spec a topics :
  NoDup (tp_Name <$> topics) ->
  addConsumerGroups a topics =
  ((fun t => fold_left (with_group a) (an_groups a) t) <$> (listed a <$> topics),
   an_groupsErr a || existsb (failing a (topicIndexes (listed a <$> topics))) (an_groups a)).
Proof.
  intros Hnd. unfold addConsumerGroups.
  assert (E : (if an_groupsErr a then markConsumerGroupsUnavailable topics else topics) = listed a <$> topics).
  { unfold listed, markConsumerGroupsUnavailable. destruct (an_groupsErr a); [done|]. symmetry. apply list_fmap_id. }
  cbv zeta. rewrite E. clear E. set (base := listed a <$> topics).
  assert (Hb : NoDup (tp_Name <$> base)) by (unfold base; by rewrite listed_names).
  destruct (an_groups a) as [|g groups] eqn:Eg.
  - cbn [existsb fold_left]. rewrite orb_false_r. f_equal. symmetry. apply list_fmap_id.
  - apply add_listed_groups. intros i t Ht n. split.
    + intros Hi. destruct (topicIndexes_Some _ _ _ Hb Hi) as (t' & Ht' & <-). congruence.
    + intros ->. by apply topicIndexes_lookup.
Qed.

(** The topic page is complete and exact: every topic is listed once, by
    name; its size is the sum of what its partitions hold, cut off at the largest
    int64 and never negative, whatever the order of the map; it is marked
    incomplete exactly when a partition is unknown, its metadata is in error or
    the sum is cut off; its consumer groups are exactly the listed groups with
    offsets on it, in order; and if any group is missing, the topic is marked and
    the error of the whole listing is set. *)
Theorem topics_complete a details topics failed :
  an_topics a = Some details -> List a = (topics, failed) ->
  (tp_Name <$> topics) = topic_names details /\
  forall t, t ∈ topics -> exists d, details !! tp_Name t = Some d /\
    tp_Elements t = Z.min int64_max (known_elements a (tp_Name t) d) /\ 0 <= known_elements a (tp_Name t) d /\
    (tp_HasUnavailableData t = true <->
       td_Err d = true \/ (exists p, p ∈ td_Partitions d /\ partition_elements a (tp_Name t) p = None) \/
       int64_max < known_elements a (tp_Name t) d) /\
    tp_ConsumerGroups t = concat (map (group_of a (tp_Name t)) (an_groups a)) /\
    tp_HasUnavailableConsumerGroups t = an_groupsErr a || existsb (group_fails a (tp_Name t)) (an_groups a) /\
    (tp_HasUnavailableConsumerGroups t = true -> failed = true).
Proof.
  intros Ha Hl. unfold List in Hl. rewrite Ha in Hl. cbv zeta in Hl. pose proof (list_topics_names a details) as Hn.
  assert (Hnd : NoDup (tp_Name <$> list_topics a details)) by (rewrite Hn; apply topic_names_NoDup).
  pose proof (addConsumerGroups_spec a _ Hnd) as Hadd. set (base := listed a <$> list_topics a details) in *.
  assert (Hb : NoDup (tp_Name <$> base)) by (unfold base; by rewrite listed_names).
  assert (Ht : topics = (fun t => fold_left (with_group a) (an_groups a) t) <$> base /\
               (an_groupsErr a || existsb (failing a (topicIndexes base)) (an_groups a) = true -> topics <> [] -> failed = true)).
  { destruct (list_topics a details) as [|t0 l]; [by injection Hl as <- <-|]. rewrite Hadd in Hl. injection Hl as <- <-.
    split; [done|]. by intros ->. }
  destruct Ht as [-> Hfail]. split.
  { rewrite names_preserved; [unfold base; by rewrite listed_names|]. intros t.
    by destruct (with_groups_fields a (an_groups a) t) as ([= ? _ _ _ _] & _). }
  intros t' (t & -> & Hin)%list_elem_of_fmap. destruct (with_groups_fields a (an_groups a) t) as ([= En Ep Ee Ei Eu] & Eg & Ef).
  cbv zeta in *. rewrite En, Ee, Eu, Eg, Ef. pose proof Hin as Hin0. apply list_elem_of_fmap in Hin as (t0 & -> & Hin).
  unfold list_topics in Hin. apply list_elem_of_omap in Hin as (n & _ & Hd). destruct (details !! n) as [d|] eqn:Ed; [|done].
  injection Hd as <-. destruct (list_topic_correct a n d) as (H1 & H2 & H3 & H4 & H5). cbv zeta in *.
  assert (El : stats (listed a (list_topic a n d)) = stats (list_topic a n d) /\ tp_ConsumerGroups (listed a (list_topic a n d)) = [] /\
    tp_HasUnavailableConsumerGroups (listed a (list_topic a n d)) = an_groupsErr a).
  { unfold listed. destruct (an_groupsErr a); cbn; by rewrite ?H2, ?H3. }
  destruct El as ([= El1 El2 El3 El4 El5] & El6 & El7). rewrite El1, El3, El5, El6, El7, H1. exists d. split_and!; try done.
  - apply zsum_nonneg, Forall_forall. intros z (p & _ & Hp)%list_elem_of_omap. by eapply partition_elements_nonneg.
  - intros Hu. apply Hfail; [|intros Enil; apply fmap_nil_inv in Enil; rewrite Enil in Hin0; by apply not_elem_of_nil in Hin0].
    apply orb_true_iff in Hu as [->|(g & Hg & Hu)%existsb_exists]; [done|]. apply orb_true_iff. right. apply existsb_exists. exists g.
    split; [done|]. apply (group_failing a base _ g Hb Hin0). by rewrite El1, H1.
Qed.
End Groups.

(** ** Witnesses *)

Section Witnesses.
#[local] Existing Instance canonical_iter.

(** A topic of two partitions, one of them unknown, with a group on it. *)
Definition sample_details : gmap gostring TopicDetail :=
  {[ str "team1-a" := {| td_Partitions := {[0; 1]}; td_IsInternal := false; td_Err := false |} ]}.
Definition sample_answers : Answers := {|
  an_topics := Some sample_details;
  an_start := {[ (str "team1-a", 0) := {| lo_Offset := 5; lo_Err := false |} ]}; an_startErr := false;
  an_end := {[ (str "team1-a", 0) := {| lo_Offset := 12; lo_Err := false |} ]}; an_endErr := true;
  an_groups := [{| lg_Group := str "alice:g"; lg_State := str "Stable" |}]; an_groupsErr := false;
  an_fetched := {[ str "alice:g" := Some [{| or_Topic := str "team1-a"; or_Partition := 0; or_At := 7; or_Err := false |}] ]} |}.
Definition sample_topic : Topic := {|
  tp_Name := str "team1-a"; tp_Partitions := 2; tp_Elements := 7; tp_IsInternal := false; tp_HasUnavailableData := true;
  tp_HasUnavailableConsumerGroups := false;
  tp_ConsumerGroups := [{| cg_Name := str "alice:g"; cg_State := str "Stable";
    cg_Offsets := [{| co_Partition := 0; co_CurrentOffset := 7; co_IsCommitted := true; co_HasUnavailableData := false |}] |}] |}.

Lemma topics_complete_witness :
  sample_topic ∈ (List sample_answers).1 /\ (List sample_answers).2 = true /\
  exists d, sample_details !! str "team1-a" = Some d /\ tp_Elements sample_topic = Z.min int64_max (known_elements sample_answers (str "team1-a") d) /\
    (tp_HasUnavailableData sample_topic = true <->
       td_Err d = true \/ (exists p, p ∈ td_Partitions d /\ partition_elements sample_answers (str "team1-a") p = None) \/
       int64_max < known_elements sample_answers (str "team1-a") d).
Proof.
  assert (E : (List sample_answers).1 = [sample_topic]) by (vm_compute; reflexivity).
  assert (Hin : sample_topic ∈ (List sample_answers).1) by (rewrite E; left). split; [exact Hin|]. split; [vm_compute; reflexivity|].
  destruct (proj2 (topics_complete sample_answers sample_details (List sample_answers).1 (List sample_answers).2 eq_refl
    (surjective_pairing _)) sample_topic Hin) as (d & Hd & He & _ & Hu & _). exists d. split; [exact Hd|]. split; [exact He | exact Hu].
Defined.
End Witnesses.
