(* ===== verification/AdminViews.v ===== *)
(** * What the administration pages show (src/internal/adminpage)

    The views are computed from the groups of a session and the upstream's
    answers; the HTML templates that print them are not modelled.  The theorems
    say that the dashboard shows what the groups grant, and that the form for
    new buckets offers exactly the names the session may create. *)

From S2P Require Import Prelude GoStrings Http Authz S3Xml S3Http Upstream HandlerBase AdminSession AdminWeb KafkaTopics.
From S2P Require Credentials NetIP.

#[local] Open Scope Z_scope.

(** ** Groups and buckets *)

Record adminPermissionView := { pv_Letter : gostring; pv_Name : gostring }.
(** The object fields of a preview are never set. *)
Record adminBucketView := { bv_Name : gostring; bv_CanRead : bool }.
Record adminGroupAccessView := {
  gv_GroupName : gostring; gv_BucketPrefix : gostring; gv_PermissionLetters : gostring; gv_Permissions : list adminPermissionView;
  gv_Buckets : list adminBucketView
}.

Definition perm_table : list (Perm * string * string) :=
  [(PermRead, "r", "Read"); (PermWrite, "w", "Write"); (PermCreateBucket, "c", "Create bucket");
   (PermDeleteObject, "d", "Delete object"); (PermDeleteBucket, "b", "Delete bucket")]%string.
Definition permLetters (perm : Perm) : gostring :=
  concat (map (fun row => if has perm row.1.1 then str row.1.2 else []) perm_table).
Definition permViews (perm : Perm) : list adminPermissionView :=
  concat (map (fun row => if has perm row.1.1 then [{| pv_Letter := str row.1.2; pv_Name := str row.2 |}] else []) perm_table).

Section Views.
Context {U : UnicodeCase} {MI : MapIter}.

Definition nonblank (names : list gostring) : list gostring := filter (fun n => n <> []) (map TrimSpace names).

Definition bucketPreviewsForGroups (groups : gset gostring) (buckets : list gostring) : gmap gostring adminBucketView :=
  let rules := RulesFromGroups groups in
  fold_left (fun previews bucket => <[bucket := {| bv_Name := bucket; bv_CanRead := CanRead rules bucket |}]> previews)
    (nonblank buckets) ∅.

Definition bucket_view (previews : gmap gostring adminBucketView) (bucket : gostring) : adminBucketView :=
  let view := default {| bv_Name := bucket; bv_CanRead := false |} (previews !! bucket) in
  if decide (bv_Name view = []) then {| bv_Name := bucket; bv_CanRead := bv_CanRead view |} else view.

Definition group_row (allBuckets : list gostring) (previews : gmap gostring adminBucketView) (group prefix : gostring) (perm : Perm)
    : adminGroupAccessView :=
  let bucketNS := ToLower prefix in
  {| gv_GroupName := group; gv_BucketPrefix := bucketNS; gv_PermissionLetters := permLetters perm; gv_Permissions := permViews perm;
     gv_Buckets := map (bucket_view previews)
       (filter (fun bucket => bucketNS = AllBucketsPrefix \/ BucketNamespace bucket = bucketNS) allBuckets) |}.

#[global] Instance row_le_dec (x y : adminGroupAccessView) : Decision (str_le (gv_GroupName x) (gv_GroupName y)) := _.

(** The rows, sorted by group name, and the groups that parse to nothing.
    Group names are distinct, so that any sorting algorithm gives this order. *)
Definition buildAdminGroupAccess (groups : gset gostring) (buckets : list gostring) (previews : gmap gostring adminBucketView)
    : list adminGroupAccessView * list gostring :=
  let allBuckets := sort_strings (nonblank buckets) in
  let rows := omap (fun group => '(prefix, perm) ← ParseGroup group; Some (group_row allBuckets previews group prefix perm)) (set_iter groups) in
  let ignored := filter (fun group => ParseGroup group = None) (set_iter groups) in
  (merge_sort (fun x y => str_le (gv_GroupName x) (gv_GroupName y)) rows, sort_strings ignored).

Definition countUniqueBuckets (rows : list adminGroupAccessView) : Z :=
  Z.of_nat (size (list_to_set (C := gset gostring) (filter (fun n => n <> []) (map bv_Name (concat (map gv_Buckets rows)))))).

(** ** New buckets *)

Definition create_space (group : gostring) : option gostring :=
  '(prefix, perm) ← ParseGroup group;
  if has perm PermCreateBucket then
    let prefix := ToLower (TrimSpace prefix) in if decide (prefix = []) then None else Some prefix
  else None.
Definition adminCreateBucketSpaces (groups : gset gostring) : list gostring :=
  sort_strings (elements (list_to_set (C := gset gostring) (omap create_space (set_iter groups)))).

Definition form_space (space : gostring) : gostring := ToLower (TrimSpace (TrimSuffix space (str "-"))).
Definition adminHasCreateSpace (spaces : list gostring) (space : gostring) : bool := bool_decide (form_space space ∈ spaces).

Definition adminBuildBucketName (space suffix : gostring) : result gostring gostring :=
  let space := form_space space in
  let suffix := ToLower (TrimSpace suffix) in
  if decide (space = []) then Err (str "bucket space is required")
  else if decide (suffix = []) then Err (str "bucket name suffix is required")
  else
    let suffix := TrimPrefix suffix (space ++ str "-") in
    let suffix := TrimSpace (Trim suffix (str "-")) in
    if decide (suffix = []) then Err (str "bucket name suffix is required")
    else Ok (space ++ str "-" ++ suffix).

(** ** Upstream answers *)

Definition metadataPairsFromMap (meta : Metadata) : list (gostring * gostring) :=
  map (fun k => (k, default [] (meta !! k))) (sort_strings (map fst (map_iter meta))).

(** The zero [time.Time]. *)
Definition zero_time : instant := -62135596800 * 1000000000.
Definition formatObjectLastModifiedUTC (lastModified : option instant) : gostring :=
  match lastModified with
  | None => []
  | Some t => if decide (t = zero_time) then [] else FormatRFC3339 t
  end.

Definition bucket_names (buckets : list BucketEntry) : list gostring :=
  sort_strings (nonblank (omap be_Name buckets)).

(** ** Kafka topics (kafka_topics.go) *)

Definition visibleAdminKafkaTopics (topics : list Topic) (rules : list Rule) (globalTopic : gostring) : list Topic :=
  if CanReadAll rules then topics
  else
    let globalTopic := TrimSpace globalTopic in
    filter (fun topic =>
      tp_IsInternal topic = false /\ tp_Name topic <> str "_all" /\ ~ (globalTopic <> [] /\ tp_Name topic = globalTopic) /\
      CanRead rules (tp_Name topic) = true) topics.

(** The sums of [handleAdminKafkaTopics]: elements known, with the wrap-around of
    int64, and topics of which something is unavailable. *)
Definition wrap64 (n : Z) : Z := (n + 2 ^ 63) mod 2 ^ 64 - 2 ^ 63.
Definition topic_totals (topics : list Topic) : Z * Z :=
  fold_left (fun '(known, unavailable) topic =>
    (if tp_HasUnavailableData topic then known else wrap64 (known + tp_Elements topic),
     if tp_HasUnavailableData topic || tp_HasUnavailableConsumerGroups topic then unavailable + 1 else unavailable))
    topics (0, 0).
End Views.

Definition formatObjectExpiresUTC `{GoText} (expiresString : option gostring) : gostring :=
  let raw := TrimSpace (ToString expiresString) in
  if decide (raw = []) then [] else match ParseHTTPTime raw with None => raw | Some t => FormatRFC3339 t end.

(** ** URLs *)

(** [url.Values.Encode] of single values, without the names of blank values. *)
Definition encode_values (fields : list (string * gostring)) : gostring :=
  Join (map (fun f => QueryEscape (str f.1) ++ str "=" ++ QueryEscape f.2) fields) (str "&").
Definition set_unless_blank (name : string) (value : gostring) : list (string * gostring) :=
  if decide (TrimSpace value = []) then [] else [(name, value)].

(** The fields in the order of their names. *)
Definition adminDashboardURL (notice pageErr selectedSpace suffix : gostring) : gostring :=
  match set_unless_blank "err" pageErr ++ set_unless_blank "msg" notice ++ set_unless_blank "space" selectedSpace ++
        set_unless_blank "suffix" suffix with
  | [] => str "/admin"
  | fields => str "/admin?" ++ encode_values fields
  end.
Definition adminBucketPageURLWithStatus (bucket cursor encodedHistory notice pageErr : gostring) : gostring :=
  str "/admin/bucket?" ++ encode_values
    (set_unless_blank "cursor" cursor ++ set_unless_blank "err" pageErr ++ set_unless_blank "history" encodedHistory ++
     set_unless_blank "msg" notice ++ [("name"%string, bucket)]).

(** JSON arrays of strings; [None] is an error. *)
Class HistoryCodec := { MarshalStrings : list gostring -> option gostring; UnmarshalStrings : gostring -> option (list gostring) }.

Section History.
Context {J : HistoryCodec}.

(** [None] is an error. *)
Definition decodeAdminCursorHistory (raw : gostring) : option (list gostring) :=
  let v := TrimSpace raw in
  if decide (v = []) then Some []
  else payload ← Credentials.base64rawurl_decode v; history ← UnmarshalStrings payload; Some (map TrimSpace history).
Definition encodeAdminCursorHistory (history : list gostring) : gostring :=
  match history with
  | [] => []
  | _ => match MarshalStrings history with None => [] | Some payload => Credentials.base64rawurl_encode payload end
  end.
Definition adminBucketPageURL (bucket cursor : gostring) (history : list gostring) : gostring :=
  adminBucketPageURLWithStatus bucket cursor (encodeAdminCursorHistory history) [] [].
End History.

(** ** Downloads *)

(** [path.Base]. *)
Definition path_Base (p : gostring) : gostring :=
  if decide (p = []) then str "."
  else
    let p := TrimRight p (str "/") in
    let base := slice_from p (NetIP.LastIndex p "/"%byte + 1) in
    if decide (base = []) then str "/" else base.
Definition adminDownloadFilenameForKey (key : gostring) : gostring :=
  let base := TrimSpace (path_Base (TrimSpace key)) in
  if decide (base = [] \/ base = str "." \/ base = str "/") then str "download.bin" else base.
Definition contentDispositionAttachment (filename : gostring) : gostring :=
  str "attachment; filename=" ++ [x22] ++
  map (fun b => if decide (b = x5c \/ b = x22) then "_"%byte else b) filename ++ [x22].

(** ** URLs are read back *)

Section ReadBack.

Lemma escape_clean b : forallb (fun c => negb (bool_decide (c ∈ ["&"; ";"; "="]%byte))) (escape_query b) = true.
Proof. destruct b; reflexivity. Qed.

Lemma QueryEscape_clean s c : c ∈ QueryEscape s -> c ∉ ["&"; ";"; "="]%byte.
Proof.
  unfold QueryEscape. intros Hc. apply list_elem_of_In, in_concat in Hc as (x & Hx & Hc).
  apply in_map_iff in Hx as (b & <- & _). pose proof (escape_clean b) as H. rewrite forallb_forall in H. specialize (H c Hc). by b2p.
Qed.

Definition setting (f : string * gostring) : gostring := QueryEscape (str f.1) ++ str "=" ++ QueryEscape f.2.
(** The values of a name, in order. *)
Definition values_of (k : gostring) (fields : list (string * gostring)) : list gostring :=
  omap (fun f => if decide (str f.1 = k) then Some f.2 else None) fields.

Lemma setting_clean f c : c ∈ setting f -> c <> "&"%byte /\ c <> ";"%byte.
Proof.
  unfold setting. rewrite !elem_of_app. intros [H|[H|H]].
  - apply QueryEscape_clean in H. set_solver.
  - apply list_elem_of_singleton in H as ->. done.
  - apply QueryEscape_clean in H. set_solver.
Qed.

Lemma add_setting_field m f : add_setting m (setting f) = <[str f.1 := default [] (m !! str f.1) ++ [f.2]]> m.
Proof.
  unfold add_setting. rewrite decide_False by (intros H; by destruct (setting_clean f _ H)).
  rewrite decide_False by (unfold setting; by intros [_ ?]%app_eq_nil).
  assert (E : Cut (setting f) "="%byte = Some (QueryEscape (str f.1), QueryEscape f.2)).
  { unfold setting. change (str "=" ++ QueryEscape f.2) with ("="%byte :: QueryEscape f.2). apply Cut_app.
    intros H. apply QueryEscape_clean in H. set_solver. }
  rewrite E. cbn [from_option id default]. by rewrite !QueryUnescape_QueryEscape.
Qed.

Lemma ParseQuery_fields fields k :
  fields <> [] -> default [] (ParseQuery (encode_values fields) !! k) = values_of k fields.
Proof.
  intros Hne. unfold ParseQuery, encode_values. change (map _ fields) with (map setting fields).
  change (str "&") with ["&"%byte]. rewrite Split_Join.
  2: by destruct fields.
  2: { apply Forall_forall. intros s (f & <- & _)%list_elem_of_In%in_map_iff. intros H. by destruct (setting_clean f _ H). }
  assert (H : forall m, default [] (fold_left add_setting (map setting fields) m !! k) = default [] (m !! k) ++ values_of k fields).
  { clear Hne. induction fields as [|f fields IH]; intros m; cbn [map fold_left]; [by rewrite app_nil_r|].
    rewrite IH, add_setting_field. unfold values_of. cbn [omap list_omap]. destruct (decide (str f.1 = k)) as [<-|Hk].
    - rewrite lookup_insert_eq. cbn [from_option id default]. by rewrite <- app_assoc.
    - by rewrite lookup_insert_ne. }
  rewrite H. by rewrite lookup_empty.
Qed.

Lemma base64_plain s : TrimSpace (Credentials.base64rawurl_encode s) = Credentials.base64rawurl_encode s.
Proof.
  apply TrimSpace_printable, Forall_forall. intros b (d & <- & Hd)%list_elem_of_In%in_map_iff.
  pose proof (proj1 (Forall_forall _ _) (Credentials.to_digits_range s) d (proj2 (list_elem_of_In _ _) Hd)) as Hr.
  assert (H : forallb (fun n => printable (Credentials.base64url_digit (Z.of_nat n))) (seq 0 64) = true) by (vm_compute; reflexivity).
  rewrite forallb_forall in H. specialize (H (Z.to_nat d)). unfold Credentials.digit_range in Hr. rewrite Z2Nat.id in H by lia.
  apply H, in_seq. lia.
Qed.

Context {J : HistoryCodec}.
Definition well_formed (s : gostring) : Prop := exists rs, Forall valid_rune rs /\ s = utf8 rs.
(** JSON keeps well-formed text. *)
Class HistoryCodecLaws := {
  history_text l : Forall well_formed l -> exists payload, MarshalStrings l = Some payload /\ payload <> [] /\ UnmarshalStrings payload = Some l
}.
Context {JL : HistoryCodecLaws}.

Definition trimmed (s : gostring) : Prop := TrimSpace s = s.

Lemma encode_nonempty s : s <> [] -> Credentials.base64rawurl_encode s <> [].
Proof. destruct s as [|a [|b [|c s]]]; done. Qed.

Lemma history_roundtrip history :
  Forall well_formed history -> Forall trimmed history ->
  TrimSpace (encodeAdminCursorHistory history) = encodeAdminCursorHistory history /\
  decodeAdminCursorHistory (encodeAdminCursorHistory history) = Some history.
Proof.
  intros Hw Ht. destruct history as [|h history]; [done|]. set (l := h :: history) in *. unfold encodeAdminCursorHistory.
  destruct (history_text l Hw) as (payload & Hm & Hne & Hu). change (match l with [] => _ | _ => match MarshalStrings l with None => [] | Some p => Credentials.base64rawurl_encode p end end)
    with (match MarshalStrings l with None => [] | Some p => Credentials.base64rawurl_encode p end). rewrite Hm.
  split; [apply base64_plain|]. unfold decodeAdminCursorHistory. rewrite base64_plain, decide_False by (by apply encode_nonempty).
  rewrite Credentials.base64rawurl_roundtrip. cbn [mbind option_bind]. rewrite Hu. cbn [mbind option_bind]. f_equal.
  clearbody l. clear -Ht. induction Ht as [|x l Hx _ IH]; [done|]. cbn. by rewrite Hx, IH.
Qed.

(** What the handler of bucket pages reads from a query. *)
Definition read_position (q : Values) : gostring * gostring * option (list gostring) :=
  (TrimSpace (qget q (str "name")), TrimSpace (qget q (str "cursor")), decodeAdminCursorHistory (TrimSpace (qget q (str "history")))).

Lemma blank_or (s : gostring) name k :
  trimmed s -> default [] (head (values_of k (set_unless_blank name s))) = if decide (str name = k) then s else [].
Proof.
  intros Ht. unfold set_unless_blank. rewrite Ht. destruct (decide (s = [])) as [->|]; [by destruct (decide _)|].
  cbn. by destruct (decide _).
Qed.

(** A link to a page of a bucket leads there. *)
Lemma page_link bucket cursor history :
  trimmed bucket -> trimmed cursor -> Forall well_formed history -> Forall trimmed history ->
  exists query, adminBucketPageURL bucket cursor history = str "/admin/bucket?" ++ query /\
    read_position (ParseQuery query) = (bucket, cursor, Some history).
Proof.
  intros Hb Hc Hw Ht. destruct (history_roundtrip history Hw Ht) as [H1 H2]. unfold adminBucketPageURL, adminBucketPageURLWithStatus.
  eexists. split; [reflexivity|]. set (h := encodeAdminCursorHistory history) in *. clearbody h.
  unfold read_position, qget. rewrite !ParseQuery_fields by (intros H; by repeat apply app_eq_nil in H as [_ H]).
  assert (Happ : forall k l1 l2, values_of k (l1 ++ l2) = values_of k l1 ++ values_of k l2) by (intros; apply omap_app).
  rewrite !Happ. assert (Hnil : forall name : string, set_unless_blank name [] = []) by done. rewrite !Hnil.
  assert (Hv : forall name k (s : gostring), trimmed s -> values_of k (set_unless_blank name s) =
    if decide (s <> [] /\ str name = k) then [s] else []).
  { intros name k s Hs. unfold set_unless_blank. rewrite Hs. destruct (decide (s = [])) as [->|].
    - by rewrite decide_False by tauto.
    - cbn. destruct (decide (str name = k)); [by rewrite decide_True | by rewrite decide_False by tauto]. }
  rewrite !Hv by done. unfold values_of. cbn [omap list_omap fst snd].
  assert (N1 : str "cursor" <> str "name") by done. assert (N2 : str "history" <> str "name") by done.
  assert (N3 : str "cursor" <> str "history") by done. set (n := str "name") in *. set (c := str "cursor") in *.
  set (hs := str "history") in *. clearbody n c hs.
  destruct (decide (cursor = [])) as [->|Hcn], (decide (h = [])) as [->|Hhn]; repeat case_decide; try congruence; try (exfalso; intuition congruence);
    cbn [app head from_option id default]; rewrite ?Hb, ?Hc, ?H1, ?H2; change (TrimSpace []) with ([] : gostring); rewrite ?H2;
    try done; naive_solver.
Qed.
End ReadBack.

(** ** The form for new buckets *)

Section CreateForm.
Context {U : UnicodeCase} {UL : UnicodeCaseLaws U} {MI : MapIter}.

Lemma ParseGroup_prefix g p perm : ParseGroup g = Some (p, perm) -> p <> [] /\ "-"%byte ∉ p /\ (p = AllBucketsPrefix -> perm = PermRead).
Proof.
  intros [(_ & -> & ->)|(ns & letters & _ & Hn & -> & Hne & Hs & _)]%ParseGroup_inv.
  - split_and!; [done| |done]. apply (bool_decide_unpack _). vm_compute. exact I.
  - split_and!; [done| |done]. intros H. by apply Hn, TrimSpace_elem.
Qed.

Lemma create_space_Some g sp : create_space g = Some sp <-> exists perm, ParseGroup g = Some (sp, perm) /\ has perm PermCreateBucket = true.
Proof.
  unfold create_space. destruct (ParseGroup g) as [[p perm]|] eqn:E; cbn [mbind option_bind]; [|naive_solver].
  destruct (ParseGroup_normal _ _ _ E) as [H1 H2]. destruct (ParseGroup_prefix _ _ _ E) as [Hne _].
  destruct (has perm PermCreateBucket) eqn:Hc; [|split; [done | intros (? & [= <- <-] & ?); congruence]].
  rewrite H2, H1, decide_False by done. split; [intros [= <-]; by exists perm | intros (? & [= <- <-] & ?); done].
Qed.

Lemma elem_of_spaces groups sp :
  sp ∈ adminCreateBucketSpaces groups <-> exists g perm, g ∈ groups /\ ParseGroup g = Some (sp, perm) /\ has perm PermCreateBucket = true.
Proof.
  unfold adminCreateBucketSpaces, sort_strings. rewrite merge_sort_Permutation, elem_of_elements, elem_of_list_to_set, list_elem_of_omap.
  setoid_rewrite elem_of_set_iter. setoid_rewrite create_space_Some. naive_solver.
Qed.

Lemma spaces_create groups bucket :
  BucketNamespace bucket ∈ adminCreateBucketSpaces groups <-> CanCreateBucket (RulesFromGroups groups) bucket = true.
Proof.
  unfold CanCreateBucket, CanConfigure. rewrite BucketPerm_groups by (unfold perm_bits; set_solver). rewrite elem_of_spaces. unfold grants. split.
  - intros (g & perm & Hg & Hp & Hc). exists g. split; [done|]. exists (BucketNamespace bucket), perm. auto.
  - intros (g & Hg & p & perm & Hp & Hc & [->| ->]); [by exists g, perm|]. destruct (ParseGroup_prefix _ _ _ Hp) as (_ & _ & H).
    rewrite (H eq_refl) in Hc. discriminate Hc.
Qed.

Lemma runes_utf8_app rs t : Forall valid_rune rs -> runes (utf8 rs ++ t) = map (fun r => (r, encode_rune r)) rs ++ runes t.
Proof.
  induction 1 as [|r rs Hr _ IH]; [done|]. unfold utf8 in *. cbn [map concat]. rewrite <- app_assoc, runes_encode by done. by rewrite IH.
Qed.

Lemma ToLower_lowered_app x y : lowered x -> ToLower (x ++ "-"%byte :: y) = x ++ "-"%byte :: ToLower y.
Proof.
  intros (rs & -> & Hrs). assert (Hv : Forall valid_rune rs) by (eapply Forall_impl; [exact Hrs | naive_solver]).
  rewrite !ToLower_utf8, runes_utf8_app, runes_ascii by done. unfold utf8. rewrite !map_app, concat_app. cbn [map concat fst].
  f_equal. rewrite !map_map. f_equal. apply map_ext_in. intros r Hr. cbn.
  by rewrite (proj2 (proj1 (Forall_forall _ _) Hrs r (proj2 (list_elem_of_In _ _) Hr))).
Qed.

Lemma form_space_lowered space : lowered (form_space space).
Proof. apply ToLower_lowered. Qed.

Lemma built_namespace space suffix bucket :
  "-"%byte ∉ form_space space -> adminBuildBucketName space suffix = Ok bucket -> BucketNamespace bucket = form_space space.
Proof.
  intros Hd. unfold adminBuildBucketName. destruct (decide (form_space space = [])) as [|Hne]; [done|].
  destruct (decide _); [done|]. cbv zeta. destruct (decide _); [done|]. intros [= <-]. unfold BucketNamespace.
  change (str "-") with ["-"%byte]. cbn [app]. rewrite ToLower_lowered_app by apply form_space_lowered.
  rewrite Index_app by done. destruct (Z.ltb_spec 0 (Z.of_nat (length (form_space space)))) as [|Hl].
  - apply slice_to_app.
  - destruct (form_space space); [done|]. cbn in Hl. lia.
Qed.

(** C10. The form for new buckets offers exactly what the session may create: a
    bucket may be created if and only if its namespace is one of the spaces the
    form offers, and the name the form builds from an offered space and any
    suffix lies in that space, so that it may be created. *)
Theorem create_form_exact groups :
  (forall bucket, BucketNamespace bucket ∈ adminCreateBucketSpaces groups <-> CanCreateBucket (RulesFromGroups groups) bucket = true) /\
  (forall space suffix bucket, adminHasCreateSpace (adminCreateBucketSpaces groups) space = true ->
     adminBuildBucketName space suffix = Ok bucket ->
     BucketNamespace bucket = form_space space /\ CanCreateBucket (RulesFromGroups groups) bucket = true).
Proof.
  split; [apply spaces_create|]. intros space suffix bucket Hs Hb. apply bool_decide_eq_true in Hs.
  pose proof Hs as (g & perm & _ & Hp & _)%elem_of_spaces. destruct (ParseGroup_prefix _ _ _ Hp) as (_ & Hd & _).
  pose proof (built_namespace _ _ _ Hd Hb) as Hn. split; [done|]. apply spaces_create. by rewrite Hn.
Qed.

Lemma ParseGroup_some_bit g p perm : ParseGroup g = Some (p, perm) -> exists bit, bit ∈ perm_bits /\ has perm bit = true.
Proof.
  intros Hg. pose proof (ParseGroup_bits _ _ _ Hg) as Hb. destruct (existsb (has perm) perm_bits) eqn:E.
  - apply existsb_exists in E as (bit & Hin%list_elem_of_In & H). eauto.
  - assert (Hz : perm = PermNone).
    { apply Hb. intros bit Hin%list_elem_of_In. apply not_true_iff_false. intros H. apply not_true_iff_false in E. apply E, existsb_exists. eauto. }
    apply ParseGroup_inv in Hg as [(_ & _ & ->)|(? & ? & _ & _ & _ & _ & _ & _ & Hne)]; done.
Qed.

Lemma previews_lookup groups buckets bucket :
  bucketPreviewsForGroups groups buckets !! bucket =
  if bool_decide (bucket ∈ nonblank buckets)
  then Some {| bv_Name := bucket; bv_CanRead := CanRead (RulesFromGroups groups) bucket |} else None.
Proof.
  unfold bucketPreviewsForGroups. cbv zeta. generalize (RulesFromGroups groups) as rules. intros rules.
  assert (H : forall (l : list gostring) (m : gmap gostring adminBucketView),
    fold_left (fun previews b => <[b := {| bv_Name := b; bv_CanRead := CanRead rules b |}]> previews) l m !! bucket =
    if bool_decide (bucket ∈ l) then Some {| bv_Name := bucket; bv_CanRead := CanRead rules bucket |} else m !! bucket).
  { induction l as [|b l IH]; intros m; cbn [fold_left]; [by rewrite bool_decide_false by apply not_elem_of_nil|]. rewrite IH.
    destruct (decide (b = bucket)) as [->|Hne].
    - rewrite lookup_insert_eq, (bool_decide_true (bucket ∈ bucket :: l)) by left. by case_bool_decide.
    - rewrite lookup_insert_ne by done. assert (E : bool_decide (bucket ∈ b :: l) = bool_decide (bucket ∈ l)); [|by rewrite E].
      apply bool_decide_ext. set_solver. }
  by rewrite H, lookup_empty.
Qed.

Lemma nonblank_elem names n : n ∈ nonblank names -> n <> [].
Proof. unfold nonblank. rewrite list_elem_of_filter. tauto. Qed.

Lemma row_view groups buckets b :
  b ∈ nonblank buckets ->
  bucket_view (bucketPreviewsForGroups groups buckets) b = {| bv_Name := b; bv_CanRead := CanRead (RulesFromGroups groups) b |}.
Proof.
  intros Hb. unfold bucket_view. rewrite previews_lookup, bool_decide_true by done. cbn [from_option id default bv_Name].
  by rewrite decide_False by (by eapply nonblank_elem).
Qed.

(** The dashboard shows what the groups grant: under a group it lists exactly
    the upstream's buckets on which that group grants some permission, each
    marked readable exactly if the session as a whole may read it; rows appear
    for the groups that parse, and the others are the ignored ones. *)
Theorem dashboard_exact groups buckets group bucket canRead :
  let '(rows, ignored) := buildAdminGroupAccess groups buckets (bucketPreviewsForGroups groups buckets) in
  ((exists row, row ∈ rows /\ gv_GroupName row = group /\ {| bv_Name := bucket; bv_CanRead := canRead |} ∈ gv_Buckets row) <->
   group ∈ groups /\ bucket ∈ nonblank buckets /\ canRead = CanRead (RulesFromGroups groups) bucket /\
   exists bit, bit ∈ perm_bits /\ grants group bucket bit) /\
  ((exists row, row ∈ rows /\ gv_GroupName row = group) <-> group ∈ groups /\ ParseGroup group <> None) /\
  (group ∈ ignored <-> group ∈ groups /\ ParseGroup group = None).
Proof.
  unfold buildAdminGroupAccess. set (previews := bucketPreviewsForGroups groups buckets).
  assert (Hrow : forall row, row ∈ omap (fun g => '(prefix, perm) ← ParseGroup g; Some (group_row (sort_strings (nonblank buckets)) previews g prefix perm)) (set_iter groups) <->
    exists g prefix perm, g ∈ groups /\ ParseGroup g = Some (prefix, perm) /\ row = group_row (sort_strings (nonblank buckets)) previews g prefix perm).
  { intros row. rewrite list_elem_of_omap. setoid_rewrite elem_of_set_iter. split.
    - intros (g & Hg & H). destruct (ParseGroup g) as [[prefix perm]|] eqn:E; [|done]. cbn in H. injection H as <-. eauto 10.
    - intros (g & prefix & perm & Hg & E & ->). exists g. by rewrite E. }
  setoid_rewrite merge_sort_Permutation. setoid_rewrite Hrow. split_and!.
  - assert (Hv : forall p q v, v ∈ gv_Buckets (group_row (sort_strings (nonblank buckets)) previews group p q) <->
      exists b, b ∈ nonblank buckets /\ (ToLower p = AllBucketsPrefix \/ BucketNamespace b = ToLower p) /\
        v = {| bv_Name := b; bv_CanRead := CanRead (RulesFromGroups groups) b |}).
    { intros p q v. cbn [gv_Buckets group_row]. rewrite list_elem_of_fmap. unfold sort_strings. split.
      - intros (b & -> & Hb). apply list_elem_of_filter in Hb as [Hf Hb]. rewrite merge_sort_Permutation in Hb. exists b.
        split_and!; [done|done|]. by apply row_view.
      - intros (b & Hb & Hf & ->). exists b. split; [symmetry; by apply row_view|]. apply list_elem_of_filter. by rewrite merge_sort_Permutation. }
    split.
    + intros (row & (g & p & q & Hg & Hp & ->) & Hn & H). cbn in Hn. subst g. apply Hv in H as (b & Hb & Hf & [= -> ->]).
      split_and!; try done. destruct (ParseGroup_some_bit _ _ _ Hp) as (bit & Hbit & H). exists bit. split; [done|]. exists p, q.
      rewrite (proj1 (ParseGroup_normal _ _ _ Hp)) in Hf. split_and!; try done. destruct Hf; auto.
    + intros (Hg & Hb & -> & bit & _ & p & q & Hp & _ & Hns). eexists. split; [exists group, p, q; eauto|]. split; [done|]. apply Hv.
      exists bucket. rewrite (proj1 (ParseGroup_normal _ _ _ Hp)). split_and!; try done. destruct Hns; auto.
  - split; [intros (row & (g & p & q & Hg & Hp & ->) & <-); cbn; split; congruence|]. intros [Hg Hp].
    destruct (ParseGroup group) as [[p q]|] eqn:E; [|done]. eexists. split; [by exists group, p, q | done].
  - rewrite list_elem_of_filter, elem_of_set_iter. tauto.
Qed.
End CreateForm.

(** ** A codec of histories *)

(** Each octet after a mark, each string closed by another. *)
Definition mark_string (s : gostring) : gostring := concat (map (fun b => ["1"%byte; b]) s) ++ ["0"%byte].
Fixpoint read_marks (s cur : gostring) : option (list gostring) :=
  match s with
  | [] => match cur with [] => Some [] | _ => None end
  | c :: s' =>
    if decide (c = "0"%byte) then cons cur <$> read_marks s' []
    else match s' with
         | b :: s'' => if decide (c = "1"%byte) then read_marks s'' (cur ++ [b]) else None
         | [] => None
         end
  end.
Definition toy_history : HistoryCodec := {|
  MarshalStrings l := Some ("["%byte :: concat (map mark_string l));
  UnmarshalStrings s := match s with b :: s => if decide (b = "["%byte) then read_marks s [] else None | [] => None end |}.

Lemma read_mark_string s t cur : read_marks (mark_string s ++ t) cur = cons (cur ++ s) <$> read_marks t [].
Proof.
  unfold mark_string. rewrite <- app_assoc. cbn [app]. revert cur. induction s as [|b s IH]; intros cur; cbn [map concat app].
  - by rewrite app_nil_r.
  - cbn [read_marks]. rewrite decide_False, decide_True by done. by rewrite IH, <- app_assoc.
Qed.

Lemma toy_history_laws : @HistoryCodecLaws toy_history.
Proof.
  split. intros l _. eexists. split; [reflexivity|]. split; [done|]. cbn [UnmarshalStrings toy_history]. rewrite decide_True by done.
  induction l as [|s l IH]; [done|]. cbn [map concat]. rewrite read_mark_string, IH. done.
Qed.

(** ** Witnesses *)

Section Witnesses.
#[local] Existing Instance latin1_case.
#[local] Existing Instance canonical_iter.

Definition sample_creators : gset gostring := {[str "Team1-RWC"; str "team2-r"]}.

Lemma create_form_exact_witness :
  adminCreateBucketSpaces sample_creators = [str "team1"] /\
  adminBuildBucketName (str "Team1-") (str " team1-Logs ") = Ok (str "team1-logs") /\
  BucketNamespace (str "team1-logs") = form_space (str "Team1-") /\ CanCreateBucket (RulesFromGroups sample_creators) (str "team1-logs") = true.
Proof.
  assert (Hs : adminHasCreateSpace (adminCreateBucketSpaces sample_creators) (str "Team1-") = true) by (vm_compute; reflexivity).
  assert (Hb : adminBuildBucketName (str "Team1-") (str " team1-Logs ") = Ok (str "team1-logs")) by (vm_compute; reflexivity).
  split; [vm_compute; reflexivity|]. split; [exact Hb|].
  exact (proj2 (create_form_exact sample_creators) (str "Team1-") (str " team1-Logs ") (str "team1-logs") Hs Hb).
Defined.
End Witnesses.
