(* ===== verification/AdminUpload.v ===== *)
(** * Uploads from the browser (src/internal/adminpage/adminpage.go)

    The upload form is a stream of multipart parts, the file last.  The handler
    checks each part as it comes, sends the file in parts of fixed size as a
    multipart upload, and completes it only if the whole form has arrived.  The
    form is given as its parts, as mime/multipart delivers them; the handler is a
    program over the upstream.  The theorems: what is completed is the whole file
    of a complete form, in order, and no upload is left behind. *)

From S2P Require Import Prelude GoStrings Http Stream Authz S3Xml S3Http XmlDecode Upstream HandlerBase HandlersObject AdminSession AdminWeb AdminViews.

#[local] Open Scope Z_scope.

(** ** Limits *)

Definition maxAdminUploadParts : Z := 128.
Definition maxAdminUploadMetadataFields : Z := 64.
Definition maxAdminUploadFieldBytes : Z := 8192.
Definition maxAdminUploadMetadataKeyBytes : Z := 256.
Definition maxAdminUploadMetadataValueBytes : Z := 4096.
Definition maxAdminUploadMetadataBytes : Z := 16384.
Definition adminUploadPartSize : Z := 16777216.
Definition maxAdminUploadObjectSize : Z := adminUploadPartSize * 10000.

(** ** Forms *)

(** How the octets of a part end: at a boundary, by the end of the request's
    body in the middle of the part, or by an error of the connection. *)
Inductive PartEnd := AtBoundary | CutOff | Broken.
Record FormPart := {
  fp_transferEncoding : bool;      (* a Content-Transfer-Encoding header is present *)
  fp_FormName : gostring; fp_FileName : gostring; fp_ContentType : gostring;
  fp_octets : gostring; fp_end : PartEnd
}.
(** The parts, and whether the closing boundary follows them. *)
Record Form := { fm_parts : list FormPart; fm_closed : bool }.

(** [io.ReadAll] of a part behind a limit of one octet more than [max]: [None]
    if it fails or is longer than [max]. *)
Definition read_field (max : Z) (part : FormPart) : option gostring :=
  if max <? zlen (fp_octets part) then None
  else match fp_end part with AtBoundary => Some (fp_octets part) | _ => None end.

(** The first [n] octets and the rest. *)
Fixpoint take_z (n : Z) (s : gostring) : gostring :=
  match s with [] => [] | b :: s => if n <=? 0 then [] else b :: take_z (n - 1) s end.
Fixpoint drop_z (n : Z) (s : gostring) : gostring :=
  match s with [] => [] | b :: s' => if n <=? 0 then s else drop_z (n - 1) s' end.

Inductive ReadError := ReadEOF | ReadUnexpectedEOF | ReadTooLarge | ReadFailed.
#[export] Instance ReadError_eq_dec : EqDecision ReadError.
Proof. solve_decision. Defined.
(** What [io.ReadFull] into [n] octets reads of the rest of a part. *)
Definition ReadFull (rest : gostring) (part_end : PartEnd) (n : Z) : gostring * option ReadError :=
  let data := take_z n rest in
  (data,
   if zlen data =? n then None
   else match part_end with
        | AtBoundary => Some (if zlen data =? 0 then ReadEOF else ReadUnexpectedEOF)
        | CutOff => Some ReadUnexpectedEOF
        | Broken => Some ReadFailed
        end).

Definition readAdminUploadPart (rest : gostring) (part_end : PartEnd) (receivedSize : Z) : gostring * option ReadError :=
  let remaining := maxAdminUploadObjectSize - receivedSize in
  if remaining <? 0 then ([], Some ReadTooLarge)
  else
    let '(data, err) := ReadFull rest part_end (if remaining <? adminUploadPartSize then remaining + 1 else adminUploadPartSize) in
    if remaining <? zlen data then (data, Some ReadTooLarge) else (data, err).

(** ** The session's upload *)

Definition adminUploadTooLargeMessage : string := "File is too large. Maximum browser upload size is 156.25 GiB.".
Definition size_mismatch : string := "Uploaded file size does not match the declared size.".
Definition could_not_upload : string := "Could not upload object.".
Definition could_not_process : string := "Could not process upload payload.".

(** The answers of the administration pages; the data of a page stands for it. *)
Record UploadReply := { ur_URL : gostring; ur_closes : bool (* the connection is closed, the rest of the body unread *) }.

Definition admin_object (bucket key : gostring) : ObjectInput :=
  {| oi_Bucket := bucket; oi_Key := key; oi_VersionId := None; oi_ExpectedBucketOwner := None; oi_RequestPayer := [] |}.
Definition no_properties : uploadProperties :=
  {| up_CacheControl := None; up_ContentDisposition := None; up_ContentEncoding := None; up_ContentLanguage := None; up_Tagging := None;
     up_StorageClass := []; up_WebsiteRedirectLocation := None |}.
Definition octets_body (octets : gostring) : S3Body := PlainBody {| src_bytes := octets; src_end := EOF; src_sizes := [] |}.

Section Upload.
Context {U : UnicodeCase}.

(** What a file is uploaded to and as. *)
Record Target := { tg_bucket : gostring; tg_key : gostring; tg_contentType : gostring; tg_metadata : Metadata; tg_size : Z (* -1: not declared *) }.

Definition create_input (t : Target) : CreateMultipartUploadInput := {|
  cm_object := admin_object (tg_bucket t) (tg_key t); cm_Metadata := tg_metadata t; cm_Expires := None; cm_properties := no_properties;
  cm_ContentType := enum (tg_contentType t); cm_ChecksumAlgorithm := None; cm_ChecksumType := None |}.
Definition upload_of (t : Target) (uploadID : gostring) : UploadRef :=
  {| ur_object := admin_object (tg_bucket t) (tg_key t); ur_UploadId := uploadID |}.
Definition part_input (t : Target) (uploadID : gostring) (partNumber : Z) (octets : gostring) : UploadPartInput := {|
  pi_upload := upload_of t uploadID; pi_PartNumber := partNumber; pi_Body := octets_body octets; pi_ContentLength := zlen octets;
  pi_checksum := no_checksum; pi_ContentMD5 := None |}.
Definition complete_input (t : Target) (uploadID : gostring) (parts : list CompletedPart) : CompleteMultipartUploadInput := {|
  cu_upload := upload_of t uploadID; cu_Parts := parts; cu_checksum := no_checksum; cu_MpuObjectSize := None; cu_IfMatch := None;
  cu_IfNoneMatch := None |}.
Definition empty_input (t : Target) : PutObjectInput := {|
  po_object := admin_object (tg_bucket t) (tg_key t); po_Body := octets_body []; po_ContentLength := 0; po_Metadata := tg_metadata t;
  po_Expires := None; po_properties := no_properties; po_IfMatch := None; po_IfNoneMatch := None; po_ContentMD5 := None;
  po_ContentType := enum (tg_contentType t); po_checksum := no_checksum |}.
Definition completed_part_of (partNumber : Z) (etag : gostring) : CompletedPart :=
  {| part_Number := partNumber; part_ETag := etag; part_checksum := fun _ => None |}.

(** The loop that reads and uploads the file: the completed parts and the size
    received, or the error of the page. *)
Fixpoint upload_parts (fuel : nat) (t : Target) (uploadID : gostring) (part_end : PartEnd) (partNumber receivedSize : Z)
    (completed : list CompletedPart) (rest : gostring) : Prog (result string (list CompletedPart * Z)) :=
  match fuel with
  | O => Spin
  | S fuel =>
    let '(data, readErr) := readAdminUploadPart rest part_end receivedSize in
    match readErr with
    | Some ReadEOF => Ret (Ok (completed, receivedSize))
    | Some ReadTooLarge => Ret (Err adminUploadTooLargeMessage)
    | Some ReadFailed => Ret (Err could_not_upload)
    | Some ReadUnexpectedEOF | None =>
      if decide (data = []) then Ret (Ok (completed, receivedSize))
      else
        let receivedSize := receivedSize + zlen data in
        if (0 <=? tg_size t) && (tg_size t <? receivedSize) then Ret (Err size_mismatch)
        else
          Up (UploadPart (part_input t uploadID partNumber data)) (fun answer =>
            match answer with
            | Err _ => Ret (Err could_not_upload)
            | Ok out =>
              let etag := TrimSpace (ToString (wo_ETag out)) in
              if decide (etag = []) then Ret (Err could_not_upload)
              else
                let completed := completed ++ [completed_part_of partNumber etag] in
                match readErr with
                | None => upload_parts fuel t uploadID part_end (partNumber + 1) receivedSize completed (drop_z (zlen data) rest)
                | Some _ => Ret (Ok (completed, receivedSize))
                end
            end)
    end
  end.

(** What the notification of an upload says, besides its target. *)
Definition notify_upload {R} (notifier : bool) (now : instant) (uploader : gostring) (name : EventName) (t : Target) (out : WriteOutput)
    (uploadID : gostring) (k : Prog R) : Prog R :=
  if notifier then
    Notify {| ev_name := name; ev_Bucket := tg_bucket t; ev_Key := tg_key t; ev_ETag := Trim (ToString (wo_ETag out)) quote;
              ev_VersionID := ToString (wo_VersionId out); ev_UploadID := uploadID; ev_Uploader := uploader; ev_OccurredAt := now |} k
  else k.

(** From the created multipart upload to its end: nothing, or the error of the
    page, after which the upload is aborted. *)
Definition finish_upload (notifier : bool) (now : instant) (uploader : gostring) (t : Target) (uploadID : gostring)
    (form_ended : bool) (uploaded : result string (list CompletedPart * Z)) : Prog (result string unit * bool) :=
  match uploaded with
  | Err e => Ret (Err e, false)
  | Ok (completed, receivedSize) =>
    if (0 <=? tg_size t) && negb (receivedSize =? tg_size t) then Ret (Err size_mismatch, false)
    else if negb form_ended then Ret (Err could_not_process, false)
    else
      match completed with
      | [] =>
        Up (PutObject (empty_input t)) (fun answer =>
          match answer with
          | Err _ => Ret (Err could_not_upload, false)
          | Ok out => notify_upload notifier now uploader ObjectCreatedPut t out [] (Ret (Ok tt, false))
          end)
      | _ =>
        Up (CompleteMultipartUpload (complete_input t uploadID completed)) (fun answer =>
          match answer with
          | Err _ => Ret (Err could_not_upload, false)
          | Ok out => notify_upload notifier now uploader ObjectCreatedCompleteMultipartUpload t out uploadID (Ret (Ok tt, true))
          end)
      end
  end.

(** The upload of a file: the error of the page, if any.  The multipart upload is
    aborted at the end unless it was completed. *)
Definition upload_file (notifier : bool) (now : instant) (uploader : gostring) (t : Target) (octets : gostring) (part_end : PartEnd)
    (form_ended : bool) : Prog (result string unit) :=
  Up (CreateMultipartUpload (create_input t)) (fun answer =>
    match answer with
    | Err _ => Ret (Err could_not_upload)
    | Ok created =>
      let uploadID := TrimSpace (ToString (cmo_UploadId created)) in
      if decide (uploadID = []) then Ret (Err could_not_upload)
      else
        pbind (upload_parts (S (length octets)) t uploadID part_end 1 0 [] octets) (fun uploaded =>
        pbind (finish_upload notifier now uploader t uploadID form_ended uploaded) (fun '(outcome, completed) =>
          if completed : bool then Ret outcome
          else Up (AbortMultipartUpload (upload_of t uploadID)) (fun _ => Ret outcome)))
    end).

(** ** The form *)

Record UploadForm := {
  uf_bucket : gostring; uf_key : gostring; uf_cursor : gostring; uf_history : gostring; uf_size : Z; uf_authorized : bool;
  uf_partCount : Z; uf_metadataCount : Z; uf_metadataBytes : Z; uf_meta : Metadata
}.
Definition empty_form : UploadForm := {|
  uf_bucket := []; uf_key := []; uf_cursor := []; uf_history := []; uf_size := -1; uf_authorized := false; uf_partCount := 0;
  uf_metadataCount := 0; uf_metadataBytes := 0; uf_meta := ∅ |}.
Definition count_part (f : UploadForm) : UploadForm := {|
  uf_bucket := uf_bucket f; uf_key := uf_key f; uf_cursor := uf_cursor f; uf_history := uf_history f; uf_size := uf_size f;
  uf_authorized := uf_authorized f; uf_partCount := uf_partCount f + 1; uf_metadataCount := uf_metadataCount f;
  uf_metadataBytes := uf_metadataBytes f; uf_meta := uf_meta f |}.
Definition with_meta (count bytes : Z) (meta : Metadata) (f : UploadForm) : UploadForm := {|
  uf_bucket := uf_bucket f; uf_key := uf_key f; uf_cursor := uf_cursor f; uf_history := uf_history f; uf_size := uf_size f;
  uf_authorized := uf_authorized f; uf_partCount := uf_partCount f; uf_metadataCount := count; uf_metadataBytes := bytes; uf_meta := meta |}.
Definition with_fields (bucket : gostring) (authorized : bool) (key cursor history : gostring) (size : Z) (f : UploadForm) : UploadForm := {|
  uf_bucket := bucket; uf_key := key; uf_cursor := cursor; uf_history := history; uf_size := size; uf_authorized := authorized;
  uf_partCount := uf_partCount f; uf_metadataCount := uf_metadataCount f; uf_metadataBytes := uf_metadataBytes f; uf_meta := uf_meta f |}.

(** [redirectUploadPayloadError]: a blank bucket has no page. *)
Definition payload_error (f : UploadForm) (pageErr : gostring) : UploadReply := {|
  ur_URL := if decide (TrimSpace (uf_bucket f) = []) then str "/admin"
            else adminBucketPageURLWithStatus (uf_bucket f) (uf_cursor f) (uf_history f) [] pageErr;
  ur_closes := true |}.
Definition bucket_page (f : UploadForm) (notice pageErr : gostring) : UploadReply :=
  {| ur_URL := adminBucketPageURLWithStatus (uf_bucket f) (uf_cursor f) (uf_history f) notice pageErr; ur_closes := false |}.

(** A "meta-" field; [None] refuses the payload. *)
Definition meta_field (f : UploadForm) (rawKey : gostring) (part : FormPart) : option UploadForm :=
  let count := uf_metadataCount f + 1 in
  if negb (uf_authorized f) || (maxAdminUploadMetadataFields <? count) || (zlen rawKey =? 0) || (maxAdminUploadMetadataKeyBytes <? zlen rawKey) then None
  else
    match read_field maxAdminUploadMetadataValueBytes part with
    | None => None
    | Some value =>
      let left := maxAdminUploadMetadataBytes - uf_metadataBytes f in
      if (left <? zlen rawKey) || (left - zlen rawKey <? zlen value) then None
      else
        let metaKey := NormalizeRequiredMetadataKey rawKey in
        Some (with_meta count (uf_metadataBytes f + (zlen rawKey + zlen value))
                (if decide (metaKey = []) then uf_meta f else <[metaKey := TrimSpace value]> (uf_meta f)) f)
    end.

Section Handler.
Context {MI : MapIter}.
Variables (rules : list Rule) (username : gostring) (requiredKeys : list gostring) (notifier : bool) (now : instant).

(** The other fields, but the file. *)
Definition text_field (f : UploadForm) (name : gostring) (part : FormPart) : result UploadReply UploadForm :=
  match read_field maxAdminUploadFieldBytes part with
  | None => Err (payload_error f (str could_not_process))
  | Some octets =>
    let value := TrimSpace octets in
    let set bucket authorized key cursor history size := with_fields bucket authorized key cursor history size f in
    let '(Build_UploadForm bucket key cursor history size authorized _ _ _ _) := f in
    if decide (name = str "name") then
      if decide (bucket <> [] \/ value = []) then Ok f
      else if CanWrite rules value then Ok (set value true key cursor history size)
      else Err (payload_error (set value authorized key cursor history size) (str "Write permission is required for uploads."))
    else if decide (name = str "key") then Ok (if decide (key = []) then set bucket authorized octets cursor history size else f)
    else if decide (name = str "cursor") then Ok (if decide (cursor = []) then set bucket authorized key value history size else f)
    else if decide (name = str "history") then Ok (if decide (history = []) then set bucket authorized key cursor value size else f)
    else if decide (name = str "size") then
      if (0 <=? size) || bool_decide (value = []) then Ok f
      else
        match ParseInt value 10 64 with
        | None => Err (payload_error f (str "Invalid file size."))
        | Some n => if n <? 0 then Err (payload_error f (str "Invalid file size.")) else Ok (set bucket authorized key cursor history n)
        end
    else Ok f
  end.

Definition missingRequiredMetadata (meta : Metadata) (required : list gostring) : list gostring :=
  filter (fun key => TrimSpace (default [] (meta !! key)) = []) required.

(** The file: the target, or the error of the page. *)
Definition file_target (f : UploadForm) (part : FormPart) : result gostring Target :=
  if decide (uf_bucket f = []) then Err (str "Bucket name is required.")
  else if negb (uf_authorized f) then Err (str "Write permission is required for uploads.")
  else
    let finalKey := if decide (uf_key f = []) then fp_FileName part else uf_key f in
    if decide (finalKey = []) then Err (str "Object key is required.")
    else if maxAdminUploadObjectSize <? uf_size f then Err (str adminUploadTooLargeMessage)
    else
      let meta := <[str "uploaded-by" := TrimSpace username]> (uf_meta f) in
      match missingRequiredMetadata meta requiredKeys with
      | [] => Ok {| tg_bucket := uf_bucket f; tg_key := finalKey; tg_contentType := TrimSpace (fp_ContentType part); tg_metadata := meta;
                    tg_size := uf_size f |}
      | missing => Err (str "Missing required metadata: " ++ Join missing (str ", "))
      end.

Definition ends_with (part : FormPart) (rest : list FormPart) (closed : bool) : bool :=
  match fp_end part, rest with AtBoundary, [] => closed | _, _ => false end.

(** One part; the rest of the form is [rest]. *)
Fixpoint upload_form (f : UploadForm) (parts : list FormPart) (closed : bool) : Prog UploadReply :=
  match parts with
  | [] =>
    if negb closed then Ret (payload_error f (str could_not_process))
    else if decide (uf_bucket f = []) then Ret {| ur_URL := str "/admin"; ur_closes := false |}
    else if negb (uf_authorized f) then Ret (bucket_page f [] (str "Write permission is required for uploads."))
    else Ret (bucket_page f [] (str "A file is required for upload."))
  | part :: rest =>
    let f := count_part f in
    if (maxAdminUploadParts <? uf_partCount f) || fp_transferEncoding part then Ret (payload_error f (str could_not_process))
    else
      let partName := TrimSpace (fp_FormName part) in
      if HasPrefix partName (str "meta-") then
        match meta_field f (TrimPrefix partName (str "meta-")) part with
        | None => Ret (payload_error f (str could_not_process))
        | Some f => upload_form f rest closed
        end
      else if decide (partName = str "file") then
        match file_target f part with
        | Err e => Ret (payload_error f e)
        | Ok t =>
          pbind (upload_file notifier now (TrimSpace username) t (fp_octets part) (fp_end part) (ends_with part rest closed))
            (fun outcome => Ret match outcome with
               | Ok _ => bucket_page f (str "Uploaded object: " ++ tg_key t) []
               | Err e => payload_error f (str e)
               end)
        end
      else
        match text_field f partName part with
        | Err reply => Ret reply
        | Ok f => upload_form f rest closed
        end
  end.
End Handler.
End Upload.

(** ** The parts of a file *)

Lemma take_drop_z n s : take_z n s ++ drop_z n s = s.
Proof. revert n. induction s as [|b s IH]; intros n; cbn; [done|]. destruct (n <=? 0); cbn; [done | by rewrite IH]. Qed.

Lemma zlen_take_z n s : 0 <= n -> zlen (take_z n s) = Z.min n (zlen s).
Proof.
  unfold zlen. revert n. induction s as [|b s IH]; intros n Hn; cbn [take_z length]; [lia|].
  destruct (Z.leb_spec n 0); cbn [length]; [lia|]. specialize (IH (n - 1)). lia.
Qed.

Lemma zlen_app {A} (l1 l2 : list A) : zlen (l1 ++ l2) = zlen l1 + zlen l2.
Proof. unfold zlen. rewrite length_app. lia. Qed.

Lemma zlen_nonneg {A} (l : list A) : 0 <= zlen l.
Proof. unfold zlen. lia. Qed.

Lemma zlen_nil {A} (l : list A) : zlen l = 0 <-> l = [].
Proof. unfold zlen. destruct l; cbn; split; (done || lia). Qed.

(** What is read: a prefix of the rest, no more than what still fits, and a
    whole part if there was no error. *)
Lemma readAdminUploadPart_spec rest pe received data err :
  0 <= received <= maxAdminUploadObjectSize -> readAdminUploadPart rest pe received = (data, err) ->
  exists n, 0 <= n /\ data = take_z n rest /\
  (err <> Some ReadTooLarge -> received + zlen data <= maxAdminUploadObjectSize) /\
  (err = None -> zlen data = adminUploadPartSize) /\ zlen data <= adminUploadPartSize /\
  (err = Some ReadEOF \/ err = Some ReadUnexpectedEOF -> data = rest) /\ (err = Some ReadEOF -> rest = []).
Proof.
  intros Hr. unfold readAdminUploadPart. set (remaining := maxAdminUploadObjectSize - received).
  destruct (Z.ltb_spec remaining 0) as [|Hrem]; [lia|]. unfold ReadFull.
  set (n := if remaining <? adminUploadPartSize then remaining + 1 else adminUploadPartSize).
  assert (Hn : 0 < n <= adminUploadPartSize /\ (n = adminUploadPartSize \/ n = remaining + 1)) by (unfold n; destruct (Z.ltb_spec remaining adminUploadPartSize); unfold adminUploadPartSize in *; lia).
  pose proof (zlen_take_z n rest ltac:(lia)) as Hl.
  assert (Hshort : zlen (take_z n rest) <> n -> take_z n rest = rest).
  { intros Hne. assert (Hd : drop_z n rest = []); [|pose proof (take_drop_z n rest) as E; by rewrite Hd, app_nil_r in E].
    apply zlen_nil. pose proof (f_equal zlen (take_drop_z n rest)) as E. rewrite zlen_app in E. lia. }
  assert (Hrm : received + remaining = maxAdminUploadObjectSize) by (unfold remaining; lia).
  intros Hres. exists n. revert Hres. clearbody remaining n. destruct (Z.ltb_spec remaining (zlen (take_z n rest))).
  - intros [= <- <-]. split_and!; naive_solver lia.
  - destruct (Z.eqb_spec (zlen (take_z n rest)) n).
    { intros [= <- <-]. split_and!; naive_solver lia. }
    specialize (Hshort ltac:(done)). destruct pe; intros [= <- <-]; split_and!; try done; try (naive_solver lia).
    destruct (Z.eqb_spec (zlen (take_z n rest)) 0); [|done]. intros _. rewrite <- Hshort. by apply zlen_nil.
Qed.

Section Parts.
Context {U : UnicodeCase}.

(** The pieces of a file and the upstream's answers to their uploads. *)
Abbreviation chunk := (gostring * WriteOutput)%type.
Definition part_call (t : Target) (id : gostring) (first : Z) (i : nat) (c : chunk) : Action :=
  Called (UploadPart (part_input t id (first + Z.of_nat i) c.1)) (Ok c.2).
Definition completed_chunk (first : Z) (i : nat) (c : chunk) : CompletedPart :=
  completed_part_of (first + Z.of_nat i) (TrimSpace (ToString (wo_ETag c.2))).

(** All but the last piece have the full size. *)
Fixpoint cut_evenly (chunks : list chunk) : Prop :=
  match chunks with
  | [] => True
  | c :: rest => 0 < zlen c.1 <= adminUploadPartSize /\ (rest <> [] -> zlen c.1 = adminUploadPartSize) /\ cut_evenly rest
  end.

Lemma cut_evenly_count chunks :
  cut_evenly chunks -> chunks = [] \/ (zlen chunks - 1) * adminUploadPartSize < zlen (concat (map fst chunks)).
Proof.
  induction chunks as [|c rest IH]; [by left|]. intros (Hc & Hfull & Hrest). right. cbn [map concat]. rewrite zlen_app.
  destruct (IH Hrest) as [-> |H]; [unfold zlen in *; cbn in *; lia|].
  destruct rest as [|c' rest]; [unfold zlen in *; cbn in *; lia|]. rewrite Hfull by done. unfold zlen in *. cbn [length] in *. lia.
Qed.

(** The trace uploads the rest of the file in pieces, and these are its completed parts. *)
Definition uploads_rest (t : Target) (id : gostring) (first received : Z) (done : list CompletedPart) (rest : gostring)
    (tr : list Action) (completed : list CompletedPart) (total : Z) : Prop :=
  exists chunks, tr = imap (part_call t id first) chunks /\ concat (map fst chunks) = rest /\ cut_evenly chunks /\
    completed = done ++ imap (completed_chunk first) chunks /\ total = received + zlen rest /\ total <= maxAdminUploadObjectSize.

Lemma uploads_nothing t id first received done :
  received <= maxAdminUploadObjectSize -> uploads_rest t id first received done [] [] done received.
Proof. intros Hr. exists []. cbn. rewrite app_nil_r. split_and!; try done. unfold zlen. cbn. lia. Qed.

Lemma uploads_one t id first received done data out rest tr completed total :
  0 < zlen data <= adminUploadPartSize -> (rest <> [] -> zlen data = adminUploadPartSize) ->
  uploads_rest t id (first + 1) (received + zlen data) (done ++ [completed_part_of first (TrimSpace (ToString (wo_ETag out)))]) rest tr completed total ->
  uploads_rest t id first received done (data ++ rest) (Called (UploadPart (part_input t id first data)) (Ok out) :: tr) completed total.
Proof.
  intros Hd Hfull (chunks & -> & <- & Hcut & -> & -> & Hmax). exists ((data, out) :: chunks).
  cbn [imap map concat fst]. rewrite !zlen_app. split_and!; try done.
  - f_equal; [unfold part_call; by rewrite Z.add_0_r|]. apply imap_ext. intros i c _. unfold part_call, compose. by replace (first + Z.of_nat (S i)) with (first + 1 + Z.of_nat i) by lia.
  - split; [done|]. split; [|done]. intros Hne. apply Hfull. destruct chunks as [|c chunks]; [done|]. destruct Hcut as (Hc & _).
    cbn [map concat]. intros E. apply (f_equal zlen) in E. rewrite zlen_app in E. unfold zlen in *. cbn in E. lia.
  - rewrite <- app_assoc. f_equal. cbn [app]. f_equal; [unfold completed_chunk; cbn; by rewrite Z.add_0_r|].
    apply imap_ext. intros i c _. unfold completed_chunk, compose. by replace (first + Z.of_nat (S i)) with (first + 1 + Z.of_nat i) by lia.
  - lia.
Qed.

Lemma drop_taken n s : 0 <= n -> drop_z (zlen (take_z n s)) s = drop_z n s.
Proof.
  revert n. induction s as [|b s IH]; intros n Hn; [done|]. cbn [take_z drop_z]. destruct (Z.leb_spec n 0); [done|].
  unfold zlen in *. cbn [length]. destruct (Z.leb_spec (Z.of_nat (S (length (take_z (n - 1) s)))) 0); [lia|].
  rewrite <- (IH (n - 1)) by lia. f_equal. lia.
Qed.

Lemma upload_parts_steps fuel t id pe first received done rest tr completed total :
  0 <= received <= maxAdminUploadObjectSize ->
  steps (upload_parts fuel t id pe first received done rest) tr (Ret (Ok (completed, total))) ->
  uploads_rest t id first received done rest tr completed total.
Proof.
  revert first received done rest tr. induction fuel as [|fuel IH]; intros first received done rest tr Hr Hs;
    [by apply steps_inv in Hs as [[_ ?]|?]|]. cbn [upload_parts] in Hs.
  destruct (readAdminUploadPart rest pe received) as [data err] eqn:Hread.
  apply readAdminUploadPart_spec in Hread as (n & Hn & Hdata & Hfit & Hfull & Hmax & Hend & Heof); [|done].
  destruct (decide (err = Some ReadEOF)) as [->|Hneof].
  { apply steps_inv in Hs as [[-> [= -> ->]]|[]]. rewrite Heof by done. apply uploads_nothing; lia. }
  destruct (decide (err = None \/ err = Some ReadUnexpectedEOF)) as [Hgo|Hfail].
  2: { destruct err as [[]|]; try tauto; by apply steps_inv in Hs as [[_ ?]|[]]. }
  assert (Hs' : steps (if decide (data = []) then Ret (Ok (done, received)) else
    if (0 <=? tg_size t) && (tg_size t <? received + zlen data) then Ret (Err size_mismatch) else
    Up (UploadPart (part_input t id first data)) (fun answer => match answer with Err _ => Ret (Err could_not_upload) | Ok out =>
      if decide (TrimSpace (ToString (wo_ETag out)) = []) then Ret (Err could_not_upload) else
      match err with
      | None => upload_parts fuel t id pe (first + 1) (received + zlen data) (done ++ [completed_part_of first (TrimSpace (ToString (wo_ETag out)))]) (drop_z (zlen data) rest)
      | Some _ => Ret (Ok (done ++ [completed_part_of first (TrimSpace (ToString (wo_ETag out)))], received + zlen data)) end end))
    tr (Ret (Ok (completed, total)))) by (by destruct Hgo as [-> | ->]). clear Hs.
  destruct (decide (data = [])) as [Hnil|Hne].
  { apply steps_inv in Hs' as [[-> [= -> ->]]|[]]. destruct Hgo as [-> | ->].
    - specialize (Hfull eq_refl). rewrite Hnil in Hfull. discriminate Hfull.
    - rewrite <- (Hend ltac:(by right)), Hnil. apply uploads_nothing; lia. }
  destruct (_ && _); [by apply steps_inv in Hs' as [[_ ?]|[]]|].
  apply steps_inv in Hs' as [[_ ?]|(a & tr' & -> & Hs')]; [done|]. destruct a as [out|f]; [|by apply steps_inv in Hs' as [[_ ?]|[]]].
  destruct (decide _) as [|_]; [by apply steps_inv in Hs' as [[_ ?]|[]]|].
  assert (Hpos : 0 < zlen data) by (pose proof (zlen_nonneg data); pose proof (zlen_nil data); destruct (decide (zlen data = 0)); [tauto | lia]).
  assert (Hfits : received + zlen data <= maxAdminUploadObjectSize) by (apply Hfit; by destruct Hgo as [-> | ->]).
  destruct Hgo as [-> | ->].
  - rewrite Hdata, drop_taken, <- Hdata in Hs' by done. apply IH in Hs'; [|lia]. rewrite <- (take_drop_z n rest), <- Hdata.
    apply uploads_one; [lia | intros _; by apply Hfull | done].
  - apply steps_inv in Hs' as [[-> [= -> ->]]|[]]. rewrite <- (Hend ltac:(by right)), <- (app_nil_r data) at 1.
    apply uploads_one; [lia | done | apply uploads_nothing; lia].
Qed.

(** ** What is completed *)

Definition not_complete (c : Call) : Prop := forall i, c <> CompleteMultipartUpload i.
Notation no_complete := (every not_complete (fun _ => True) (fun _ => True)).

Lemma upload_parts_calls fuel t id pe first received done rest :
  every (fun c => exists i, c = UploadPart i) (fun _ => False) (fun _ => True) (upload_parts fuel t id pe first received done rest).
Proof.
  revert first received done rest. induction fuel as [|fuel IH]; intros; [done|]. cbn [upload_parts].
  destruct (readAdminUploadPart rest pe received) as [data [[]|]]; try done;
    (case_match; [done|]; case_match; [done|]; split; [by eexists|]; intros [out|f]; [|done]; case_match; [done | apply IH || done]).
Qed.

Lemma parts_no_complete fuel t id pe first received done rest : no_complete (upload_parts fuel t id pe first received done rest).
Proof. eapply every_mono, upload_parts_calls; [by intros c [i ->] j | done | done]. Qed.

Lemma no_complete_in {R} (p : Prog R) tr q i a : no_complete p -> steps p tr q -> Called (CompleteMultipartUpload i) a ∈ tr -> False.
Proof. intros Hp Hs Hin. destruct (every_steps _ _ _ _ _ _ Hp Hs) as [_ H]. by apply (H _ Hin i). Qed.

(** The program after the parts. *)
Definition upload_rest (notifier : bool) (now : instant) (uploader : gostring) (t : Target) (id : gostring) (form_ended : bool)
    (uploaded : result string (list CompletedPart * Z)) : Prog (result string unit) :=
  pbind (finish_upload notifier now uploader t id form_ended uploaded) (fun '(outcome, completed) =>
    if completed : bool then Ret outcome else Up (AbortMultipartUpload (upload_of t id)) (fun _ => Ret outcome)).

Lemma upload_rest_complete notifier now uploader t id ended uploaded tr q i a :
  steps (upload_rest notifier now uploader t id ended uploaded) tr q -> Called (CompleteMultipartUpload i) a ∈ tr ->
  exists completed received a' tail, uploaded = Ok (completed, received) /\ completed <> [] /\ ended = true /\
    (0 <= tg_size t -> received = tg_size t) /\ i = complete_input t id completed /\ tr = Called (CompleteMultipartUpload i) a' :: tail.
Proof.
  intros Hs Hin. unfold upload_rest, finish_upload in Hs. destruct uploaded as [[completed received]|e].
  2: { exfalso. eapply no_complete_in, Hin; [|exact Hs]. done. }
  destruct ((0 <=? tg_size t) && negb (received =? tg_size t)) eqn:Hsize.
  { exfalso. eapply no_complete_in, Hin; [|exact Hs]. done. }
  destruct ended; cbn [negb] in Hs. 2: { exfalso. eapply no_complete_in, Hin; [|exact Hs]. done. }
  destruct completed as [|p completed].
  { exfalso. eapply no_complete_in, Hin; [|exact Hs]. split; [done|]. intros [out|f]; [|done]. unfold notify_upload. by destruct notifier. }
  cbn [pbind] in Hs. apply steps_inv in Hs as [[-> _]|(a' & tr' & -> & Hs)]; [by apply elem_of_nil in Hin|].
  apply elem_of_cons in Hin as [Heq|Hin].
  - injection Heq as -> _. exists (p :: completed), received, a', tr'. split_and!; try done. intros Hle. lia.
  - exfalso. eapply no_complete_in, Hin; [|exact Hs]. destruct a' as [out|f]; [|done]. unfold notify_upload. by destruct notifier.
Qed.

(** A trace that has stored a file: created, its pieces sent in order and
    completed with the entity tags received. *)
Definition stored_whole (t : Target) (octets : gostring) (tr : list Action) : Prop :=
  exists created chunks answer tail, let id := TrimSpace (ToString (cmo_UploadId created)) in
    tr = Called (CreateMultipartUpload (create_input t)) (Ok created) :: imap (part_call t id 1) chunks ++
         Called (CompleteMultipartUpload (complete_input t id (imap (completed_chunk 1) chunks))) answer :: tail /\
    id <> [] /\ concat (map fst chunks) = octets /\ cut_evenly chunks /\ 0 < zlen chunks <= 10000 /\ (0 <= tg_size t -> zlen octets = tg_size t).

Lemma upload_file_complete notifier now uploader t octets pe ended tr q i a :
  steps (upload_file notifier now uploader t octets pe ended) tr q -> Called (CompleteMultipartUpload i) a ∈ tr ->
  ended = true /\ stored_whole t octets tr.
Proof.
  intros Hs Hin. apply steps_inv in Hs as [[-> _]|(created & tr' & -> & Hs)]; [by apply elem_of_nil in Hin|].
  apply elem_of_cons in Hin as [Hin|Hin]; [discriminate Hin|].
  destruct created as [created|f]; [|apply steps_inv in Hs as [[-> _]|[]]; by apply elem_of_nil in Hin].
  cbv zeta in Hs. set (id := TrimSpace (ToString (cmo_UploadId created))) in Hs.
  destruct (decide (id = [])) as [|Hid]; [apply steps_inv in Hs as [[-> _]|[]]; by apply elem_of_nil in Hin|].
  apply steps_bind in Hs as [(p' & Hs & _)|(t1 & t2 & uploaded & -> & Hparts & Hs)].
  { exfalso. eapply no_complete_in, Hin; [apply parts_no_complete | exact Hs]. }
  apply elem_of_app in Hin as [Hin|Hin]; [exfalso; eapply no_complete_in, Hin; [apply parts_no_complete | exact Hparts]|].
  destruct (upload_rest_complete _ _ _ _ _ _ _ _ _ _ _ Hs Hin) as (completed & received & a' & tail & -> & Hne & -> & Hsize & -> & ->).
  apply upload_parts_steps in Hparts as (chunks & -> & Hcat & Hcut & -> & -> & Hmax); [|done].
  cbn [app] in *. split; [done|]. exists created, chunks, a', tail. split_and!; try done.
  - unfold zlen. destruct chunks; [done|]. cbn [length]. lia.
  - destruct (cut_evenly_count chunks Hcut) as [-> |Hc]; [done|]. rewrite Hcat in Hc.
    unfold maxAdminUploadObjectSize, adminUploadPartSize in *. lia.
Qed.

(** ** What is left behind *)

(** The identifier of a created upload. *)
Definition created_upload (x : Action) : option gostring :=
  match x with Called (CreateMultipartUpload _) (Ok created) => Some (TrimSpace (ToString (cmo_UploadId created))) | _ => None end.
Definition completed_ok (x : Action) : Prop :=
  match x with Called (CompleteMultipartUpload _) (Ok _) => True | _ => False end.
Definition creates_none (c : Call) : Prop := forall i, c <> CreateMultipartUpload i.

Lemma none_created {R} (p : Prog R) tr q x id :
  every creates_none (fun _ => True) (fun _ => True) p -> steps p tr q -> x ∈ tr -> created_upload x = Some id -> False.
Proof.
  intros Hp Hs Hin Hx. destruct (every_steps _ _ _ _ _ _ Hp Hs) as [_ H]. specialize (H x Hin).
  destruct x as [[] a| |]; try discriminate Hx. by eapply H.
Qed.

Lemma finish_creates_none notifier now uploader t id ended uploaded :
  every creates_none (fun _ => True) (fun _ => True) (upload_rest notifier now uploader t id ended uploaded).
Proof.
  unfold upload_rest, finish_upload. destruct uploaded as [[[|p completed] received]|e]; cbn [pbind]; repeat case_match; cbn [pbind every]; try done;
    (split; [done|]; intros [out|f]; unfold notify_upload; destruct notifier; done).
Qed.

(** Without an error the upload has been completed; otherwise its abort is the last call. *)
Lemma upload_rest_ends notifier now uploader t id ended uploaded tr outcome :
  steps (upload_rest notifier now uploader t id ended uploaded) tr (Ret outcome) ->
  (exists x, x ∈ tr /\ completed_ok x) \/ exists tr' a, tr = tr' ++ [Called (AbortMultipartUpload (upload_of t id)) a].
Proof.
  intros Hs. unfold upload_rest in Hs. apply steps_bind_ret in Hs as (t1 & t2 & [out completed] & -> & Hfin & Hs).
  destruct completed.
  - apply steps_inv in Hs as [[-> _]|[]]. left. unfold finish_upload in Hfin.
    destruct uploaded as [[[|p parts] received]|e]; [| |by apply steps_inv in Hfin as [[_ ?]|[]]];
      (case_match; [by apply steps_inv in Hfin as [[_ ?]|[]]|]; case_match; [by apply steps_inv in Hfin as [[_ ?]|[]]|]);
      apply steps_inv in Hfin as [[_ ?]|(a & tr' & -> & Hfin)]; try done.
    + exfalso. destruct a as [o|f]; [|by apply steps_inv in Hfin as [[_ ?]|[]]]. unfold notify_upload in Hfin.
      destruct notifier; apply steps_inv in Hfin as [[_ ?]|Hfin]; try done. destruct Hfin as (tr2 & -> & Hfin).
      by apply steps_inv in Hfin as [[_ ?]|[]].
    + destruct a as [o|f]; [|by apply steps_inv in Hfin as [[_ ?]|[]]]. exists (Called (CompleteMultipartUpload (complete_input t id (p :: parts))) (Ok o)).
      split; [apply elem_of_cons; by left | done].
  - right. apply steps_inv in Hs as [[_ ?]|(a & tr' & -> & Hs)]; [done|]. apply steps_inv in Hs as [[-> _]|[]]. by exists t1, a.
Qed.

(** No program runs out of fuel. *)
Fixpoint halts {R} (p : Prog R) : Prop :=
  match p with
  | Ret _ => True
  | Up c k => forall a, halts (k a)
  | Poll k => forall b, halts (k b)
  | Notify _ k => halts k
  | Spin => False
  end.

Lemma halts_bind {Q R} (p : Prog Q) (f : Q -> Prog R) : halts p -> (forall x, halts (f x)) -> halts (pbind p f).
Proof. intros Hp Hf. induction p; cbn in *; eauto. Qed.

Lemma halts_steps {R} (p : Prog R) tr q : halts p -> steps p tr q -> q <> Spin.
Proof.
  intros Hp Hs. induction Hs as [p|p x p' tr q Hstep Hs IH]; [by intros ->|].
  apply IH. destruct Hstep; cbn in Hp; auto.
Qed.

Lemma upload_parts_halts fuel t id pe first received done rest :
  0 <= received <= maxAdminUploadObjectSize -> (length rest < fuel)%nat -> halts (upload_parts fuel t id pe first received done rest).
Proof.
  revert first received done rest. induction fuel as [|fuel IH]; intros first received done rest Hr Hf; [lia|]. cbn [upload_parts].
  destruct (readAdminUploadPart rest pe received) as [data err] eqn:Hread.
  apply readAdminUploadPart_spec in Hread as (n & Hn & Hdata & Hfit & Hfull & Hmax & Hend & _); [|done].
  destruct err as [[]|]; try done; (case_match; [done|]; case_match; [done|]; intros [out|f]; [|done]; case_match; [done|]; [idtac]); [done|].
  specialize (Hfull eq_refl). specialize (Hfit ltac:(done)). pose proof (zlen_nonneg data). apply IH; [lia|].
  assert (Hlen : zlen rest = zlen data + zlen (drop_z n rest)) by (rewrite Hdata, <- zlen_app; by rewrite take_drop_z).
  rewrite Hdata, drop_taken by done. unfold zlen, adminUploadPartSize in *. lia.
Qed.

Lemma finish_halts notifier now uploader t id ended uploaded : halts (upload_rest notifier now uploader t id ended uploaded).
Proof.
  apply halts_bind; [|by intros [outcome []]]. unfold finish_upload.
  destruct uploaded as [[[|p completed] received]|e]; repeat case_match; try done;
    (intros [out|f]; unfold notify_upload; destruct notifier; done).
Qed.

Lemma upload_file_halts notifier now uploader t octets pe ended : halts (upload_file notifier now uploader t octets pe ended).
Proof.
  intros [created|f]; [|done]. cbv zeta. case_match; [done|]. apply halts_bind; [|intros x; apply finish_halts].
  apply upload_parts_halts; [unfold maxAdminUploadObjectSize, adminUploadPartSize; lia | lia].
Qed.

Lemma upload_file_ends notifier now uploader t octets pe ended tr outcome x id :
  steps (upload_file notifier now uploader t octets pe ended) tr (Ret outcome) -> x ∈ tr -> created_upload x = Some id -> id <> [] ->
  (exists y, y ∈ tr /\ completed_ok y) \/ exists tr' a, tr = tr' ++ [Called (AbortMultipartUpload (upload_of t id)) a].
Proof.
  intros Hs Hin Hx Hne. apply steps_inv in Hs as [[_ ?]|(created & tr' & -> & Hs)]; [done|].
  destruct created as [created|f].
  2: { apply steps_inv in Hs as [[-> _]|[]]. apply list_elem_of_singleton in Hin as ->. discriminate Hx. }
  cbv zeta in Hs. set (id' := TrimSpace (ToString (cmo_UploadId created))) in Hs.
  destruct (decide (id' = [])) as [Hid|Hid].
  { apply steps_inv in Hs as [[-> _]|[]]. apply list_elem_of_singleton in Hin as ->. injection Hx as <-. by destruct Hne. }
  apply steps_bind_ret in Hs as (t1 & t2 & uploaded & -> & Hparts & Hs).
  assert (id = id') as ->.
  { apply elem_of_cons in Hin as [->|Hin]; [by injection Hx|]. exfalso. apply elem_of_app in Hin as [Hin|Hin].
    - eapply none_created, Hx; [|exact Hparts | exact Hin]. eapply every_mono, upload_parts_calls; [by intros c [i ->] j | done | done].
    - eapply none_created, Hx; [apply finish_creates_none | exact Hs | exact Hin]. }
  destruct (upload_rest_ends _ _ _ _ _ _ _ _ _ Hs) as [(y & Hy & Hok)|(t3 & a & ->)]; [left | right].
  - exists y. split; [|done]. apply elem_of_cons. right. apply elem_of_app. by right.
  - exists (Called (CreateMultipartUpload (create_input t)) (Ok created) :: t1 ++ t3), a. cbn [app]. by rewrite <- app_assoc.
Qed.
End Parts.

(** ** The form *)

Section FormTheorems.
Context {U : UnicodeCase} {MI : MapIter}.
Variables (rules : list Rule) (username : gostring) (requiredKeys : list gostring) (notifier : bool) (now : instant).

(** An authorized form names a bucket that may be written. *)
Definition form_ok (f : UploadForm) : Prop := uf_authorized f = true -> CanWrite rules (uf_bucket f) = true.

Lemma text_field_ok f name part f' : text_field rules f name part = Ok f' -> form_ok f -> form_ok f'.
Proof.
  unfold text_field, form_ok. destruct (read_field _ _) as [octets|]; [|done]. destruct f as [bucket key cursor history size auth pc mc mb meta].
  cbv zeta. repeat case_match; intros Heq; try discriminate Heq; injection Heq as <-; cbn; try done.
Qed.

Lemma meta_field_ok f rawKey part f' : meta_field f rawKey part = Some f' -> form_ok f -> form_ok f'.
Proof. unfold meta_field, form_ok. repeat case_match; intros Heq; try discriminate Heq; injection Heq as <-; done. Qed.

Lemma file_target_ok f part t :
  file_target username requiredKeys f part = Ok t -> form_ok f ->
  CanWrite rules (tg_bucket t) = true /\ tg_metadata t !! str "uploaded-by" = Some (TrimSpace username) /\
  forall k, k ∈ requiredKeys -> TrimSpace (default [] (tg_metadata t !! k)) <> [].
Proof.
  unfold file_target, form_ok. cbv zeta. destruct (decide (uf_bucket f = [])); [done|].
  destruct (uf_authorized f); [|done]. cbn [negb]. destruct (decide ((if decide (uf_key f = []) then _ else _) = [])); [done|].
  destruct (_ <? _); [done|]. destruct (missingRequiredMetadata _ _) eqn:Hmiss; [|done]. intros [= <-] Hok.
  cbn [tg_bucket tg_metadata]. split; [by apply Hok|]. split; [by rewrite lookup_insert_eq|].
  intros k Hk Hblank. assert (k ∈ missingRequiredMetadata (<[str "uploaded-by":=TrimSpace username]> (uf_meta f)) requiredKeys).
  { apply list_elem_of_filter. done. } rewrite Hmiss in H. by apply elem_of_nil in H.
Qed.

(** All calls of the form are those of its file. *)
Lemma upload_form_file f parts closed tr q x :
  form_ok f -> steps (upload_form rules username requiredKeys notifier now f parts closed) tr q -> x ∈ tr ->
  exists pre file rest f' t q', parts = pre ++ file :: rest /\ form_ok f' /\ file_target username requiredKeys f' file = Ok t /\
    steps (upload_file notifier now (TrimSpace username) t (fp_octets file) (fp_end file) (ends_with file rest closed)) tr q' /\
    forall r, q = Ret r -> exists outcome, q' = Ret outcome.
Proof.
  intros Hok Hs Hin. assert (Hret : forall r : UploadReply, steps (Ret r) tr q -> False).
  { intros r Hr. apply steps_inv in Hr as [[-> _]|[]]. by apply elem_of_nil in Hin. }
  revert f Hok Hs. induction parts as [|part parts IH]; intros f Hok Hs; cbn [upload_form] in Hs.
  { exfalso. repeat case_match; by eapply Hret. }
  assert (Hok' : form_ok (count_part f)) by exact Hok. set (f1 := count_part f) in *. clearbody f1. cbv zeta in Hs.
  assert (Hnext : forall f2, form_ok f2 -> steps (upload_form rules username requiredKeys notifier now f2 parts closed) tr q ->
    exists pre file rest f' t q', part :: parts = pre ++ file :: rest /\ form_ok f' /\ file_target username requiredKeys f' file = Ok t /\
    steps (upload_file notifier now (TrimSpace username) t (fp_octets file) (fp_end file) (ends_with file rest closed)) tr q' /\
    forall r, q = Ret r -> exists outcome, q' = Ret outcome).
  { intros f2 Hok2 Hs2. destruct (IH f2 Hok2 Hs2) as (pre & file & rest & f' & t & q' & -> & ? & ? & ? & ?).
    by exists (part :: pre), file, rest, f', t, q'. }
  destruct (_ || _); [exfalso; by eapply Hret|]. destruct (HasPrefix _ _).
  { destruct (meta_field _ _ _) as [f2|] eqn:Hf; [|exfalso; by eapply Hret]. apply (Hnext f2); [by eapply meta_field_ok | done]. }
  destruct (decide (TrimSpace (fp_FormName part) = str "file")).
  - destruct (file_target _ _ _ _) as [t|msg] eqn:Ht; [|exfalso; by eapply Hret].
    apply steps_bind in Hs as [(p' & Hs & ->)|(t1 & t2 & outcome & -> & Hs & Hr)].
    + exists [], part, parts, f1, t, p'. split_and!; try done. intros r Hr. destruct p'; try discriminate Hr. by eexists.
    + apply steps_inv in Hr as [[-> _]|[]]. rewrite app_nil_r. exists [], part, parts, f1, t, (Ret outcome). split_and!; try done. by eexists.
  - destruct (text_field _ _ _ _) as [f2|reply] eqn:Hf; [|exfalso; by eapply Hret]. apply (Hnext f2); [by eapply text_field_ok | done].
Qed.

Lemma upload_form_halts f parts closed : halts (upload_form rules username requiredKeys notifier now f parts closed).
Proof.
  revert f. induction parts as [|part parts IH]; intros f; cbn [upload_form]; [by repeat case_match|]. cbv zeta.
  destruct (_ || _); [done|]. destruct (HasPrefix _ _); [by destruct (meta_field _ _ _)|].
  destruct (decide _); [|by destruct (text_field _ _ _ _)]. destruct (file_target _ _ _ _); [|done].
  apply halts_bind; [apply upload_file_halts | done].
Qed.

(** C5. A browser upload is completed only as a whole: the form has arrived to
    its closing boundary with the file last, its bucket is one the session may
    write, the object is stamped with the session's user and bears all required
    metadata, and the pieces sent are the file's octets in order, all but the
    last of full size and no more than ten thousand, and of the declared size. *)
Theorem admin_upload_whole parts closed tr q i answer :
  steps (upload_form rules username requiredKeys notifier now empty_form parts closed) tr q ->
  Called (CompleteMultipartUpload i) answer ∈ tr ->
  exists pre file t, parts = pre ++ [file] /\ closed = true /\ fp_end file = AtBoundary /\
    stored_whole t (fp_octets file) tr /\
    CanWrite rules (tg_bucket t) = true /\ tg_metadata t !! str "uploaded-by" = Some (TrimSpace username) /\
    (forall k, k ∈ requiredKeys -> TrimSpace (default [] (tg_metadata t !! k)) <> []).
Proof.
  intros Hs Hin. destruct (upload_form_file empty_form _ _ _ _ _ ltac:(discriminate) Hs Hin)
    as (pre & file & rest & f & t & q' & -> & Hf & Ht & Hfile & _).
  destruct (upload_file_complete _ _ _ _ _ _ _ _ _ _ _ Hfile Hin) as [Hend Hwhole].
  unfold ends_with in Hend. destruct (fp_end file) eqn:Hfe, rest; try discriminate Hend.
  exists pre, file, t. split_and!; try done; by eapply file_target_ok.
Qed.

(** C6. A browser upload ends, and leaves no upload behind: when the handler has
    answered, an upload it created has been completed, or aborting it was the
    handler's last call. *)
Theorem admin_upload_ends parts closed tr q :
  steps (upload_form rules username requiredKeys notifier now empty_form parts closed) tr q ->
  q <> Spin /\ forall reply x id, q = Ret reply -> x ∈ tr -> created_upload x = Some id -> id <> [] ->
    (exists y, y ∈ tr /\ completed_ok y) \/
    exists t tr' a, tr = tr' ++ [Called (AbortMultipartUpload (upload_of t id)) a].
Proof.
  intros Hs. split; [eapply halts_steps, Hs; apply upload_form_halts|]. intros reply x id -> Hin Hx Hne.
  destruct (upload_form_file empty_form _ _ _ _ _ ltac:(discriminate) Hs Hin) as (pre & file & rest & f & t & q' & _ & _ & _ & Hfile & Hend).
  destruct (Hend reply eq_refl) as [outcome ->].
  destruct (upload_file_ends _ _ _ _ _ _ _ _ _ _ _ Hfile Hin Hx Hne) as [H|(tr' & a & ->)]; [by left | right].
  by exists t, tr', a.
Qed.
End FormTheorems.

(** ** Witnesses *)

Section Witnesses.
#[local] Existing Instance latin1_case.
#[local] Existing Instance canonical_iter.

(** A form that uploads a small file, and an upstream that takes it. *)
Definition sample_part (name : string) (octets : gostring) : FormPart := {|
  fp_transferEncoding := false; fp_FormName := str name; fp_FileName := str "report.txt"; fp_ContentType := str "text/plain";
  fp_octets := octets; fp_end := AtBoundary |}.
Definition sample_file : FormPart := sample_part "file" (str "hello").
Definition sample_parts : list FormPart :=
  [sample_part "name" (str " team1-a"); sample_part "meta-Owner" (str "ops"); sample_part "size" (str "5"); sample_file].
Definition no_output : WriteOutput := {|
  wo_ETag := Some (str "e"); wo_VersionId := None; wo_CopySourceVersionId := None; wo_ServerSideEncryption := []; wo_SSEKMSKeyId := None;
  wo_SSEKMSEncryptionContext := None; wo_SSECustomerAlgorithm := None; wo_SSECustomerKeyMD5 := None; wo_BucketKeyEnabled := None;
  wo_Expiration := None; wo_RequestCharged := []; wo_checksum _ := None; wo_ChecksumType := []; wo_result := None |}.
Definition created_output : CreateMultipartUploadOutput :=
  {| cmo_UploadId := Some (str "u1"); cmo_ChecksumAlgorithm := []; cmo_ChecksumType := [] |}.
Definition taking (completes : bool) (c : Call) : Answer c :=
  match c with
  | CreateMultipartUpload _ => Ok created_output
  | UploadPart _ => Ok no_output
  | CompleteMultipartUpload _ => if completes then Ok no_output else Err no_page
  | _ => Err no_page
  end.
Definition sample_rules : list Rule := RulesFromGroups {[str "team1-rw"]}.
Definition sample_run (completes : bool) : list Action * Prog UploadReply :=
  run (taking completes) false (upload_form sample_rules (str "alice") [str "owner"] true 7 empty_form sample_parts true).

Definition completes_at (x : Action) : option CompleteMultipartUploadInput :=
  match x with Called (CompleteMultipartUpload i) _ => Some i | _ => None end.

Lemma completes_called x i : completes_at x = Some i -> exists answer, x = Called (CompleteMultipartUpload i) answer.
Proof. destruct x as [[] a| |]; try discriminate. intros [= ->]. by exists a. Qed.

Lemma admin_upload_whole_witness :
  length (sample_run true).1 = 4%nat /\
  exists pre file t, sample_parts = pre ++ [file] /\ fp_end file = AtBoundary /\ stored_whole t (fp_octets file) (sample_run true).1 /\
    CanWrite sample_rules (tg_bucket t) = true /\ tg_metadata t !! str "uploaded-by" = Some (TrimSpace (str "alice")).
Proof.
  split; [vm_compute; reflexivity|]. pose proof (run_steps (taking true) false
    (upload_form sample_rules (str "alice") [str "owner"] true 7 empty_form sample_parts true)) as Hs. fold (sample_run true) in Hs.
  assert (H : existsb (fun x => bool_decide (is_Some (completes_at x))) (sample_run true).1 = true) by (vm_compute; reflexivity).
  apply existsb_exists in H as (x & Hx%list_elem_of_In & [i Hi]%bool_decide_eq_true). destruct (completes_called x i Hi) as [answer ->].
  destruct (admin_upload_whole sample_rules (str "alice") [str "owner"] true 7 sample_parts true _ _ i answer Hs Hx)
    as (pre & file & t & H1 & _ & H2 & H3 & H4 & H5 & _). exists pre, file, t. split; [exact H1|]. split; [exact H2|]. split; [exact H3|].
  split; [exact H4 | exact H5].
Defined.

(** An upstream that fails at the end: the upload is aborted. *)
Lemma admin_upload_ends_witness :
  existsb (fun x => bool_decide (created_upload x = Some (str "u1"))) (sample_run false).1 = true /\
  ((exists y, y ∈ (sample_run false).1 /\ completed_ok y) \/
   exists t tr' a, (sample_run false).1 = tr' ++ [Called (AbortMultipartUpload (upload_of t (str "u1"))) a]).
Proof.
  assert (H : existsb (fun x => bool_decide (created_upload x = Some (str "u1"))) (sample_run false).1 = true) by (vm_compute; reflexivity).
  split; [exact H|]. apply existsb_exists in H as (x & Hx%list_elem_of_In & Hc%bool_decide_eq_true).
  assert (E : match (sample_run false).2 with Ret _ => true | _ => false end = true) by (vm_compute; reflexivity).
  pose proof (run_steps (taking false) false
    (upload_form sample_rules (str "alice") [str "owner"] true 7 empty_form sample_parts true)) as Hs. fold (sample_run false) in Hs.
  destruct (sample_run false).2 as [reply| | | |]; try discriminate E.
  exact (proj2 (admin_upload_ends sample_rules (str "alice") [str "owner"] true 7 sample_parts true _ _ Hs) reply x (str "u1") eq_refl Hx Hc
    ltac:(discriminate)).
Defined.
End Witnesses.
