(* ===== verification/AdminPage.v ===== *)
(** * The administration handlers (src/internal/adminpage)

    A handler is a program that loads and saves the session of its request, asks
    the directory about a login, and then answers, calling the upstream on the
    way.  Requests are served concurrently over one store of sessions: the
    system steps any of them.  The theorem: whatever the interleaving, the
    upstream is only called as the groups of a login allow, and only by forms
    from the gateway's own pages where something is changed. *)

From S2P Require Import Prelude GoStrings Http Stream Authz Routing S3Xml S3Http XmlDecode XmlBody Upstream HandlerBase HandlersBucket HandlersObject Monitor AdminSession AdminWeb AdminViews AdminUpload.
From S2P Require AuthLookup Gateway KafkaTopics Limiter Credentials.

#[local] Open Scope Z_scope.

(** ** Forms (net/http) *)

Definition adminPreviewMaxKeys : Z := 25.
Definition maxAdminFormBodySize : Z := 65536.

(** [mime.ParseMediaType]: the type, and whether it returns an error. *)
Class MediaTypes := { ParseMediaType : gostring -> gostring * bool }.

(** [url.ParseQuery] returns no error. *)
Definition setting_ok (kv : gostring) : bool :=
  bool_decide (";"%byte ∉ kv) &&
  (let '(k, v) := default (kv, []) (Cut kv "="%byte) in
   bool_decide (is_Some (QueryUnescape k)) && bool_decide (is_Some (QueryUnescape v))).
Definition query_ok (raw : gostring) : bool := forallb setting_ok (Split raw "&"%byte).

Record FormValues := { fv_post : Values; fv_query : Values }.
Definition FormValue (f : FormValues) (k : gostring) : gostring :=
  match fv_post f !! k with Some (v :: _) => v | _ => qget (fv_query f) k end.

Section Forms.
Context {M : MediaTypes}.

(** [ParseForm] of a POST request behind a limit on its body; [clean] is whether
    the body can be read to its end.  [None] is its error. *)
Definition ParseForm (clean : bool) (r : Request) : option FormValues :=
  let contentType := hget (Hdr r) (str "Content-Type") in
  let '(ct, failed) := ParseMediaType (if decide (contentType = []) then str "application/octet-stream" else contentType) in
  let post : option Values :=
    if decide (ct = str "application/x-www-form-urlencoded") then
      match read_body clean (Body r) with
      | Some octets =>
        if (maxAdminFormBodySize <? zlen octets) || negb (query_ok octets) then None else Some (ParseQuery octets)
      | None => None
      end
    else Some ∅ in
  match post with
  | Some post => if failed || negb (query_ok (RawQuery r)) then None else Some {| fv_post := post; fv_query := Query r |}
  | None => None
  end.
End Forms.

(** ** Answers *)

Record adminLoginPageData := { lp_Username : gostring; lp_Error : string }.
Record adminPageData := {
  dp_Username : gostring; dp_Notice : gostring; dp_Error : gostring; dp_GeneratedAt : gostring;
  dp_CanCreateBuckets : bool; dp_CreateSpaces : list gostring; dp_CreateSpace : gostring; dp_CreateSuffix : gostring;
  dp_CreateBucketLabel : gostring; dp_Groups : list adminGroupAccessView; dp_IgnoredGroups : list gostring;
  dp_GroupCount : Z; dp_TotalBuckets : Z
}.
Record adminBucketObjectView := {
  ov_Key : gostring; ov_SizeBytes : Z; ov_LastModUTC : gostring; ov_ExpiresUTC : gostring;
  ov_Metadata : list (gostring * gostring); ov_MetadataErr : string
}.
Record adminBucketPageData := {
  bp_Username : gostring; bp_BucketName : gostring; bp_Notice : gostring; bp_Error : gostring; bp_GeneratedAt : gostring;
  bp_Objects : list adminBucketObjectView; bp_CurrentCursor : gostring; bp_CurrentHistory : gostring;
  bp_CanUploadObjects : bool; bp_CanDeleteObjects : bool; bp_RequiredMetadataKeys : list gostring;
  bp_PrevURL : option gostring; bp_NextURL : option gostring        (* HasPrev and HasNext *)
}.
Record adminKafkaTopicsPageData := {
  tv_Username : gostring; tv_Error : string; tv_GeneratedAt : gostring; tv_Topics : list KafkaTopics.Topic;
  tv_TotalTopics : Z; tv_KnownElements : Z; tv_UnavailableTopics : Z
}.

Inductive PageData :=
| LoginData (d : adminLoginPageData)
| DashboardData (d : adminPageData)
| BucketData (d : adminBucketPageData)
| TopicsData (d : adminKafkaTopicsPageData).

(** What is written to the browser.  A page is the data of its template, with no
    body for HEAD; a download is its headers and what [io.Copy] delivers: the
    octets, and whether the connection is then aborted. *)
Inductive AdminReply :=
| Redirect (url : gostring) (closes : bool)
| HttpError (allow : option string) (status : Z)
| NotFound
| Page (status : Z) (headers : Header) (content : option PageData)
| Download (headers : Header) (content : option (gostring * bool)).

(** ** Handlers as programs *)

Inductive AdminProg :=
| Done (p : Prog AdminReply)                                             (* only the upstream is left *)
| Load (k : WebSession * bool -> AdminProg)                              (* webSessions.Get *)
| Store (w : WebSession) (k : option SetCookie -> AdminProg)             (* webSession.Save *)
| Authenticate (upn pass : gostring) (k : AuthLookup.groups_result -> AdminProg).
Definition answer (a : AdminReply) : AdminProg := Done (Ret a).

Record AdminConfig := {
  ac_Options : Options; ac_origin : AdminOrigin; ac_upstream : bool (* h.s3 is set *);
  ac_requiredUploadMetadataKeys : list gostring; ac_uploadNotifier : bool;
  ac_kafkaTopicLister : bool; ac_kafkaGlobalTopic : gostring; ac_pages : nat (* fuel for listing all buckets *)
}.

Section Handlers.
Context {U : UnicodeCase} {MI : MapIter} {G : GoText} {J : HistoryCodec} {M : MediaTypes} {P : URLParser}.
Variables (cfg : AdminConfig) (now : instant) (r : Request).
Variable clean : bool.                          (* the body can be read to its end *)
Variable upload : option Form.                  (* the body as MultipartReader delivers it; [None] is its error *)
Variable topics : KafkaTopics.Answers.          (* what the Kafka admin client answers *)

Definition with_page_headers : Header := hset no_headers (str "Content-Type") (str "text/html; charset=utf-8").
Definition write_page (status : Z) (data : PageData) : AdminReply :=
  Page status with_page_headers (if decide (Method r = HEAD) then None else Some data).
Definition writeAdminLoginPage (status : Z) (username : gostring) (error : string) : AdminReply :=
  write_page status (LoginData {| lp_Username := username; lp_Error := error |}).

Definition redirect (url : gostring) : AdminReply := Redirect url false.
Definition method_not_allowed (allow : string) : AdminProg := answer (HttpError (Some allow) 405).
Definition is_get_or_head : bool := bool_decide (Method r = GET) || bool_decide (Method r = HEAD).

(** [clearAdminSession]. *)
Definition clear (w : WebSession) (k : AdminProg) : AdminProg :=
  Store {| ws_ID := ws_ID w; ws_username := None; ws_groups := NoGroups; ws_IsNew := ws_IsNew w;
           ws_Options := {| opt_MaxAge := -1; opt_Secure := opt_Secure (ws_Options w) |} |} (fun _ => k).
(** The session, or the way to the login page. *)
Definition with_session (k : gostring -> gset gostring -> AdminProg) : AdminProg :=
  Load (fun loaded =>
    match currentAdminSession loaded with
    | Some (username, groups) => k username groups
    | None => clear loaded.1 (answer (redirect (str "/login")))
    end).

Definition handleAdminRoot : AdminProg :=
  if is_get_or_head then answer (redirect (str "/login")) else method_not_allowed "GET, HEAD".

(** *** Login and logout *)

Definition login_session (upn : gostring) (groups : gset gostring) (loaded : WebSession * bool) : WebSession :=
  let '(w, failed) := loaded in
  {| ws_ID := if failed : bool then [] else ws_ID w; ws_username := Some upn; ws_groups := GroupStrings (sessionGroupsSlice groups);
     ws_IsNew := ws_IsNew w;
     ws_Options := {| opt_MaxAge := defaultAdminSessionTTL `quot` one_second; opt_Secure := opt_Secure (ws_Options w) |} |}.

Definition handleAdminLogin : AdminProg :=
  if negb (is_get_or_head || bool_decide (Method r = POST)) then method_not_allowed "GET, HEAD, POST"
  else if bool_decide (Method r = POST) && negb (hasTrustedAdminOrigin (ac_origin cfg) r) then
    answer (writeAdminLoginPage 403 [] "Invalid form origin.")
  else
    Load (fun loaded =>
      match currentAdminSession loaded with
      | Some _ => answer (redirect (str "/admin"))
      | None =>
        if is_get_or_head then answer (writeAdminLoginPage 200 [] "")
        else
          match ParseForm clean r with
          | None => answer (writeAdminLoginPage 400 [] "Invalid form payload.")
          | Some form =>
            let upn := TrimSpace (FormValue form (str "username")) in
            let pass := FormValue form (str "password") in
            if decide (upn = [] \/ pass = []) then
              answer (writeAdminLoginPage 400 upn "LDAP username and password are required.")
            else
              Authenticate upn pass (fun groups =>
                match groups with
                | Err AuthLookup.ErrLimited =>
                  answer (Page 429 (hset with_page_headers (str "Retry-After") (str "1"))
                    (Some (LoginData {| lp_Username := upn; lp_Error := "Too many login attempts. Try again shortly." |})))
                | Err _ => answer (writeAdminLoginPage 401 upn "LDAP login failed. Check your username and password.")
                | Ok groups =>
                  Store (login_session upn groups loaded) (fun cookie =>
                    answer match cookie with
                           | Some _ => redirect (str "/admin")
                           | None => writeAdminLoginPage 500 upn "Could not create admin session."
                           end)
                end)
          end
      end).

Definition handleAdminLogout : AdminProg :=
  if negb (bool_decide (Method r = POST)) then method_not_allowed "POST"
  else if negb (hasTrustedAdminOrigin (ac_origin cfg) r) then answer (HttpError None 403)
  else Load (fun loaded => clear loaded.1 (answer (redirect (str "/login")))).

(** *** The dashboard *)

Definition listAllBuckets : Prog (option (list gostring)) :=
  if ac_upstream cfg then
    pbind (ListAllBuckets (ac_pages cfg)) (fun out =>
      Ret match out with Ok page => Some (bucket_names (lbo_Buckets page)) | Err _ => None end)
  else Ret None.

(** The space the form proposes. *)
Definition proposed_space (spaces : list gostring) (requested : gostring) : gostring :=
  match spaces with
  | [] => requested
  | first :: _ => if bool_decide (requested <> []) && adminHasCreateSpace spaces requested then requested else first
  end.

Definition dashboard_data (username : gostring) (groups : gset gostring) (buckets : option (list gostring)) : adminPageData :=
  let q name := qget (Query r) (str name) in
  let spaces := adminCreateBucketSpaces groups in
  let space := proposed_space spaces (form_space (q "space"%string)) in
  let suffix := ToLower (TrimSpace (q "suffix"%string)) in
  let '(rows, ignored) := buildAdminGroupAccess groups (default [] buckets)
    (from_option (bucketPreviewsForGroups groups) ∅ buckets) in
  {| dp_Username := username; dp_Notice := TrimSpace (q "msg"%string);
     dp_Error := if buckets then TrimSpace (q "err"%string) else str "Could not list S3 buckets.";
     dp_GeneratedAt := FormatRFC3339 now; dp_CanCreateBuckets := (0 <? zlen spaces); dp_CreateSpaces := spaces;
     dp_CreateSpace := space; dp_CreateSuffix := suffix;
     dp_CreateBucketLabel := match adminBuildBucketName space suffix with Ok name => name | Err _ => [] end;
     dp_Groups := rows; dp_IgnoredGroups := ignored; dp_GroupCount := zlen rows;
     dp_TotalBuckets := if buckets then countUniqueBuckets rows else 0 |}.

Definition handleAdminDashboard : AdminProg :=
  if negb is_get_or_head then method_not_allowed "GET, HEAD"
  else
    with_session (fun username groups =>
      Done (pbind listAllBuckets (fun buckets =>
        Ret (write_page (if buckets then 200 else 502) (DashboardData (dashboard_data username groups buckets)))))).

(** *** Forms that change something *)

(** The checks that the three forms share after the method, up to the origin. *)
Definition admin_form (no_backend : gostring) (k : gostring -> gset gostring -> Prog AdminReply) : AdminProg :=
  if negb (bool_decide (Method r = POST)) then method_not_allowed "POST"
  else
    with_session (fun username groups =>
      Done (if negb (ac_upstream cfg) then Ret (redirect no_backend)
            else if negb (hasTrustedAdminOrigin (ac_origin cfg) r) then
              Ret (redirect (adminDashboardURL [] (str "Invalid form origin.") [] []))
            else k username groups)).

Definition plain_bucket (bucket : gostring) : CreateBucketInput :=
  {| cbi_Bucket := bucket; cbi_ObjectLockEnabledForBucket := None; cbi_ObjectOwnership := []; cbi_LocationConstraint := None |}.

Definition handleAdminCreateBucket : AdminProg :=
  admin_form (adminDashboardURL [] (str "Admin backend is not configured.") [] []) (fun _ groups =>
    match ParseForm clean r with
    | None => Ret (redirect (adminDashboardURL [] (str "Invalid form payload.") [] []))
    | Some form =>
      let spaces := adminCreateBucketSpaces groups in
      let required := str "Create-bucket permission is required." in
      if decide (spaces = []) then Ret (redirect (adminDashboardURL [] required [] []))
      else
        let space := form_space (FormValue form (str "space")) in
        let suffix := ToLower (TrimSpace (FormValue form (str "suffix"))) in
        if negb (adminHasCreateSpace spaces space) then
          Ret (redirect (adminDashboardURL [] (str "Invalid bucket space selection.") space suffix))
        else
          match adminBuildBucketName space suffix with
          | Err e => Ret (redirect (adminDashboardURL [] e space suffix))
          | Ok bucketName =>
            if negb (CanCreateBucket (RulesFromGroups groups) bucketName) then Ret (redirect (adminDashboardURL [] required space suffix))
            else
              Up (CreateBucket (plain_bucket bucketName)) (fun out =>
                Ret (redirect match out with
                              | Err _ => adminDashboardURL [] (str "Could not create bucket.") space suffix
                              | Ok _ => adminDashboardURL (str "Created bucket: " ++ bucketName) [] space []
                              end))
          end
    end).

Definition handleAdminBucketDelete : AdminProg :=
  admin_form (str "/admin") (fun _ groups =>
    match ParseForm clean r with
    | None => Ret (redirect (str "/admin"))
    | Some form =>
      let bucket := TrimSpace (FormValue form (str "name")) in
      let key := FormValue form (str "key") in
      let back notice pageErr :=
        redirect (adminBucketPageURLWithStatus bucket (TrimSpace (FormValue form (str "cursor")))
                    (TrimSpace (FormValue form (str "history"))) notice pageErr) in
      if decide (bucket = []) then Ret (redirect (str "/admin"))
      else if decide (key = []) then Ret (back [] (str "Object key is required."))
      else if negb (CanDeleteObject (RulesFromGroups groups) bucket) then
        Ret (back [] (str "Delete permission is required for this bucket."))
      else
        Up (DeleteObject {| dl_object := admin_object bucket key; dl_MFA := None; dl_IfMatch := None |}) (fun out =>
          Ret match out with
              | Err _ => back [] (str "Could not delete object.")
              | Ok _ => back (str "Deleted object: " ++ key) []
              end)
    end).

Definition handleAdminBucketUpload : AdminProg :=
  admin_form (str "/admin") (fun username groups =>
    let reply (u : UploadReply) := Redirect (ur_URL u) (ur_closes u) in
    match upload with
    | None => Ret (reply (payload_error empty_form (str could_not_process)))
    | Some form =>
      pbind (upload_form (RulesFromGroups groups) username (ac_requiredUploadMetadataKeys cfg) (ac_uploadNotifier cfg) now empty_form
               (fm_parts form) (fm_closed form)) (fun u => Ret (reply u))
    end).

(** *** The pages of a bucket *)

Definition headObjectMetadata (bucket key : gostring) (k : list (gostring * gostring) * gostring * string -> Prog (list adminBucketObjectView))
    : Prog (list adminBucketObjectView) :=
  Up (HeadObject (plain_read (admin_object bucket key))) (fun answer =>
    k match answer with
      | Err _ => ([], [], "Could not load metadata."%string)
      | Ok out => (metadataPairsFromMap (oo_Metadata out), formatObjectExpiresUTC (oo_ExpiresString out), ""%string)
      end).

Fixpoint object_views (bucket : gostring) (contents : list ObjectEntry) : Prog (list adminBucketObjectView) :=
  match contents with
  | [] => Ret []
  | obj :: contents =>
    let key := ToString (oe_Key obj) in
    if decide (key = []) then object_views bucket contents
    else
      headObjectMetadata bucket key (fun '(metadata, expires, err) =>
        pbind (object_views bucket contents) (fun views =>
          Ret ({| ov_Key := key; ov_SizeBytes := default 0 (oe_Size obj); ov_LastModUTC := formatObjectLastModifiedUTC (oe_LastModified obj);
                  ov_ExpiresUTC := expires; ov_Metadata := metadata; ov_MetadataErr := err |} :: views)))
  end.

Definition admin_list_input (bucket : gostring) (maxKeys : Z) : ListInput := {|
  li_Bucket := bucket; li_Prefix := None; li_Delimiter := None; li_Max := Some (if maxKeys <=? 0 then adminPreviewMaxKeys else maxKeys);
  li_EncodingType := []; li_OptionalObjectAttributes := []; li_ExpectedBucketOwner := None; li_RequestPayer := [] |}.

(** The objects, the next cursor and whether there is more; [None] is its error. *)
Definition listBucketObjects (bucket continuationToken : gostring) (maxKeys : Z)
    : Prog (option (list adminBucketObjectView * gostring * bool)) :=
  if negb (ac_upstream cfg) || bool_decide (TrimSpace bucket = []) then Ret None
  else
    Up (ListObjectsV2 (admin_list_input bucket maxKeys) (enum (TrimSpace continuationToken)) None None) (fun answer =>
      match answer with
      | Err _ => Ret None
      | Ok out =>
        pbind (object_views bucket (lo_Contents out)) (fun views =>
          Ret (Some (views, TrimSpace (ToString (lo_NextContinuationToken out)), default false (lo_IsTruncated out))))
      end).

Definition bucket_page_data (username bucket notice error : gostring) (canUpload canDelete : bool) (required : list gostring)
    : adminBucketPageData := {|
  bp_Username := username; bp_BucketName := bucket; bp_Notice := notice; bp_Error := error; bp_GeneratedAt := FormatRFC3339 now;
  bp_Objects := []; bp_CurrentCursor := []; bp_CurrentHistory := []; bp_CanUploadObjects := canUpload; bp_CanDeleteObjects := canDelete;
  bp_RequiredMetadataKeys := required; bp_PrevURL := None; bp_NextURL := None |}.
(** The page of a listing: where the history leads back to, and on. *)
Definition with_listing (bucket cursor historyEncoded : gostring) (history : list gostring)
    (listing : list adminBucketObjectView * gostring * bool) (d : adminBucketPageData) : adminBucketPageData :=
  let '(objects, nextCursor, truncated) := listing in {|
  bp_Username := bp_Username d; bp_BucketName := bp_BucketName d; bp_Notice := bp_Notice d; bp_Error := bp_Error d;
  bp_GeneratedAt := bp_GeneratedAt d; bp_Objects := objects; bp_CurrentCursor := cursor; bp_CurrentHistory := historyEncoded;
  bp_CanUploadObjects := bp_CanUploadObjects d; bp_CanDeleteObjects := bp_CanDeleteObjects d;
  bp_RequiredMetadataKeys := bp_RequiredMetadataKeys d;
  bp_PrevURL := prevCursor ← last history; Some (adminBucketPageURL bucket prevCursor (removelast history));
  bp_NextURL := if (truncated : bool) && bool_decide (nextCursor <> []) then Some (adminBucketPageURL bucket nextCursor (history ++ [cursor])) else None |}.

Definition handleAdminBucketPage : AdminProg :=
  if negb is_get_or_head then method_not_allowed "GET, HEAD"
  else
    with_session (fun username groups =>
      let q name := TrimSpace (qget (Query r) (str name)) in
      let '(bucket, cursor, position) := read_position (Query r) in
      let rules := RulesFromGroups groups in
      let blank notice error := bucket_page_data username bucket notice error (CanWrite rules bucket) (CanDeleteObject rules bucket)
                                  (ac_requiredUploadMetadataKeys cfg) in
      let failed status error := Ret (write_page status (BucketData (blank [] (str error)))) in
      Done
        (if decide (bucket = []) then
           Ret (write_page 400 (BucketData (bucket_page_data username [] [] (str "Bucket name is required.") false false [])))
         else if negb (CanRead rules bucket) then failed 403 "Read permission is required for this bucket."%string
         else
           match position with
           | None => failed 400 "Invalid pagination cursor state."%string
           | Some history =>
             pbind (listBucketObjects bucket cursor adminPreviewMaxKeys) (fun listing =>
               match listing with
               | None => failed 502 "Could not list bucket objects."%string
               | Some listing =>
                 Ret (write_page 200 (BucketData (with_listing bucket cursor (q "history"%string) history listing (blank (q "msg"%string) (q "err"%string)))))
               end)
           end)).

Definition download_headers (key : gostring) (out : ObjectOutput) : Header :=
  let contentType := TrimSpace (ToString (oo_ContentType out)) in
  set_headers no_headers
    [("Content-Type", Some (if decide (contentType = []) then str "application/octet-stream" else contentType));
     ("Content-Disposition", Some (contentDispositionAttachment (adminDownloadFilenameForKey key)));
     ("Content-Length", n ← oo_ContentLength out; if (0 <=? n)%Z then Some (FormatInt n) else None);
     ("Last-Modified", t ← oo_LastModified out; if decide (t = zero_time) then None else Some (FormatHTTPTime t));
     ("ETag", oo_ETag out)]%string.

Definition handleAdminBucketDownload : AdminProg :=
  if negb is_get_or_head then method_not_allowed "GET, HEAD"
  else
    with_session (fun _ groups =>
      let bucket := TrimSpace (qget (Query r) (str "name")) in
      let key := qget (Query r) (str "key") in
      let failed error := Ret (redirect (adminBucketPageURLWithStatus bucket [] [] [] (str error))) in
      Done
        (if negb (ac_upstream cfg) then failed "Admin backend is not configured."%string
         else if decide (bucket = [] \/ key = []) then failed "Bucket name and object key are required."%string
         else if negb (CanRead (RulesFromGroups groups) bucket) then failed "Read permission is required for this bucket."%string
         else
           Up (GetObject (plain_read (admin_object bucket key))) (fun answer =>
             match answer with
             | Err _ => failed "Could not download object."%string
             | Ok out =>
               Ret (Download (download_headers key out) (if decide (Method r = HEAD) then None else Some (oo_Body out, oo_BodyFails out)))
             end))).

(** *** Kafka topics (kafka_topics.go) *)

Definition topics_data (username : gostring) (error : string) (visible : list KafkaTopics.Topic) : adminKafkaTopicsPageData :=
  {| tv_Username := username; tv_Error := error; tv_GeneratedAt := FormatRFC3339 now; tv_Topics := visible; tv_TotalTopics := zlen visible;
     tv_KnownElements := (topic_totals visible).1; tv_UnavailableTopics := (topic_totals visible).2 |}.

Definition handleAdminKafkaTopics : AdminProg :=
  if negb is_get_or_head then method_not_allowed "GET, HEAD"
  else
    with_session (fun username groups =>
      if negb (ac_kafkaTopicLister cfg) then
        answer (write_page 503 (TopicsData (topics_data username "Kafka integration is not configured." [])))
      else
        let '(listed, failed) := KafkaTopics.List topics in
        let visible := visibleAdminKafkaTopics listed (RulesFromGroups groups) (ac_kafkaGlobalTopic cfg) in
        let error :=
          if negb failed then ""%string
          else if decide (visible = []) then "Could not load Kafka topics."%string
          else "Some Kafka topic or consumer-group offsets could not be loaded."%string in
        answer (write_page (if failed then 502 else 200) (TopicsData (topics_data username error visible)))).

(** *** The handler *)

Definition admin_headers : Header :=
  set_headers no_headers [("X-Content-Type-Options", Some (str "nosniff")); ("X-Frame-Options", Some (str "DENY"));
                          ("Cache-Control", Some (str "no-store"))]%string.

Definition admin_routes : list (string * AdminProg) :=
  [("/", handleAdminRoot); ("/login", handleAdminLogin); ("/admin", handleAdminDashboard);
   ("/admin/kafka-topics", handleAdminKafkaTopics); ("/admin/create-bucket", handleAdminCreateBucket);
   ("/admin/bucket", handleAdminBucketPage); ("/admin/bucket/download", handleAdminBucketDownload);
   ("/admin/bucket/upload", handleAdminBucketUpload); ("/admin/bucket/delete", handleAdminBucketDelete);
   ("/logout", handleAdminLogout)]%string.
(** The headers of every answer, and what follows. *)
Definition ServeAdminHTTP : Header * AdminProg :=
  (admin_headers,
   match find (fun route => bool_decide (str route.1 = Gateway.normalizeAdminRoutePath (Path r))) admin_routes with
   | Some route => route.2
   | None => answer NotFound
   end).
End Handlers.

(** ** The calls of an upload *)

Section UploadCalls.
Context {U : UnicodeCase} {MI : MapIter}.

Notation writes t uploader := (every (fun c => call_needs c = [NeedOne (tg_bucket t) [PermWrite]]) (fun e => ev_Uploader e = uploader) (fun _ => True)).

Lemma upload_file_writes notifier now uploader t octets pe ended : writes t uploader (upload_file notifier now uploader t octets pe ended).
Proof.
  split; [done|]. intros [created|f]; [|done]. cbv zeta. case_match; [done|]. apply every_bind.
  assert (Hparts : forall fuel first received done rest, writes t uploader (upload_parts fuel t (TrimSpace (ToString (cmo_UploadId created))) pe first received done rest)).
  { induction fuel as [|fuel IH]; intros; [done|]. cbn [upload_parts].
    destruct (readAdminUploadPart rest pe received) as [data [[]|]]; try done;
      (case_match; [done|]; case_match; [done|]; split; [done|]; intros [out|f]; [|done]; case_match; [done | apply IH || done]). }
  eapply every_mono; [intros c Hc; exact Hc | intros e He; exact He | | apply Hparts].
  intros uploaded _. unfold finish_upload.
  destruct uploaded as [[[|p completed] received]|e]; cbn [pbind]; repeat case_match; cbn [pbind every]; try done;
    (split; [done|]; intros [out|f]; unfold notify_upload; destruct notifier; cbn; try done).
Qed.

Lemma upload_form_writes rules username required notifier now f parts closed :
  form_ok rules f ->
  every (fun c => forallb (meets rules) (call_needs c) = true) (fun e => ev_Uploader e = TrimSpace username) (fun _ => True)
    (upload_form rules username required notifier now f parts closed).
Proof.
  revert f. induction parts as [|part parts IH]; intros f Hok; cbn [upload_form]; [by repeat case_match|].
  assert (Hok' : form_ok rules (count_part f)) by exact Hok. set (f1 := count_part f) in *. clearbody f1. cbv zeta.
  destruct (_ || _); [done|]. destruct (HasPrefix _ _).
  { destruct (meta_field _ _ _) as [f2|] eqn:Hf; [|done]. apply IH. by eapply meta_field_ok. }
  destruct (decide _).
  - destruct (file_target _ _ _ _) as [t|msg] eqn:Ht; [|done]. apply every_bind.
    eapply every_mono; [| |done| apply upload_file_writes]; [|done]. intros c Hc. cbn beta in Hc. rewrite Hc.
    destruct (file_target_ok rules _ _ _ _ _ Ht Hok') as [Hw _]. cbn. unfold CanWrite in Hw. by rewrite Hw.
  - destruct (text_field _ _ _ _) as [f2|reply] eqn:Hf; [|done]. apply IH. by eapply text_field_ok.
Qed.
End UploadCalls.

(** ** Requests over one store *)

Section Concurrent.
Context {U : UnicodeCase} {MI : MapIter} {G : GoText} {J : HistoryCodec} {M : MediaTypes} {P : URLParser} {K : CookieCodec}.
Variables (cfg : AdminConfig) (ttl maxSessions : Z).
(** What the directory has answered for a user name and a password. *)
Variable directory : gostring -> gostring -> gset gostring -> Prop.

(** A request in flight: the session its cookie has loaded, if any, and what is
    left of its handler. *)
Record InFlight := { if_request : Request; if_session : option (gostring * gset gostring); if_prog : AdminProg }.
Record System := { sy_store : AdminSessionStore; sy_requests : gmap nat InFlight }.
Definition at_request (i : nat) (f : InFlight) (p : AdminProg) (store : AdminSessionStore) (sy : System) : System :=
  {| sy_store := store;
     sy_requests := <[i := {| if_request := if_request f; if_session := if_session f; if_prog := p |}]> (sy_requests sy) |}.
Definition in_session (loaded : WebSession * bool) (f : InFlight) : InFlight :=
  {| if_request := if_request f; if_session := currentAdminSession loaded; if_prog := if_prog f |}.

(** One action of one request, at any instant and with any random octets. *)
Inductive sys_step : System -> System -> Prop :=
| sys_arrive sy i r now clean upload topics :
    sy_requests sy !! i = None ->
    let p := (ServeAdminHTTP cfg now r clean upload topics).2 in
    sys_step sy (at_request i {| if_request := r; if_session := None; if_prog := p |} p (sy_store sy) sy)
| sys_load sy i f k t :
    sy_requests sy !! i = Some f -> if_prog f = Load k ->
    let served := load_session (ac_Options cfg) t (if_request f) (sy_store sy) in
    sys_step sy (at_request i (in_session served.2 f) (k served.2) served.1 sy)
| sys_save sy i f w k t raws :
    sy_requests sy !! i = Some f -> if_prog f = Store w k ->
    let saved := save_session (ac_Options cfg) t raws (if_request f) w (sy_store sy) in
    sys_step sy (at_request i f (k saved.2) saved.1 sy)
| sys_auth sy i f upn pass k a :
    sy_requests sy !! i = Some f -> if_prog f = Authenticate upn pass k -> (forall g, a = Ok g -> directory upn pass g) ->
    sys_step sy (at_request i f (k a) (sy_store sy) sy)
| sys_leave sy i :
    sys_step sy {| sy_store := sy_store sy; sy_requests := delete i (sy_requests sy) |}.

Definition initial : System := {| sy_store := NewAdminSessionStore ttl maxSessions; sy_requests := ∅ |}.
Inductive reachable : System -> Prop :=
| reach_initial : reachable initial
| reach_step sy sy' : reachable sy -> sys_step sy sy' -> reachable sy'.

(** ** Sessions go back to logins *)

Context {UL : UnicodeCaseLaws U}.

(** A user and groups that are those of a login, as far as they grant rights. *)
Definition login_of (username : gostring) (groups : gset gostring) : Prop :=
  exists upn pass g, directory upn pass g /\ username = TrimSpace upn /\
    forall bucket bit, (exists grp, grp ∈ groups /\ grants grp bucket bit) <-> exists grp, grp ∈ g /\ grants grp bucket bit.
Definition store_ok (s : AdminSessionStore) : Prop :=
  forall id e, as_data s !! id = Some e -> login_of (as_Username e) (as_Groups e).

Lemma login_reloaded upn groups :
  login_of upn groups -> login_of (TrimSpace upn) (parseSessionGroups (GroupStrings (sessionGroupsSlice groups))).
Proof.
  intros (u & pass & g & Hd & -> & Hg). exists u, pass, g. split; [done|]. split; [apply TrimSpace_idem|].
  intros bucket bit. rewrite session_grants. apply Hg.
Qed.

Lemma get_ok id t s : store_ok s -> store_ok (get id t s).1 /\ forall e, (get id t s).2 = Some e -> login_of (as_Username e) (as_Groups e).
Proof.
  intros Hs. unfold get. destruct (decide (id = [])); [done|]. destruct (as_data s !! id) as [e0|] eqn:E; [|done].
  pose proof (Hs id e0 E) as H0. destruct (as_Expires e0 <? t); cbn [fst snd]; split; try done.
  - intros id' e. cbn. intros [_ H]%lookup_delete_Some. by eapply Hs.
  - intros id' e. cbn. intros [[<- <-]|[_ H]]%lookup_insert_Some; [done | by eapply Hs].
  - by intros e [= <-].
Qed.

Lemma load_ok opts t r s :
  store_ok s ->
  store_ok (load_session opts t r s).1 /\
  forall u gs, currentAdminSession (load_session opts t r s).2 = Some (u, gs) -> login_of u gs.
Proof.
  intros Hs. unfold load_session. destruct (CookieOf r adminSessionCookieName) as [c|]; [|done].
  destruct (DecodeMulti _ t c) as [id|]; [|done]. destruct (decide (id = [])); [done|].
  destruct (get_ok id t s Hs) as [Hs' He]. destruct (get id t s) as [s' [e|]]; [|done]. split; [done|].
  intros u gs. cbn [snd currentAdminSession ws_IsNew ws_ID orb]. case_bool_decide; [done|].
  unfold adminSessionFromValues. cbn [ws_username ws_groups]. destruct (decide _); [done|]. intros [= <- <-].
  apply login_reloaded, He. done.
Qed.

Lemma save_ok opts t raws r w s :
  store_ok s -> (0 < opt_MaxAge (ws_Options w) -> forall u gs, adminSessionFromValues w = Some (u, gs) -> login_of u gs) ->
  store_ok (save_session opts t raws r w s).1.
Proof.
  intros Hs Hw. unfold save_session. destruct (Z.leb_spec (opt_MaxAge (ws_Options w)) 0) as [Hle|Hm].
  - cbn [fst]. destruct (decide _); [done|]. unfold delete_session. destruct (decide _); [done|].
    intros id e. cbn. intros [_ H]%lookup_delete_Some. by eapply Hs.
  - destruct (adminSessionFromValues w) as [[u gs]|] eqn:E; [|done]. specialize (Hw Hm u gs eq_refl).
    assert (Hsv : store_ok (save (ws_ID w) u gs t raws s).1).
    { intros id e [[_ ->]|[_ H]]%save_lookup; [done | by eapply Hs]. }
    by destruct (save _ _ _ _ _ _) as [s' [id|]].
Qed.

(** ** What a handler may do *)

Definition reading (c : Call) : Prop :=
  match c with ListBuckets _ | ListObjectsV2 _ _ _ _ | HeadObject _ | GetObject _ => True | _ => False end.
Definition trusted_form (r : Request) : Prop := Method r = POST /\ hasTrustedAdminOrigin (ac_origin cfg) r = true.
Definition call_ok (r : Request) (session : option (gostring * gset gostring)) (c : Call) : Prop :=
  (exists u gs, session = Some (u, gs) /\ login_of u gs /\ Forall (entitles gs) (call_needs c)) /\ (reading c \/ trusted_form r).
Definition event_ok (session : option (gostring * gset gostring)) (e : Event) : Prop :=
  exists u gs, session = Some (u, gs) /\ login_of u gs /\ ev_Uploader e = u.
Notation fine r session := (every (call_ok r session) (event_ok session) (fun _ => True)).

Fixpoint good (r : Request) (session : option (gostring * gset gostring)) (p : AdminProg) : Prop :=
  match p with
  | Done p => fine r session p
  | Load k => forall loaded, (forall u gs, currentAdminSession loaded = Some (u, gs) -> login_of u gs) ->
                good r (currentAdminSession loaded) (k loaded)
  | Store w k => (0 < opt_MaxAge (ws_Options w) -> forall u gs, adminSessionFromValues w = Some (u, gs) -> login_of u gs) /\
                 forall cookie, good r session (k cookie)
  | Authenticate upn pass k => forall a, (forall g, a = Ok g -> directory upn pass g) -> good r session (k a)
  end.

Lemma call_allowed r u gs c :
  login_of u gs -> forallb (meets (RulesFromGroups gs)) (call_needs c) = true -> reading c \/ trusted_form r ->
  call_ok r (Some (u, gs)) c.
Proof. intros Hl Hm Hr. split; [|done]. exists u, gs. split; [done|]. split; [done|]. by apply needs_entitled. Qed.

(** The groups of a session only entitle to what its login does. *)
Lemma login_entitles u gs c :
  login_of u gs -> Forall (entitles gs) (call_needs c) ->
  exists upn pass g, directory upn pass g /\ u = TrimSpace upn /\ Forall (entitles g) (call_needs c).
Proof.
  intros (upn & pass & g & Hd & Hu & Hg) Hm. exists upn, pass, g. split; [done|]. split; [done|].
  eapply Forall_impl; [exact Hm|]. intros [b|b bits]; cbn.
  - intros (grp & bit & Hin & Hb & Hgr). destruct (proj1 (Hg b bit) (ex_intro _ grp (conj Hin Hgr))) as (grp' & ? & ?). by exists grp', bit.
  - intros (grp & bit & Hin & Hb & Hgr). destruct (proj1 (Hg b bit) (ex_intro _ grp (conj Hin Hgr))) as (grp' & ? & ?). by exists grp', bit.
Qed.

Lemma clear_good r session w k : good r session k -> good r session (clear w k).
Proof. intros Hk. split; [cbn; lia | done]. Qed.

Lemma with_session_good r session k : (forall u gs, login_of u gs -> good r (Some (u, gs)) (k u gs)) -> good r session (with_session k).
Proof.
  intros Hk loaded Hl. destruct (currentAdminSession loaded) as [[u gs]|]; [by apply Hk, Hl|]. by apply clear_good.
Qed.

Lemma form_good r session no_backend k :
  (forall u gs, login_of u gs -> trusted_form r -> fine r (Some (u, gs)) (k u gs)) -> good r session (admin_form cfg r no_backend k).
Proof.
  intros Hk. unfold admin_form. case_bool_decide as Hm; [|done]. apply with_session_good. intros u gs Hl. cbn [good].
  destruct (ac_upstream cfg); [|done]. cbn [negb]. destruct (hasTrustedAdminOrigin (ac_origin cfg) r) eqn:Ht; [|done].
  cbn [negb]. by apply Hk.
Qed.

(** *** The handlers *)

Lemma meets_one rules bucket bits bit :
  bit ∈ bits -> has (BucketPerm rules bucket) bit = true -> forallb (meets rules) [NeedOne bucket bits] = true.
Proof.
  intros Hin Hh. cbn [forallb meets]. rewrite andb_true_r. apply existsb_exists. exists bit. split; [by apply list_elem_of_In | done].
Qed.

Lemma fine_bind {Q R} r session (p : Prog Q) (f : Q -> Prog R) : fine r session p -> (forall x, fine r session (f x)) -> fine r session (pbind p f).
Proof. intros Hp Hf. apply every_bind. eapply every_mono; [| | |exact Hp]; [done | done | by intros x _; apply Hf]. Qed.

Lemma page_calls r u gs bucket entries :
  login_of u gs -> CanRead (RulesFromGroups gs) bucket = true -> fine r (Some (u, gs)) (object_views bucket entries).
Proof.
  intros Hl Hr. induction entries as [|e entries IH]; [done|]. cbn [object_views]. cbv zeta. destruct (decide _); [exact IH|].
  split; [|by intros [out|f]; apply fine_bind].
  apply (call_allowed _ _ _ _ Hl); [|by left]. by eapply (meets_one _ _ _ PermRead); [left|].
Qed.

Lemma listing_calls r u gs bucket cursor maxKeys :
  login_of u gs -> CanRead (RulesFromGroups gs) bucket = true -> fine r (Some (u, gs)) (listBucketObjects cfg bucket cursor maxKeys).
Proof.
  intros Hl Hr. unfold listBucketObjects. destruct (_ || _); [done|]. split.
  - apply (call_allowed _ _ _ _ Hl); [|by left]. by eapply (meets_one _ _ _ PermRead); [left|].
  - intros [out|f]; [|done]. apply fine_bind; [by eapply page_calls | done].
Qed.

Lemma buckets_calls r u gs : login_of u gs -> fine r (Some (u, gs)) (listAllBuckets cfg).
Proof.
  intros Hl. unfold listAllBuckets. destruct (ac_upstream cfg); [|done]. apply fine_bind; [|done]. unfold ListAllBuckets.
  generalize (@None ListBucketsOutput) (@None gostring) (∅ : gset gostring).
  induction (ac_pages cfg) as [|n IH]; intros acc token seen; [done|]. cbn [list_pages every]. intros []; [done|].
  split; [apply (call_allowed _ _ _ _ Hl); [done | by left]|]. intros [page|f]; [|done]. intros []; [done|].
  cbv zeta. case_match; [done|]. case_match; [done|]. apply IH.
Qed.

Lemma upload_good r session now upload : good r session (handleAdminBucketUpload cfg now r upload).
Proof.
  apply form_good. intros u gs Hl Ht. cbv zeta. destruct upload as [form|]; [|done]. apply fine_bind; [|done].
  eapply every_mono; [| |done| apply upload_form_writes]; [| |discriminate].
  - intros c Hc. cbn beta in Hc. apply (call_allowed _ _ _ _ Hl Hc). by right.
  - intros e He. cbn beta in He. destruct Hl as (upn & pass & g & Hd & -> & Hg). exists (TrimSpace upn), gs. split; [done|]. split; [|by rewrite He, TrimSpace_idem].
    by exists upn, pass, g.
Qed.

Lemma login_good r session clean : good r session (handleAdminLogin cfg r clean).
Proof.
  unfold handleAdminLogin. destruct (negb _); [done|]. destruct (_ && _); [done|]. intros loaded _.
  destruct (currentAdminSession loaded); [done|]. destruct (is_get_or_head r); [done|]. destruct (ParseForm clean r) as [form|]; [|done].
  cbv zeta. set (upn := TrimSpace _). set (pass := FormValue _ _). destruct (decide _) as [|Hne]; [done|]. intros a Ha.
  destruct a as [g|[]]; try done. split; [|by intros []]. intros _ u gs. unfold login_session. destruct loaded as [w failed].
  unfold adminSessionFromValues. cbn [ws_username ws_groups]. destruct (decide _); [done|]. intros [= <- <-].
  apply login_reloaded. exists upn, pass, g. split; [by apply Ha|]. split; [|done]. unfold upn. by rewrite TrimSpace_idem.
Qed.

Lemma create_good r session clean : good r session (handleAdminCreateBucket cfg r clean).
Proof.
  apply form_good. intros u gs Hl Ht. destruct (ParseForm clean r) as [form|]; [|done]. cbv zeta. destruct (decide _); [done|].
  destruct (negb (adminHasCreateSpace _ _)); [done|]. destruct (adminBuildBucketName _ _) as [name|e]; [|done].
  destruct (CanCreateBucket (RulesFromGroups gs) name) eqn:Hc; [|done]. split; [|by intros []].
  apply (call_allowed _ _ _ _ Hl); [|by right]. by eapply (meets_one _ _ _ PermCreateBucket); [left|].
Qed.

Lemma delete_good r session clean : good r session (handleAdminBucketDelete cfg r clean).
Proof.
  apply form_good. intros u gs Hl Ht. destruct (ParseForm clean r) as [form|]; [|done]. cbv zeta. destruct (decide _); [done|].
  destruct (decide _); [done|]. destruct (CanDeleteObject (RulesFromGroups gs) _) eqn:Hd; [|done]. split; [|by intros []].
  apply (call_allowed _ _ _ _ Hl); [|by right]. by eapply (meets_one _ _ _ PermDeleteObject); [left|].
Qed.

Lemma bucket_good r session now : good r session (handleAdminBucketPage cfg now r).
Proof.
  unfold handleAdminBucketPage. destruct (negb _); [done|]. apply with_session_good. intros u gs Hl. cbv zeta.
  destruct (read_position (Query r)) as [[bucket cursor] position]. cbn [good].
  destruct (decide _); [done|]. destruct (CanRead _ _) eqn:Hr; [|done]. cbn [negb]. destruct position; [|done].
  apply fine_bind; [by eapply listing_calls | by intros [listing|]].
Qed.

Lemma download_good r session : good r session (handleAdminBucketDownload cfg r).
Proof.
  unfold handleAdminBucketDownload. destruct (negb _); [done|]. apply with_session_good. intros u gs Hl. cbv zeta. cbn [good].
  destruct (negb (ac_upstream cfg)); [done|]. destruct (decide _); [done|]. destruct (CanRead _ _) eqn:Hr; [|done]. cbn [negb].
  split; [|by intros []]. apply (call_allowed _ _ _ _ Hl); [|by left]. by eapply (meets_one _ _ _ PermRead); [left|].
Qed.

Lemma dashboard_good r session now : good r session (handleAdminDashboard cfg now r).
Proof.
  unfold handleAdminDashboard. destruct (negb _); [done|]. apply with_session_good. intros u gs Hl.
  apply fine_bind; [by eapply buckets_calls | done].
Qed.

Lemma topics_good r session now topics : good r session (handleAdminKafkaTopics cfg now r topics).
Proof.
  unfold handleAdminKafkaTopics. destruct (negb _); [done|]. apply with_session_good. intros u gs Hl.
  destruct (negb _); [done|]. by destruct (KafkaTopics.List topics).
Qed.

Lemma logout_good r session : good r session (handleAdminLogout cfg r).
Proof. unfold handleAdminLogout. destruct (negb _); [done|]. destruct (negb _); [done|]. intros loaded _. by apply clear_good. Qed.

Lemma handler_good r session now clean upload topics : good r session (ServeAdminHTTP cfg now r clean upload topics).2.
Proof.
  unfold ServeAdminHTTP. cbn [snd]. destruct (find _ _) as [[path p]|] eqn:E; [|done].
  apply find_some in E as [Hin _]. cbn [snd]. unfold admin_routes in Hin. cbn [In] in Hin.
  repeat destruct Hin as [[= _ <-]|Hin]; [..|done].
  - unfold handleAdminRoot. by destruct (is_get_or_head r).
  - apply login_good.
  - apply dashboard_good.
  - apply topics_good.
  - apply create_good.
  - apply bucket_good.
  - apply download_good.
  - apply upload_good.
  - apply delete_good.
  - apply logout_good.
Qed.

(** The invariant of the system. *)
Definition flight_ok (f : InFlight) : Prop := good (if_request f) (if_session f) (if_prog f).
Definition system_ok (sy : System) : Prop := store_ok (sy_store sy) /\ forall i f, sy_requests sy !! i = Some f -> flight_ok f.

Lemma reachable_ok sy : reachable sy -> system_ok sy.
Proof.
  induction 1 as [|sy sy' _ [Hs Hp] Hstep].
  { split; [by intros id e; cbn; rewrite lookup_empty | by intros i f; cbn; rewrite lookup_empty]. }
  assert (Hput : forall i f p store, store_ok store -> good (if_request f) (if_session f) p -> system_ok (at_request i f p store sy)).
  { intros i f p store Hst Hg. split; [done|]. intros i' f'. cbn [sy_requests at_request].
    intros [[<- <-]|[_ H]]%lookup_insert_Some; [done | by eapply Hp]. }
  assert (Hat : forall i f p, sy_requests sy !! i = Some f -> if_prog f = p -> good (if_request f) (if_session f) p).
  { intros i f p Hi <-. by apply (Hp i). }
  destruct Hstep as [sy i r now clean upload topics _ p|sy i f k t Hi Hf served|sy i f w k t raws Hi Hf saved|sy i f upn pass k a Hi Hf Ha|sy i].
  - apply Hput; [done | apply handler_good].
  - destruct (load_ok (ac_Options cfg) t (if_request f) (sy_store sy) Hs) as [H1 H2]. apply Hput; [done|]. by apply (Hat i f _ Hi Hf).
  - destruct (Hat i f _ Hi Hf) as [Hw Hk]. apply Hput; [by apply save_ok | apply Hk].
  - apply Hput; [done|]. by apply (Hat i f _ Hi Hf).
  - split; [done|]. intros i' f'. cbn [sy_requests]. intros [_ H]%lookup_delete_Some. by eapply Hp.
Qed.

(** What a request in flight may still do. *)
Lemma request_calls sy i f p tr q x :
  reachable sy -> sy_requests sy !! i = Some f -> if_prog f = Done p -> steps p tr q -> x ∈ tr ->
  match x with Called c _ => call_ok (if_request f) (if_session f) c | Polled _ => True | Notified e => event_ok (if_session f) e end.
Proof.
  intros Hr Hi Hf Hs Hx. pose proof (proj2 (reachable_ok sy Hr) i f Hi) as Hg. unfold flight_ok in Hg. rewrite Hf in Hg.
  destruct (every_steps _ _ _ _ _ _ Hg Hs) as [_ H]. by apply H.
Qed.
End Concurrent.

(** ** Links between pages *)

Section Links.
Context {J : HistoryCodec} {JL : HistoryCodecLaws}.

(** The pages of a bucket are linked in both directions: on a listing that
    goes on, the link to the next page leads to the same bucket at the next
    cursor, and the link back from there leads to where it came from, with the
    same cursor and the same history. *)
Theorem page_links_return bucket cursor next encoded history objects d :
  trimmed bucket -> trimmed cursor -> trimmed next -> next <> [] -> well_formed cursor ->
  Forall well_formed history -> Forall trimmed history ->
  exists query, bp_NextURL (with_listing bucket cursor encoded history (objects, next, true) d) = Some (str "/admin/bucket?" ++ query) /\
    read_position (ParseQuery query) = (bucket, next, Some (history ++ [cursor])) /\
    forall encoded' listing d', exists back,
      bp_PrevURL (with_listing bucket next encoded' (history ++ [cursor]) listing d') = Some (str "/admin/bucket?" ++ back) /\
      read_position (ParseQuery back) = (bucket, cursor, Some history).
Proof.
  intros Hb Hc Hn Hne Hwc Hw Ht.
  assert (Hw' : Forall well_formed (history ++ [cursor])) by (by apply Forall_app; split; [|by constructor]).
  assert (Ht' : Forall trimmed (history ++ [cursor])) by (by apply Forall_app; split; [|by constructor]).
  destruct (page_link bucket next (history ++ [cursor]) Hb Hn Hw' Ht') as (query & E & Hq). exists query.
  cbn [with_listing bp_NextURL andb]. rewrite bool_decide_true, E by done. split; [done|]. split; [done|].
  intros encoded' [[objects' next'] truncated'] d'. cbn [with_listing bp_PrevURL]. rewrite last_snoc, removelast_last. cbn [mbind option_bind].
  destruct (page_link bucket cursor history Hb Hc Hw Ht) as (back & E' & Hback). exists back. by rewrite E'.
Qed.
End Links.

(** ** Entitlement *)

Section Entitled.
Context {U : UnicodeCase} {UL : UnicodeCaseLaws U} {MI : MapIter} {G : GoText} {J : HistoryCodec} {M : MediaTypes} {P : URLParser}.
Context {K : CookieCodec} {FL : Limiter.Float64}.
Variables (cacheTTL maxEntries : Z) (limits : Limiter.Limits) (es : list AuthLookup.event).

(** C3. The administration pages act for users the directory has answered for:
    whatever requests are served concurrently over the sessions, in whatever
    interleaving, a request only calls the upstream in a session that its cookie
    has loaded, the session's user is one of a login, and the groups the
    directory reported for that login entitle to the call; whatever changes
    something comes from a form post that, if a browser sent it, has the
    gateway's own origin; and a notification names the session's user. *)
Theorem admin_calls_entitled cfg ttl maxSessions sy i f p tr q :
  reachable cfg ttl maxSessions (AuthLookup.verified_key cacheTTL maxEntries limits es) sy ->
  sy_requests sy !! i = Some f -> if_prog f = Done p -> steps p tr q ->
  (forall c a, Called c a ∈ tr ->
     (exists upn pass g groups, AuthLookup.verified_key cacheTTL maxEntries limits es upn pass g /\
        if_session f = Some (TrimSpace upn, groups) /\ Forall (entitles g) (call_needs c)) /\
     (reading c \/ (Method (if_request f) = POST /\ hasTrustedAdminOrigin (ac_origin cfg) (if_request f) = true))) /\
  (forall e, Notified e ∈ tr -> exists groups, if_session f = Some (ev_Uploader e, groups)).
Proof.
  intros Hr Hi Hf Hs. split.
  - intros c a Hin. destruct (request_calls _ _ _ _ sy i f p tr q _ Hr Hi Hf Hs Hin) as [(u & gs & Hu & Hl & Hm) Ho]. split; [|exact Ho].
    destruct (login_entitles _ _ _ _ Hl Hm) as (upn & pass & g & Hd & -> & He). by exists upn, pass, g, gs.
  - intros e Hin. destruct (request_calls _ _ _ _ sy i f p tr q _ Hr Hi Hf Hs Hin) as (u & gs & Hu & _ & ->). by exists gs.
Qed.
End Entitled.

(** ** Witnesses *)

Section Simulation.
Context {U : UnicodeCase} {MI : MapIter} {G : GoText} {J : HistoryCodec} {M : MediaTypes} {P : URLParser} {K : CookieCodec}.
Context {UL : UnicodeCaseLaws U}.
Variables (cfg : AdminConfig) (ttl maxSessions : Z) (directory : gostring -> gostring -> gset gostring -> Prop).
Variables (answers : gostring -> gostring -> AuthLookup.groups_result) (topics : KafkaTopics.Answers).
Hypothesis answers_directory : forall upn pass g, answers upn pass = Ok g -> directory upn pass g.

(** A request arrives, or takes its next action, at an instant. *)
Definition arrive (i : nat) (r : Request) (sy : System) : System :=
  match sy_requests sy !! i with
  | Some _ => sy
  | None =>
    let p := (ServeAdminHTTP cfg 0 r true None topics).2 in
    at_request i {| if_request := r; if_session := None; if_prog := p |} p (sy_store sy) sy
  end.
Definition advance (i : nat) (t : instant) (raws : list (option gostring)) (sy : System) : System :=
  match sy_requests sy !! i with
  | None => sy
  | Some f =>
    match if_prog f with
    | Done _ => sy
    | Load k =>
      let served := load_session (ac_Options cfg) t (if_request f) (sy_store sy) in
      at_request i (in_session served.2 f) (k served.2) served.1 sy
    | Store w k =>
      let saved := save_session (ac_Options cfg) t raws (if_request f) w (sy_store sy) in at_request i f (k saved.2) saved.1 sy
    | Authenticate upn pass k => at_request i f (k (answers upn pass)) (sy_store sy) sy
    end
  end.

Lemma arrive_reachable i r sy : reachable cfg ttl maxSessions directory sy -> reachable cfg ttl maxSessions directory (arrive i r sy).
Proof. intros Hr. unfold arrive. destruct (sy_requests sy !! i) eqn:E; [done|]. eapply reach_step; [exact Hr|]. by apply sys_arrive. Qed.
Lemma advance_reachable i t raws sy :
  reachable cfg ttl maxSessions directory sy -> reachable cfg ttl maxSessions directory (advance i t raws sy).
Proof.
  intros Hr. unfold advance. destruct (sy_requests sy !! i) as [f|] eqn:E; [|done].
  destruct (if_prog f) eqn:Ef; [done|..]; (eapply reach_step; [exact Hr|]).
  - by apply (sys_load _ _ sy i f).
  - by apply (sys_save _ _ sy i f).
  - apply (sys_auth _ _ sy i f upn pass); [done | done | apply answers_directory].
Qed.
End Simulation.

Section Witnesses.
#[local] Existing Instance latin1_case.
#[local] Existing Instance canonical_iter.
#[local] Existing Instance Limiter.ieee_double.
#[local] Existing Instance toy_cookies.
#[local] Existing Instance toy_history.
#[local] Existing Instance sample_text.
#[local] Existing Instance toy_history_laws.
#[local] Instance plain_types : MediaTypes := {| ParseMediaType s := (s, false) |}.
(** It knows one origin. *)
Definition gateway_origin : gostring := str "https://gateway".
#[local] Instance one_origin : URLParser := {| url_Parse raw := if decide (raw = gateway_origin) then
  Some {| u_Scheme := str "https"; u_Opaque := []; u_User := false; u_Host := str "gateway"; u_Path := []; u_RawQuery := []; u_ForceQuery := false |}
  else None |}.

Definition sample_admin : AdminConfig := {|
  ac_Options := sample_options; ac_origin := (WithPublicOrigin gateway_origin).1; ac_upstream := true;
  ac_requiredUploadMetadataKeys := []; ac_uploadNotifier := false; ac_kafkaTopicLister := false; ac_kafkaGlobalTopic := []; ac_pages := 1 |}.
Definition browser (headers : list (string * gostring)) : Header :=
  set_headers no_headers (map (fun f => (f.1, Some f.2))
    ([("Accept", str "text/html"); ("User-Agent", str "Mozilla/5.0"); ("Origin", gateway_origin)]%string ++ headers)).
Definition login_request : Request := {|
  Method := POST; Path := str "/login"; EscapedPath := str "/login"; RawQuery := []; URLHost := []; Host := str "gateway";
  RemoteAddr := str "10.0.0.1:1234"; Hdr := browser [("Content-Type"%string, str "application/x-www-form-urlencoded")];
  ContentLength := -1; Body := RawBody (str "username=alice&password=pw"); TLS := true |}.
Definition download_request : Request := {|
  Method := GET; Path := str "/admin/bucket/download"; EscapedPath := str "/admin/bucket/download"; RawQuery := str "name=team1-a&key=k";
  URLHost := []; Host := str "gateway"; RemoteAddr := str "10.0.0.1:1234"; Hdr := browser [("Cookie"%string, cookie_header (str "v33303331"))];
  ContentLength := 0; Body := NoBody; TLS := true |}.

(** Alice logs in and downloads an object. *)
Definition sample_system : System :=
  let go := advance sample_admin Gateway.sample_answers in
  go 1%nat 20 [] (arrive sample_admin KafkaTopics.sample_answers 1 download_request
    (go 0%nat 7 [Some (str "01")] (go 0%nat 6 [] (go 0%nat 5 [] (arrive sample_admin KafkaTopics.sample_answers 0 login_request (initial 0 0)))))).
Definition no_flight : InFlight := {| if_request := login_request; if_session := None; if_prog := answer NotFound |}.
Definition sample_flight : InFlight := default no_flight (sy_requests sample_system !! 1%nat).
Definition sample_rest : Prog AdminReply := match if_prog sample_flight with Done p => p | _ => Spin end.
Definition sample_calls : list Action := (run (fun c => Err no_page) false sample_rest).1.
Definition downloads (x : Action) : bool :=
  match x with
  | Called (GetObject i) _ => bool_decide (oi_Bucket (ro_object i) = str "team1-a") && bool_decide (oi_Key (ro_object i) = str "k")
  | _ => false
  end.

Lemma sample_reachable :
  reachable sample_admin 0 0 (AuthLookup.verified_key 100000 10 Limiter.sample_limits AuthLookup.sample_run) sample_system.
Proof.
  assert (Hd : forall upn pass g, Gateway.sample_answers upn pass = Ok g ->
    AuthLookup.verified_key 100000 10 Limiter.sample_limits AuthLookup.sample_run upn pass g).
  { intros upn pass g. apply Gateway.answered_verified, Gateway.sample_answered. }
  unfold sample_system. cbv zeta. repeat first [apply advance_reachable; [exact Hd|] | apply arrive_reachable]. constructor.
Qed.

Lemma admin_calls_entitled_witness :
  fst <$> if_session sample_flight = Some (str "alice") /\
  exists c a, Called c a ∈ sample_calls /\ downloads (Called c a) = true /\
  exists upn pass g groups, AuthLookup.verified_key 100000 10 Limiter.sample_limits AuthLookup.sample_run upn pass g /\
    if_session sample_flight = Some (TrimSpace upn, groups) /\ Forall (entitles g) (call_needs c).
Proof.
  split; [vm_compute; reflexivity|].
  assert (E1 : sy_requests sample_system !! 1%nat = Some sample_flight).
  { assert (H : bool_decide (is_Some (sy_requests sample_system !! 1%nat)) = true) by (vm_compute; reflexivity).
    apply bool_decide_eq_true in H as [f Hf]. unfold sample_flight. rewrite Hf. reflexivity. }
  assert (E2 : if_prog sample_flight = Done sample_rest).
  { assert (H : match if_prog sample_flight with Done _ => true | _ => false end = true) by (vm_compute; reflexivity).
    unfold sample_rest. destruct (if_prog sample_flight); [reflexivity | discriminate H..]. }
  assert (H : match sample_calls with [Called c a] => downloads (Called c a) | _ => false end = true) by (vm_compute; reflexivity).
  pose proof (admin_calls_entitled 100000 10 Limiter.sample_limits AuthLookup.sample_run sample_admin 0 0 sample_system 1 sample_flight
    sample_rest _ _ sample_reachable E1 E2 (run_steps (fun c => Err no_page) false sample_rest)) as [Hc _].
  fold sample_calls in Hc. destruct sample_calls as [|[c a| |] [|]]; try discriminate H.
  exists c, a. split; [by left|]. split; [exact H|]. apply (Hc c a). by left.
Defined.

Lemma page_links_return_witness :
  exists query, bp_NextURL (with_listing (str "team1-a") (str "c1") [] [[]] ([], str "c2", true)
      (bucket_page_data 0 (str "alice") (str "team1-a") [] [] true false [])) = Some (str "/admin/bucket?" ++ query) /\
    read_position (ParseQuery query) = (str "team1-a", str "c2", Some [[]; str "c1"]) /\
    forall encoded' listing d', exists back,
      bp_PrevURL (with_listing (str "team1-a") (str "c2") encoded' [[]; str "c1"] listing d') = Some (str "/admin/bucket?" ++ back) /\
      read_position (ParseQuery back) = (str "team1-a", str "c1", Some [[]]).
Proof.
  assert (Hwc : well_formed (str "c1")) by (exists [99; 49]; split; [repeat constructor; lia | reflexivity]).
  assert (Hw : Forall well_formed [[]]) by (constructor; [by exists [] | constructor]).
  assert (Ht : Forall trimmed [[]]) by (repeat constructor).
  exact (page_links_return (str "team1-a") (str "c1") (str "c2") [] [[]] [] (bucket_page_data 0 (str "alice") (str "team1-a") [] [] true false [])
    eq_refl eq_refl eq_refl ltac:(discriminate) Hwc Hw Ht).
Defined.
End Witnesses.
