(* ===== verification/KafkaPop.v ===== *)
(** * One delivery of a Kafka record (src/internal/kafkapop/manager.go, Consume)

    [Consume] polls one record of a consumer group, hands it to a handler and
    commits it if the handler succeeds.  The Kafka client, the contexts and the
    handler are the environment: [Consume] is a program whose nodes are what it
    asks of them, and a run of it is the list of those questions with their
    answers.  The meaning of a run for the group is the consumer's cursor: where
    it reads next, and what is committed.  How consumers are shared between
    requests is in KafkaManager.v. *)

From S2P Require Import Prelude GoStrings.

#[local] Open Scope Z_scope.

(** ** Errors *)

(** The errors the program compares with [errors.Is]. *)
Inductive Sentinel :=
| ErrNoEvent | ErrConsumerLimit | ErrClosed | ErrRebalance
| Canceled | DeadlineExceeded                                  (* context *)
| errPopResponseHandled | errPopResponseInterrupted.           (* server/pop.go *)
#[global] Instance Sentinel_eq_dec : EqDecision Sentinel.
Proof. solve_decision. Defined.

(** A sentinel, an error of which nothing is known, or what [fmt.Errorf] with
    [%w] and [errors.Join] make of some errors. *)
Inductive goerror := Sent (s : Sentinel) | Opaque | Wrap (causes : list goerror).

Fixpoint errors_Is (e : goerror) (s : Sentinel) : bool :=
  match e with
  | Sent s' => bool_decide (s' = s)
  | Opaque => false
  | Wrap causes => (fix any l := match l with [] => false | c :: l => errors_Is c s || any l end) causes
  end.
(** [ctx.Err()] of a context that is done, and what [context.Cause] may be:
    the context's own error, or the one it was cancelled with. *)
Inductive ContextError := CtxCanceled | CtxDeadline.
Inductive Cause := CauseContext (e : ContextError) | CauseRebalance | CauseClosed.
Definition context_error (e : ContextError) : goerror := Sent match e with CtxCanceled => Canceled | CtxDeadline => DeadlineExceeded end.
Definition cause_error (c : Cause) : goerror :=
  match c with CauseContext e => context_error e | CauseRebalance => Sent ErrRebalance | CauseClosed => Sent ErrClosed end.

(** [errors.Join] of an error and one that may be nil. *)
Definition Join2 (e : goerror) (cause : option goerror) : goerror := Wrap (e :: option_list cause).

(** ** Records and what is asked of the environment *)

Record KRecord := {
  rec_Topic : gostring; rec_Partition : Z; rec_LeaderEpoch : Z; rec_Offset : Z; rec_Value : gostring
}.

Inductive Act :=
| Acquire (topic group : gostring)     (* m.acquire *)
| PollRecords                          (* fetches.Records() and fetches.Err() of one poll for one record *)
| HandleRecord (r : KRecord)
| CommitRecords (cancelled : bool) (r : KRecord)   (* whether its context was cancelled before the call *)
| SetOffsets (r : KRecord)
| AllowRebalance
| Release                              (* the gate, and m.release *)
| ForceErr | RebalanceErr              (* m.forceCtx.Err() != nil, rebalanceCtx.Err() != nil *)
| CtxErr                               (* ctx.Err() *)
| HandleCause | RebalanceCause.        (* context.Cause *)

(** A commit that fails may still have reached the broker: [applied], which the
    program does not see. *)
Inductive CommitAnswer := Committed | CommitFailed (e : goerror) (applied : bool).

Definition Ans (a : Act) : Type :=
  match a with
  | Acquire _ _ | HandleRecord _ => option goerror
  | CommitRecords _ _ => CommitAnswer
  | CtxErr => option ContextError
  | HandleCause => option Cause
  | RebalanceCause => bool                 (* ErrRebalance or nil *)
  | PollRecords => list KRecord * option goerror
  | SetOffsets _ | AllowRebalance | Release => unit
  | ForceErr | RebalanceErr => bool
  end.

Inductive KProg (R : Type) : Type :=
| KRet (r : R)
| Do (a : Act) (k : Ans a -> KProg R).
Arguments KRet {R} r.
Arguments Do {R} a k.

Fixpoint kbind {Q R} (p : KProg Q) (f : Q -> KProg R) : KProg R :=
  match p with KRet q => f q | Do a k => Do a (fun x => kbind (k x) f) end.

Notation "'ask!' x := a 'in' k" := (Do a (fun x => k)) (at level 10, x pattern, a at level 200, k at level 200) : go_scope.
Notation "'tell!' a 'in' k" := (Do a (fun _ => k)) (at level 10, a at level 200, k at level 200) : go_scope.

(** ** Consume *)

Definition rewindRecord {R} (r : KRecord) (k : KProg R) : KProg R := tell! SetOffsets r in k.

(** From the poll to the last return; [None] is a nil error. *)
Definition consume_record : KProg (option goerror) :=
  ask! (records, fetchErr) := PollRecords in
  ask! forced := ForceErr in
  if (forced : bool) then KRet (Some (Sent ErrClosed)) else
  ask! rebalancing := RebalanceErr in
  if (rebalancing : bool) then
    match records with
    | r :: _ => rewindRecord r (KRet (Some (Sent ErrRebalance)))
    | [] =>
      ask! cancelled := CtxErr in
      match cancelled with Some e => KRet (Some (context_error e)) | None => KRet (Some (Sent ErrNoEvent)) end
    end
  else
  match fetchErr with
  | Some e =>
    let fail :=
      let failed := KRet (Some (Wrap [e])) in
      if errors_Is e DeadlineExceeded then
        ask! cancelled := CtxErr in
        match cancelled with None => KRet (Some (Sent ErrNoEvent)) | Some _ => failed end
      else failed in
    match records with r :: _ => rewindRecord r fail | [] => fail end
  | None =>
    match records with
    | [] =>
      ask! cancelled := CtxErr in
      match cancelled with Some e => KRet (Some (Wrap [context_error e])) | None => KRet (Some (Sent ErrNoEvent)) end
    | r :: _ =>
      ask! handled := HandleRecord r in
      match handled with
      | Some e => rewindRecord r (ask! cause := HandleCause in KRet (Some (Wrap [Join2 e (cause_error <$> cause)])))
      | None =>
        ask! forced := ForceErr in
        if (forced : bool) then KRet (Some (Sent ErrClosed)) else
        ask! rebalancing := RebalanceErr in
        if (rebalancing : bool) then rewindRecord r (KRet (Some (Sent ErrRebalance))) else
        let commit cancelled :=
          ask! committed := CommitRecords cancelled r in
          match committed with
          | CommitFailed e _ => rewindRecord r (ask! rebalance := RebalanceCause in
              KRet (Some (Wrap [Join2 e (if (rebalance : bool) then Some (Sent ErrRebalance) else None)])))
          | Committed => KRet None
          end in
        ask! forced := ForceErr in
        if (forced : bool) then commit true else
        ask! rebalancing := RebalanceErr in commit rebalancing
      end
    end
  end.

Definition Consume (topic group : gostring) : KProg (option goerror) :=
  if decide (TrimSpace topic = []) then KRet (Some Opaque)
  else if decide (TrimSpace group = []) then KRet (Some Opaque)
  else
    ask! acquired := Acquire topic group in
    match acquired with
    | Some e => KRet (Some e)
    | None => kbind consume_record (fun res => tell! AllowRebalance in tell! Release in KRet res)
    end.

(** ** Runs *)

Inductive Obs := Did (a : Act) (x : Ans a).

Inductive runs {R} : KProg R -> list Obs -> R -> Prop :=
| runs_ret r : runs (KRet r) [] r
| runs_do a k x tr r : runs (k x) tr r -> runs (Do a k) (Did a x :: tr) r.

(** A run against an environment that answers a question from what it has been
    asked so far. *)
Fixpoint run_with {R} (env : list Obs -> forall a, Ans a) (past : list Obs) (p : KProg R) : list Obs * R :=
  match p with
  | KRet r => ([], r)
  | Do a k =>
    let x := env past a in
    let '(tr, r) := run_with env (past ++ [Did a x]) (k x) in (Did a x :: tr, r)
  end.

Lemma run_with_runs {R} env past (p : KProg R) : runs p (run_with env past p).1 (run_with env past p).2.
Proof.
  revert past. induction p as [r|a k IH]; intros past; cbn [run_with]; [constructor|].
  specialize (IH (env past a) (past ++ [Did a (env past a)])). destruct (run_with _ _ _). by constructor.
Qed.

(** What holds of all runs of a program after [past], by its branches. *)
Fixpoint holds {R} (Q : list Obs -> R -> Prop) (past : list Obs) (p : KProg R) : Prop :=
  match p with
  | KRet r => Q past r
  | Do a k => forall x, holds Q (past ++ [Did a x]) (k x)
  end.

Lemma holds_runs {R} Q past (p : KProg R) tr r : holds Q past p -> runs p tr r -> Q (past ++ tr) r.
Proof.
  intros H Hr. revert past H. induction Hr as [r|a k x tr r _ IH]; intros past H; cbn [holds] in H; [by rewrite app_nil_r|].
  specialize (IH _ (H x)). by rewrite <- app_assoc in IH.
Qed.

Lemma holds_bind {Q R} (P : list Obs -> R -> Prop) past (p : KProg Q) f :
  holds (fun past q => holds P past (f q)) past p -> holds P past (kbind p f).
Proof. revert past. induction p as [q|a k IH]; intros past H; cbn in *; [done | intros x; by apply IH]. Qed.

(** ** The cursor of a consumer *)

(** The partitions of a topic: the offset that is read next, and the offset the
    group resumes from. *)
Record Cursor := { position : gmap (gostring * Z) Z; committed : gmap (gostring * Z) Z }.

Definition place (r : KRecord) : gostring * Z := (rec_Topic r, rec_Partition r).
Definition move_to (offset : Z) (r : KRecord) (c : Cursor) : Cursor :=
  {| position := <[place r := offset]> (position c); committed := committed c |}.
Definition commit_past (r : KRecord) (c : Cursor) : Cursor :=
  {| position := position c; committed := <[place r := rec_Offset r + 1]> (committed c) |}.

(** What the client and the broker do to the cursor. *)
Definition observe (c : Cursor) (o : Obs) : Cursor :=
  match o with
  | Did PollRecords (records, _) => fold_left (fun c r => move_to (rec_Offset r + 1) r c) records c
  | Did (SetOffsets r) _ => move_to (rec_Offset r) r c
  | Did (CommitRecords _ r) Committed | Did (CommitRecords _ r) (CommitFailed _ true) => commit_past r c
  | _ => c
  end.
Definition after (c : Cursor) (tr : list Obs) : Cursor := fold_left observe tr c.

(** [PollRecords(ctx, 1)] returns at most one record. *)
Definition polls_one (tr : list Obs) : Prop :=
  Forall (fun o => match o with Did PollRecords (records, _) => (length records <= 1)%nat | _ => True end) tr.

(** The record a run has polled. *)
Fixpoint polled (tr : list Obs) : option KRecord :=
  match tr with
  | [] => None
  | Did PollRecords (records, _) :: _ => head records
  | _ :: tr => polled tr
  end.

(** ** What a delivery does *)

Definition is_exit (o : Obs) : bool :=
  match o with Did (Acquire _ _) _ | Did AllowRebalance _ | Did Release _ => true | _ => false end.
(** An acquired consumer lets the group rebalance and is released, once, at the end. *)
Definition released (tr : list Obs) : bool :=
  match tr with
  | [] | [Did (Acquire _ _) (Some _)] => true
  | Did (Acquire _ _) None :: tr =>
    match reverse tr with
    | Did Release _ :: Did AllowRebalance _ :: rest => forallb (fun o => negb (is_exit o)) rest
    | _ => false
    end
  | _ => false
  end.

(** The outcome of a delivery, in terms of its run: the group moves past a record
    only when the handler has taken it; after a failure it stays where it was -
    but for a commit of a taken record that failed and was applied all the same -
    and the record is read again, unless the client is being closed. *)
Definition taken (tr : list Obs) (r : KRecord) : Prop := polled tr = Some r /\ Did (HandleRecord r) None ∈ tr.
Definition delivery (c : Cursor) (tr : list Obs) (res : option goerror) : Prop :=
  (forall r x, Did (HandleRecord r) x ∈ tr -> polled tr = Some r) /\
  match res with
  | None => exists r, taken tr r /\ after c tr = commit_past r (move_to (rec_Offset r + 1) r c)
  | Some e =>
    (committed (after c tr) = committed c \/
     exists r cancelled e', taken tr r /\ Did (CommitRecords cancelled r) (CommitFailed e' true) ∈ tr /\
       committed (after c tr) = committed (commit_past r c)) /\
    (errors_Is e ErrClosed = true \/
     position (after c tr) = match polled tr with Some r => position (move_to (rec_Offset r) r c) | None => position c end)
  end.

Lemma move_to_twice a b r c : move_to a r (move_to b r c) = move_to a r c.
Proof. unfold move_to. f_equal. apply insert_insert_eq. Qed.

Lemma handled_in r x (tr : list Obs) o :
  Did (HandleRecord r) x ∈ o :: tr <-> Did (HandleRecord r) x = o \/ Did (HandleRecord r) x ∈ tr.
Proof. by rewrite elem_of_cons. Qed.

(** Two handled records are equal when their observations are. *)
Lemma Did_handle_inj r r' x x' : Did (HandleRecord r) x = Did (HandleRecord r') x' -> r = r'.
Proof. by intros [= ->]. Qed.

Ltac handle_cases :=
  repeat match goal with
  | H : Did (HandleRecord _) _ ∈ _ :: _ |- _ => apply handled_in in H as [H|H]
  | H : Did (HandleRecord _) _ ∈ [] |- _ => by apply elem_of_nil in H
  | H : Did (HandleRecord _) _ = Did (HandleRecord _) _ |- _ => apply Did_handle_inj in H as ->
  | H : Did (HandleRecord _) _ = Did _ _ |- _ => discriminate H
  end.

(** The run of a delivery, one branch of the program at a time. *)
Ltac each_answer :=
  repeat (cbn [holds kbind app];
    match goal with
    | |- forall x : Ans _, _ => let x := fresh "x" in intros x; cbn [Ans] in x; destruct x
    | |- context [if ?b then _ else _] => destruct b eqn:?
    | |- context [match ?l with [] => _ | _ :: _ => _ end] => destruct l
    | |- context [match ?e with Some _ => _ | None => _ end] => destruct e
    end).

Lemma polls_one_head r l e tr : polls_one tr -> Did PollRecords (r :: l, e) ∈ tr -> l = [].
Proof. intros H Hin. apply (proj1 (Forall_forall _ _) H) in Hin. destruct l; [done|]. cbn in Hin. lia. Qed.

Lemma committed_polls records c :
  committed (fold_left (fun c r => move_to (rec_Offset r + 1) r c) records c) = committed c.
Proof. revert c. induction records as [|r l IH]; intros c; [done|]. cbn [fold_left]. by rewrite IH. Qed.

Lemma consume_delivers c topic group :
  holds (fun tr res => polls_one tr -> delivery c tr res) [] (Consume topic group).
Proof.
  unfold Consume, consume_record, rewindRecord. each_answer; intros Hone.
  all: try match type of Hone with context [Did PollRecords (?r :: ?l, ?e)] =>
         assert (l = []) as -> by (apply (polls_one_head r l e _ Hone); by repeat constructor) end.
  all: split; [intros ? ? ?; handle_cases; try done|].
  all: try match goal with |- context [CommitFailed _ ?applied] => is_var applied; destruct applied end.
  all: cbn [after fold_left observe polled head move_to]; rewrite ?move_to_twice, ?committed_polls.
  all: try (eexists; split; [split; [reflexivity | by repeat constructor] | reflexivity]).
  all: split; [try (left; reflexivity) | first [left; reflexivity | right; reflexivity | right; cbn; by rewrite insert_insert_eq]].
  all: right; eexists _, _, _; (split; [split; [reflexivity | by repeat constructor]|]); (split; [by repeat constructor | reflexivity]).
Qed.

Lemma consume_releases topic group : holds (fun tr _ => released tr = true) [] (Consume topic group).
Proof. unfold Consume, consume_record, rewindRecord. each_answer; reflexivity. Qed.

(** C28. At-least-once delivery: a call of Consume moves its consumer group past a
    record only if the handler has taken that record, and it does so when it
    succeeds; after a failure the record that was polled is the next one to be
    read, unless the manager is being shut down, and the committed offsets are
    unchanged, unless a commit of a record the handler has taken was reported to
    fail and had been applied.  The handler sees
    only that record, and a consumer that was acquired is released exactly once,
    after the group has been allowed to rebalance. *)
Theorem consume_at_least_once c topic group tr res :
  runs (Consume topic group) tr res -> polls_one tr -> delivery c tr res /\ released tr = true.
Proof.
  intros Hr Hone. split.
  - exact (holds_runs _ _ _ _ _ (consume_delivers c topic group) Hr Hone).
  - exact (holds_runs _ _ _ _ _ (consume_releases topic group) Hr).
Qed.

(** The record the handler was given, and its error. *)
Fixpoint handled (tr : list Obs) : option (KRecord * option goerror) :=
  match tr with
  | [] => None
  | Did (HandleRecord r) x :: _ => Some (r, x)
  | _ :: tr => handled tr
  end.

Lemma cause_sentinel c s : errors_Is (cause_error c) s = true -> s ∈ [ErrRebalance; ErrClosed; Canceled; DeadlineExceeded].
Proof. destruct c as [[]| |]; cbn; intros <-%bool_decide_eq_true; rewrite !elem_of_cons; auto. Qed.

(** The record an observation commits, and the record a commit is asked for,
    whatever becomes of it. *)
Definition commit_of (o : Obs) : option KRecord := match o with Did (CommitRecords _ r) Committed => Some r | _ => None end.
Definition commit_asked (o : Obs) : option KRecord := match o with Did (CommitRecords _ r) _ => Some r | _ => None end.

(** A commit needs a handler that succeeded, and then nothing else can fail; the
    result of a failed handler carries its error. *)
Lemma consume_handled topic group :
  holds (fun tr res =>
    (forall o r, o ∈ tr -> commit_of o = Some r -> handled tr = Some (r, None) /\ res = None) /\
    (forall o r, o ∈ tr -> commit_asked o = Some r -> handled tr = Some (r, None)) /\
    (res = None -> exists r, handled tr = Some (r, None)) /\
    (forall r e, handled tr = Some (r, Some e) ->
       exists e', res = Some e' /\ forall s,
         (errors_Is e s = true -> errors_Is e' s = true) /\
         (errors_Is e' s = true -> errors_Is e s = true \/ s ∈ [ErrRebalance; ErrClosed; Canceled; DeadlineExceeded])))
    [] (Consume topic group).
Proof.
  unfold Consume, consume_record, rewindRecord. each_answer; cbn [handled].
  all: do 2 (split; [intros o' r Hin; repeat (apply elem_of_cons in Hin as [-> |Hin]; [cbn; try done; by intros [= <-]|]); by apply elem_of_nil in Hin|]).
  all: split; [try done; intros _; by eexists|].
  all: intros r' e'; try done; intros [= <- <-]; eexists; (split; [reflexivity|]); intros s'; cbn; (split; [by intros ->|]).
  all: rewrite !orb_false_r; try (intros [?|?%cause_sentinel]%orb_true_iff); auto.
Qed.

(** ** Witness *)

(** A client with one record, whose commit fails after the broker has applied it. *)
Definition sample_record : KRecord :=
  {| rec_Topic := str "team1-data"; rec_Partition := 3; rec_LeaderEpoch := 1; rec_Offset := 41; rec_Value := str "{}" |}.
Definition sample_env (past : list Obs) (a : Act) : Ans a :=
  match a with
  | PollRecords => ([sample_record], None)
  | CommitRecords _ _ => CommitFailed Opaque true
  | Acquire _ _ | HandleRecord _ | CtxErr | HandleCause => None
  | SetOffsets _ | AllowRebalance | Release => tt
  | ForceErr | RebalanceErr | RebalanceCause => false
  end.
Definition sample_cursor : Cursor := {| position := {[(str "team1-data", 3) := 41]}; committed := {[(str "team1-data", 3) := 41]} |}.
Definition sample_consume : list Obs * option goerror := run_with sample_env [] (Consume (str "team1-data") (str "alice:g")).

Lemma consume_at_least_once_witness :
  position (after sample_cursor sample_consume.1) !! (str "team1-data", 3) = Some 41 /\
  committed (after sample_cursor sample_consume.1) !! (str "team1-data", 3) = Some 42 /\
  delivery sample_cursor sample_consume.1 sample_consume.2 /\ released sample_consume.1 = true.
Proof.
  split; [vm_compute; reflexivity|]. split; [vm_compute; reflexivity|].
  apply (consume_at_least_once sample_cursor (str "team1-data") (str "alice:g") sample_consume.1 sample_consume.2 (run_with_runs _ _ _)).
  vm_compute. repeat constructor.
Defined.
