(* ===== verification/KafkaManager.v ===== *)
(** * Consumers of Kafka groups, shared by requests (src/internal/kafkapop/manager.go)

    The manager keeps at most one Kafka client per topic and group.  A call of
    [Consume] pins the consumer of its group, waits for the consumer's gate, uses
    the client and releases it; consumers nobody uses are closed after a while,
    or at once when a new group needs their place; [CloseContext] ends them all.
    What a call does while it holds the gate is in KafkaPop.v.

    Each section that runs under the manager's lock is a function on the
    manager; the calls, the idle timers and the closing workers interleave, so
    the system is a step relation.  Its invariants on pins and idle timers are
    proved here, and what follows for the callers in KafkaGuarantees.v.

    A step may be taken by the model whenever the code could take it for some
    state of the contexts.  Not modelled: that at most eight workers close
    consumers at a time, and the errors of closing, which are only joined into
    the result.  An idle generation is a [nat]; the code's counter has 64 bits. *)

From stdpp Require Import relations.
From S2P Require Import Prelude GoStrings KafkaPop.

#[local] Open Scope Z_scope.

(** ** State *)

Definition consumerKey : Type := gostring * gostring.

(** Who holds the one permit of a consumer's gate. *)
Inductive Holder := ByCall (t : nat) | ByCloser.

Record groupConsumer := {
  gc_key : consumerKey; gc_gate : option Holder; gc_closed : bool (* the Kafka client is closed *);
  gc_lastUsed : instant; gc_users : Z; gc_idleTimer : option nat; gc_idleGeneration : nat
}.

(** Where a call is, from the lock section of [acquire] to its last [release]. *)
Inductive Phase :=
| Evicting (c victim : nat)     (* closing the consumer it has displaced *)
| Waiting (c : nat)             (* the select of waitForConsumer *)
| Permitted (c : nat)           (* has the permit, before the second check *)
| Using (c : nat)
| Releasing (c : nat).          (* has given the permit back *)
Definition pinned (p : Phase) : nat :=
  match p with Evicting c _ | Waiting c | Permitted c | Using c | Releasing c => c end.

(** An idle timer: not fired, its callback running, or closing the consumer. *)
Inductive TimerState := TPending | TStarted | TClosing.
(** A consumer in the hands of [CloseContext]: queued, or being closed with or
    without its permit. *)
Inductive CloseState := Queued | Closing (permit : bool).
#[global] Instance Holder_eq_dec : EqDecision Holder.
Proof. solve_decision. Defined.
#[global] Instance Phase_eq_dec : EqDecision Phase.
Proof. solve_decision. Defined.
#[global] Instance TimerState_eq_dec : EqDecision TimerState.
Proof. solve_decision. Defined.
#[global] Instance CloseState_eq_dec : EqDecision CloseState.
Proof. solve_decision. Defined.

Record Manager := {
  consumers : gmap consumerKey nat; heap : gmap nat groupConsumer; calls : gmap nat Phase;
  timers : gmap (nat * nat) TimerState; closing : gmap nat CloseState;
  closers : Z (* the wait group *); isClosed : bool; forced : bool; closeDone : bool
}.

Definition newManager : Manager :=
  {| consumers := ∅; heap := ∅; calls := ∅; timers := ∅; closing := ∅; closers := 0; isClosed := false; forced := false;
     closeDone := false |}.

Definition with_consumers f (m : Manager) : Manager :=
  {| consumers := f (consumers m); heap := heap m; calls := calls m; timers := timers m; closing := closing m;
     closers := closers m; isClosed := isClosed m; forced := forced m; closeDone := closeDone m |}.
Definition with_heap f (m : Manager) : Manager :=
  {| consumers := consumers m; heap := f (heap m); calls := calls m; timers := timers m; closing := closing m;
     closers := closers m; isClosed := isClosed m; forced := forced m; closeDone := closeDone m |}.
Definition with_calls f (m : Manager) : Manager :=
  {| consumers := consumers m; heap := heap m; calls := f (calls m); timers := timers m; closing := closing m;
     closers := closers m; isClosed := isClosed m; forced := forced m; closeDone := closeDone m |}.
(** The timers, and an addition to the wait group that counts them. *)
Definition with_timers f (add : Z) (m : Manager) : Manager :=
  {| consumers := consumers m; heap := heap m; calls := calls m; timers := f (timers m); closing := closing m;
     closers := closers m + add; isClosed := isClosed m; forced := forced m; closeDone := closeDone m |}.
Definition with_closing f (m : Manager) : Manager :=
  {| consumers := consumers m; heap := heap m; calls := calls m; timers := timers m; closing := f (closing m);
     closers := closers m; isClosed := isClosed m; forced := forced m; closeDone := closeDone m |}.
Definition with_flags closed force done (m : Manager) : Manager :=
  {| consumers := consumers m; heap := heap m; calls := calls m; timers := timers m; closing := closing m;
     closers := closers m; isClosed := closed; forced := force; closeDone := done |}.

Definition set_gate (g : option Holder) (x : groupConsumer) : groupConsumer :=
  {| gc_key := gc_key x; gc_gate := g; gc_closed := gc_closed x; gc_lastUsed := gc_lastUsed x; gc_users := gc_users x;
     gc_idleTimer := gc_idleTimer x; gc_idleGeneration := gc_idleGeneration x |}.
Definition set_closed (x : groupConsumer) : groupConsumer :=
  {| gc_key := gc_key x; gc_gate := gc_gate x; gc_closed := true; gc_lastUsed := gc_lastUsed x; gc_users := gc_users x;
     gc_idleTimer := gc_idleTimer x; gc_idleGeneration := gc_idleGeneration x |}.
Definition set_use (users : Z) (now : instant) (x : groupConsumer) : groupConsumer :=
  {| gc_key := gc_key x; gc_gate := gc_gate x; gc_closed := gc_closed x; gc_lastUsed := now; gc_users := users;
     gc_idleTimer := gc_idleTimer x; gc_idleGeneration := gc_idleGeneration x |}.
Definition set_idleTimer (t : option nat) (x : groupConsumer) : groupConsumer :=
  {| gc_key := gc_key x; gc_gate := gc_gate x; gc_closed := gc_closed x; gc_lastUsed := gc_lastUsed x; gc_users := gc_users x;
     gc_idleTimer := t; gc_idleGeneration := gc_idleGeneration x |}.
(** [idleGeneration++] and the timer of that generation. *)
Definition arm (x : groupConsumer) : groupConsumer :=
  {| gc_key := gc_key x; gc_gate := gc_gate x; gc_closed := gc_closed x; gc_lastUsed := gc_lastUsed x; gc_users := gc_users x;
     gc_idleTimer := Some (S (gc_idleGeneration x)); gc_idleGeneration := S (gc_idleGeneration x) |}.

Section Manager.
Context {MI : MapIter} (maxConsumers : Z).

(** ** The lock sections *)

(** [Stop] succeeds on a timer that has not fired. *)
Definition stopIdleTimer (c : nat) (m : Manager) : Manager :=
  match heap m !! c ≫= gc_idleTimer with
  | None => m
  | Some g =>
    with_heap (alter (set_idleTimer None) c)
      match timers m !! (c, g) with
      | Some TPending => with_timers (delete (c, g)) (-1) m
      | _ => m
      end
  end.

(** One candidate of the loop that looks for an unused consumer. *)
Definition older_candidate (m : Manager) (evicted : option (nat * instant)) (candidate : consumerKey * nat)
    : option (nat * instant) :=
  match heap m !! candidate.2 with
  | None => evicted
  | Some x =>
    if negb (gc_users x =? 0) then evicted
    else
      match evicted with
      | None => Some (candidate.2, gc_lastUsed x)
      | Some (_, last) => if gc_lastUsed x <? last then Some (candidate.2, gc_lastUsed x) else evicted
      end
  end.
Definition eviction (m : Manager) : option nat := fst <$> fold_left (older_candidate m) (map_iter (consumers m)) None.

Definition new_consumer (key : consumerKey) (now : instant) : groupConsumer :=
  {| gc_key := key; gc_gate := None; gc_closed := false; gc_lastUsed := now; gc_users := 1; gc_idleTimer := None;
     gc_idleGeneration := 0 |}.
Definition detach (c : nat) (m : Manager) : Manager :=
  match heap m !! c with Some x => with_consumers (delete (gc_key x)) m | None => m end.

(** [acquire] under the lock: the consumer the call pins, where the call goes on,
    or its error.  [c] is the address of a new consumer, and [client] whether its
    Kafka client could be made. *)
Definition acquire (key : consumerKey) (now : instant) (c : nat) (client : bool) (m : Manager) : result goerror (Manager * Phase) :=
  if isClosed m then Err (Sent ErrClosed)
  else
    match consumers m !! key with
    | Some c =>
      Ok (with_heap (alter (fun x => set_use (gc_users x + 1) now x) c) (stopIdleTimer c m), Waiting c)
    | None =>
      let full := maxConsumers <=? Z.of_nat (size (consumers m)) in
      match (if full then eviction m else None) with
      | None =>
        if full then Err (Sent ErrConsumerLimit)
        else if negb client then Err (Wrap [Opaque])
        else Ok (with_consumers (insert key c) (with_heap (insert c (new_consumer key now)) m), Waiting c)
      | Some victim =>
        if negb client then Err (Wrap [Opaque])
        else
          Ok (with_consumers (insert key c) (with_heap (insert c (new_consumer key now))
               (detach victim (with_timers id 1 (stopIdleTimer victim m)))), Evicting c victim)
      end
    end.

Definition release (c : nat) (now : instant) (m : Manager) : Manager :=
  match heap m !! c with
  | None => m
  | Some x =>
    let users := if 0 <? gc_users x then gc_users x - 1 else gc_users x in
    let m1 := with_heap (alter (set_use users now) c) m in
    if (users =? 0) && negb (isClosed m) then
      with_timers (insert (c, S (gc_idleGeneration x)) TPending) 1 (with_heap (alter arm c) m1)
    else m1
  end.

(** [expireConsumer] of the timer of generation [g]: whether the consumer is
    detached, to be closed. *)
Definition expireConsumer (c g : nat) (m : Manager) : Manager :=
  let stale := with_timers (delete (c, g)) (-1) m in
  match heap m !! c with
  | None => stale
  | Some x =>
    if isClosed m || negb (gc_users x =? 0) || bool_decide (gc_idleTimer x = None) || negb (gc_idleGeneration x =? g)%nat ||
       negb (bool_decide (consumers m !! gc_key x = Some c))
    then stale
    else with_timers (insert (c, g) TClosing) 0 (with_heap (alter (set_idleTimer None) c) (with_consumers (delete (gc_key x)) m))
  end.

(** [CloseContext] under the lock: no consumer is left to acquire. *)
Definition close_consumers (m : Manager) : Manager :=
  let open := map snd (map_iter (consumers m)) in
  let m := fold_left (fun m c => stopIdleTimer c m) open m in
  with_consumers (fun _ => ∅) (with_closing (fun q => fold_left (fun q c => <[c := Queued]> q) open q)
    (with_flags true (forced m) (closeDone m) m)).

(** [closeConsumer]: the Kafka client is closed when [CloseContext] returns. *)
Definition closeConsumer (c : nat) (m : Manager) : Manager := with_heap (alter set_closed c) m.

(** ** Steps *)

Definition put_call (t : nat) (p : Phase) : Manager -> Manager := with_calls (insert t p).
Definition put_gate (c : nat) (g : option Holder) : Manager -> Manager := with_heap (alter (set_gate g) c).
Definition free_gate (m : Manager) (c : nat) : Prop := exists x, heap m !! c = Some x /\ gc_gate x = None.

Inductive step : Manager -> Manager -> Prop :=
(* calls *)
| step_acquire m t key now c client m' p :
    calls m !! t = None -> heap m !! c = None -> acquire key now c client m = Ok (m', p) -> step m (put_call t p m')
| step_evicted m t c victim : calls m !! t = Some (Evicting c victim) ->
    step m (put_call t (Waiting c) (with_timers id (-1) (closeConsumer victim m)))
| step_permit m t c : calls m !! t = Some (Waiting c) -> free_gate m c ->
    step m (put_call t (Permitted c) (put_gate c (Some (ByCall t)) m))
| step_abandon m t c : calls m !! t = Some (Waiting c) -> step m (put_call t (Releasing c) m)
| step_enter m t c : calls m !! t = Some (Permitted c) -> isClosed m = false -> step m (put_call t (Using c) m)
| step_leave m t c : calls m !! t = Some (Permitted c) \/ calls m !! t = Some (Using c) ->
    step m (put_call t (Releasing c) (put_gate c None m))
| step_release m t c now : calls m !! t = Some (Releasing c) -> step m (with_calls (delete t) (release c now m))
(* idle timers *)
| step_fire m c g : timers m !! (c, g) = Some TPending -> step m (with_timers (insert (c, g) TStarted) 0 m)
| step_expire m c g : timers m !! (c, g) = Some TStarted -> step m (expireConsumer c g m)
| step_expired m c g : timers m !! (c, g) = Some TClosing ->
    step m (with_timers (delete (c, g)) (-1) (closeConsumer c m))
(* CloseContext *)
| step_force m : step m (with_flags (isClosed m) true (closeDone m) m)
| step_close m : isClosed m = false -> step m (close_consumers m)
| step_close_permit m c : closing m !! c = Some Queued -> free_gate m c ->
    step m (with_closing (insert c (Closing true)) (put_gate c (Some ByCloser) m))
| step_close_forced m c : closing m !! c = Some Queued -> forced m = true -> step m (with_closing (insert c (Closing false)) m)
| step_closed m c permit : closing m !! c = Some (Closing permit) ->
    step m (with_closing (delete c) ((if permit : bool then put_gate c None else id) (closeConsumer c m)))
| step_done m : isClosed m = true -> closing m = ∅ -> closers m = 0 -> step m (with_flags true (forced m) true m).

Definition reachable : Manager -> Prop := rtc step newManager.

End Manager.

(** ** Counting calls *)

Section Count.
Context {A : Type} (P : A -> Prop) `{!forall a, Decision (P a)}.

Definition count (m : gmap nat A) : Z := Z.of_nat (size (filter (fun kv => P kv.2) m)).

Lemma count_insert t a m : m !! t = None -> count (<[t := a]> m) = (if decide (P a) then 1 else 0) + count m.
Proof.
  intros Ht. unfold count. destruct (decide (P a)) as [HP|HP].
  - rewrite map_filter_insert_True by done. rewrite map_size_insert_None by (by apply map_lookup_filter_None_2; left). lia.
  - rewrite map_filter_insert_False by done. rewrite delete_id by done. lia.
Qed.
Lemma count_delete t a m : m !! t = Some a -> count m = (if decide (P a) then 1 else 0) + count (delete t m).
Proof. intros Ht. rewrite <- (insert_delete_id m t a Ht) at 1. apply count_insert, lookup_delete_eq. Qed.
Lemma count_put t a b m : m !! t = Some a ->
  count (<[t := b]> m) = (if decide (P b) then 1 else 0) - (if decide (P a) then 1 else 0) + count m.
Proof.
  intros Ht. rewrite (count_delete t a m Ht), <- insert_delete_eq, count_insert by apply lookup_delete_eq. lia.
Qed.
Lemma count_pos t a m : m !! t = Some a -> P a -> 0 < count m.
Proof. intros Ht HP. rewrite (count_delete t a m Ht), decide_True by done. unfold count. lia. Qed.
Lemma count_nonneg m : 0 <= count m.
Proof. unfold count. lia. Qed.
End Count.

(** ** Pins: who uses which consumer *)

Definition core (x : groupConsumer) : consumerKey * Z := (gc_key x, gc_users x).

(** Over the map of consumers, the keys and use counts of all consumers ever
    made, and the consumer each call has pinned. *)
Record books (max : Z) (cs : gmap consumerKey nat) (co : gmap nat (consumerKey * Z)) (pi : gmap nat nat) (closed : bool) : Prop := {
  b_in k c : cs !! k = Some c -> exists u, co !! c = Some (k, u);
  b_pinned t c : pi !! t = Some c -> is_Some (co !! c);
  b_users c k u : co !! c = Some (k, u) -> u = count (eq c) pi;
  b_used c k u : co !! c = Some (k, u) -> 0 < u -> closed = false -> cs !! k = Some c;
  b_max : Z.of_nat (size cs) <= max;
  b_closed : closed = true -> cs = ∅
}.

Section Books.
Context (max : Z).

Lemma books_new_pin cs co pi k c t u :
  books max cs co pi false -> cs !! k = Some c -> co !! c = Some (k, u) -> pi !! t = None ->
  books max cs (<[c := (k, u + 1)]> co) (<[t := c]> pi) false.
Proof.
  intros [Hin Hpin Hus Hud Hmax Hcl] Hk Hc Ht. split; [| | | |done|done].
  - intros k' c' H'. destruct (decide (c' = c)) as [->|Hne].
    + destruct (Hin _ _ H') as [u' Hu]. rewrite Hc in Hu. injection Hu as -> ->. exists (u' + 1). by rewrite lookup_insert_eq.
    + rewrite lookup_insert_ne by done. by apply Hin.
  - intros t' c' [[-> ->]|[? H']]%lookup_insert_Some; [by rewrite lookup_insert_eq|].
    destruct (decide (c' = c)) as [->|Hne]; [by rewrite lookup_insert_eq|]. rewrite lookup_insert_ne by done. by eapply Hpin.
  - intros c' k' u' [[-> [= <- <-]]|[Hne H']]%lookup_insert_Some.
    + rewrite count_insert, decide_True by done. rewrite (Hus _ _ _ Hc). lia.
    + rewrite count_insert, decide_False by done. by rewrite <- (Hus _ _ _ H').
  - intros c' k' u' [[-> [= <- <-]]|[Hne H']]%lookup_insert_Some; [done | by eapply Hud].
Qed.

Lemma books_new cs co pi k c t :
  books max cs co pi false -> cs !! k = None -> co !! c = None -> pi !! t = None -> Z.of_nat (size cs) < max ->
  books max (<[k := c]> cs) (<[c := (k, 1)]> co) (<[t := c]> pi) false.
Proof.
  intros [Hin Hpin Hus Hud Hmax Hcl] Hk Hc Ht Hs. split; [| | | | |done].
  - intros k' c' [[<- <-]|[? H']]%lookup_insert_Some; [exists 1; by rewrite lookup_insert_eq|].
    destruct (Hin _ _ H') as [u Hu]. exists u. rewrite lookup_insert_ne; [done | congruence].
  - intros t' c' [[-> ->]|[? H']]%lookup_insert_Some; [by rewrite lookup_insert_eq|].
    apply Hpin in H' as [y Hy]. exists y. rewrite lookup_insert_ne; [done | congruence].
  - intros c' k' u' [[-> [= <- <-]]|[Hne H']]%lookup_insert_Some.
    + rewrite count_insert, decide_True by done. unfold count. rewrite map_empty_filter_2; [done|].
      intros t' c'' H' Heq. cbn in Heq. subst c''. apply Hpin in H' as [y Hy]. congruence.
    + rewrite count_insert, decide_False by done. by rewrite <- (Hus _ _ _ H').
  - intros c' k' u' [[-> [= <- <-]]|[Hne H']]%lookup_insert_Some; [by rewrite lookup_insert_eq|].
    intros Hu _. pose proof (Hud _ _ _ H' Hu eq_refl) as Hk'. rewrite lookup_insert_ne; [done | congruence].
  - rewrite map_size_insert_None by done. lia.
Qed.

(** An unused consumer leaves the map. *)
Lemma books_drop cs co pi k c closed :
  books max cs co pi closed -> co !! c = Some (k, 0) -> cs !! k = Some c -> books max (delete k cs) co pi closed.
Proof.
  intros [Hin Hpin Hus Hud Hmax Hcl] Hc Hk. split; [|done|done| | |].
  - intros k' c' [? H']%lookup_delete_Some. by apply Hin.
  - intros c' k' u' H' Hu Hcl'. pose proof (Hud _ _ _ H' Hu Hcl') as Hk'.
    rewrite lookup_delete_ne; [done|]. intros <-. rewrite Hk in Hk'. injection Hk' as <-. rewrite Hc in H'. injection H' as <-. lia.
  - rewrite map_size_delete, Hk. lia.
  - intros ->. by rewrite (Hcl eq_refl), delete_empty.
Qed.

Lemma books_unpin cs co pi k c t u closed :
  books max cs co pi closed -> co !! c = Some (k, u) -> pi !! t = Some c ->
  0 < u /\ books max cs (<[c := (k, u - 1)]> co) (delete t pi) closed.
Proof.
  intros [Hin Hpin Hus Hud Hmax Hcl] Hc Ht. pose proof (Hus _ _ _ Hc) as Hu. rewrite (count_delete _ _ _ _ Ht), decide_True in Hu by done.
  pose proof (count_nonneg (eq c) (delete t pi)). split; [lia|]. split; [| | | |done|done].
  - intros k' c' H'. destruct (decide (c' = c)) as [->|Hne].
    + destruct (Hin _ _ H') as [u' Hu']. rewrite Hc in Hu'. injection Hu' as -> ->. eexists. by rewrite lookup_insert_eq.
    + rewrite lookup_insert_ne by done. by apply Hin.
  - intros t' c' [? H']%lookup_delete_Some. destruct (decide (c' = c)) as [->|Hne]; [by rewrite lookup_insert_eq|].
    rewrite lookup_insert_ne by done. by eapply Hpin.
  - intros c' k' u' [[-> [= <- <-]]|[Hne H']]%lookup_insert_Some; [lia|].
    rewrite (Hus _ _ _ H'), (count_delete _ _ _ _ Ht), decide_False by done. lia.
  - intros c' k' u' [[-> [= <- <-]]|[Hne H']]%lookup_insert_Some; [|by eapply Hud]. intros ?. eapply Hud; [done | lia].
Qed.

Lemma books_close cs co pi closed : 0 <= max -> books max cs co pi closed -> books max ∅ co pi true.
Proof. intros H0 [Hin Hpin Hus Hud Hmax Hcl]. split; done. Qed.

End Books.

(** ** The effect of the lock sections on the pins *)

Definition cores (m : Manager) : gmap nat (consumerKey * Z) := core <$> heap m.
Definition pins (m : Manager) : gmap nat nat := pinned <$> calls m.

Lemma alter_Some {A} (f : A -> A) (h : gmap nat A) c x : h !! c = Some x -> alter f c h = <[c := f x]> h.
Proof.
  intros Hc. apply map_eq. intros d. destruct (decide (c = d)) as [<-|Hne].
  - by rewrite lookup_alter_eq, lookup_insert_eq, Hc.
  - by rewrite lookup_alter_ne, lookup_insert_ne by done.
Qed.
Lemma alter_None {A} (f : A -> A) (h : gmap nat A) c : h !! c = None -> alter f c h = h.
Proof.
  intros Hc. apply map_eq. intros d. destruct (decide (c = d)) as [<-|Hne]; [by rewrite lookup_alter_eq, Hc | by rewrite lookup_alter_ne].
Qed.
Lemma core_alter (f : groupConsumer -> groupConsumer) (h : gmap nat groupConsumer) c : (forall x, core (f x) = core x) -> core <$> alter f c h = core <$> h.
Proof.
  intros Hf. destruct (h !! c) as [x|] eqn:Hc; [|by rewrite alter_None].
  rewrite (alter_Some _ _ _ x Hc), fmap_insert, Hf, <- fmap_insert. f_equal. by apply insert_id.
Qed.

Lemma stop_heap c m : heap (stopIdleTimer c m) = alter (set_idleTimer None) c (heap m).
Proof.
  unfold stopIdleTimer. destruct (heap m !! c) as [x|] eqn:Hc; cbn [mbind option_bind].
  - destruct (gc_idleTimer x) eqn:Ht; [by destruct (timers m !! _) as [[]|]|].
    rewrite (alter_Some _ _ _ x Hc). symmetry. apply insert_id. rewrite Hc. f_equal. destruct x. cbn in *. by subst.
  - by rewrite alter_None.
Qed.
(** Everything else but the timers is as before. *)
Lemma stop_rest c m :
  let m' := stopIdleTimer c m in
  consumers m' = consumers m /\ calls m' = calls m /\ closing m' = closing m /\ isClosed m' = isClosed m /\
  forced m' = forced m /\ closeDone m' = closeDone m.
Proof. unfold stopIdleTimer. destruct (heap m !! c ≫= gc_idleTimer); [|done]. by destruct (timers m !! _) as [[]|]. Qed.
Ltac stop_simpl := repeat match goal with
  | |- context [heap (stopIdleTimer ?c ?m)] => rewrite (stop_heap c m)
  | |- context [consumers (stopIdleTimer ?c ?m)] => rewrite (proj1 (stop_rest c m))
  | |- context [calls (stopIdleTimer ?c ?m)] => rewrite (proj1 (proj2 (stop_rest c m)))
  | |- context [closing (stopIdleTimer ?c ?m)] => rewrite (proj1 (proj2 (proj2 (stop_rest c m))))
  | |- context [isClosed (stopIdleTimer ?c ?m)] => rewrite (proj1 (proj2 (proj2 (proj2 (stop_rest c m)))))
  | |- context [forced (stopIdleTimer ?c ?m)] => rewrite (proj1 (proj2 (proj2 (proj2 (proj2 (stop_rest c m))))))
  | |- context [closeDone (stopIdleTimer ?c ?m)] => rewrite (proj2 (proj2 (proj2 (proj2 (proj2 (stop_rest c m))))))
  end.

Lemma detach_eq c m x : heap m !! c = Some x -> detach c m = with_consumers (delete (gc_key x)) m.
Proof. unfold detach. by intros ->. Qed.
Ltac unfold_manager :=
  unfold put_call, put_gate, closeConsumer, with_calls, with_heap, with_consumers, with_timers, with_closing, with_flags in *;
  cbn [consumers heap calls timers closing closers isClosed forced closeDone] in *.

Lemma core_stop c m : cores (stopIdleTimer c m) = cores m.
Proof. unfold cores. rewrite stop_heap. by apply core_alter. Qed.

Section Steps.
Context {MI : MapIter} (maxConsumers : Z).

(** The candidate after a part of the map: unused, and used least recently of
    the unused ones; none only if all are in use. *)
Definition best (m : Manager) (seen : list (consumerKey * nat)) (acc : option (nat * instant)) : Prop :=
  (forall v last, acc = Some (v, last) -> exists k x, (k, v) ∈ seen /\ heap m !! v = Some x /\ gc_users x = 0 /\ gc_lastUsed x = last) /\
  forall k c x, (k, c) ∈ seen -> heap m !! c = Some x -> gc_users x = 0 ->
    exists v last, acc = Some (v, last) /\ last <= gc_lastUsed x.

Lemma best_snoc m seen acc kc : best m seen acc -> best m (seen ++ [kc]) (older_candidate m acc kc).
Proof.
  intros [Hsome Hall]. destruct kc as [k c]. unfold older_candidate. cbn [snd].
  assert (Hkeep : forall v last, acc = Some (v, last) ->
    exists k' x, (k', v) ∈ seen ++ [(k, c)] /\ heap m !! v = Some x /\ gc_users x = 0 /\ gc_lastUsed x = last).
  { intros v last Ha. destruct (Hsome v last Ha) as (k' & x & ? & ?). exists k', x. by rewrite elem_of_app; auto. }
  destruct (heap m !! c) as [x|] eqn:Hx.
  2: { split; [done|]. intros k' c' x' [Hin|[= -> ->]%list_elem_of_singleton]%elem_of_app Hx'; [by eapply Hall | congruence]. }
  destruct (Z.eqb_spec (gc_users x) 0) as [H0|H0]; cbn [negb].
  2: { split; [done|]. intros k' c' x' [Hin|[= -> ->]%list_elem_of_singleton]%elem_of_app Hx'; [by eapply Hall | congruence]. }
  assert (Hnew : exists k' x', (k', c) ∈ seen ++ [(k, c)] /\ heap m !! c = Some x' /\ gc_users x' = 0 /\ gc_lastUsed x' = gc_lastUsed x).
  { exists k, x. split; [rewrite elem_of_app; right; by apply list_elem_of_singleton | done]. }
  destruct acc as [[a last]|]; [destruct (Z.ltb_spec (gc_lastUsed x) last) as [Hlt|Hge]|]; (split; [try done; try (by intros ? ? [= <- <-])|]).
  all: intros k' c' x' [Hin|[= -> ->]%list_elem_of_singleton]%elem_of_app Hx' H0'.
  all: try (rewrite Hx in Hx'; injection Hx' as <-; by eexists _, _; split; [reflexivity | lia]).
  all: destruct (Hall _ _ _ Hin Hx' H0') as (? & ? & [= <- <-] & ?); eexists _, _; (split; [reflexivity | lia]).
Qed.

Lemma best_fold m l : forall seen acc, best m seen acc -> best m (seen ++ l) (fold_left (older_candidate m) l acc).
Proof.
  induction l as [|kc l IH]; intros seen acc H; cbn [fold_left]; [by rewrite app_nil_r|].
  replace (seen ++ kc :: l) with ((seen ++ [kc]) ++ l) by (by rewrite <- app_assoc). by apply IH, best_snoc.
Qed.

(** The evicted consumer is one nobody uses, and of those one used least recently. *)
Lemma eviction_Some m v :
  eviction m = Some v ->
  exists k x, consumers m !! k = Some v /\ heap m !! v = Some x /\ gc_users x = 0 /\
    forall k' c y, consumers m !! k' = Some c -> heap m !! c = Some y -> gc_users y = 0 -> gc_lastUsed x <= gc_lastUsed y.
Proof.
  unfold eviction. assert (H0 : best m [] None) by (by split; [|intros ? ? ? ?%elem_of_nil]).
  apply (best_fold m (map_iter (consumers m))) in H0 as [Hs Ha]. cbn [app] in *.
  destruct (fold_left _ _ _) as [[v' last]|]; [|done]. cbn. intros [= ->].
  destruct (Hs v last eq_refl) as (k & x & Hk%elem_of_map_iter & Hx & Hu & Hl). exists k, x. repeat (split; [done|]).
  intros k' c y Hk'%elem_of_map_iter Hy Hu'. destruct (Ha _ _ _ Hk' Hy Hu') as (? & ? & [= <- <-] & ?). lia.
Qed.

Lemma eviction_None m k c x :
  eviction m = None -> consumers m !! k = Some c -> heap m !! c = Some x -> gc_users x <> 0.
Proof.
  unfold eviction. assert (H0 : best m [] None) by (by split; [|intros ? ? ? ?%elem_of_nil]).
  apply (best_fold m (map_iter (consumers m))) in H0 as [Hs Ha]. cbn [app] in *.
  destruct (fold_left _ _ _) as [[v' last]|] eqn:Ef; [done|]. intros _ Hk%elem_of_map_iter Hx Hu.
  by destruct (Ha _ _ _ Hk Hx Hu) as (? & ? & ? & ?).
Qed.
End Steps.

Section Pins.
Context {MI : MapIter} (maxConsumers : Z) (Hmax : 0 < maxConsumers).

Definition books_of (m : Manager) : Prop := books maxConsumers (consumers m) (cores m) (pins m) (isClosed m).

Lemma cores_lookup m c x : heap m !! c = Some x -> cores m !! c = Some (gc_key x, gc_users x).
Proof. intros H. unfold cores. by rewrite lookup_fmap, H. Qed.
Lemma cores_Some m c k u : cores m !! c = Some (k, u) -> exists x, heap m !! c = Some x /\ gc_key x = k /\ gc_users x = u.
Proof. unfold cores. rewrite lookup_fmap. destruct (heap m !! c) as [x|]; [|done]. intros [= <- <-]. by exists x. Qed.
Lemma pins_None m t : calls m !! t = None -> pins m !! t = None.
Proof. intros H. unfold pins. by rewrite lookup_fmap, H. Qed.
Lemma pins_Some m t p : calls m !! t = Some p -> pins m !! t = Some (pinned p).
Proof. intros H. unfold pins. by rewrite lookup_fmap, H. Qed.
(** A call that goes on pins the same consumer. *)
Lemma pins_put m t p q : calls m !! t = Some p -> pinned q = pinned p -> pinned <$> <[t := q]> (calls m) = pins m.
Proof. intros H Hq. rewrite fmap_insert, Hq. apply insert_id. by apply pins_Some. Qed.

Lemma acquire_books m t key now c client m' p :
  books_of m -> calls m !! t = None -> heap m !! c = None -> acquire maxConsumers key now c client m = Ok (m', p) ->
  books_of (put_call t p m').
Proof.
  intros H Ht Hc. unfold acquire, books_of in *. destruct (isClosed m) eqn:Hcl; [done|].
  pose proof (pins_None m t Ht) as Hp.
  assert (Hc' : cores m !! c = None) by (unfold cores; by rewrite lookup_fmap, Hc).
  destruct (consumers m !! key) as [c0|] eqn:Hk.
  - intros [= <- <-]. destruct (b_in _ _ _ _ _ H _ _ Hk) as [u Hu]. apply cores_Some in Hu as (x & Hx & Hkx & <-).
    unfold put_call, with_calls, with_heap, pins, cores; cbn [consumers heap calls isClosed]. stop_simpl. rewrite Hcl, fmap_insert.
    rewrite (alter_Some _ _ _ (set_idleTimer None x)) by (by rewrite lookup_alter_eq, Hx).
    rewrite fmap_insert, core_alter by done. unfold core at 1. cbn [set_use set_idleTimer gc_key gc_users pinned]. rewrite Hkx.
    apply books_new_pin; [done | done | | done]. rewrite <- Hkx. by apply cores_lookup.
  - destruct (maxConsumers <=? Z.of_nat (size (consumers m))) eqn:Hfull; cbn [negb].
    + destruct (eviction m) as [v|] eqn:Ev; [|done]. destruct client; [|done]. intros [= <- <-].
      apply eviction_Some in Ev as (k & x & Hkv & Hx & Hu & _).
      assert (Hkx : gc_key x = k).
      { destruct (b_in _ _ _ _ _ H _ _ Hkv) as [u Hu']. apply cores_Some in Hu' as (y & Hy & <- & _). congruence. }
      rewrite (detach_eq _ _ (set_idleTimer None x)) by (unfold_manager; by rewrite stop_heap, lookup_alter_eq, Hx).
      unfold pins, cores. unfold_manager. stop_simpl. rewrite Hcl, !fmap_insert, core_alter by done. cbn [set_idleTimer gc_key]. rewrite Hkx. unfold core at 1. cbn [new_consumer gc_key gc_users pinned].
      pose proof (b_max _ _ _ _ _ H) as Hm. apply (books_drop _ _ _ _ k v) in H; [| |done].
      2: { rewrite (cores_lookup _ _ _ Hx), Hu, Hkx. done. }
      apply books_new; try done; [by rewrite lookup_delete_None; right|].
      rewrite map_size_delete, Hkv. pose proof (map_size_ne_0_lookup_1 (consumers m)). assert (size (consumers m) <> 0%nat); [|lia].
      intros Hz. apply map_size_empty_inv in Hz. rewrite Hz in Hkv. by apply lookup_empty_Some in Hkv.
    + destruct client; [|done]. intros [= <- <-]. apply Z.leb_gt in Hfull.
      unfold put_call, with_calls, with_heap, with_consumers, pins, cores; cbn [consumers heap calls isClosed].
      rewrite Hcl, !fmap_insert. by apply books_new.
Qed.

Lemma release_books m t c now :
  books_of m -> calls m !! t = Some (Releasing c) -> books_of (with_calls (delete t) (release c now m)).
Proof.
  intros H Ht. unfold books_of in *. pose proof (pins_Some _ _ _ Ht) as Hp. cbn [pinned] in Hp.
  destruct (b_pinned _ _ _ _ _ H _ _ Hp) as [[k u] Hc]. apply cores_Some in Hc as (x & Hx & <- & <-).
  destruct (books_unpin _ _ _ _ _ _ _ _ _ H (cores_lookup _ _ _ Hx) Hp) as [Hpos Hb].
  unfold release. rewrite Hx. replace (0 <? gc_users x) with true by (symmetry; by apply Z.ltb_lt).
  destruct ((gc_users x - 1 =? 0) && negb (isClosed m)); unfold cores, pins in *; unfold_manager.
  all: rewrite ?core_alter by done; by rewrite (alter_Some _ _ _ x), fmap_insert, fmap_delete.
Qed.

Lemma stop_all open m :
  let m' := fold_left (fun m c => stopIdleTimer c m) open m in
  cores m' = cores m /\ consumers m' = consumers m /\ calls m' = calls m /\ closing m' = closing m /\
  isClosed m' = isClosed m /\ forced m' = forced m /\ closeDone m' = closeDone m.
Proof.
  cbv zeta. revert m. induction open as [|c l IH]; intros m; cbn [fold_left]; [done|].
  destruct (IH (stopIdleTimer c m)) as (-> & -> & -> & -> & -> & -> & ->). rewrite core_stop. by stop_simpl.
Qed.

Lemma expire_books m c g : books_of m -> books_of (expireConsumer c g m).
Proof.
  intros H. unfold expireConsumer. destruct (heap m !! c) as [x|] eqn:Hx; [|done].
  destruct (_ || _) eqn:E; [done|]. apply orb_false_elim in E as [E Hin]. repeat (apply orb_false_elim in E as [E ?]).
  apply negb_false_iff, bool_decide_eq_true in Hin. apply negb_false_iff, Z.eqb_eq in H2.
  unfold books_of in *. unfold cores, pins. unfold_manager. rewrite core_alter by done.
  apply (books_drop _ _ _ _ (gc_key x) c); [done | | done]. rewrite <- H2. by apply cores_lookup.
Qed.

Lemma step_books m m' : books_of m -> step maxConsumers m m' -> books_of m'.
Proof.
  intros H Hs. destruct Hs.
  - by eapply acquire_books.
  - unfold books_of in *. unfold cores. unfold_manager. rewrite core_alter by done. unfold pins; unfold_manager.
    by rewrite (pins_put _ _ _ _ H0).
  - unfold books_of in *. unfold cores. unfold_manager. rewrite core_alter by done. unfold pins; unfold_manager.
    by rewrite (pins_put _ _ _ _ H0).
  - unfold books_of in *. unfold pins; unfold_manager. by rewrite (pins_put _ _ _ _ H0).
  - unfold books_of in *. unfold pins; unfold_manager. by rewrite (pins_put _ _ _ _ H0).
  - unfold books_of in *. unfold cores. unfold_manager. rewrite core_alter by done. unfold pins; unfold_manager.
    destruct H0 as [H0|H0]; by rewrite (pins_put _ _ _ _ H0).
  - by apply release_books.
  - exact H.
  - by apply expire_books.
  - unfold books_of in *. unfold cores. unfold_manager. by rewrite core_alter.
  - exact H.
  - unfold close_consumers, books_of in *. set (open := map snd _). destruct (stop_all open m) as (Hco & _ & Hca & _).
    unfold cores, pins in *. unfold_manager. rewrite Hca, Hco. eapply books_close; [lia | exact H].
  - unfold books_of in *. unfold cores. unfold_manager. by rewrite core_alter.
  - exact H.
  - unfold books_of in *. destruct permit; unfold cores, id; unfold_manager; by rewrite !core_alter.
  - unfold books_of in *. unfold_manager. by rewrite H0 in H.
Qed.

(** Rule induction over the states that are reached. *)
Lemma reachable_inv (P : Manager -> Prop) :
  P newManager -> (forall m m', reachable maxConsumers m -> P m -> step maxConsumers m m' -> P m') ->
  forall m, reachable maxConsumers m -> P m.
Proof. intros H0 Hs. apply rtc_ind_r; [done|]. eauto. Qed.

Lemma reachable_books m : reachable maxConsumers m -> books_of m.
Proof.
  revert m. apply reachable_inv; [|intros m m' _; apply step_books].
  split; cbn; try done; try (by intros ? ? H%lookup_empty_Some). rewrite map_size_empty. lia.
Qed.
End Pins.

(** ** Idle timers and the wait group *)

Definition is_evicting (p : Phase) : bool := match p with Evicting _ _ => true | _ => false end.
Definition evicting (m : Manager) : Z := count (fun p => is_evicting p = true) (calls m).

(** Unused, and no longer to be found by [acquire]. *)
Definition detached (m : Manager) (c : nat) : Prop :=
  exists x, heap m !! c = Some x /\ gc_users x = 0 /\ consumers m !! gc_key x <> Some c.

(** The timers are those of the consumers' idle generations, and the wait group
    counts them and the consumers being evicted.  An unused consumer that can be
    acquired has a timer.  Within a step, this may not hold of the consumers in
    [D], and the wait group may be off by [n]. *)
Record clocks (D : nat -> Prop) (n : Z) (m : Manager) : Prop := {
  t_armed c x g : heap m !! c = Some x -> gc_idleTimer x = Some g ->
    gc_idleGeneration x = g /\ (exists s, timers m !! (c, g) = Some s /\ s <> TClosing) /\
    consumers m !! gc_key x = Some c /\ gc_users x = 0;
  t_idle k c x : consumers m !! k = Some c -> heap m !! c = Some x -> gc_users x = 0 -> ~ D c -> gc_idleTimer x <> None;
  t_pending c g : timers m !! (c, g) = Some TPending -> exists x, heap m !! c = Some x /\ gc_idleTimer x = Some g;
  t_fresh c g s : timers m !! (c, g) = Some s -> exists x, heap m !! c = Some x /\ (g <= gc_idleGeneration x)%nat;
  t_closing c g : timers m !! (c, g) = Some TClosing -> detached m c;
  t_evict t d c : calls m !! t = Some (Evicting d c) -> detached m c;
  t_count : closers m = Z.of_nat (size (timers m)) + evicting m + n
}.

(** What the timers depend on. *)
Definition face (x : groupConsumer) : consumerKey * Z * option nat * nat :=
  (gc_key x, gc_users x, gc_idleTimer x, gc_idleGeneration x).
Definition same_faces (h h' : gmap nat groupConsumer) : Prop := face <$> h = face <$> h'.

Lemma face_inv h h' c x : same_faces h h' -> h !! c = Some x -> exists y, h' !! c = Some y /\ face x = face y.
Proof.
  intros Hf Hc. assert (H : (face <$> h') !! c = Some (face x)) by (rewrite <- Hf, lookup_fmap, Hc; done).
  rewrite lookup_fmap in H. destruct (h' !! c) as [y|]; [|done]. injection H as ?. exists y. split; [done|]. by unfold face; congruence.
Qed.
Lemma face_alter f (h : gmap nat groupConsumer) c : (forall x, face (f x) = face x) -> same_faces (alter f c h) h.
Proof.
  intros Hf. apply map_eq. intros d. rewrite !lookup_fmap. destruct (decide (c = d)) as [<-|Hne].
  - rewrite lookup_alter_eq. destruct (h !! c); cbn; by rewrite ?Hf.
  - by rewrite lookup_alter_ne.
Qed.

Lemma clocks_same D n m m' :
  consumers m' = consumers m -> same_faces (heap m') (heap m) -> timers m' = timers m -> closers m' = closers m ->
  (forall t d c, calls m' !! t = Some (Evicting d c) -> calls m !! t = Some (Evicting d c)) -> evicting m' = evicting m ->
  clocks D n m -> clocks D n m'.
Proof.
  intros Hcs Hh Hti Hcl Hca Hev [Ha Hi Hp Hf Hc He Hn].
  assert (Hd : forall c, detached m c -> detached m' c).
  { intros c (x & Hx & Hu & Hk). symmetry in Hh. destruct (face_inv _ _ _ _ Hh Hx) as (y & Hy & [= Hk' Hu' _ _]).
    exists y. rewrite Hcs, <- Hk', <- Hu'. done. }
  assert (Hb : forall c x, heap m !! c = Some x -> exists y, heap m' !! c = Some y /\ face x = face y).
  { intros c x. apply face_inv. by symmetry. }
  split; rewrite ?Hcs, ?Hti, ?Hcl, ?Hev; try done.
  - intros c x g Hx. destruct (face_inv _ _ _ _ Hh Hx) as (y & Hy & [= -> -> -> ->]). by apply Ha.
  - intros k c x Hk Hx. destruct (face_inv _ _ _ _ Hh Hx) as (y & Hy & [= _ -> -> _]). by eapply Hi.
  - intros c g Hg. destruct (Hp c g Hg) as (x & Hx & <-). destruct (Hb _ _ Hx) as (y & Hy & [= _ _ -> _]). by exists y.
  - intros c g s Hg. destruct (Hf c g s Hg) as (x & Hx & ?). destruct (Hb _ _ Hx) as (y & Hy & [= _ _ _ Hgen]). exists y. split; [done | lia].
  - intros c g Hg. by eapply Hd, Hc.
  - intros t d c Ht. by eapply Hd, He, Hca.
Qed.

Lemma detached_mono m m' c :
  (forall x, heap m !! c = Some x -> gc_users x = 0 ->
     exists y, heap m' !! c = Some y /\ gc_key y = gc_key x /\ gc_users y = 0) ->
  (forall k, consumers m' !! k = Some c -> consumers m !! k = Some c) -> detached m c -> detached m' c.
Proof.
  intros Hh Hk (x & Hx & Hu & Hn). destruct (Hh x Hx Hu) as (y & Hy & Hky & Huy). exists y. rewrite Hky. repeat split; [done..|].
  intros H. by apply Hn, Hk.
Qed.

Lemma clocks_stop D n c m : clocks D n m -> clocks (fun d => D d \/ d = c) n (stopIdleTimer c m).
Proof.
  intros [Ha Hi Hp Hf Hc He Hn]. pose proof (stop_rest c m) as (Hcs & Hca & _).
  assert (Hd : forall d, detached m d -> detached (stopIdleTimer c m) d).
  { intros d. apply detached_mono; [|by rewrite Hcs]. intros x Hx Hu. rewrite stop_heap. destruct (decide (d = c)) as [->|].
    - exists (set_idleTimer None x). by rewrite lookup_alter_eq, Hx.
    - exists x. by rewrite lookup_alter_ne. }
  destruct (heap m !! c ≫= gc_idleTimer) as [g|] eqn:Eg.
  2: { unfold stopIdleTimer. rewrite Eg. split; try done. intros k d x Hk Hx Hu HD. eapply Hi; try done. naive_solver. }
  destruct (heap m !! c) as [x|] eqn:Ex; [|done]. cbn in Eg. destruct (Ha _ _ _ Ex Eg) as (Hg & (s & Hs & Hsc) & Hk & Hu).
  assert (Ht : timers (stopIdleTimer c m) = (if decide (s = TPending) then delete (c, g) (timers m) else timers m) /\
               closers (stopIdleTimer c m) = closers m - (if decide (s = TPending) then 1 else 0)).
  { unfold stopIdleTimer. rewrite Ex. cbn. rewrite Eg, Hs.
    destruct s, (decide _) as [E|E]; try congruence; cbn; (split; [reflexivity | lia]). }
  destruct Ht as [Ht Hcl].
  assert (Hsub : forall d g' s', timers (stopIdleTimer c m) !! (d, g') = Some s' -> timers m !! (d, g') = Some s').
  { intros d g' s'. rewrite Ht. destruct (decide _); [|done]. by intros [_ ?]%lookup_delete_Some. }
  assert (Hother : forall d g', d <> c -> timers (stopIdleTimer c m) !! (d, g') = timers m !! (d, g')).
  { intros d g' Hne. rewrite Ht. destruct (decide _); [|done]. apply lookup_delete_ne. congruence. }
  split.
  - intros d y g'. rewrite stop_heap, Hcs. intros [(<- & z & Hz & ->)|[Hne Hy]]%lookup_alter_Some; [done|].
    intros Hg'. rewrite Hother by done. by apply Ha.
  - intros k d y. rewrite stop_heap, Hcs. intros Hkd [(<- & z & Hz & ->)|[Hne Hy]]%lookup_alter_Some Hu' HD; [naive_solver|].
    eapply Hi; try done. naive_solver.
  - intros d g' Hd'. destruct (Hp _ _ (Hsub _ _ _ Hd')) as (y & Hy & Hg'). rewrite stop_heap. destruct (decide (d = c)) as [->|Hne].
    + rewrite Ex in Hy. injection Hy as <-. rewrite Eg in Hg'. injection Hg' as <-. exfalso. rewrite Ht in Hd'.
      destruct (decide (s = TPending)) as [->|]; [by rewrite lookup_delete_eq in Hd' | congruence].
    + exists y. by rewrite lookup_alter_ne.
  - intros d g' s' Hd'. destruct (Hf _ _ _ (Hsub _ _ _ Hd')) as (y & Hy & Hg'). rewrite stop_heap. destruct (decide (d = c)) as [->|Hne].
    + exists (set_idleTimer None y). by rewrite lookup_alter_eq, Hy.
    + exists y. by rewrite lookup_alter_ne.
  - intros d g' Hd'. by eapply Hd, Hc, Hsub.
  - intros t d v. rewrite Hca. intros Hd'. by eapply Hd, He.
  - rewrite Hcl, Ht, Hn. replace (evicting (stopIdleTimer c m)) with (evicting m) by (unfold evicting; by rewrite Hca).
    destruct (decide _); [|lia]. rewrite map_size_delete, Hs. assert (size (timers m) <> 0%nat); [|lia].
    intros Hz. apply map_size_empty_inv in Hz. by rewrite Hz, lookup_empty in Hs.
Qed.

(** The exceptions that do not matter: consumers in use, or out of the map. *)
Lemma clocks_settled (D D' : nat -> Prop) n m :
  clocks D n m ->
  (forall k d x, D d -> consumers m !! k = Some d -> heap m !! d = Some x -> gc_users x = 0 -> D' d) -> clocks D' n m.
Proof. intros [Ha Hi Hp Hf Hc He Hn] HD. split; try done. intros k c x ? ? ? ?. eapply Hi; eauto. Qed.

Lemma clocks_add D n z m : clocks D n m -> clocks D (n + z) (with_timers id z m).
Proof. intros [Ha Hi Hp Hf Hc He Hn]. split; unfold_manager; try done. cbn. unfold evicting in *. cbn. lia. Qed.

(** Another use count. *)
Lemma clocks_users D n m c x u now :
  clocks D n m -> heap m !! c = Some x -> gc_idleTimer x = None -> ~ detached m c ->
  clocks (fun d => D d \/ d = c) n (with_heap (alter (set_use u now) c) m).
Proof.
  intros [Ha Hi Hp Hf Hc He Hn] Hx Ht Hk.
  assert (Hd : forall d, detached m d -> detached (with_heap (alter (set_use u now) c) m) d).
  { intros d Hd. assert (d <> c) by (by intros ->). revert Hd. apply detached_mono; [|done].
    intros y Hy Huy. exists y. unfold_manager. by rewrite lookup_alter_ne by done. }
  split; unfold_manager; try done.
  - intros d y g [(<- & z & Hz & ->)|[Hne Hy]]%lookup_alter_Some; [cbn; congruence | by apply Ha].
  - intros k d y Hkd [(<- & z & Hz & ->)|[Hne Hy]]%lookup_alter_Some Huy HD; [naive_solver|]. eapply Hi; try done. naive_solver.
  - intros d g Hd'. destruct (Hp _ _ Hd') as (y & Hy & Hg). destruct (decide (d = c)) as [->|Hne]; [congruence|].
    exists y. by rewrite lookup_alter_ne.
  - intros d g s Hd'. destruct (Hf _ _ _ Hd') as (y & Hy & Hg). destruct (decide (d = c)) as [->|Hne].
    + exists (set_use u now y). by rewrite lookup_alter_eq, Hy.
    + exists y. by rewrite lookup_alter_ne.
  - intros d g Hd'. by eapply Hd, Hc.
  - intros t d v Hd'. by eapply Hd, He.
Qed.

(** A new consumer. *)
Lemma clocks_new D n m c x :
  clocks D n m -> heap m !! c = None -> consumers m !! gc_key x = None -> gc_idleTimer x = None -> 0 < gc_users x ->
  clocks D n (with_consumers (insert (gc_key x) c) (with_heap (insert c x) m)).
Proof.
  intros [Ha Hi Hp Hf Hc He Hn] Hx Hkx Ht Hu. unfold_manager.
  assert (Hne : forall d y, heap m !! d = Some y -> d <> c) by congruence.
  assert (Hd : forall d, detached m d -> detached (with_consumers (insert (gc_key x) c) (with_heap (insert c x) m)) d).
  { intros d Hd. pose proof Hd as (y & Hy & _). revert Hd. apply detached_mono; unfold_manager.
    - intros z Hz Huz. exists z. rewrite lookup_insert_ne; [done | by eapply not_eq_sym, Hne].
    - intros k [[_ <-]|[_ ?]]%lookup_insert_Some; [congruence | done]. }
  split; unfold_manager; try done.
  - intros d y g [[-> <-]|[Hdc Hy]]%lookup_insert_Some; [congruence|]. intros Hg. destruct (Ha _ _ _ Hy Hg) as (? & ? & Hk & ?).
    repeat split; try done. rewrite lookup_insert_ne; [done|]. congruence.
  - intros k d y [[<- <-]|[? Hkd]]%lookup_insert_Some [[? <-]|[Hdc Hy]]%lookup_insert_Some; try congruence; [lia|lia|]. by eapply Hi.
  - intros d g Hg. destruct (Hp _ _ Hg) as (y & Hy & ?). exists y. rewrite lookup_insert_ne; [done | by eapply not_eq_sym, Hne].
  - intros d g s Hg. destruct (Hf _ _ _ Hg) as (y & Hy & ?). exists y. rewrite lookup_insert_ne; [done | by eapply not_eq_sym, Hne].
  - intros d g Hg. by eapply Hd, Hc.
  - intros t d v Hg. by eapply Hd, He.
Qed.

(** An unused consumer without a timer that leaves the map. *)
Lemma clocks_detach D n m c x :
  clocks D n m -> heap m !! c = Some x -> gc_users x = 0 -> gc_idleTimer x = None -> consumers m !! gc_key x = Some c ->
  (forall k, consumers m !! k = Some c -> k = gc_key x) ->
  clocks (fun d => D d /\ d <> c) n (with_consumers (delete (gc_key x)) m) /\
  detached (with_consumers (delete (gc_key x)) m) c.
Proof.
  intros [Ha Hi Hp Hf Hc He Hn] Hx Hu Ht Hk Huniq.
  assert (Hd : forall d, detached m d -> detached (with_consumers (delete (gc_key x)) m) d).
  { intros d. apply detached_mono; unfold_manager; [by eauto|]. by intros k [_ ?]%lookup_delete_Some. }
  split; [split; unfold_manager; try done|].
  - intros d y g Hy Hg. destruct (Ha _ _ _ Hy Hg) as (? & ? & Hky & ?). repeat split; try done.
    rewrite lookup_delete_ne; [done|]. intros E. rewrite <- E, Hk in Hky. injection Hky as <-. congruence.
  - intros k d y [Hne Hkd]%lookup_delete_Some Hy Huy HD. eapply Hi; try done. intros HDd. apply HD. split; [done|]. intros ->.
    by apply Hne; symmetry; apply Huniq.
  - intros d g Hg. by eapply Hd, Hc.
  - intros t d v Hg. by eapply Hd, He.
  - exists x. unfold_manager. by rewrite lookup_delete_eq.
Qed.

(** The calls change. *)
Lemma clocks_put D n m t p :
  clocks D n m -> (forall d c, p = Evicting d c -> detached m c) ->
  clocks D (n + (match calls m !! t with Some q => if is_evicting q then 1 else 0 | None => 0 end) - (if is_evicting p then 1 else 0))
    (put_call t p m).
Proof.
  intros [Ha Hi Hp Hf Hc He Hn] Hev. split; unfold_manager; try done.
  - intros t' d c [[<- ->]|[_ Ht]]%lookup_insert_Some; [by eapply Hev | by eapply He].
  - cbn. unfold evicting in *. unfold_manager. rewrite Hn. destruct (calls m !! t) as [q|] eqn:Hq.
    + rewrite (count_put _ _ _ _ _ Hq). destruct (is_evicting p), (is_evicting q); repeat case_decide; try done; lia.
    + rewrite count_insert by done. destruct (is_evicting p); repeat case_decide; try done; lia.
Qed.

(** A timer that ends, and is not that of an idle consumer. *)
Lemma clocks_end D n m c g s :
  clocks D n m -> timers m !! (c, g) = Some s ->
  (s = TClosing \/ forall x, heap m !! c = Some x -> gc_idleTimer x <> Some g) ->
  clocks D n (with_timers (delete (c, g)) (-1) m).
Proof.
  intros [Ha Hi Hp Hf Hc He Hn] Hs Hg.
  split; unfold_manager; try done.
  - intros d x g' Hx Hg'. destruct (Ha _ _ _ Hx Hg') as (? & (s' & Hs' & ?) & ? & ?). repeat split; try done.
    exists s'. rewrite lookup_delete_ne; [done|]. intros [= <- <-]. destruct Hg as [->|Hg]; [congruence | by eapply Hg].
  - intros d g' [_ Hd]%lookup_delete_Some. by apply Hp.
  - intros d g' s' [_ Hd]%lookup_delete_Some. by eapply Hf.
  - intros d g' [_ Hd]%lookup_delete_Some. by eapply Hc.
  - cbn. unfold evicting in *. cbn. rewrite map_size_delete, Hs, Hn. assert (size (timers m) <> 0%nat); [|lia].
    intros Hz. apply map_size_empty_inv in Hz. by rewrite Hz, lookup_empty in Hs.
Qed.

(** A timer that goes on. *)
Lemma clocks_turn D n m c g s s' :
  clocks D n m -> timers m !! (c, g) = Some s -> s' <> TPending -> (s' = TClosing -> detached m c) ->
  (s' = TClosing -> forall x, heap m !! c = Some x -> gc_idleTimer x <> Some g) ->
  clocks D n (with_timers (insert (c, g) s') 0 m).
Proof.
  intros [Ha Hi Hp Hf Hc He Hn] Hs Hs' Hdet Hg.
  split; unfold_manager; try done.
  - intros d x g' Hx Hg'. destruct (Ha _ _ _ Hx Hg') as (? & (z & Hz & ?) & ? & ?). repeat split; try done.
    destruct (decide ((c, g) = (d, g'))) as [[= <- <-]|Hne].
    + exists s'. rewrite lookup_insert_eq. split; [done|]. intros ->. by eapply Hg.
    + exists z. by rewrite lookup_insert_ne.
  - intros d g' [[[= <- <-] ->]|[_ Hd]]%lookup_insert_Some; [done | by apply Hp].
  - intros d g' z [[[= <- <-] <-]|[_ Hd]]%lookup_insert_Some; by eapply Hf.
  - intros d g' [[[= <- <-] ->]|[_ Hd]]%lookup_insert_Some; [by apply Hdet | by eapply Hc].
  - cbn. unfold evicting in *. cbn. rewrite map_size_insert_Some by eauto. lia.
Qed.

(** The timer of an idle consumer. *)
Lemma clocks_arm D n m c x :
  clocks D n m -> heap m !! c = Some x -> gc_users x = 0 -> gc_idleTimer x = None -> consumers m !! gc_key x = Some c ->
  clocks (fun d => D d /\ d <> c) n (with_timers (insert (c, S (gc_idleGeneration x)) TPending) 1 (with_heap (alter arm c) m)).
Proof.
  intros [Ha Hi Hp Hf Hc He Hn] Hx Hu Ht Hk. set (m' := with_timers _ _ _).
  assert (Hd : forall d, detached m d -> detached m' d).
  { intros d Hd. assert (d <> c) by (intros ->; destruct Hd as (y & Hy & _ & Hky); congruence).
    revert Hd. apply detached_mono; [|done]. intros y Hy Huy. exists y. unfold m'. unfold_manager. by rewrite lookup_alter_ne. }
  assert (Hfree : timers m !! (c, S (gc_idleGeneration x)) = None).
  { destruct (timers m !! _) as [s|] eqn:Es; [|done]. destruct (Hf _ _ _ Es) as (y & Hy & Hle). rewrite Hx in Hy. injection Hy as <-. lia. }
  split; unfold m' in *; unfold_manager; try done.
  - intros d z g [(<- & w & Hw & ->)|[Hne Hz]]%lookup_alter_Some Hg.
    + rewrite Hx in Hw. injection Hw as <-. injection Hg as <-. repeat split; [|done|done]. exists TPending. by rewrite lookup_insert_eq.
    + rewrite lookup_insert_ne by congruence. by apply Ha.
  - intros k d z Hkd [(<- & w & Hw & ->)|[Hne Hz]]%lookup_alter_Some Huz HD; [done|]. eapply Hi; try done. naive_solver.
  - intros d g [[[= <- <-] _]|[Hne Hg]]%lookup_insert_Some; [exists (arm x); by rewrite lookup_alter_eq, Hx|].
    destruct (Hp _ _ Hg) as (z & Hz & Hgz). exists z. rewrite lookup_alter_ne; [done|]. congruence.
  - intros d g s [[[= <- <-] _]|[Hne Hg]]%lookup_insert_Some; [exists (arm x); by rewrite lookup_alter_eq, Hx|].
    destruct (Hf _ _ _ Hg) as (z & Hz & Hgz). destruct (decide (d = c)) as [->|Hdc].
    + exists (arm z). rewrite lookup_alter_eq, Hz. split; [done|]. cbn. lia.
    + exists z. by rewrite lookup_alter_ne.
  - intros d g [[_ ?]|[_ Hg]]%lookup_insert_Some; [done|]. by eapply Hd, Hc.
  - intros t d v Hv. by eapply Hd, He.
  - cbn. unfold evicting in *. cbn. rewrite map_size_insert_None by done. lia.
Qed.

Lemma clocks_release n m c x now :
  clocks (fun _ => False) n m -> heap m !! c = Some x -> 0 < gc_users x ->
  (isClosed m = true -> consumers m = ∅) -> (isClosed m = false -> consumers m !! gc_key x = Some c) ->
  clocks (fun _ => False) n (release c now m).
Proof.
  intros H Hx Hu Hcl Hopen. unfold release. rewrite Hx. replace (0 <? gc_users x) with true by lia.
  assert (Ht : gc_idleTimer x = None).
  { destruct (gc_idleTimer x) as [g|] eqn:E; [|done]. destruct (t_armed _ _ _ H _ _ _ Hx E) as (_ & _ & _ & ?). lia. }
  apply (clocks_users _ _ _ c x (gc_users x - 1) now) in H; [|done|done|].
  2: { intros (y & Hy & Huy & _). rewrite Hx in Hy. injection Hy as <-. lia. }
  assert (Hx' : heap (with_heap (alter (set_use (gc_users x - 1) now) c) m) !! c = Some (set_use (gc_users x - 1) now x)).
  { unfold_manager. by rewrite lookup_alter_eq, Hx. }
  destruct ((gc_users x - 1 =? 0) && negb (isClosed m)) eqn:E.
  - apply andb_true_iff in E as [E1 E2]. apply Z.eqb_eq in E1. apply negb_true_iff in E2.
    eapply clocks_settled; [apply (clocks_arm _ _ _ c _ H Hx')|]; [done..| |]; [by apply Hopen | cbn; naive_solver].
  - eapply clocks_settled; [exact H|]. intros k d y [[]| ->] Hk Hy Huy. rewrite Hx' in Hy. injection Hy as <-. cbn in Huy.
    rewrite Huy in E. cbn in E. apply negb_false_iff in E. unfold_manager. rewrite (Hcl E) in Hk. by apply lookup_empty_Some in Hk.
Qed.

Lemma clocks_stop_all open D n m :
  clocks D n m ->
  let m' := fold_left (fun m c => stopIdleTimer c m) open m in
  clocks (fun d => D d \/ d ∈ open) n m' /\
  forall d y, heap m' !! d = Some y -> d ∈ open \/ heap m !! d = Some y.
Proof.
  cbv zeta. revert D m. induction open as [|c l IH]; intros D m H; cbn [fold_left].
  - split; [|by right]. eapply clocks_settled; [done|]. by left.
  - destruct (IH _ _ (clocks_stop _ _ c _ H)) as [H1 H2]. split.
    + eapply clocks_settled; [exact H1|]. intros k d x [[?| ->]|?] _ _ _; rewrite elem_of_cons; auto.
    + intros d y [Hd|Hd]%H2; [left; by right|]. rewrite stop_heap in Hd.
      apply lookup_alter_Some in Hd as [(<- & z & Hz & ->)|[Hne Hy]]; [left; left | by right].
Qed.

Lemma stop_all_timer open m d y :
  d ∈ open -> heap (fold_left (fun m c => stopIdleTimer c m) open m) !! d = Some y -> gc_idleTimer y = None.
Proof.
  assert (Hkeep : forall l m, (forall z, heap m !! d = Some z -> gc_idleTimer z = None) ->
            forall y, heap (fold_left (fun m c => stopIdleTimer c m) l m) !! d = Some y -> gc_idleTimer y = None).
  { intros l. induction l as [|c l IH]; intros m0 H; cbn [fold_left]; [exact H|]. apply IH. intros z. rewrite stop_heap.
    intros [(<- & w & Hw & ->)|[Hne Hz]]%lookup_alter_Some; [done | by apply H]. }
  revert m. induction open as [|c l IH]; intros m Hd; [by apply elem_of_nil in Hd|]. cbn [fold_left].
  apply elem_of_cons in Hd as [->|Hd]; [|by apply IH]. apply Hkeep. intros z. rewrite stop_heap, lookup_alter_eq.
  destruct (heap m !! c); [|done]. by intros [= <-].
Qed.

Section Clocks.
Context {MI : MapIter} (maxConsumers : Z) (Hmax : 0 < maxConsumers).

Definition clocked (m : Manager) : Prop := clocks (fun _ => False) 0 m.

Lemma clocks_close m : clocked m -> clocked (close_consumers m).
Proof.
  intros H. unfold close_consumers. set (open := map snd _). set (m1 := fold_left _ open m).
  destruct (clocks_stop_all open _ _ _ H) as [[Ha Hi Hp Hf Hc He Hn] _]. fold m1 in Ha, Hi, Hp, Hf, Hc, He, Hn.
  destruct (stop_all open m) as (_ & Hcs & _). fold m1 in Hcs. set (m2 := with_consumers _ _).
  assert (Hd : forall d, detached m1 d -> detached m2 d).
  { intros d. apply detached_mono; [by eauto|]. intros k Hk. unfold m2 in Hk. unfold_manager. by apply lookup_empty_Some in Hk. }
  split; unfold m2 in *; unfold_manager; try done.
  - intros d y g Hy Hg. exfalso. destruct (Ha _ _ _ Hy Hg) as (_ & _ & Hk & _). rewrite Hcs in Hk.
    assert (Hin : d ∈ open) by (unfold open; apply list_elem_of_fmap; exists (gc_key y, d); split; [done | by apply elem_of_map_iter]).
    rewrite (stop_all_timer open m d y Hin Hy) in Hg. done.
  - intros d g Hg. by eapply Hd, Hc.
  - intros t d v Hg. by eapply Hd, He.
Qed.

Lemma expire_clocks m c g :
  books_of maxConsumers m -> clocked m -> timers m !! (c, g) = Some TStarted -> clocked (expireConsumer c g m).
Proof.
  intros Hb H Hg. unfold expireConsumer. destruct (heap m !! c) as [x|] eqn:Hx.
  2: { eapply clocks_end; [done|done|]. right. congruence. }
  destruct (_ || _) eqn:E.
  - eapply clocks_end; [done|done|]. right. intros y Hy Hgy. rewrite Hx in Hy. injection Hy as <-.
    destruct (t_armed _ _ _ H _ _ _ Hx Hgy) as (Hgen & _ & Hk & Hu). revert E.
    rewrite Hk, Hu, Hgen, Hgy, Nat.eqb_refl, !bool_decide_false, bool_decide_true by done. cbn. rewrite !orb_false_r. intros Hcl.
    by rewrite (b_closed _ _ _ _ _ Hb Hcl), lookup_empty in Hk.
  - apply orb_false_elim in E as [E Hin]. repeat (apply orb_false_elim in E as [E ?]).
    apply negb_false_iff, bool_decide_eq_true in Hin. apply negb_false_iff, Z.eqb_eq in H2.
    apply (clocks_stop _ _ c) in H as H'. pose proof (stop_rest c m) as (Hcs & Hca & _).
    assert (Hst : with_heap (alter (set_idleTimer None) c) m = stopIdleTimer c m).
    { destruct (gc_idleTimer x) as [g'|] eqn:Eg; [|done]. destruct (t_armed _ _ _ H _ _ _ Hx Eg) as (Hgen & _).
      apply negb_false_iff, Nat.eqb_eq in H0. unfold stopIdleTimer. rewrite Hx. cbn. rewrite Eg.
      replace g' with g by congruence. by rewrite Hg. }
    rewrite <- Hst in H', Hcs. apply (clocks_detach _ _ _ c (set_idleTimer None x)) in H' as [H' Hdet]; try done.
    2: { unfold_manager. by rewrite lookup_alter_eq, Hx. }
    2: { intros k Hk. rewrite Hcs in Hk. destruct (b_in _ _ _ _ _ Hb _ _ Hk) as [u Hu].
         apply cores_Some in Hu as (y & Hy & <- & _). rewrite Hx in Hy. by injection Hy as <-. }
    eapply clocks_settled.
    + eapply clocks_turn; [exact H' | exact Hg | done | done |]. intros _ y. unfold_manager. rewrite lookup_alter_eq, Hx. by intros [= <-].
    + naive_solver.
Qed.

(** A call that goes on without an eviction, on consumers with the same faces. *)
Lemma clocks_call m h t p q :
  clocked m -> calls m !! t = Some p -> is_evicting p = false -> is_evicting q = false -> same_faces h (heap m) ->
  clocked (put_call t q (with_heap (fun _ => h) m)).
Proof.
  intros H Hp Hep Heq Hh. eapply clocks_same; [..|exact H]; try done.
  - cbn. intros t' d c [[<- ->]|[_ ?]]%lookup_insert_Some; [discriminate Heq | done].
  - unfold evicting. cbn. rewrite (count_put _ _ _ _ _ Hp), Hep, Heq. repeat case_decide; try done; lia.
Qed.

Lemma key_of m k d x : books_of maxConsumers m -> consumers m !! k = Some d -> heap m !! d = Some x -> gc_key x = k.
Proof. intros Hb Hk Hx. destruct (b_in _ _ _ _ _ Hb _ _ Hk) as [u Hu]. apply cores_Some in Hu as (y & Hy & <- & _). congruence. Qed.

Lemma hit_clocks m t key now c :
  books_of maxConsumers m -> clocked m -> calls m !! t = None -> consumers m !! key = Some c ->
  clocked (put_call t (Waiting c) (with_heap (alter (fun x => set_use (gc_users x + 1) now x) c) (stopIdleTimer c m))).
Proof.
  intros Hb H Ht Hk. destruct (b_in _ _ _ _ _ Hb _ _ Hk) as [u Hu]. apply cores_Some in Hu as (x & Hx & Hkx & <-).
  pose proof (clocks_stop _ _ c _ H) as H'. pose proof (stop_rest c m) as (Hcs & Hca & _).
  assert (Hx' : heap (stopIdleTimer c m) !! c = Some (set_idleTimer None x)) by (by rewrite stop_heap, lookup_alter_eq, Hx).
  assert (Hu : 0 <= gc_users x) by (rewrite (b_users _ _ _ _ _ Hb _ _ _ (cores_lookup _ _ _ Hx)); apply count_nonneg).
  assert (Hext : with_heap (alter (fun x => set_use (gc_users x + 1) now x) c) (stopIdleTimer c m)
               = with_heap (alter (set_use (gc_users x + 1) now) c) (stopIdleTimer c m)).
  { unfold with_heap. by rewrite (alter_Some _ _ _ _ Hx'), (alter_Some (set_use _ _) _ _ _ Hx'). }
  rewrite Hext. apply (clocks_users _ _ _ c (set_idleTimer None x) (gc_users x + 1) now) in H'; [|done|done|].
  2: { intros (y & Hy & _ & Hn). rewrite Hx' in Hy. injection Hy as <-. rewrite Hcs in Hn. by rewrite <- Hkx in Hk. }
  apply (clocks_put _ _ _ t (Waiting c)) in H'; [|done]. revert H'. unfold_manager. rewrite Hca, Ht. intros H'.
  eapply clocks_settled; [exact H'|]. cbn. intros k d y HD _ Hy Huy. assert (d = c) as -> by naive_solver.
  apply lookup_alter_Some in Hy as [(_ & z & Hz & ->)|[? _]]; [|done]. cbn in Huy. lia.
Qed.

(** A call that makes a new consumer, in place of an evicted one if its phase says so. *)
Lemma new_clocks m t p key now c :
  clocks (fun _ => False) (if is_evicting p then 1 else 0) m -> heap m !! c = None -> consumers m !! key = None ->
  calls m !! t = None -> (forall d v, p = Evicting d v -> detached m v) ->
  clocked (put_call t p (with_consumers (insert key c) (with_heap (insert c (new_consumer key now)) m))).
Proof.
  intros H Hc Hk Ht Hev. eapply (clocks_new _ _ _ c (new_consumer key now)) in H; [|done..].
  apply (clocks_put _ _ _ t p) in H; [revert H; unfold_manager; rewrite Ht; unfold clocked; by replace (_ + 0 - _) with 0 by lia|].
  intros d v Hp. specialize (Hev d v Hp). pose proof Hev as (y & Hy & _). revert Hev. apply detached_mono; unfold_manager.
  - intros z Hz Huz. exists z. rewrite lookup_insert_ne; [done | congruence].
  - intros k [[_ <-]|[_ ?]]%lookup_insert_Some; [congruence | done].
Qed.

Lemma acquire_clocks m t key now c client m' p :
  books_of maxConsumers m -> clocked m -> calls m !! t = None -> heap m !! c = None ->
  acquire maxConsumers key now c client m = Ok (m', p) -> clocked (put_call t p m').
Proof.
  intros Hb H Ht Hc. unfold acquire. destruct (isClosed m) eqn:Hcl; [done|].
  destruct (consumers m !! key) as [c0|] eqn:Hk; [intros [= <- <-]; by eapply hit_clocks|].
  destruct (maxConsumers <=? _); cbn [negb]; [|destruct client; [|done]; intros [= <- <-]; by apply new_clocks].
  destruct (eviction m) as [v|] eqn:Ev; [|done]. destruct client; [|done]. intros [= <- <-].
  apply eviction_Some in Ev as (k & x & Hkv & Hx & Hu & _). pose proof (key_of _ _ _ _ Hb Hkv Hx) as Hkx.
  pose proof (clocks_stop _ _ v _ H) as H'. pose proof (stop_rest v m) as (Hcs & Hca & _).
  assert (Hx' : heap (stopIdleTimer v m) !! v = Some (set_idleTimer None x)) by (by rewrite stop_heap, lookup_alter_eq, Hx).
  apply (clocks_add _ _ 1) in H'. rewrite (detach_eq _ _ (set_idleTimer None x)) by (unfold_manager; exact Hx').
  apply (clocks_detach _ _ _ v (set_idleTimer None x)) in H' as [H' Hdet]; try (unfold_manager; rewrite ?Hcs; done).
  2: { unfold_manager. cbn. by rewrite Hcs, Hkx. }
  2: { unfold_manager. rewrite Hcs. intros k' Hk'. by rewrite <- (key_of _ _ _ _ Hb Hk' Hx). }
  apply new_clocks; unfold_manager; try done.
  - eapply clocks_settled; [exact H'|]. naive_solver.
  - rewrite stop_heap, lookup_alter_ne; [done | congruence].
  - rewrite Hcs. by apply lookup_delete_None; right.
  - by rewrite Hca.
  - by intros d v' [= _ <-].
Qed.

Lemma step_clocks m m' : books_of maxConsumers m -> clocked m -> step maxConsumers m m' -> clocked m'.
Proof.
  intros Hb H Hs. destruct Hs as [m t key now c client m' p Ht Hc Ha|m t c v Ht|m t c Ht _|m t c Ht|m t c Ht _|m t c Ht|m t c now Ht
    |m c g Hg|m c g Hg|m c g Hg|m|m Hcl|m c Hq _|m c Hq _|m c b Hq|m Hcl _ _].
  - by eapply acquire_clocks.
  - apply (clocks_put _ _ _ t (Waiting c)) in H; [|done]. rewrite Ht in H. apply (clocks_add _ _ (-1)) in H.
    eapply clocks_same; [..|exact H]; try done. by apply face_alter.
  - eapply (clocks_call m _ t (Waiting c) (Permitted c)); try done. by apply face_alter.
  - by eapply (clocks_call m (heap m) t (Waiting c)).
  - by eapply (clocks_call m (heap m) t (Permitted c)).
  - destruct Ht as [Ht|Ht]; (eapply (clocks_call m _ t); [exact H | exact Ht | done | done | by apply face_alter]).
  - pose proof (pins_Some _ _ _ Ht) as Hp. destruct (b_pinned _ _ _ _ _ Hb _ _ Hp) as [[k u] Hu]. cbn in Hu.
    apply cores_Some in Hu as (x & Hx & <- & <-). pose proof (cores_lookup _ _ _ Hx) as Hco.
    assert (Hpos : 0 < gc_users x) by (by apply (books_unpin _ _ _ _ _ _ _ _ _ Hb Hco Hp)).
    apply (clocks_release _ _ c x now) in H; [|done|done|by apply (b_closed _ _ _ _ _ Hb)|by intros Hcl; apply (b_used _ _ _ _ _ Hb _ _ _ Hco Hpos)].
    eapply clocks_same; [..|exact H]; try done; unfold_manager.
    + by intros t' d v [_ ?]%lookup_delete_Some.
    + assert (Hca : calls (release c now m) = calls m) by (unfold release; rewrite Hx; by destruct (_ && _)).
      unfold evicting. unfold_manager. rewrite Hca, (count_delete _ t _ (calls m) Ht). cbn. repeat case_decide; try done; lia.
  - by eapply clocks_turn.
  - by apply expire_clocks.
  - eapply (clocks_end _ _ _ c g TClosing) in H; [|done|by left]. eapply clocks_same; [..|exact H]; try done. by apply face_alter.
  - by eapply clocks_same; [..|exact H].
  - by apply clocks_close.
  - eapply clocks_same; [..|exact H]; try done. by apply face_alter.
  - by eapply clocks_same; [..|exact H].
  - eapply clocks_same; [..|exact H]; try done; [by destruct b| |by destruct b..].
    destruct b; unfold_manager; [unfold same_faces; rewrite face_alter by done|]; by apply face_alter.
  - by eapply clocks_same; [..|exact H].
Qed.

Lemma reachable_clocks m : reachable maxConsumers m -> clocked m.
Proof.
  revert m. apply reachable_inv.
  - split; cbn; try done; try (by intros ? ? ? H%lookup_empty_Some); by intros ? ? H%lookup_empty_Some.
  - intros m m' Hr. apply step_clocks. by apply (reachable_books _ Hmax).
Qed.
End Clocks.
