(* ===== verification/KafkaGuarantees.v ===== *)
(** * What the Kafka manager guarantees (src/internal/kafkapop/manager.go)

    Who holds a consumer's gate, who closes which client, and what follows for
    the calls and the shutdown, in every state the steps of KafkaManager.v reach. *)

From stdpp Require Import relations.
From S2P Require Import Prelude GoStrings KafkaPop KafkaManager.

#[local] Open Scope Z_scope.

(** ** The gate *)

Definition holds_permit (m : Manager) (t c : nat) : Prop := calls m !! t = Some (Permitted c) \/ calls m !! t = Some (Using c).

(** The permit of a consumer is held by one call between taking and giving it
    back, or by the worker that closes the consumer, or by nobody. *)
Record gates (m : Manager) : Prop := {
  g_call c x t : heap m !! c = Some x -> gc_gate x = Some (ByCall t) <-> holds_permit m t c;
  g_closer c x : heap m !! c = Some x -> gc_gate x = Some ByCloser <-> closing m !! c = Some (Closing true);
  g_known c q : closing m !! c = Some q -> isClosed m = true /\ is_Some (heap m !! c)
}.

Definition same_gates (h h' : gmap nat groupConsumer) : Prop := gc_gate <$> h = gc_gate <$> h'.
Lemma gate_inv h h' c x : same_gates h h' -> h !! c = Some x -> exists y, h' !! c = Some y /\ gc_gate x = gc_gate y.
Proof.
  intros Hf Hc. assert (H : (gc_gate <$> h') !! c = Some (gc_gate x)) by (rewrite <- Hf, lookup_fmap, Hc; done).
  rewrite lookup_fmap in H. destruct (h' !! c) as [y|]; [|done]. injection H as ?. by exists y.
Qed.
Lemma gate_alter f (h : gmap nat groupConsumer) c : (forall x, gc_gate (f x) = gc_gate x) -> same_gates (alter f c h) h.
Proof.
  intros Hf. apply map_eq. intros d. rewrite !lookup_fmap. destruct (decide (c = d)) as [<-|Hne].
  - rewrite lookup_alter_eq. destruct (h !! c); cbn; by rewrite ?Hf.
  - by rewrite lookup_alter_ne.
Qed.
Lemma gate_trans h1 h2 h3 : same_gates h1 h2 -> same_gates h2 h3 -> same_gates h1 h3.
Proof. unfold same_gates. congruence. Qed.

Lemma gates_same m m' :
  same_gates (heap m') (heap m) -> closing m' = closing m -> isClosed m' = isClosed m ->
  (forall t c, holds_permit m' t c <-> holds_permit m t c) -> gates m -> gates m'.
Proof.
  intros Hh Hq Hcl Hca [Hg Hc Hk]. split; rewrite ?Hq, ?Hcl.
  - intros c x t Hx. destruct (gate_inv _ _ _ _ Hh Hx) as (y & Hy & ->). rewrite Hca. by apply Hg.
  - intros c x Hx. destruct (gate_inv _ _ _ _ Hh Hx) as (y & Hy & ->). by apply Hc.
  - intros c q Hcq. destruct (Hk _ _ Hcq) as [? [x Hx]]. split; [done|]. symmetry in Hh.
    destruct (gate_inv _ _ _ _ Hh Hx) as (y & Hy & _). by exists y.
Qed.

(** A call changes its phase; only the phases with the permit count. *)
Definition with_permit (c : nat) (p : option Phase) : Prop := p = Some (Permitted c) \/ p = Some (Using c).
Lemma holds_put m t p t' c :
  holds_permit (put_call t p m) t' c <-> if decide (t' = t) then with_permit c (Some p) else holds_permit m t' c.
Proof.
  unfold holds_permit, with_permit. unfold_manager. destruct (decide (t' = t)) as [->|Hne]; [by rewrite lookup_insert_eq | by rewrite lookup_insert_ne].
Qed.

Lemma gates_put m t p :
  gates m -> (forall c, with_permit c (Some p) <-> with_permit c (calls m !! t)) -> gates (put_call t p m).
Proof.
  intros H Hp. eapply gates_same; [..|exact H]; try done. intros t' c. rewrite holds_put.
  destruct (decide (t' = t)) as [->|]; [apply Hp | done].
Qed.

(** The permit of [c] is taken, or given back, by call [t]. *)
Lemma gates_permit m t c p :
  gates m -> free_gate m c -> p = Permitted c \/ p = Using c -> (forall d, ~ holds_permit m t d) ->
  gates (put_call t p (put_gate c (Some (ByCall t)) m)).
Proof.
  intros [Hg Hc Hk] (y & Hy & Hfree) Hp Hno. split.
  - intros d x t' Hx. rewrite holds_put. unfold_manager. apply lookup_alter_Some in Hx as [(<- & z & Hz & ->)|[Hne Hx]].
    + rewrite Hy in Hz. injection Hz as <-. cbn. destruct (decide (t' = t)) as [->|Hne].
      * split; [intros _; unfold with_permit; naive_solver | done].
      * split; [congruence|]. intros Hh%(Hg _ _ _ Hy). congruence.
    + destruct (decide (t' = t)) as [->|Ht]; [|by apply Hg]. split; [intros H%(Hg _ _ _ Hx); by apply Hno in H|].
      unfold with_permit. destruct Hp as [-> | ->]; naive_solver.
  - intros d x Hx. unfold_manager. apply lookup_alter_Some in Hx as [(<- & z & Hz & ->)|[Hne Hx]]; [|by apply Hc].
    rewrite Hy in Hz. injection Hz as <-. cbn. split; [done|]. intros H%(Hc _ _ Hy). congruence.
  - intros d q Hq. unfold_manager. destruct (Hk _ _ Hq) as [? [x Hx]]. split; [done|]. rewrite lookup_alter_is_Some. by exists x.
Qed.

Lemma gates_leave m t c p :
  gates m -> holds_permit m t c -> (forall d, ~ with_permit d (Some p)) -> gates (put_call t p (put_gate c None m)).
Proof.
  intros [Hg Hc Hk] Hh Hp. split.
  - intros d x t' Hx. rewrite holds_put. unfold_manager. apply lookup_alter_Some in Hx as [(<- & z & Hz & ->)|[Hne Hx]].
    + cbn. split; [done|]. destruct (decide (t' = t)) as [->|Hne]; [by intros ?%Hp|].
      intros H%(Hg _ _ _ Hz). apply (Hg _ _ _ Hz) in Hh. congruence.
    + destruct (decide (t' = t)) as [->|Ht]; [|by apply Hg]. split; [|by intros ?%Hp].
      intros H%(Hg _ _ _ Hx). unfold holds_permit in *. naive_solver.
  - intros d x Hx. unfold_manager. apply lookup_alter_Some in Hx as [(<- & z & Hz & ->)|[Hne Hx]]; [|by apply Hc].
    cbn. split; [done|]. intros H%(Hc _ _ Hz). apply (Hg _ _ _ Hz) in Hh. congruence.
  - intros d q Hq. unfold_manager. destruct (Hk _ _ Hq) as [? [x Hx]]. split; [done|]. rewrite lookup_alter_is_Some. by exists x.
Qed.

Lemma holds_done m t c t' d :
  calls m !! t = Some (Releasing c) -> delete t (calls m) !! t' = Some (Permitted d) \/ delete t (calls m) !! t' = Some (Using d) <->
  calls m !! t' = Some (Permitted d) \/ calls m !! t' = Some (Using d).
Proof. intros Ht. rewrite !lookup_delete_Some. naive_solver congruence. Qed.

Section Gates.
Context {MI : MapIter} (maxConsumers : Z) (Hmax : 0 < maxConsumers).

Lemma stop_all_gates open m : same_gates (heap (fold_left (fun m c => stopIdleTimer c m) open m)) (heap m).
Proof.
  revert m. induction open as [|c l IH]; intros m; cbn [fold_left]; [done|].
  eapply gate_trans; [apply IH|]. rewrite stop_heap. by apply gate_alter.
Qed.

Lemma gates_heap f d m : (forall x, gc_gate (f x) = gc_gate x) -> gates m -> gates (with_heap (alter f d) m).
Proof. intros Hf. apply gates_same; try done. by apply gate_alter. Qed.

Lemma gates_stop d m : gates m -> gates (stopIdleTimer d m).
Proof.
  pose proof (stop_rest d m) as (_ & Hca & Hq & Hc & _). apply gates_same; try done.
  - rewrite stop_heap. by apply gate_alter.
  - intros t e. unfold holds_permit. by rewrite Hca.
Qed.

Lemma gates_detach v m : gates m -> gates (detach v m).
Proof. unfold detach. destruct (heap m !! v); [|done]. by apply gates_same. Qed.

(** A call that has not been there has no permit. *)
Lemma gates_start m t p : gates m -> calls m !! t = None -> (forall d, ~ with_permit d (Some p)) -> gates (put_call t p m).
Proof. intros H Ht Hp. apply gates_put; [done|]. intros d. rewrite Ht. split; [by intros ?%Hp | by intros [|]]. Qed.

Lemma gates_new m k c now key :
  gates m -> heap m !! c = None -> isClosed m = false -> (forall t, ~ holds_permit m t c) ->
  gates (with_consumers (insert key c) (with_heap (insert c (new_consumer k now)) m)).
Proof.
  intros [Hg Hq Hk] Hc Hcl Hno. split; unfold holds_permit in *; unfold_manager.
  - intros d x t' [[<- <-]|[_ Hx]]%lookup_insert_Some; [|by apply Hg]. split; [done|]. intros H. by apply Hno in H.
  - intros d x [[<- <-]|[_ Hx]]%lookup_insert_Some; [|by apply Hq]. split; [done|]. intros [? _]%Hk. congruence.
  - intros d q Hdq. destruct (Hk _ _ Hdq). congruence.
Qed.

Lemma acquire_gates m t key now c client m' p :
  books_of maxConsumers m -> gates m -> calls m !! t = None -> heap m !! c = None ->
  acquire maxConsumers key now c client m = Ok (m', p) -> gates (put_call t p m').
Proof.
  intros Hb H Ht Hc. unfold acquire. destruct (isClosed m) eqn:Hcl; [done|].
  assert (Hno : forall t, ~ holds_permit m t c).
  { assert (Hno : forall t q, pinned q = c -> calls m !! t <> Some q); [|intros t' [Hh|Hh]; refine (Hno _ _ _ Hh); reflexivity].
    intros t' q Hpq Hq'. apply pins_Some in Hq'. rewrite Hpq in Hq'. destruct (b_pinned _ _ _ _ _ Hb _ _ Hq') as [y Hy].
    unfold cores in Hy. by rewrite lookup_fmap, Hc in Hy. }
  destruct (consumers m !! key) as [c0|] eqn:Hk.
  - intros [= <- <-]. pose proof (stop_rest c0 m) as (_ & Hca & _).
    apply gates_start; [by apply gates_heap, gates_stop | by cbn; rewrite Hca | by intros d [|]].
  - destruct (maxConsumers <=? _); cbn [negb].
    + destruct (eviction m) as [v|] eqn:Ev; [|done]. destruct client; [|done]. intros [= <- <-].
      pose proof (stop_rest v m) as (_ & Hca & _ & Hcl' & _). set (m1 := with_timers id 1 (stopIdleTimer v m)).
      assert (Hdet : calls (detach v m1) = calls m /\ heap (detach v m1) = alter (set_idleTimer None) v (heap m) /\ isClosed (detach v m1) = false).
      { unfold detach, m1. destruct (heap _ !! v); unfold_manager; by rewrite Hca, Hcl', stop_heap. }
      destruct Hdet as (D1 & D2 & D3). apply gates_start; [|by unfold_manager; rewrite D1|by intros d [|]].
      apply gates_new; [|rewrite D2|done|].
      * apply gates_detach. eapply gates_same; [..|exact (gates_stop v m H)]; done.
      * apply eviction_Some in Ev as (k & x & _ & Hx & _). rewrite lookup_alter_ne; [done | congruence].
      * intros t'. unfold holds_permit. rewrite D1. apply Hno.
    + destruct client; [|done]. intros [= <- <-]. apply gates_start; [by apply gates_new | done | by intros d [|]].
Qed.

Lemma queue_lookup open (q : gmap nat CloseState) c :
  fold_left (fun q c => <[c := Queued]> q) open q !! c = if decide (c ∈ open) then Some Queued else q !! c.
Proof.
  revert q. induction open as [|d l IH]; intros q; cbn [fold_left].
  - rewrite decide_False; [done|]. apply not_elem_of_nil.
  - rewrite IH. destruct (decide (c = d)) as [->|Hne].
    + rewrite lookup_insert_eq, (decide_True (P := d ∈ d :: l)) by left. by destruct (decide _).
    + rewrite lookup_insert_ne by done. destruct (decide (c ∈ l)); [rewrite decide_True by (by right)|rewrite decide_False by (by rewrite elem_of_cons; intros [?|?])]; done.
Qed.

Lemma close_gates m : books_of maxConsumers m -> gates m -> isClosed m = false -> gates (close_consumers m).
Proof.
  intros Hb [Hg Hc Hk] Hcl. unfold close_consumers. set (open := map snd _). pose proof (stop_all_gates open m) as Hh.
  destruct (stop_all open m) as (_ & _ & Hca & Hq & _). set (m1 := fold_left _ open m) in *.
  assert (Hnone : forall c, closing m !! c = None).
  { intros c. destruct (closing m !! c) as [q|] eqn:E; [|done]. apply Hk in E as [E _]. congruence. }
  split; unfold holds_permit; unfold_manager; rewrite ?Hca, ?Hq.
  - intros c x t Hx. destruct (gate_inv _ _ _ _ Hh Hx) as (y & Hy & ->). by apply Hg.
  - intros c x Hx. destruct (gate_inv _ _ _ _ Hh Hx) as (y & Hy & ->). rewrite (Hc _ _ Hy), queue_lookup, Hnone. by destruct (decide _).
  - intros c q. rewrite queue_lookup, Hnone. destruct (decide (c ∈ open)) as [Hin|]; [|done]. intros _. split; [done|].
    unfold open in Hin. apply list_elem_of_fmap in Hin as ([k d] & -> & Hkd%elem_of_map_iter). cbn.
    destruct (b_in _ _ _ _ _ Hb _ _ Hkd) as [u Hu]. apply cores_Some in Hu as (x & Hx & _). symmetry in Hh.
    destruct (gate_inv _ _ _ _ Hh Hx) as (y & Hy & _). by exists y.
Qed.

(** A consumer in the hands of the closing worker. *)
Lemma gates_closing m c q g :
  gates m -> closing m !! c <> None -> free_gate m c \/ g = None /\ (forall t, ~ holds_permit m t c) ->
  (q = Some (Closing true) <-> g = Some ByCloser) -> (g = None \/ g = Some ByCloser) ->
  gates (with_closing (partial_alter (fun _ => q) c) (put_gate c g m)).
Proof.
  intros [Hg Hc Hk] Hq Hfree Hiff Hor. split; unfold holds_permit in *; unfold_manager.
  - intros d x t [(<- & z & Hz & ->)|[Hne Hx]]%lookup_alter_Some; [|by apply Hg]. cbn. split; [by destruct Hor as [-> | ->]|].
    intros H. exfalso. destruct Hfree as [(y & Hy & Hf)|[_ Hno]]; [|by apply Hno in H].
    rewrite Hz in Hy. injection Hy as <-. apply (Hg _ _ _ Hz) in H. congruence.
  - intros d x [(<- & z & Hz & ->)|[Hne Hx]]%lookup_alter_Some; [rewrite lookup_partial_alter_eq; symmetry; exact Hiff|].
    rewrite lookup_partial_alter_ne by done. by apply Hc.
  - intros d r Hr. assert (Hd : closing m !! d <> None).
    { destruct (decide (d = c)) as [->|]; [done|]. rewrite lookup_partial_alter_ne in Hr by done. congruence. }
    destruct (closing m !! d) as [r'|] eqn:E; [|done]. destruct (Hk _ _ E). split; [done|]. by rewrite lookup_alter_is_Some.
Qed.

Lemma gates_requeue m c q q' :
  gates m -> closing m !! c = Some q -> q <> Closing true -> q' <> Some (Closing true) ->
  gates (with_closing (partial_alter (fun _ => q') c) m).
Proof.
  intros [Hg Hc Hk] Hq Hne Hne'. split; unfold holds_permit in *; unfold_manager; [done| |].
  - intros d x Hx. destruct (decide (d = c)) as [->|Hdc]; [|rewrite lookup_partial_alter_ne by done; by apply Hc].
    rewrite lookup_partial_alter_eq, (Hc _ _ Hx), Hq. split; [by intros [= ->] | done].
  - intros d r Hr. destruct (decide (d = c)) as [->|]; [by eapply Hk|]. rewrite lookup_partial_alter_ne in Hr by done. by eapply Hk.
Qed.

Lemma expire_gates c g m : gates m -> gates (expireConsumer c g m).
Proof.
  intros H. unfold expireConsumer. destruct (heap m !! c) as [x|]; [|by eapply gates_same; [..|exact H]].
  destruct (_ || _); [by eapply gates_same; [..|exact H]|].
  eapply gates_same; [..|exact H]; try done. by apply gate_alter.
Qed.

Lemma step_gates m m' : books_of maxConsumers m -> gates m -> step maxConsumers m m' -> gates m'.
Proof.
  intros Hb H Hs. destruct Hs as [m t key now c client m' p Ht Hc Ha|m t c v Ht|m t c Ht Hf|m t c Ht|m t c Ht _|m t c Ht|m t c now Ht
    |m c g Hg|m c g Hg|m c g Hg|m|m Hcl|m c Hq Hf|m c Hq _|m c b Hq|m Hcl _ _].
  - by eapply acquire_gates.
  - apply gates_put; [|unfold_manager; rewrite Ht; intros d; split; by intros [|]].
    eapply gates_same; [..|exact H]; try done. by apply gate_alter.
  - apply gates_permit; [done|done|by left|]. intros d [?|?]; congruence.
  - apply gates_put; [done|]. rewrite Ht. intros d. split; by intros [|].
  - apply gates_put; [done|]. rewrite Ht. intros d. unfold with_permit. naive_solver.
  - apply gates_leave; [done|done|]. by intros d [|].
  - eapply gates_same; [..|exact H]; unfold release; (destruct (heap m !! c) as [x|]; [destruct (_ && _)|]); unfold_manager; try done.
    + eapply gate_trans; by apply gate_alter.
    + by apply gate_alter.
    + intros t1 d. unfold holds_permit; cbn. by eapply holds_done.
    + intros t1 d. unfold holds_permit; cbn. by eapply holds_done.
    + intros t1 d. unfold holds_permit; cbn. by eapply holds_done.
  - by eapply gates_same; [..|exact H].
  - by apply expire_gates.
  - eapply gates_same; [..|exact H]; try done. by apply gate_alter.
  - by eapply gates_same; [..|exact H].
  - by apply close_gates.
  - apply gates_closing; [done|congruence|by left|done|by right].
  - by eapply gates_requeue.
  - destruct b; [|by eapply (gates_requeue _ c (Closing false)); [apply gates_heap| | |]].
    apply (gates_closing (closeConsumer c m) c None None); [by apply gates_heap|cbn; congruence| |done|by left].
    right. split; [done|]. intros t Hh. destruct (g_known _ H _ _ Hq) as [_ [x Hx]].
    apply (g_call _ H _ _ _ Hx) in Hh. apply (g_closer _ H _ _ Hx) in Hq. congruence.
  - eapply gates_same; [..|exact H]; done.
Qed.

Lemma reachable_gates m : reachable maxConsumers m -> gates m.
Proof.
  revert m. apply reachable_inv.
  - split; unfold holds_permit; cbn; try done; by intros ? ? ? H%lookup_empty_Some.
  - intros m m' Hr. apply step_gates. by apply (reachable_books _ Hmax).
Qed.

End Gates.

(** ** The lives of clients *)

(** Somebody is closing the consumer, outside [CloseContext]. *)
Definition dying (m : Manager) (c : nat) : Prop :=
  (exists t d, calls m !! t = Some (Evicting d c)) \/ exists g, timers m !! (c, g) = Some TClosing.

(** A client that is not closed can be acquired, or somebody is about to close
    it; one that a call uses is open unless the shutdown was forced. *)
Record life (m : Manager) : Prop := {
  l_owner c x : heap m !! c = Some x -> gc_closed x = false ->
    consumers m !! gc_key x = Some c \/ dying m c \/ closing m !! c <> None;
  l_open k c x : consumers m !! k = Some c -> heap m !! c = Some x -> gc_closed x = false;
  l_forced c : closing m !! c = Some (Closing false) -> forced m = true;
  l_using t c x : calls m !! t = Some (Using c) -> heap m !! c = Some x -> gc_closed x = false \/ forced m = true
}.

(** A step that ends nobody's life. *)
Definition vital (x : groupConsumer) : consumerKey * bool := (gc_key x, gc_closed x).
Definition same_vitals (h h' : gmap nat groupConsumer) : Prop := vital <$> h = vital <$> h'.
Lemma vital_inv h h' c x :
  same_vitals h h' -> h !! c = Some x -> exists y, h' !! c = Some y /\ gc_key x = gc_key y /\ gc_closed x = gc_closed y.
Proof.
  intros Hf Hc. assert (H : (vital <$> h') !! c = Some (vital x)) by (rewrite <- Hf, lookup_fmap, Hc; done).
  rewrite lookup_fmap in H. destruct (h' !! c) as [y|]; [|done]. injection H as ? ?. by exists y.
Qed.
Lemma vital_alter f (h : gmap nat groupConsumer) c : (forall x, vital (f x) = vital x) -> same_vitals (alter f c h) h.
Proof.
  intros Hf. apply map_eq. intros d. rewrite !lookup_fmap. destruct (decide (c = d)) as [<-|Hne].
  - rewrite lookup_alter_eq. destruct (h !! c); cbn; by rewrite ?Hf.
  - by rewrite lookup_alter_ne.
Qed.

Lemma life_same m m' :
  consumers m' = consumers m -> same_vitals (heap m') (heap m) -> (forall c, dying m c -> dying m' c) ->
  closing m' = closing m -> (forced m = true -> forced m' = true) ->
  (forall t c, calls m' !! t = Some (Using c) -> calls m !! t = Some (Using c)) -> life m -> life m'.
Proof.
  intros Hcs Hh Hd Hq Hf Hca [Ho Hop Hfo Hu]. split; rewrite ?Hcs, ?Hq.
  - intros c x Hx. destruct (vital_inv _ _ _ _ Hh Hx) as (y & Hy & -> & ->). intros Hcl. destruct (Ho _ _ Hy Hcl) as [?|[?|?]]; auto.
  - intros k c x Hk Hx. destruct (vital_inv _ _ _ _ Hh Hx) as (y & Hy & _ & ->). by eapply Hop.
  - intros c Hc. by apply Hf, (Hfo c).
  - intros t c x Ht Hx. destruct (vital_inv _ _ _ _ Hh Hx) as (y & Hy & _ & ->). destruct (Hu _ _ _ (Hca _ _ Ht) Hy); auto.
Qed.

(** A client is closed: nobody can acquire it, and nobody uses it but after a forced shutdown. *)
Lemma life_closed m c :
  life m -> (forall k, consumers m !! k <> Some c) -> (forall t, calls m !! t = Some (Using c) -> forced m = true) ->
  life (closeConsumer c m).
Proof.
  intros [Ho Hop Hfo Hu] Hk Hus. split; unfold_manager; [| |exact Hfo|].
  - intros d x [(<- & z & Hz & ->)|[Hne Hx]]%lookup_alter_Some Hcl; [done|]. by apply Ho.
  - intros k d x Hkd [(<- & z & Hz & ->)|[Hne Hx]]%lookup_alter_Some; [by apply Hk in Hkd | by eapply Hop].
  - intros t d x Ht [(<- & z & Hz & ->)|[Hne Hx]]%lookup_alter_Some; [right; by eapply Hus | by eapply Hu].
Qed.

Lemma dying_same m m' :
  (forall t d c, calls m !! t = Some (Evicting d c) -> calls m' !! t = Some (Evicting d c)) ->
  (forall c g, timers m !! (c, g) = Some TClosing -> timers m' !! (c, g) = Some TClosing) -> forall c, dying m c -> dying m' c.
Proof. intros Hc Ht c [(t & d & H)|(g & H)]; [left; exists t, d; auto | right; exists g; auto]. Qed.

Section Lives.
Context {MI : MapIter} (maxConsumers : Z) (Hmax : 0 < maxConsumers).

(** A detached consumer is used by no call. *)
Lemma detached_unused m c : books_of maxConsumers m -> detached m c ->
  (forall k, consumers m !! k <> Some c) /\ forall t p, calls m !! t = Some p -> pinned p <> c.
Proof.
  intros Hb (x & Hx & Hu & Hk). split.
  - intros k Hkc. apply Hk. by rewrite (key_of _ _ _ _ _ Hb Hkc Hx).
  - intros t p Ht Hp. pose proof (b_users _ _ _ _ _ Hb _ _ _ (cores_lookup _ _ _ Hx)) as Hn. apply pins_Some in Ht.
    pose proof (count_pos (eq c) _ _ _ Ht (eq_sym Hp)). lia.
Qed.

Lemma stop_all_vitals open m : same_vitals (heap (fold_left (fun m c => stopIdleTimer c m) open m)) (heap m).
Proof.
  revert m. induction open as [|c l IH]; intros m; cbn [fold_left]; [done|].
  unfold same_vitals in *. rewrite IH, stop_heap. by apply vital_alter.
Qed.

(** Stopping a timer does not stop a callback that runs. *)
Lemma stop_dying c m d : dying m d -> dying (stopIdleTimer c m) d.
Proof.
  pose proof (stop_rest c m) as (_ & Hca & _). apply dying_same; [by rewrite Hca|]. intros e g Hg. unfold stopIdleTimer.
  destruct (heap m !! c ≫= gc_idleTimer) as [g'|]; [|done]. destruct (timers m !! (c, g')) as [[]|] eqn:E; unfold_manager; try done.
  rewrite lookup_delete_ne; [done | congruence].
Qed.
Lemma stop_all_dying open m d : dying m d -> dying (fold_left (fun m c => stopIdleTimer c m) open m) d.
Proof. revert m. induction open as [|c l IH]; intros m H; cbn [fold_left]; [done|]. by apply IH, stop_dying. Qed.
Lemma stop_life c m : life m -> life (stopIdleTimer c m).
Proof.
  pose proof (stop_rest c m) as (Hcs & Hca & Hq & _ & Hf & _). apply life_same; try done; [|apply stop_dying|by rewrite Hf|by rewrite Hca].
  rewrite stop_heap. by apply vital_alter.
Qed.

Lemma close_life m : life m -> life (close_consumers m).
Proof.
  intros [Ho Hop Hfo Hu]. unfold close_consumers. set (open := map snd _).
  destruct (stop_all open m) as (_ & Hcs & Hca & Hq & _ & Hf & _). pose proof (stop_all_vitals open m) as Hh.
  pose proof (stop_all_dying open m) as Hd. set (m1 := fold_left _ open m) in *.
  split; unfold_manager; rewrite ?Hq.
  - intros c x Hx Hcl. destruct (vital_inv _ _ _ _ Hh Hx) as (y & Hy & Hk & Hcl'). rewrite Hcl' in Hcl. right.
    rewrite queue_lookup. destruct (Ho _ _ Hy Hcl) as [Hin|[Hin|Hin]].
    + right. rewrite decide_True; [done|]. unfold open. apply list_elem_of_fmap. exists (gc_key y, c). split; [done|]. by apply elem_of_map_iter.
    + left. by apply Hd.
    + right. by destruct (decide _).
  - by intros k c x H%lookup_empty_Some.
  - intros c. rewrite queue_lookup. destruct (decide _); [done|]. rewrite Hf. apply Hfo.
  - intros t c x Ht Hx. rewrite Hca in Ht. destruct (vital_inv _ _ _ _ Hh Hx) as (y & Hy & _ & ->). rewrite Hf. by eapply Hu.
Qed.

(** A new consumer, in the place of one that is being evicted or in a free one. *)
Lemma life_new m cs t p key now c :
  life m -> heap m !! c = None -> calls m !! t = None -> (forall u, p <> Using u) -> cs !! key = None ->
  (forall k d, cs !! k = Some d -> consumers m !! k = Some d) ->
  (forall k d, consumers m !! k = Some d -> cs !! k = Some d \/ exists e, p = Evicting e d) ->
  life (put_call t p (with_consumers (fun _ => <[key := c]> cs) (with_heap (insert c (new_consumer key now)) m))).
Proof.
  intros [Ho Hop Hfo Hu] Hc Ht Hp Hk Hsub Hsup. split; unfold_manager; [| |exact Hfo|].
  - intros d x [[<- <-]|[Hne Hx]]%lookup_insert_Some Hcl; [left; by rewrite lookup_insert_eq|].
    destruct (Ho _ _ Hx Hcl) as [Hin|[[(t' & e & Hd)|(g & Hg)]|?]]; [|right; left; left|right; left; right; by exists g|by right; right].
    + destruct (Hsup _ _ Hin) as [Hin'|[e ->]].
      * left. rewrite lookup_insert_ne; [done | congruence].
      * right. left. left. exists t, e. cbn. by rewrite lookup_insert_eq.
    + exists t', e. cbn. rewrite lookup_insert_ne; [done | congruence].
  - intros k d x [[_ <-]|[_ Hkd]]%lookup_insert_Some [[_ <-]|[? Hx]]%lookup_insert_Some; try done. by eapply Hop; [apply Hsub|].
  - intros t' d x [[_ ?]|[_ Ht']]%lookup_insert_Some [[_ <-]|[_ Hx]]%lookup_insert_Some; [by eapply Hp in H|by eapply Hp in H|by left|].
    by eapply Hu.
Qed.

Lemma acquire_life m t key now c client m' p :
  books_of maxConsumers m -> life m -> calls m !! t = None -> heap m !! c = None ->
  acquire maxConsumers key now c client m = Ok (m', p) -> life (put_call t p m').
Proof.
  intros Hb H Ht Hc. unfold acquire. destruct (isClosed m) eqn:Hcl; [done|].
  destruct (consumers m !! key) as [c0|] eqn:Hk.
  - intros [= <- <-]. pose proof (stop_rest c0 m) as (_ & Hca & _). eapply life_same; [..|exact (stop_life c0 m H)]; try done.
    + by apply vital_alter.
    + apply dying_same; [|done]. intros t' d e Ht'. cbn. rewrite lookup_insert_ne; [done|]. intros <-. rewrite Hca in Ht'. congruence.
    + cbn. by intros t' d [[_ ?]|[_ ?]]%lookup_insert_Some.
  - destruct (maxConsumers <=? _); cbn [negb].
    + destruct (eviction m) as [v|] eqn:Ev; [|done]. destruct client; [|done]. intros [= <- <-].
      apply eviction_Some in Ev as (k & x & Hkv & Hx & Hu & _). pose proof (key_of _ _ _ _ _ Hb Hkv Hx) as Hkx.
      pose proof (stop_rest v m) as (Hcs & Hca & _).
      rewrite (detach_eq _ _ (set_idleTimer None x)) by (cbn; by rewrite stop_heap, lookup_alter_eq, Hx).
      change (gc_key (set_idleTimer None x)) with (gc_key x). rewrite Hkx.
      apply (life_new (with_timers id 1 (stopIdleTimer v m)) (delete k (consumers (stopIdleTimer v m)))); unfold_manager; rewrite ?Hcs.
      * eapply life_same; [..|exact (stop_life v m H)]; done.
      * rewrite stop_heap, lookup_alter_ne; [done | congruence].
      * by rewrite Hca.
      * done.
      * by apply lookup_delete_None; right.
      * by intros k' d [_ ?]%lookup_delete_Some.
      * intros k' d Hkd. destruct (decide (k' = k)) as [->|]; [right; exists c; congruence|]. left. by rewrite lookup_delete_ne.
    + destruct client; [|done]. intros [= <- <-]. apply life_new; auto.
Qed.

Lemma expire_life m c g :
  timers m !! (c, g) = Some TStarted -> life m -> life (expireConsumer c g m).
Proof.
  intros Hg H. assert (Hstale : life (with_timers (delete (c, g)) (-1) m)).
  { eapply life_same; [..|exact H]; try done. apply dying_same; [done|]. intros d g' Hg'. unfold_manager.
    rewrite lookup_delete_ne; [done | congruence]. }
  unfold expireConsumer. destruct (heap m !! c) as [x|] eqn:Hx; [|done]. destruct (_ || _) eqn:E; [done|].
  destruct H as [Ho Hop Hfo Hu]. split; unfold_manager; [| |exact Hfo|].
  - intros d y Hy Hcl. apply lookup_alter_Some in Hy as [(<- & z & Hz & ->)|[Hne Hy]].
    + right. left. right. exists g. unfold_manager. by rewrite lookup_insert_eq.
    + destruct (Ho _ _ Hy Hcl) as [Hin|[[(t & e & Hd)|(g' & Hg')]|?]]; [left|right; left; left; by exists t, e| |by right; right].
      * rewrite lookup_delete_ne; [done|]. intros Ek. apply orb_false_elim in E as [_ E]. apply negb_false_iff, bool_decide_eq_true in E.
        rewrite Ek in E. congruence.
      * right. left. right. exists g'. cbn. rewrite lookup_insert_ne; [done | congruence].
  - intros k d y [_ Hkd]%lookup_delete_Some [(<- & z & Hz & ->)|[Hne Hy]]%lookup_alter_Some; cbn; by eapply Hop.
  - intros t d y Ht [(<- & z & Hz & ->)|[Hne Hy]]%lookup_alter_Some; cbn; by eapply Hu.
Qed.

(** A call that goes on. *)
Lemma life_call m f t p q :
  life m -> calls m !! t = Some p -> is_evicting p = false -> (forall u, q <> Using u) -> same_vitals (f (heap m)) (heap m) ->
  life (put_call t q (with_heap f m)).
Proof.
  intros H Hp Hep Hq Hh. eapply life_same; [..|exact H]; try done.
  - apply dying_same; [|done]. intros t' d c Ht'. cbn. rewrite lookup_insert_ne; [done|]. intros <-. rewrite Hp in Ht'. by injection Ht' as ->.
  - cbn. intros t' c [[_ ?]|[_ ?]]%lookup_insert_Some; [by exfalso; eapply Hq | done].
Qed.

Lemma enter_life m t c :
  books_of maxConsumers m -> life m -> calls m !! t = Some (Permitted c) -> isClosed m = false -> life (put_call t (Using c) m).
Proof.
  intros Hb [Ho Hop Hfo Hu] Ht Hcl. split; unfold_manager; [|exact Hop|exact Hfo|].
  - intros d x Hx Hd. destruct (Ho _ _ Hx Hd) as [?|[Hdy|?]]; [by left| |by right; right]. right. left. revert Hdy.
    apply dying_same; [|done]. intros t' e v Ht'. cbn. rewrite lookup_insert_ne; [done | congruence].
  - intros t' d x [[_ [= <-]]|[_ Ht']]%lookup_insert_Some Hx; [|by eapply Hu]. left. eapply Hop; [|exact Hx].
    eapply (b_used _ _ _ _ _ Hb); [by apply cores_lookup| |done].
    rewrite (b_users _ _ _ _ _ Hb _ _ _ (cores_lookup _ _ _ Hx)). by eapply count_pos; [apply (pins_Some _ _ _ Ht)|].
Qed.

(** Nobody has to care for a client that is closed. *)
Lemma life_over m m' c :
  life m -> (forall x, heap m !! c = Some x -> gc_closed x = true) ->
  consumers m' = consumers m -> same_vitals (heap m') (heap m) -> forced m' = forced m ->
  (forall d, d <> c -> dying m d -> dying m' d) -> (forall d q, closing m' !! d = Some q -> closing m !! d = Some q) ->
  (forall d, d <> c -> closing m' !! d = closing m !! d) ->
  (forall t d, calls m' !! t = Some (Using d) -> calls m !! t = Some (Using d)) -> life m'.
Proof.
  intros [Ho Hop Hfo Hu] Hdead Hcs Hh Hf Hd Hq Hq' Hca. split; rewrite ?Hcs, ?Hf.
  - intros d x Hx. destruct (vital_inv _ _ _ _ Hh Hx) as (y & Hy & -> & ->). intros Hcl.
    assert (d <> c) by (intros ->; rewrite (Hdead _ Hy) in Hcl; done). rewrite Hq' by done.
    destruct (Ho _ _ Hy Hcl) as [?|[?|?]]; auto.
  - intros k d x Hk Hx. destruct (vital_inv _ _ _ _ Hh Hx) as (y & Hy & _ & ->). by eapply Hop.
  - intros d Hd'. by eapply Hfo, Hq.
  - intros t d x Ht Hx. destruct (vital_inv _ _ _ _ Hh Hx) as (y & Hy & _ & ->). by eapply Hu; [apply Hca|].
Qed.

Lemma life_requeue m f c q :
  life m -> closing m !! c <> None -> (q = Closing false -> forced m = true) -> same_vitals (f (heap m)) (heap m) ->
  life (with_closing (insert c q) (with_heap f m)).
Proof.
  intros [Ho Hop Hfo Hu] Hc Hq Hh. split; unfold_manager.
  - intros d x Hx. destruct (vital_inv _ _ _ _ Hh Hx) as (y & Hy & -> & ->). intros Hcl. destruct (Ho _ _ Hy Hcl) as [?|[?|?]]; auto.
    right. right. destruct (decide (d = c)) as [->|]; [by rewrite lookup_insert_eq | by rewrite lookup_insert_ne].
  - intros k d x Hk Hx. destruct (vital_inv _ _ _ _ Hh Hx) as (y & Hy & _ & ->). by eapply Hop.
  - intros d [[_ ->]|[_ ?]]%lookup_insert_Some; [by apply Hq | by eapply Hfo].
  - intros t d x Ht Hx. destruct (vital_inv _ _ _ _ Hh Hx) as (y & Hy & _ & ->). by eapply Hu.
Qed.

Lemma closed_dead m c x : heap (closeConsumer c m) !! c = Some x -> gc_closed x = true.
Proof. cbn. rewrite lookup_alter_eq. destruct (heap m !! c); [|done]. by intros [= <-]. Qed.

Lemma release_life m t c now :
  clocked m -> life m -> calls m !! t = Some (Releasing c) -> life (with_calls (delete t) (release c now m)).
Proof.
  intros Hk H Ht.
  assert (Hr : calls (release c now m) = calls m /\ closing (release c now m) = closing m /\ forced (release c now m) = forced m /\
               consumers (release c now m) = consumers m /\ same_vitals (heap (release c now m)) (heap m)).
  { unfold release. destruct (heap m !! c); [|done]. destruct (_ && _); unfold_manager; repeat (split; [done|]); [|by apply vital_alter].
    unfold same_vitals. rewrite vital_alter by done. by apply vital_alter. }
  destruct Hr as (Hca & Hq & Hf & Hcs & Hv). eapply life_same; [..|exact H]; unfold_manager; try done.
  - apply dying_same; unfold_manager; rewrite ?Hca; [intros t' d v Hv'; rewrite lookup_delete_ne; [done | congruence]|].
    intros d g Hd. unfold release. destruct (heap m !! c) as [x|] eqn:Hx; [|done]. destruct (_ && _); unfold_manager; [|done].
    rewrite lookup_insert_ne; [done|]. intros [= <- <-]. destruct (t_fresh _ _ _ Hk _ _ _ Hd) as (y & Hy & ?). rewrite Hx in Hy. injection Hy as <-. lia.
  - by rewrite Hf.
  - rewrite Hca. by intros t' d [_ ?]%lookup_delete_Some.
Qed.

Lemma worker_life m c b :
  books_of maxConsumers m -> gates m -> life m -> closing m !! c = Some (Closing b) ->
  life (with_closing (delete c) ((if b : bool then put_gate c None else id) (closeConsumer c m))).
Proof.
  intros Hb Hg H Hq. destruct (g_known _ Hg _ _ Hq) as [Hcl [x Hx]].
  assert (Hc : life (closeConsumer c m)).
  { apply life_closed; [done| |].
    - intros k. by rewrite (b_closed _ _ _ _ _ Hb Hcl), lookup_empty.
    - intros t Ht. destruct b; [|by eapply l_forced]. apply (g_closer _ Hg _ _ Hx) in Hq.
      assert (Hh : holds_permit m t c) by (by right). apply (g_call _ Hg _ _ _ Hx) in Hh. congruence. }
  apply (life_over _ _ c Hc (closed_dead m c)); try (by destruct b).
  - destruct b; [by apply vital_alter | done].
  - intros d q. destruct b; cbn; by intros [_ ?]%lookup_delete_Some.
  - intros d Hd. destruct b; cbn; by rewrite lookup_delete_ne.
Qed.

Lemma step_life m m' :
  books_of maxConsumers m -> clocked m -> gates m -> life m -> step maxConsumers m m' -> life m'.
Proof.
  intros Hb Hk Hg H Hs. destruct Hs as [m t key now c client m' p Ht Hc Ha|m t c v Ht|m t c Ht Hf|m t c Ht|m t c Ht Hcl|m t c Ht|m t c now Ht
    |m c g Ht|m c g Ht|m c g Ht|m|m Hcl|m c Hq Hf|m c Hq Hf|m c b Hq|m Hcl _ _].
  - by eapply acquire_life.
  - destruct (detached_unused _ _ Hb (t_evict _ _ _ Hk _ _ _ Ht)) as [Hn Hun].
    apply (life_over (closeConsumer v m) _ v); [by apply life_closed; [..|intros t' Ht'%Hun] | apply closed_dead | done..| |done|done|].
    + intros d Hd. intros [(t' & e & Ht')|(g & Hg')]; [left; exists t', e|right; by exists g]. cbn in *. rewrite lookup_insert_ne; [done | congruence].
    + cbn. by intros t' d [[_ ?]|[_ ?]]%lookup_insert_Some.
  - eapply (life_call m _ t); [exact H | exact Ht | done | done | by apply vital_alter].
  - eapply (life_call m id t); [exact H | exact Ht | done | done | done].
  - by apply enter_life.
  - destruct Ht as [Ht|Ht]; (eapply (life_call m _ t); [exact H | exact Ht | done | done | by apply vital_alter]).
  - by apply release_life.
  - eapply life_same; [..|exact H]; try done. apply dying_same; [done|]. intros d g' Hd. cbn. rewrite lookup_insert_ne; [done | congruence].
  - by apply expire_life.
  - destruct (detached_unused _ _ Hb (t_closing _ _ _ Hk _ _ Ht)) as [Hn Hun].
    apply (life_over (closeConsumer c m) _ c); [by apply life_closed; [..|intros t' Ht'%Hun] | apply closed_dead | done..| |done|done|done].
    intros d Hd. intros [(t' & e & Ht')|(g' & Hg')]; [left; by exists t', e|right; exists g']. cbn in *. rewrite lookup_delete_ne; [done | congruence].
  - by eapply life_same; [..|exact H].
  - by apply close_life.
  - apply (life_requeue m); [done | congruence | done | by apply vital_alter].
  - apply (life_requeue m id); [done | congruence | done | done].
  - by apply worker_life.
  - by eapply life_same; [..|exact H].
Qed.

Lemma reachable_life m : reachable maxConsumers m -> life m.
Proof.
  revert m. apply reachable_inv.
  - split; cbn; try done; try (by intros ? ? H%lookup_empty_Some); by intros ? ? ? H%lookup_empty_Some.
  - intros m m' Hr. apply step_life; [by apply (reachable_books _ Hmax) | by apply (reachable_clocks _ Hmax) | by apply (reachable_gates _ Hmax)].
Qed.

(** [CloseContext] has returned. *)
Definition ended (m : Manager) : Prop := closeDone m = true -> isClosed m = true /\ closing m = ∅ /\ closers m = 0.

Lemma step_ended m m' : clocked m -> ended m -> step maxConsumers m m' -> ended m'.
Proof.
  intros Hk IH Hs. pose proof (t_count _ _ _ Hk) as Hn.
  assert (Hev : forall t d v, calls m !! t = Some (Evicting d v) -> 0 < closers m).
  { intros t d v Ht. pose proof (count_pos (fun p => is_evicting p = true) t _ _ Ht eq_refl) as H. unfold evicting in Hn. lia. }
  assert (Hti : forall k s, timers m !! k = Some s -> 0 < closers m).
  { intros k s Ht. pose proof (count_nonneg (fun p => is_evicting p = true) (calls m)). unfold evicting in Hn.
    assert (size (timers m) <> 0%nat); [|lia]. intros Hz. apply map_size_empty_inv in Hz. by rewrite Hz, lookup_empty in Ht. }
  destruct (closeDone m) eqn:Ed; [specialize (IH Ed) as (Hcl & Hq & H0)|].
  2: { assert (closeDone m' = false \/ ended m') as [Hd|]; [|intros Hd'; congruence|done]. destruct Hs; try by left.
    - left. revert H1. unfold acquire. destruct (isClosed m); [done|]. destruct (consumers m !! key).
      + intros [= <- <-]. cbn. by rewrite !(proj2 (proj2 (proj2 (proj2 (proj2 (stop_rest _ _)))))).
      + destruct (maxConsumers <=? _); [destruct (eviction m) as [v|]|]; destruct client; try done; intros [= <- <-]; [|done].
        cbn. unfold detach. destruct (heap _ !! v); cbn; by rewrite (proj2 (proj2 (proj2 (proj2 (proj2 (stop_rest v m)))))).
    - left. cbn. unfold release. destruct (heap m !! c); [|done]. by destruct (_ && _).
    - left. unfold expireConsumer. destruct (heap m !! c); [|done]. by destruct (_ || _).
    - left. unfold close_consumers. set (open := map snd _). destruct (stop_all open m) as (_ & _ & _ & _ & _ & _ & Hd). cbn. congruence.
    - left. by destruct permit.
    - right. intros _. auto. }
  intros _. destruct Hs; try (cbn; done); try (exfalso; (apply Hev in H || apply Hti in H || rewrite Hq in H); lia || by apply lookup_empty_Some in H).
  - match goal with H : acquire _ _ _ _ _ _ = _ |- _ => unfold acquire in H; by rewrite Hcl in H end.
  - cbn. unfold release. destruct (heap m !! c); [|done]. rewrite Hcl, andb_false_r. done.
  - congruence.
Qed.

Lemma reachable_ended m : reachable maxConsumers m -> ended m.
Proof.
  revert m. refine (reachable_inv maxConsumers ended _ _); [done|]. intros m m' Hr. apply step_ended. by apply (reachable_clocks _ Hmax).
Qed.
End Lives.

(** ** What the manager guarantees *)

Section Guarantees.
Context {MI : MapIter} (maxConsumers : Z) (Hmax : 0 < maxConsumers).

(** C31. A Kafka client is used by one call at a time: in every interleaving, the
    call that uses a consumer is the only one, its client has not been closed by
    an eviction, an idle timer or an orderly shutdown - only a forced shutdown
    closes clients in use - and the consumer is still the one of its group, so
    that no second client of the same topic and group is made while it is used;
    and the consumers that can be acquired never exceed the configured limit. *)
Theorem consumer_use_exclusive m t c :
  reachable maxConsumers m -> calls m !! t = Some (Using c) ->
  (forall t', calls m !! t' = Some (Using c) -> t' = t) /\
  (exists x, heap m !! c = Some x /\ (gc_closed x = false \/ forced m = true) /\
             (consumers m !! gc_key x = Some c \/ isClosed m = true)) /\
  Z.of_nat (size (consumers m)) <= maxConsumers.
Proof.
  intros Hr Ht. pose proof (reachable_books _ Hmax _ Hr) as Hb. pose proof (reachable_gates _ Hmax _ Hr) as Hg.
  pose proof (pins_Some _ _ _ Ht) as Hp. destruct (b_pinned _ _ _ _ _ Hb _ _ Hp) as [[k u] Hu].
  cbn in Hu. apply cores_Some in Hu as (x & Hx & <- & <-). pose proof (cores_lookup _ _ _ Hx) as Hco. split; [|split].
  - intros t' Ht'. assert (H1 : holds_permit m t c) by (by right). assert (H2 : holds_permit m t' c) by (by right).
    apply (g_call _ Hg _ _ _ Hx) in H1, H2. congruence.
  - exists x. split; [done|]. split; [by eapply (l_using _ (reachable_life _ Hmax _ Hr))|].
    destruct (isClosed m) eqn:Hcl; [by right|]. left. eapply (b_used _ _ _ _ _ Hb); [exact Hco| |done].
    rewrite (b_users _ _ _ _ _ Hb _ _ _ Hco). by eapply count_pos; [exact Hp|].
  - apply (b_max _ _ _ _ _ Hb).
Qed.

(** C32. Shutdown leaves no client behind: when CloseContext has returned, every
    Kafka client that was ever made is closed, no idle timer is left that could
    fire, and no consumer can be acquired, however calls, evictions and idle
    timers were interleaved with it; and the wait group that this rests on never
    goes below zero, which would panic. *)
Theorem close_joins_clients m :
  reachable maxConsumers m ->
  0 <= closers m /\
  (closeDone m = true ->
   consumers m = ∅ /\ timers m = ∅ /\ (forall c x, heap m !! c = Some x -> gc_closed x = true)).
Proof.
  intros Hr. pose proof (reachable_books _ Hmax _ Hr) as Hb. pose proof (t_count _ _ _ (reachable_clocks _ Hmax _ Hr)) as Hn.
  pose proof (count_nonneg (fun p => is_evicting p = true) (calls m)) as He. unfold evicting in Hn. split; [lia|].
  intros Hd. destruct (reachable_ended _ Hmax _ Hr Hd) as (Hcl & Hq & H0). pose proof (b_closed _ _ _ _ _ Hb Hcl) as Hcs.
  assert (Ht : timers m = ∅) by (apply map_size_empty_inv; lia). split; [done|]. split; [done|].
  intros c x Hx. destruct (gc_closed x) eqn:E; [done|].
  destruct (l_owner _ (reachable_life _ Hmax _ Hr) _ _ Hx E) as [H|[[(t & d & H)|(g & H)]|H]].
  - by rewrite Hcs, lookup_empty in H.
  - pose proof (count_pos (fun p => is_evicting p = true) t _ _ H eq_refl). lia.
  - by rewrite Ht, lookup_empty in H.
  - by rewrite Hq, lookup_empty in H.
Qed.

(** What the idle timer of generation [g] of consumer [c] does: it fires, its
    callback runs [expireConsumer], and closes the consumer it has detached. *)
Inductive timer_step (c g : nat) : Manager -> Manager -> Prop :=
| timer_fires m : timers m !! (c, g) = Some TPending -> timer_step c g m (with_timers (insert (c, g) TStarted) 0 m)
| timer_expires m : timers m !! (c, g) = Some TStarted -> timer_step c g m (expireConsumer c g m)
| timer_closes m : timers m !! (c, g) = Some TClosing ->
    timer_step c g m (with_timers (delete (c, g)) (-1) (closeConsumer c m)).

Lemma timer_is_step c g m m' : timer_step c g m m' -> step maxConsumers m m'.
Proof. destruct 1; by constructor. Qed.
Lemma timer_deterministic c g m m1 m2 : timer_step c g m m1 -> timer_step c g m m2 -> m1 = m2.
Proof. destruct 1; inversion 1; congruence. Qed.

(** Steps without a choice that come to an end come to one end. *)
Lemma deterministic_end {A : Type} (R : A -> A -> Prop) x y z :
  (forall a b c, R a b -> R a c -> b = c) -> rtc R x y -> (forall w, ~ R y w) -> rtc R x z -> (forall w, ~ R z w) -> y = z.
Proof.
  intros Hdet Hy Hend. induction Hy as [x|x x1 y Hx _ IH]; intros Hz Hz'.
  - destruct Hz as [|x x2 z Hx _]; [done|]. by destruct (Hend x2).
  - destruct Hz as [x|x x2 z Hx2 Hz]; [by destruct (Hz' x1)|]. rewrite (Hdet _ _ _ Hx Hx2) in *. by apply IH.
Qed.

(** The state the timer leaves when it has detached an idle consumer. *)
Lemma timer_runs m c x g :
  isClosed m = false -> heap m !! c = Some x -> gc_users x = 0 -> gc_idleTimer x = Some g -> gc_idleGeneration x = g ->
  consumers m !! gc_key x = Some c -> timers m !! (c, g) = Some TPending \/ timers m !! (c, g) = Some TStarted ->
  exists m', rtc (timer_step c g) m m' /\ consumers m' = delete (gc_key x) (consumers m) /\ calls m' = calls m /\
    isClosed m' = false /\ forced m' = forced m /\ closing m' = closing m /\ timers m' !! (c, g) = None /\
    heap m' = alter set_closed c (alter (set_idleTimer None) c (heap m)).
Proof.
  intros Hcl Hx Hu Hg Hgen Hk Ht.
  assert (Hstart : exists m1, rtc (timer_step c g) m m1 /\ timers m1 !! (c, g) = Some TStarted /\ heap m1 = heap m /\
    consumers m1 = consumers m /\ calls m1 = calls m /\ isClosed m1 = false /\ forced m1 = forced m /\ closing m1 = closing m).
  { destruct Ht as [Ht|Ht]; [|by exists m]. eexists. split; [apply rtc_once, timer_fires, Ht|]. cbn. by rewrite lookup_insert_eq. }
  destruct Hstart as (m1 & H1 & Hs1 & Hh1 & Hcs1 & Hca1 & Hcl1 & Hf1 & Hq1).
  eexists. split; [eapply rtc_r; [eapply rtc_r; [exact H1 | apply timer_expires, Hs1] | apply timer_closes]|].
  all: unfold expireConsumer; rewrite Hh1, Hx, Hcl1, Hu, Hg, Hgen, Nat.eqb_refl, Hcs1, Hk, !bool_decide_false, bool_decide_true by done; cbn.
  - by rewrite lookup_insert_eq.
  - rewrite lookup_delete_eq, Hh1, Hcs1. split_and!; done.
Qed.

(** C33. An idle consumer leaves its Kafka group: from every state in which a
    consumer can be acquired and nobody uses it, its idle timer is armed, and the
    steps of this timer alone - no request, no shutdown - come to an end, and
    wherever they end the consumer can no longer be acquired and its client is
    closed; nothing else has changed: not the other consumers, not the calls,
    not the state of the shutdown. *)
Theorem idle_consumer_closes m k c x :
  reachable maxConsumers m -> consumers m !! k = Some c -> heap m !! c = Some x -> gc_users x = 0 ->
  exists g, gc_idleTimer x = Some g /\
    (exists m', rtc (timer_step c g) m m' /\ forall m'', ~ timer_step c g m' m'') /\
    forall m', rtc (timer_step c g) m m' -> (forall m'', ~ timer_step c g m' m'') ->
      consumers m' = delete k (consumers m) /\ (exists y, heap m' !! c = Some y /\ gc_closed y = true) /\
      (forall c', c' <> c -> heap m' !! c' = heap m !! c') /\ calls m' = calls m /\
      isClosed m' = isClosed m /\ forced m' = forced m /\ closing m' = closing m.
Proof.
  intros Hr Hk Hx Hu. pose proof (reachable_books _ Hmax _ Hr) as Hb. pose proof (reachable_clocks _ Hmax _ Hr) as Hc.
  assert (Hcl : isClosed m = false).
  { destruct (isClosed m) eqn:E; [|done]. rewrite (b_closed _ _ _ _ _ Hb E) in Hk. by apply lookup_empty_Some in Hk. }
  destruct (gc_idleTimer x) as [g|] eqn:Hg; [|by destruct (t_idle _ _ _ Hc k c x Hk Hx Hu (fun H => H))].
  exists g. split; [done|]. destruct (t_armed _ _ _ Hc _ _ _ Hx Hg) as (Hgen & (s & Hs & Hne) & _ & _).
  assert (k = gc_key x) as -> by (by rewrite (key_of _ _ _ _ _ Hb Hk Hx)).
  assert (Ht : timers m !! (c, g) = Some TPending \/ timers m !! (c, g) = Some TStarted) by (destruct s; auto; done).
  destruct (timer_runs m c x g Hcl Hx Hu Hg Hgen Hk Ht) as (m1 & Hrun & Hcs & Hca & Hcl1 & Hf & Hq & Hnone & Hh).
  assert (Hend : forall m'', ~ timer_step c g m1 m'') by (intros m''; inversion 1; congruence).
  split; [by exists m1|]. intros m' Hrun' Hend'.
  rewrite <- (deterministic_end _ _ _ _ (timer_deterministic c g) Hrun Hend Hrun' Hend'). rewrite Hcl, Hh.
  split; [done|]. split; [eexists; by rewrite !lookup_alter_eq, Hx|]. split; [|done].
  intros c' Hne'. by rewrite !lookup_alter_ne by done.
Qed.
End Guarantees.

(** ** Witnesses *)

Section Witnesses.
#[local] Existing Instance canonical_iter.

Definition group_a : consumerKey := (str "team1-data", str "alice:g").
(** The lock section of [acquire] by call [t], with new consumers at address [c]. *)
Definition acquired (t : nat) (key : consumerKey) (c : nat) (m : Manager) : Manager :=
  match acquire 2 key 7 c true m with Ok (m', p) => put_call t p m' | Err _ => m end.

(** Two calls for one group: the first uses the consumer, the second waits for it. *)
Definition one_using : Manager :=
  put_call 0 (Using 0) (put_call 0 (Permitted 0) (put_gate 0 (Some (ByCall 0)) (acquired 1 group_a 1 (acquired 0 group_a 0 newManager)))).
Lemma acquired_step t key c m m' p :
  calls m !! t = None -> heap m !! c = None -> acquire 2 key 7 c true m = Ok (m', p) -> step 2 m (acquired t key c m).
Proof. intros Ht Hc Ha. unfold acquired. rewrite Ha. by eapply step_acquire. Qed.
Lemma one_using_reachable : reachable 2 one_using.
Proof.
  eapply rtc_l; [eapply (acquired_step 0 group_a 0); reflexivity|]. eapply rtc_l; [eapply (acquired_step 1 group_a 1); reflexivity|].
  eapply rtc_l; [apply (step_permit _ _ 0 0); [reflexivity | by eexists]|].
  eapply rtc_once, (step_enter _ _ 0 0); reflexivity.
Qed.

Lemma consumer_use_exclusive_witness :
  calls one_using !! 1%nat = Some (Waiting 0) /\
  (forall t', calls one_using !! t' = Some (Using 0) -> t' = 0%nat) /\
  (exists x, heap one_using !! 0%nat = Some x /\ (gc_closed x = false \/ forced one_using = true) /\
             (consumers one_using !! gc_key x = Some 0%nat \/ isClosed one_using = true)) /\
  Z.of_nat (size (consumers one_using)) <= 2.
Proof. split; [reflexivity|]. apply (consumer_use_exclusive 2); [lia | apply one_using_reachable | reflexivity]. Defined.

(** The call has ended and the consumer is idle. *)
Definition idle : Manager :=
  with_calls (delete 0%nat) (release 0 8 (put_call 0 (Releasing 0) (put_gate 0 None
    (put_call 0 (Permitted 0) (put_gate 0 (Some (ByCall 0)) (acquired 0 group_a 0 newManager)))))).
Lemma idle_reachable : reachable 2 idle.
Proof.
  eapply rtc_l; [eapply (acquired_step 0 group_a 0); reflexivity|].
  eapply rtc_l; [apply (step_permit _ _ 0 0); [reflexivity | by eexists]|].
  eapply rtc_l; [apply (step_leave _ _ 0 0); left; reflexivity|].
  eapply rtc_once, (step_release _ _ 0 0 8); reflexivity.
Qed.

Lemma idle_consumer_closes_witness :
  exists g, Some 1%nat = Some g /\
    (exists m', rtc (timer_step 0 g) idle m' /\ forall m'', ~ timer_step 0 g m' m'') /\
    forall m', rtc (timer_step 0 g) idle m' -> (forall m'', ~ timer_step 0 g m' m'') ->
      consumers m' = delete group_a (consumers idle) /\ (exists y, heap m' !! 0%nat = Some y /\ gc_closed y = true) /\
      (forall c', c' <> 0%nat -> heap m' !! c' = heap idle !! c') /\ calls m' = calls idle /\
      isClosed m' = isClosed idle /\ forced m' = forced idle /\ closing m' = closing idle.
Proof.
  refine (idle_consumer_closes 2 _ idle group_a 0 (arm (set_use 0 8 (new_consumer group_a 7))) _ _ _ _);
    [lia | apply idle_reachable | reflexivity..].
Defined.

(** The idle timer has fired when the manager is closed. *)
Definition shut : Manager :=
  let m := close_consumers (with_timers (insert (0, 1)%nat TStarted) 0 idle) in
  let m := expireConsumer 0 1 m in
  let m := with_closing (insert 0%nat (Closing true)) (put_gate 0 (Some ByCloser) m) in
  with_flags true false true (with_closing (delete 0%nat) (put_gate 0 None (closeConsumer 0 m))).
Lemma shut_reachable : reachable 2 shut.
Proof.
  unfold reachable. etrans; [apply idle_reachable|].
  eapply rtc_l; [apply (step_fire _ _ 0 1); reflexivity|]. eapply rtc_l; [apply step_close; reflexivity|].
  eapply rtc_l; [apply (step_expire _ _ 0 1); reflexivity|].
  eapply rtc_l; [apply (step_close_permit _ _ 0); [reflexivity | by eexists]|].
  eapply rtc_l; [apply (step_closed _ _ 0 true); reflexivity|].
  eapply rtc_once, step_done; reflexivity.
Qed.

Lemma close_joins_clients_witness :
  size (heap shut) = 1%nat /\ closeDone shut = true /\ 0 <= closers shut /\
  (closeDone shut = true ->
   consumers shut = ∅ /\ timers shut = ∅ /\ (forall c x, heap shut !! c = Some x -> gc_closed x = true)).
Proof. split; [reflexivity|]. split; [reflexivity|]. apply (close_joins_clients 2); [lia | apply shut_reachable]. Defined.
End Witnesses.
