(* ===== verification/Pop.v ===== *)
(** * Popping objects (src/internal/server/pop.go)

    A pop request consumes one upload event of a Kafka topic and answers with the
    object it tells of.  The handler in front of the consumer, the callback that
    gets the record, and the answer to what [Consume] returns are functions and
    programs; a run of a request combines a run of [Consume] (KafkaPop.v) with a
    run of the callback. *)

From S2P Require Import Prelude GoStrings Http NetIP SigV4 Stream Authz Routing S3Xml S3Http XmlDecode XmlBody Lifecycle Upstream.
From S2P Require Import HandlerBase HandlersBucket HandlersObject HandlersMultipart Monitor KafkaPop.
From S2P Require Credentials Limiter AuthLookup Gateway AuditLog.

#[local] Open Scope Z_scope.

(** ** Events *)

(** The fields of an event the handler reads. *)
Record PopEvent := {
  pev_EventID : gostring; pev_EventName : gostring; pev_Bucket : gostring; pev_Key : gostring; pev_ETag : gostring;
  pev_VersionID : gostring
}.

(** [json.Unmarshal] into an event; [None] is any of its errors. *)
Class EventCodec := { Unmarshal : gostring -> option PopEvent }.

(** ** Consumer groups *)

Definition maxKafkaGroupIDBytes : Z := 249.
Definition maxPopETagBytes : Z := 4096.

Definition validKafkaGroupIDComponent (value : gostring) : bool :=
  negb ((zlen value =? 0) || (maxKafkaGroupIDBytes <? zlen value) || bool_decide (value = str ".") || bool_decide (value = str "..")) &&
  forallb (fun c => is_alnum c || bool_decide (c ∈ ["."; "_"; "-"]%byte)) value.

Definition popConsumerGroupID (username requestedGroup : gostring) : option gostring :=
  let username := TrimSpace username in
  if negb (validKafkaGroupIDComponent username) || negb (validKafkaGroupIDComponent requestedGroup) then None
  else
    let group := username ++ str ":" ++ requestedGroup in
    if maxKafkaGroupIDBytes <? zlen group then None else Some group.

(** ** Answers *)

(** What is written to the client.  An object is the headers and the octets
    that [io.Copy] has written; a response aborted by a panic is not complete. *)
Inductive PopReply :=
| PopNotFound
| PopText (h : Header) (status : Z) (text : gostring)     (* http.Error *)
| PopUpstreamError (resp : Response)
| PopObject (h : Header) (octets : gostring) (aborted : bool)
| PopNoContent
| PopSilent.                                              (* the client has gone *)

Definition no_store : Header := hset no_headers (str "Cache-Control") (str "no-store").
(** [http.Error]: the text is a line. *)
Definition http_error (h : Header) (status : Z) (text : string) : PopReply :=
  PopText (hset (hset h (str "Content-Type") (str "text/plain; charset=utf-8")) (str "X-Content-Type-Options") (str "nosniff"))
    status (str text ++ [x0a]).
Definition retry_later (h : Header) (text : string) : PopReply := http_error (hset h (str "Retry-After") (str "1")) 503 text.

(** How the client's connection takes an answer: all of a body or only so many
    octets of it, and whether a final flush fails. *)
Record ClientConn := { conn_takes : option nat; conn_flushFails : bool }.
(** [io.Copy(w, body)]: the octets written, and whether it returns an error. *)
Definition io_copy (conn : ClientConn) (octets : gostring) (fails : bool) : gostring * bool :=
  match conn_takes conn with
  | Some n => if (n <? length octets)%nat then (take n octets, true) else (octets, fails)
  | None => (octets, fails)
  end.

(** ** ETags and headers *)

Definition popIfMatchETag (etag : gostring) : option gostring :=
  if maxPopETagBytes <? zlen etag then None
  else
    let etag :=
      if (2 <=? zlen etag) && HasPrefix etag quote && HasSuffix etag quote
      then take (length etag - 2) (drop 1 etag) else etag in
    if decide (etag = [] \/ etag = str "*" \/ HasPrefix etag (str "W/") = true) then None
    else if existsb (fun b => negb (in_range 0x21 0x7e b) || bool_decide (b = x22) || bool_decide (b = ","%byte)) etag then None
    else Some (quote ++ etag ++ quote).

Definition setSafePopHeader (h : Header) (name : string) (value : gostring) : Header :=
  if bool_decide (value = []) || (4096 <? zlen value) || existsb (fun b => negb (in_range 0x20 0x7e b)) value then h
  else hset h (str name) value.

(** ** The handler *)

Record PopConfig := {
  pop_available : bool;                  (* popConsumer and up are set *)
  KafkaGlobalTopic : gostring; EnableKafkaBucketTopic : bool
}.

(** What a request asks to consume. *)
Record PopTarget := { pt_scope : gostring; pt_topic : gostring; pt_group : gostring }.

Section Pop.
Context {U : UnicodeCase} {MI : MapIter} {J : EventCodec}.

(** [handlePopAPI] in front of [Consume]. *)
Definition pop_target (cfg : PopConfig) (cx : Context) (r : Request) : result PopReply PopTarget :=
  match parsePopAPIPath (Path r) with
  | None => Err PopNotFound
  | Some (scope, requestedGroup) =>
    if negb (isPopAPIMethod (Method r)) then
      Err (http_error (hset no_store (str "Allow") (str "GET, POST")) 405 "Method Not Allowed")
    else if decide (cx_uploader cx = []) then
      Err (http_error (hset no_store (str "WWW-Authenticate") (str "Basic realm=" ++ quote ++ str "s3gateway-pop" ++ quote ++ str ", charset=" ++ quote ++ str "UTF-8" ++ quote))
             401 "Unauthorized")
    else
      match popConsumerGroupID (cx_uploader cx) requestedGroup with
      | None => Err (http_error no_store 400 "invalid kafka consumer group")
      | Some group =>
        if negb (pop_available cfg) then Err (http_error no_store 503 "pop service is unavailable")
        else if decide (scope = AuditLog.popGlobalScope) then
          if negb (CanReadAll (cx_rules cx)) then Err (http_error no_store 403 "Forbidden")
          else
            let topic := TrimSpace (KafkaGlobalTopic cfg) in
            if decide (topic = []) then Err (http_error no_store 503 "global pop topic is disabled")
            else Ok {| pt_scope := scope; pt_topic := topic; pt_group := group |}
        else if negb (EnableKafkaBucketTopic cfg) then Err (http_error no_store 503 "bucket pop topics are disabled")
        else if decide (scope = TrimSpace (KafkaGlobalTopic cfg)) then
          Err (http_error no_store 503 "bucket topic conflicts with the global topic; use /api/pop/_all")
        else if negb (CanRead (cx_rules cx) scope) then Err (http_error no_store 403 "Forbidden")
        else Ok {| pt_scope := scope; pt_topic := scope; pt_group := group |}
      end
  end.

Definition pop_object_input (event : PopEvent) (ifMatch : option gostring) : ReadObjectInput := {|
  ro_object := {| oi_Bucket := pev_Bucket event; oi_Key := pev_Key event; oi_VersionId := enum (pev_VersionID event);
                  oi_ExpectedBucketOwner := None; oi_RequestPayer := [] |};
  ro_PartNumber := None; ro_Range := None; ro_IfMatch := ifMatch; ro_IfNoneMatch := None; ro_IfModifiedSince := None;
  ro_IfUnmodifiedSince := None; ro_ChecksumMode := false; ro_ResponseCacheControl := None;
  ro_ResponseContentDisposition := None; ro_ResponseContentEncoding := None; ro_ResponseContentLanguage := None;
  ro_ResponseContentType := None; ro_ResponseExpires := None |}.

Definition pop_headers (event : PopEvent) (out : ObjectOutput) : Header :=
  let h := fold_left (fun h (f : string * gostring) => hset h (str f.1) f.2)
    [("Cache-Control", str "no-store"); ("X-Content-Type-Options", str "nosniff");
     ("Content-Type", str "application/octet-stream"); ("Content-Disposition", str "attachment");
     ("X-S3Gateway-Bucket", pev_Bucket event); ("X-S3Gateway-Object-Key", QueryEscape (pev_Key event))]%string no_store in
  let h := setSafePopHeader h "X-S3Gateway-Event-ID" (pev_EventID event) in
  let h := setSafePopHeader h "X-S3Gateway-Event-Name" (pev_EventName event) in
  set_headers h
    [("Content-Length", match oo_ContentLength out with Some n => if (0 <=? n)%Z then Some (FormatInt n) else None | None => None end);
     ("ETag", oo_ETag out); ("Last-Modified", time_text (oo_LastModified out)); ("x-amz-version-id", oo_VersionId out)]%string.

(** Whether fewer or more octets than announced were written. *)
Definition length_mismatch (out : ObjectOutput) (written : gostring) : bool :=
  match oo_ContentLength out with Some n => (0 <=? n) && negb (zlen written =? n) | None => false end.

(** [streamPoppedObject] from the call on; [rebalancing] is whether a rebalance
    has cancelled the request's context when the upstream fails.  An upstream
    error matches none of the errors the program compares with. *)
Definition get_popped (conn : ClientConn) (rebalancing : bool) (event : PopEvent) (ifMatch : option gostring)
    : Prog (PopReply * option goerror) :=
  Up (GetObject (pop_object_input event ifMatch)) (fun answer =>
    match answer with
    | Err f =>
      Ret (if rebalancing then (retry_later no_store "pop consumer group is rebalancing; retry the request", Some (Sent ErrRebalance))
           else (PopUpstreamError (WriteUpstreamError no_store (f_error f)), Some (Wrap [Opaque])))
    | Ok out =>
      let '(written, copyFails) := io_copy conn (oo_Body out) (oo_BodyFails out) in
      Ret (PopObject (pop_headers event out) written false,
           if copyFails || length_mismatch out written || conn_flushFails conn
           then Some (Wrap [Sent errPopResponseInterrupted; Opaque]) else None)
    end).

Definition streamPoppedObject (conn : ClientConn) (rebalancing : bool) (event : PopEvent) : Prog (PopReply * option goerror) :=
  if decide (pev_VersionID event = [] \/ pev_VersionID event = str "null") then
    match popIfMatchETag (pev_ETag event) with
    | None => Ret (http_error no_store 502 "invalid kafka upload event: missing or invalid revision ETag", Some Opaque)
    | Some etag => get_popped conn rebalancing event (Some etag)
    end
  else get_popped conn rebalancing event None.

(** The callback: its answer to the client, and its error. *)
Definition pop_reject (status : Z) (text : string) : Prog (PopReply * option goerror) :=
  Ret (http_error no_store status text, Some (Wrap [Sent errPopResponseHandled])).
Definition with_bucket (bucket : gostring) (e : PopEvent) : PopEvent :=
  {| pev_EventID := pev_EventID e; pev_EventName := pev_EventName e; pev_Bucket := bucket; pev_Key := pev_Key e;
     pev_ETag := pev_ETag e; pev_VersionID := pev_VersionID e |}.

Definition pop_record (t : PopTarget) (rules : list Rule) (conn : ClientConn) (rebalancing : bool) (record : KRecord)
    : Prog (PopReply * option goerror) :=
  if decide (rec_Topic record <> pt_topic t) then pop_reject 502 "invalid kafka upload event"
  else
    match Unmarshal (rec_Value record) with
    | None => pop_reject 502 "invalid kafka upload event"
    | Some event =>
      let event := with_bucket (TrimSpace (pev_Bucket event)) event in
      if decide (pev_Bucket event = [] \/ pev_Key event = []) then pop_reject 502 "invalid kafka upload event"
      else if decide (pt_scope t <> AuditLog.popGlobalScope /\ pev_Bucket event <> pt_scope t) then
        pop_reject 502 "kafka event bucket does not match route"
      else if negb (CanRead rules (pev_Bucket event)) then pop_reject 403 "Forbidden"
      else
        pbind (streamPoppedObject conn rebalancing event) (fun '(reply, err) =>
          Ret (reply, match err with Some e => Some (Wrap [Sent errPopResponseHandled; e]) | None => None end))
    end.

(** [handlePopAPI] after [Consume]: [written] is what the callback has answered. *)
Definition abort_reply (reply : PopReply) : PopReply :=
  match reply with PopObject h octets _ => PopObject h octets true | _ => reply end.
Definition pop_finish (written : option PopReply) (res : option goerror) : PopReply :=
  match res with
  | None => default PopSilent written
  | Some err =>
    let started := bool_decide (is_Some written) in
    if errors_Is err ErrNoEvent then default PopNoContent written
    else if errors_Is err ErrRebalance && negb started then
      retry_later no_store "pop consumer group is rebalancing; retry the request"
    else if errors_Is err Canceled && negb started then PopSilent
    else if errors_Is err ErrConsumerLimit && negb started then retry_later no_store "pop consumer capacity reached"
    else if errors_Is err errPopResponseHandled || started then
      let reply := default PopSilent written in
      if errors_Is err errPopResponseInterrupted then abort_reply reply else reply
    else http_error no_store 502 "could not pop kafka event"
  end.

(** A run of a request: what [Consume] did, the upstream calls of the callback,
    and the answer. *)
Definition pop_run (cfg : PopConfig) (cx : Context) (conn : ClientConn) (rebalancing : bool) (r : Request)
    (tr : list Obs) (ups : list Action) (reply : PopReply) : Prop :=
  match pop_target cfg cx r with
  | Err e => tr = [] /\ ups = [] /\ reply = e
  | Ok t =>
    exists res, runs (Consume (pt_topic t) (pt_group t)) tr res /\
      match handled tr with
      | None => ups = [] /\ reply = pop_finish None res
      | Some (record, err) =>
        exists w, steps (pop_record t (cx_rules cx) conn rebalancing record) ups (Ret (w, err)) /\ reply = pop_finish (Some w) res
      end
  end.
End Pop.

(** ** What a pop request may do *)

Section Theorems.
Context {U : UnicodeCase} {UL : UnicodeCaseLaws U} {MI : MapIter} {J : EventCodec}.

Lemma pop_target_Ok cfg cx r t :
  pop_target cfg cx r = Ok t ->
  pop_available cfg = true /\ isPopAPIMethod (Method r) = true /\
  (exists g, parsePopAPIPath (Path r) = Some (pt_scope t, g) /\ popConsumerGroupID (cx_uploader cx) g = Some (pt_group t)) /\
  ((pt_scope t = AuditLog.popGlobalScope /\ CanReadAll (cx_rules cx) = true /\ pt_topic t = TrimSpace (KafkaGlobalTopic cfg)) \/
   (pt_topic t = pt_scope t /\ EnableKafkaBucketTopic cfg = true /\ CanRead (cx_rules cx) (pt_scope t) = true)).
Proof.
  unfold pop_target. destruct (parsePopAPIPath (Path r)) as [[scope g]|]; [|done].
  destruct (isPopAPIMethod (Method r)) eqn:Hm; cbn [negb]; [|done]. destruct (decide _); [done|].
  destruct (popConsumerGroupID _ _) as [group|] eqn:Hg; [|done]. destruct (pop_available cfg); cbn [negb]; [|done].
  destruct (decide _) as [->|Hs].
  - destruct (CanReadAll _) eqn:Hall; cbn [negb]; [|done]. destruct (decide _); [done|]. intros [= <-]. cbn. eauto 10.
  - destruct (EnableKafkaBucketTopic cfg); cbn [negb]; [|done]. destruct (decide _); [done|].
    destruct (CanRead _ _) eqn:Hr; cbn [negb]; [|done]. intros [= <-]. cbn. eauto 10.
Qed.

(** The object is the one that was uploaded: a version that cannot be
    overwritten, or the revision the event names. *)
Definition fixed_revision (i : ReadObjectInput) : Prop :=
  match oi_VersionId (ro_object i) with
  | Some v => v <> str "null" \/ is_Some (ro_IfMatch i)
  | None => is_Some (ro_IfMatch i)
  end.

(** The object is delivered as the upstream has it. *)
Definition delivered (conn : ClientConn) (out : ObjectOutput) (w : PopReply) : Prop :=
  (exists h, w = PopObject h (oo_Body out) false) /\ oo_BodyFails out = false /\ conn_flushFails conn = false /\
  forall n, oo_ContentLength out = Some n -> 0 <= n -> n = zlen (oo_Body out).

Lemma io_copy_complete conn octets fails written :
  io_copy conn octets fails = (written, false) -> written = octets /\ fails = false.
Proof. unfold io_copy. destruct (conn_takes conn) as [n|]; [destruct (n <? length octets)%nat|]; by intros [= -> ->]. Qed.

Lemma length_matches out written n :
  length_mismatch out written = false -> oo_ContentLength out = Some n -> 0 <= n -> n = zlen written.
Proof.
  unfold length_mismatch. intros H Hc Hn. rewrite Hc in H. apply andb_false_iff in H as [H|H]; [apply Z.leb_gt in H; lia|].
  apply negb_false_iff, Z.eqb_eq in H. done.
Qed.

(** What a call for an object leads to. *)
Definition fetched (conn : ClientConn) (i : ReadObjectInput) (a : Answer (GetObject i)) (w : PopReply) (err : option goerror) : Prop :=
  match a with
  | Ok out => match err with None => delivered conn out w | Some e => errors_Is e errPopResponseInterrupted = true end
  | Err _ => is_Some err /\ forall h o b, w <> PopObject h o b
  end.

Lemma get_steps conn rebalancing event m ups w err :
  (pev_VersionID event = [] \/ pev_VersionID event = str "null" -> is_Some m) ->
  steps (get_popped conn rebalancing event m) ups (Ret (w, err)) ->
  exists i a, ups = [Called (GetObject i) a] /\ oi_Bucket (ro_object i) = pev_Bucket event /\ oi_Key (ro_object i) = pev_Key event /\
    fixed_revision i /\ fetched conn i a w err.
Proof.
  intros Hm Hs. unfold get_popped in Hs. apply steps_inv in Hs as [[_ ?]|(a & tr & -> & Hs)]; [done|].
  assert (Hf : fixed_revision (pop_object_input event m)).
  { unfold fixed_revision. cbn [pop_object_input ro_object oi_VersionId ro_IfMatch]. unfold enum.
    destruct (decide (pev_VersionID event = [])); [by apply Hm; left|].
    destruct (decide (pev_VersionID event = str "null")); [right; apply Hm; by right | by left]. }
  exists (pop_object_input event m), a. destruct a as [out|f].
  - destruct (io_copy conn (oo_Body out) (oo_BodyFails out)) as [written copyFails] eqn:Ec.
    apply steps_inv in Hs as [[-> [= -> ->]]|[]]. split_and!; try done. cbn.
    destruct (copyFails || length_mismatch out written || conn_flushFails conn) eqn:E; [done|].
    apply orb_false_iff in E as [[-> Hl]%orb_false_iff ?]. apply io_copy_complete in Ec as [-> ?].
    split; [by eexists|]. split_and!; try done. intros n Hn Hn0. by apply (length_matches out).
  - apply steps_inv in Hs as [[-> Heq]|[]]. split_and!; try done. by destruct rebalancing; injection Heq as -> ->; split.
Qed.

Lemma stream_steps conn rebalancing event ups w err :
  steps (streamPoppedObject conn rebalancing event) ups (Ret (w, err)) ->
  (ups = [] /\ is_Some err /\ exists h s t, w = PopText h s t) \/
  exists i a, ups = [Called (GetObject i) a] /\ oi_Bucket (ro_object i) = pev_Bucket event /\ oi_Key (ro_object i) = pev_Key event /\
    fixed_revision i /\ fetched conn i a w err.
Proof.
  unfold streamPoppedObject. destruct (decide _) as [Hv|Hv].
  - destruct (popIfMatchETag _) as [etag|].
    + intros Hs. right. eapply get_steps; [|exact Hs]. by eexists.
    + intros Hs. apply steps_inv in Hs as [[-> [= -> ->]]|[]]. left. split_and!; [done|by eexists|by eexists _, _, _].
  - intros Hs. right. eapply get_steps; [|exact Hs]. done.
Qed.

Lemma reject_steps status text ups w err :
  steps (pop_reject status text) ups (Ret (w, err)) -> ups = [] /\ is_Some err /\ exists h s t, w = PopText h s t.
Proof. intros Hs. apply steps_inv in Hs as [[-> [= -> ->]]|[]]. split_and!; [done|by eexists|by eexists _, _, _]. Qed.

Lemma record_steps t rules conn rebalancing record ups w err :
  steps (pop_record t rules conn rebalancing record) ups (Ret (w, err)) ->
  (ups = [] /\ is_Some err /\ exists h s txt, w = PopText h s txt) \/
  exists i a event, ups = [Called (GetObject i) a] /\ rec_Topic record = pt_topic t /\ Unmarshal (rec_Value record) = Some event /\
    oi_Bucket (ro_object i) = TrimSpace (pev_Bucket event) /\ oi_Key (ro_object i) = pev_Key event /\ fixed_revision i /\
    (pt_scope t = AuditLog.popGlobalScope \/ oi_Bucket (ro_object i) = pt_scope t) /\ CanRead rules (oi_Bucket (ro_object i)) = true /\
    fetched conn i a w err.
Proof.
  unfold pop_record.
  destruct (decide _) as [|Ht]; [by intros ?%reject_steps; left|]. apply dec_stable in Ht.
  destruct (Unmarshal _) as [ev|] eqn:Eu; [|by intros ?%reject_steps; left].
  cbv zeta. destruct (decide _) as [|He]; [by intros ?%reject_steps; left|].
  destruct (decide _) as [|Hsc]; [by intros ?%reject_steps; left|].
  destruct (CanRead _ _) eqn:Hr; cbn [negb]; [|by intros ?%reject_steps; left]. intros Hs.
  apply steps_bind_ret in Hs as (t1 & t2 & [w' err'] & -> & Hq & Hs).
  apply steps_inv in Hs as [[-> [= -> ->]]|[]]. rewrite app_nil_r.
  apply stream_steps in Hq as [(-> & [e ->] & ?)|(i & a & -> & Hb & Hk & Hf & Ha)]; [left; split_and!; [done|by eexists|done]|].
  right. exists i, a, ev. rewrite Hb, Hk. split_and!; try done.
  - cbn. destruct (decide (pt_scope t = AuditLog.popGlobalScope)); [by left|]. right.
    destruct (decide (TrimSpace (pev_Bucket ev) = pt_scope t)); [done|]. exfalso. by apply Hsc.
  - destruct a as [out|f]; [by destruct err' as [e|]; cbn in *; rewrite ?Ha, ?orb_true_r|]. destruct Ha as [[e ->] ?]. split; [by eexists | done].
Qed.

Lemma record_error t rules conn rebalancing record ups w e :
  steps (pop_record t rules conn rebalancing record) ups (Ret (w, Some e)) -> errors_Is e ErrNoEvent = false.
Proof.
  set (Q := fun we : PopReply * option goerror => match we.2 with Some e => errors_Is e ErrNoEvent = false | None => True end).
  assert (H : every (fun _ => True) (fun _ => True) Q (pop_record t rules conn rebalancing record)).
  { assert (Hget : forall event m, every (fun _ => True) (fun _ => True) Q (get_popped conn rebalancing event m)).
    { intros event m. split; [done|]. intros [out|f]; [|by destruct rebalancing].
      destruct (io_copy _ _ _). cbn. unfold Q. cbn. by destruct (_ || _). }
    unfold pop_record. repeat (destruct (decide _); [done|]). destruct (Unmarshal _); [|done]. cbv zeta.
    repeat (destruct (decide _); [done|]). destruct (negb _); [done|]. apply every_bind. unfold streamPoppedObject.
    assert (Hq : forall we, Q we -> every (fun _ => True) (fun _ => True) Q
      (let '(reply, err) := we in Ret (reply, match err with Some e => Some (Wrap [Sent errPopResponseHandled; e]) | None => None end))).
    { intros [reply [e'|]] H; cbn in *; [|done]. unfold Q. cbn. by rewrite H. }
    destruct (decide _); [destruct (popIfMatchETag _)|]; [|by apply Hq|];
      apply (every_mono (fun _ => True) (fun _ => True) (fun _ => True) (fun _ => True) Q); auto. }
  intros Hs. by apply (every_steps _ _ _ _ _ _ H) in Hs as [? _].
Qed.

(** The answer is a complete object only if the callback says so. *)
Lemma finish_complete w res h octets :
  pop_finish (Some w) res = PopObject h octets false ->
  w = PopObject h octets false /\
  forall e, res = Some e -> errors_Is e ErrNoEvent = true \/ errors_Is e errPopResponseInterrupted = false.
Proof.
  destruct res as [e|]; [|by intros [= ->]]. unfold pop_finish. change (default PopSilent (Some w)) with w.
  change (default PopNoContent (Some w)) with w. cbv zeta. rewrite bool_decide_true by (by eexists). cbn [negb].
  rewrite !andb_false_r, orb_true_r. destruct (errors_Is e ErrNoEvent) eqn:En.
  - intros ->. split; [done|]. intros e' [= <-]. by left.
  - destruct (errors_Is e errPopResponseInterrupted) eqn:Ei; [by destruct w|]. intros ->. split; [done|]. intros e' [= <-]. by right.
Qed.
Lemma finish_nothing res h octets b : pop_finish None res <> PopObject h octets b.
Proof. unfold pop_finish. destruct res as [e|]; cbn; repeat case_match; done. Qed.

Lemma target_refused cfg cx r h octets b : pop_target cfg cx r <> Err (PopObject h octets b).
Proof. unfold pop_target. repeat (destruct (decide _) || case_match); cbn; done. Qed.

(** C29. A pop acknowledges an event only when its object has been delivered: if
    the request commits a Kafka record, the answer is the object the record's
    event names, fetched at that event's version or revision, with all octets
    the upstream has, as many as it announced, flushed to the client; a commit is
    not even asked for before that, so that one that fails and is applied all
    the same acknowledges nothing else.  And an object answer that is not aborted
    is always such a complete object, so that a client cannot take a truncated
    one for the object. *)
Theorem pop_acknowledges_delivered cfg cx conn rebalancing r tr ups reply :
  pop_run cfg cx conn rebalancing r tr ups reply ->
  (forall o record, o ∈ tr -> commit_of o = Some record ->
     exists i out event, ups = [Called (GetObject i) (Ok out)] /\ delivered conn out reply /\
       Unmarshal (rec_Value record) = Some event /\ oi_Bucket (ro_object i) = TrimSpace (pev_Bucket event) /\
       oi_Key (ro_object i) = pev_Key event /\ fixed_revision i) /\
  (forall o record, o ∈ tr -> commit_asked o = Some record ->
     exists i out event w res, ups = [Called (GetObject i) (Ok out)] /\ delivered conn out w /\ reply = pop_finish (Some w) res /\
       Unmarshal (rec_Value record) = Some event /\ oi_Bucket (ro_object i) = TrimSpace (pev_Bucket event) /\
       oi_Key (ro_object i) = pev_Key event /\ fixed_revision i) /\
  (forall h octets, reply = PopObject h octets false ->
     exists i out, ups = [Called (GetObject i) (Ok out)] /\ delivered conn out reply).
Proof.
  unfold pop_run. destruct (pop_target cfg cx r) as [t|e] eqn:Et.
  2: { intros (-> & -> & ->). do 2 (split; [by intros o record ?%elem_of_nil|]). intros h octets ->. by apply target_refused in Et. }
  intros (res & Hr & Hh). pose proof (holds_runs _ _ _ _ _ (consume_handled _ _) Hr) as (Hcom & Hask & Hok & Herr).
  change ([] ++ tr) with tr in *. destruct (handled tr) as [[record err]|] eqn:Eh.
  2: { destruct Hh as [-> ->]. split; [intros o record Ho Hc; by destruct (Hcom o record Ho Hc) as [[=] _]|].
       split; [intros o record Ho Hc; by pose proof (Hask o record Ho Hc)|].
       intros h octets Hreply. by apply finish_nothing in Hreply. }
  destruct Hh as (w & Hs & ->). pose proof (record_steps _ _ _ _ _ _ _ _ Hs) as Hs'.
  assert (Hdel : err = None -> exists i out event, ups = [Called (GetObject i) (Ok out)] /\ delivered conn out w /\
    Unmarshal (rec_Value record) = Some event /\ oi_Bucket (ro_object i) = TrimSpace (pev_Bucket event) /\
    oi_Key (ro_object i) = pev_Key event /\ fixed_revision i).
  { intros ->. destruct Hs' as [(_ & [? ?] & _)|(i & a & event & -> & _ & Hu & Hb & Hk & Hf & _ & _ & Ha)]; [done|].
    destruct a as [out|f]; [|by destruct Ha as [[? ?] _]]. by exists i, out, event. }
  split; [|split].
  - intros o rec Ho Hc. destruct (Hcom o rec Ho Hc) as [[= -> ->] ->]. by apply Hdel.
  - intros o rec Ho Hc. pose proof (Hask o rec Ho Hc) as [= -> ->]. destruct (Hdel eq_refl) as (i & out & event & H1 & H2 & H3).
    by exists i, out, event, w, res.
  - intros h octets Hreply. rewrite Hreply. apply finish_complete in Hreply as [-> Hres]. destruct err as [e|].
    2: { destruct (Hdel eq_refl) as (i & out & event & -> & Hd & _). by exists i, out. }
    exfalso. destruct Hs' as [(_ & _ & h' & s & txt & ?)|(i & a & event & -> & _ & _ & _ & _ & _ & _ & _ & Ha)]; [done|].
    destruct (Herr _ _ eq_refl) as (e' & -> & Hi). destruct a as [out|f]; [|by destruct Ha as [_ Ha]; eapply Ha].
    destruct (Hres e' eq_refl) as [Hn|Hn].
    + apply Hi in Hn as [Hn|Hn]; [by rewrite (record_error _ _ _ _ _ _ _ _ Hs) in Hn|]. by rewrite !elem_of_cons, elem_of_nil in Hn; naive_solver.
    + by rewrite (proj1 (Hi _) Ha) in Hn.
Qed.

Lemma get_needs i : call_needs (GetObject i) = [NeedOne (oi_Bucket (ro_object i)) [PermRead]].
Proof. done. Qed.
End Theorems.

Section Gateway.
Context {U : UnicodeCase} {UL : UnicodeCaseLaws U} {MI : MapIter} {J : EventCodec}.
Context {FL : Limiter.Float64} {C : Credentials.Curve} {A : Credentials.AEAD}.
Variables (ttl maxEntries : Z) (limits : Limiter.Limits).

(** C30. No object is popped without proof: every call a pop makes upstream is one
    GetObject, at a fixed version or revision, for a caller whose credential the
    directory has answered for; one of the groups it reported grants reading the
    bucket the event names; that bucket is the one of the request's path unless
    the path asks for all; and the consumer group is the caller's own. *)
Theorem pop_needs_directory_groups es groups cfg limiter now ready trailer pcfg cx conn rebalancing r l id r' tr ups reply c a :
  Gateway.answered_by ttl maxEntries limits es groups ->
  Gateway.WithAuth cfg limiter now groups r = (l, Gateway.ServeAs id r') -> ServeHTTP ready trailer r' = Handle OpPop ->
  pop_run pcfg (request_context cx id) conn rebalancing r' tr ups reply -> Called c a ∈ ups ->
  exists upn pass g i scope requested,
    AuthLookup.verified_key ttl maxEntries limits es upn pass g /\ c = GetObject i /\ length ups = 1%nat /\ fixed_revision i /\
    Forall (entitles g) (call_needs c) /\
    parsePopAPIPath (Path r') = Some (scope, requested) /\ (scope = AuditLog.popGlobalScope \/ oi_Bucket (ro_object i) = scope) /\
    exists topic group res, popConsumerGroupID (TrimSpace upn) requested = Some group /\ runs (Consume topic group) tr res.
Proof.
  intros Hans Hid _ Hrun Hc. apply Gateway.WithAuth_identity in Hid as (upn & pass & g & Hg & Hup & Hrules & _).
  unfold pop_run in Hrun. destruct (pop_target _ _ _) as [t|e] eqn:Et; [|by destruct Hrun as (_ & -> & _); apply elem_of_nil in Hc].
  destruct Hrun as (res & Hr & Hh). destruct (handled tr) as [[record err]|]; [|by destruct Hh as [-> _]; apply elem_of_nil in Hc].
  destruct Hh as (w & Hs & _). apply record_steps in Hs as [(-> & _)|(i & b & event & -> & _ & _ & _ & _ & Hf & Hsc & Hread & _)];
    [by apply elem_of_nil in Hc|]. apply list_elem_of_singleton in Hc.
  apply pop_target_Ok in Et as (_ & _ & (requested & Hpath & Hgroup) & _).
  cbn [request_context cx_uploader cx_rules] in *. unfold Gateway.UploaderFromRequest in Hgroup. rewrite Hup in Hgroup.
  exists upn, pass, g, i, (pt_scope t), requested.
  assert (Ec : c = GetObject i) by congruence. split_and!; try done.
  - by eapply Gateway.answered_verified.
  - rewrite Ec. apply needs_entitled. rewrite get_needs, Hrules in *. cbn. unfold CanRead in Hread. by rewrite Hread.
  - by exists (pt_topic t), (pt_group t), res.
Qed.
End Gateway.

(** ** Witnesses *)

Section Witnesses.
#[local] Existing Instance latin1_case.
#[local] Existing Instance canonical_iter.
#[local] Existing Instance Limiter.ieee_double.
#[local] Existing Instance Credentials.toy_curve.
#[local] Existing Instance clear_aead.

(** A topic whose one record tells of the upload of team1-a/k. *)
Definition sample_event : PopEvent := {|
  pev_EventID := str "e1"; pev_EventName := str "ObjectCreated:Put"; pev_Bucket := str " team1-a"; pev_Key := str "k";
  pev_ETag := []; pev_VersionID := str "v1" |}.
#[local] Instance one_event : EventCodec := {| Unmarshal value := if decide (value = str "{}") then Some sample_event else None |}.

Definition pop_record_read : KRecord :=
  {| rec_Topic := str "team1-a"; rec_Partition := 0; rec_LeaderEpoch := 1; rec_Offset := 7; rec_Value := str "{}" |}.
Definition popping_client (past : list Obs) (a : Act) : Ans a :=
  match a with
  | PollRecords => ([pop_record_read], None)
  | CommitRecords _ _ => Committed
  | Acquire _ _ | HandleRecord _ | CtxErr | HandleCause => None
  | SetOffsets _ | AllowRebalance | Release => tt
  | ForceErr | RebalanceErr | RebalanceCause => false
  end.
Definition sample_object : ObjectOutput := {|
  oo_AcceptRanges := None; oo_ETag := Some (str "x"); oo_LastModified := None; oo_ContentType := None; oo_ContentLength := Some 5;
  oo_ContentRange := None; oo_CacheControl := None; oo_ContentDisposition := None; oo_ContentEncoding := None;
  oo_ContentLanguage := None; oo_ExpiresString := None; oo_VersionId := Some (str "v1"); oo_DeleteMarker := None;
  oo_StorageClass := []; oo_ServerSideEncryption := []; oo_SSEKMSKeyId := None; oo_SSECustomerAlgorithm := None;
  oo_SSECustomerKeyMD5 := None; oo_BucketKeyEnabled := None; oo_Expiration := None; oo_Restore := None;
  oo_WebsiteRedirectLocation := None; oo_ReplicationStatus := []; oo_TagCount := None; oo_PartsCount := None;
  oo_MissingMeta := None; oo_ObjectLockMode := []; oo_LegalHold := []; oo_RetainUntil := None; oo_RequestCharged := [];
  oo_checksum _ := None; oo_ChecksumType := []; oo_Metadata := ∅; oo_Body := str "hello"; oo_BodyFails := false |}.
Definition popping_upstream (c : Call) : Answer c :=
  match c with GetObject _ => Ok sample_object | _ => Err no_page end.

Definition sample_pop_config : PopConfig :=
  {| pop_available := true; KafkaGlobalTopic := str "all"; EnableKafkaBucketTopic := true |}.
Definition sample_conn : ClientConn := {| conn_takes := None; conn_flushFails := false |}.
Definition pop_context : Context := request_context sample_context Gateway.pop_identity.
Definition sample_target : PopTarget := {| pt_scope := str "team1-a"; pt_topic := str "team1-a"; pt_group := str "alice:g" |}.
Definition sample_pop : list Obs * option goerror := run_with popping_client [] (Consume (pt_topic sample_target) (pt_group sample_target)).
Definition sample_stream : list Action * Prog (PopReply * option goerror) :=
  run popping_upstream false (pop_record sample_target (cx_rules pop_context) sample_conn false pop_record_read).
Definition sample_written : PopReply := match sample_stream.2 with Ret (w, _) => w | _ => PopSilent end.

Lemma sample_pop_run :
  pop_run sample_pop_config pop_context sample_conn false Gateway.pop_request sample_pop.1 sample_stream.1 sample_written.
Proof.
  unfold pop_run. assert (E : pop_target sample_pop_config pop_context Gateway.pop_request = Ok sample_target) by (vm_compute; reflexivity).
  rewrite E. exists sample_pop.2. split; [apply run_with_runs|].
  assert (Eh : handled sample_pop.1 = Some (pop_record_read, None)) by (vm_compute; reflexivity).
  rewrite Eh. exists sample_written. split; [|vm_compute; reflexivity].
  assert (Es : sample_stream.2 = Ret (sample_written, None)) by (vm_compute; reflexivity).
  rewrite <- Es. apply run_steps.
Qed.

Lemma pop_acknowledges_delivered_witness :
  (exists o, o ∈ sample_pop.1 /\ commit_of o = Some pop_record_read) /\
  (exists h, sample_written = PopObject h (str "hello") false) /\
  (forall o record, o ∈ sample_pop.1 -> commit_of o = Some record ->
     exists i out event, sample_stream.1 = [Called (GetObject i) (Ok out)] /\ delivered sample_conn out sample_written /\
       Unmarshal (rec_Value record) = Some event /\ oi_Bucket (ro_object i) = TrimSpace (pev_Bucket event) /\
       oi_Key (ro_object i) = pev_Key event /\ fixed_revision i) /\
  (forall o record, o ∈ sample_pop.1 -> commit_asked o = Some record ->
     exists i out event w res, sample_stream.1 = [Called (GetObject i) (Ok out)] /\ delivered sample_conn out w /\
       sample_written = pop_finish (Some w) res /\
       Unmarshal (rec_Value record) = Some event /\ oi_Bucket (ro_object i) = TrimSpace (pev_Bucket event) /\
       oi_Key (ro_object i) = pev_Key event /\ fixed_revision i) /\
  (forall h octets, sample_written = PopObject h octets false ->
     exists i out, sample_stream.1 = [Called (GetObject i) (Ok out)] /\ delivered sample_conn out sample_written).
Proof.
  split; [|split].
  - exists (Did (CommitRecords false pop_record_read) Committed). split; [|vm_compute; reflexivity].
    apply list_elem_of_In. vm_compute. tauto.
  - eexists. vm_compute. reflexivity.
  - exact (pop_acknowledges_delivered sample_pop_config pop_context sample_conn false Gateway.pop_request
      sample_pop.1 sample_stream.1 sample_written sample_pop_run).
Defined.

Lemma pop_needs_directory_groups_witness :
  exists c a, Called c a ∈ sample_stream.1 /\
  exists upn pass g i scope requested,
    AuthLookup.verified_key 100000 10 Limiter.sample_limits AuthLookup.sample_run upn pass g /\ c = GetObject i /\
    length sample_stream.1 = 1%nat /\ fixed_revision i /\ Forall (entitles g) (call_needs c) /\
    parsePopAPIPath (Path Gateway.pop_request) = Some (scope, requested) /\
    (scope = AuditLog.popGlobalScope \/ oi_Bucket (ro_object i) = scope) /\
    exists topic group res, popConsumerGroupID (TrimSpace upn) requested = Some group /\ runs (Consume topic group) sample_pop.1 res.
Proof.
  assert (H : calls_first sample_stream.1 = true) by (vm_compute; reflexivity). pose proof sample_pop_run as Hrun.
  unfold pop_context in Hrun. generalize dependent sample_written. intros reply Hrun.
  destruct sample_stream.1 as [|[c a| |] ups]; try discriminate H.
  set (auth := Gateway.WithAuth Gateway.sample_config (Limiter.NewLimiter Limiter.sample_limits) 5 Gateway.sample_answers Gateway.pop_request).
  assert (E : auth = (auth.1, Gateway.ServeAs Gateway.pop_identity Gateway.pop_request)).
  { assert (E2 : auth.2 = Gateway.ServeAs Gateway.pop_identity Gateway.pop_request) by (vm_compute; reflexivity).
    rewrite <- E2. apply surjective_pairing. }
  assert (Ho : ServeHTTP true ∅ Gateway.pop_request = Handle OpPop) by (vm_compute; reflexivity).
  exists c, a. split; [by left|].
  exact (pop_needs_directory_groups 100000 10 Limiter.sample_limits AuthLookup.sample_run Gateway.sample_answers
    Gateway.sample_config (Limiter.NewLimiter Limiter.sample_limits) 5 true ∅ sample_pop_config sample_context sample_conn false
    Gateway.pop_request auth.1 Gateway.pop_identity Gateway.pop_request sample_pop.1 (Called c a :: ups) reply c a
    Gateway.sample_answered E Ho Hrun ltac:(left)).
Defined.
End Witnesses.
