(* ===== verification/SplunkHec.v ===== *)
(** * Buffered log events for Splunk (src/internal/splunkhec/handler.go)

    A log record is handled locally and queued, encoded, in a bounded buffer; a
    flush takes the buffer, posts it in batches and, when a post fails, puts back
    at the front what was not acknowledged.  Callers, the ticker's worker and
    [Close] run at the same time, so the handler's calls are programs whose
    nodes are their atomic sections and what they ask of the environment, and
    the system interleaves them.  The collector, the clock, the contexts, the
    JSON encoder and the local handler are the environment. *)

From Stdlib Require Import Floats.SpecFloat.
From S2P Require Import Prelude GoStrings AdminWeb.

#[local] Open Scope Z_scope.

Definition maxBatchBytes : Z := Z.shiftl 1 20.
Definition maxPendingBytes : Z := Z.shiftl 64 20.
Definition maxResponseBytes : Z := Z.shiftl 64 10.

Inductive CtxErr := CtxCanceled | CtxDeadline.

(** The errors, by the message each is built with. *)
Inductive hecError :=
| EndpointRequired | EndpointNotAbsolute | EndpointScheme | EndpointUser | TokenRequired | IndexRequired
| FlushIntervalNotPositive | LocalRequired
| LocalError | EncodingEvent | EncodingEnvelope | JoinedErrors (local : bool) (e : hecError)
| WaitingToFlush (e : CtxErr) | StoppingWorker (e : CtxErr)
| BuildingRequest | SendingRequest | ReadingResponse | ClosingResponse | HTTPStatus (status : Z)
| DecodingResponse | MissingCode | RejectedBatch (code : Z).

(** ** Options *)

(** [url.ParseRequestURI], and whether [http.NewRequestWithContext] accepts a URL. *)
Class RequestURIs := { ParseRequestURI : gostring -> option URL; NewRequest_accepts : gostring -> bool }.

(** What [NewHandler] takes of its options; the local handler by whether it is set. *)
Record Options := { opt_Endpoint : gostring; opt_Token : gostring; opt_Index : gostring; opt_FlushInterval : Z; opt_Local : bool }.

Record Settings := { endpoint : gostring; token : gostring; index : gostring; flushInterval : Z }.

Section Options.
Context {U : UnicodeCase} {R : RequestURIs}.

Definition validateOptions (endpoint token index : gostring) (flushInterval : Z) (local : bool) : option hecError :=
  if bool_decide (endpoint = []) then Some EndpointRequired
  else
    match ParseRequestURI endpoint with
    | None => Some EndpointNotAbsolute
    | Some parsed =>
      if bool_decide (u_Host parsed = []) then Some EndpointNotAbsolute
      else if negb (EqualFold (u_Scheme parsed) (str "http")) && negb (EqualFold (u_Scheme parsed) (str "https")) then Some EndpointScheme
      else if u_User parsed then Some EndpointUser
      else if bool_decide (token = []) then Some TokenRequired
      else if bool_decide (index = []) then Some IndexRequired
      else if flushInterval <=? 0 then Some FlushIntervalNotPositive
      else if negb local then Some LocalRequired
      else None
    end.

Definition NewHandler (o : Options) : result hecError Settings :=
  let endpoint := TrimSpace (opt_Endpoint o) in
  let token := TrimSpace (opt_Token o) in
  let index := TrimSpace (opt_Index o) in
  match validateOptions endpoint token index (opt_FlushInterval o) (opt_Local o) with
  | Some e => Err e
  | None => Ok {| endpoint := endpoint; token := token; index := index; flushInterval := opt_FlushInterval o |}
  end.

End Options.

(** ** Derived handlers *)

(** [slog.Handler] as far as deriving handlers goes. *)
Class Derivable (Attr H : Type) := { withAttrs : H -> list Attr -> H; withGroup : H -> gostring -> H }.

(** A [slog.Record]: its time ([None] is the zero time) as seconds and
    nanoseconds, and the rest of it. *)
Record SlogRecord (Body : Type) := { sr_Time : option (Z * Z); sr_Body : Body }.
Arguments sr_Time {Body} _.
Arguments sr_Body {Body} _.

Record hecEvent := { he_Time : spec_float; he_Source : gostring; he_SourceType : gostring; he_Index : gostring; he_Event : gostring }.

(** The JSON encoders of the standard library: a new [slog.JSONHandler] on an
    empty buffer, what it writes for a record, and [json.Marshal] of the envelope;
    and [json.Unmarshal] into [hecResponse], whose code may be missing or null. *)
Class HecCodec (Attr J Body : Type) := {
  json_derivable :: Derivable Attr J;
  NewJSONHandler : J;
  json_Handle : J -> SlogRecord Body -> option gostring;
  Marshal_hecEvent : hecEvent -> option gostring;
  Unmarshal_hecResponse : gostring -> option (option Z)
}.

(** [float64(n)] of an integer. *)
Definition float64 (n : Z) : spec_float := binary_normalize 53 1024 n 0 false.
Definition event_time (sec nsec : Z) : spec_float :=
  SFadd 53 1024 (float64 sec) (SFdiv 53 1024 (float64 nsec) (float64 (10 ^ 9))).

Section Handlers.
Context {Attr L J Body : Type} {DL : Derivable Attr L} {HC : HecCodec Attr J Body}.

Record handlerOperation := { op_attrs : list Attr; op_group : gostring }.

(** The core is the settings and the shared state below. *)
Record Handler := { h_local : L; h_operations : list handlerOperation }.

Definition WithAttrs (attrs : list Attr) (h : Handler) : Handler :=
  match attrs with
  | [] => h
  | _ => {| h_local := withAttrs (h_local h) attrs; h_operations := h_operations h ++ [{| op_attrs := attrs; op_group := [] |}] |}
  end.

Definition WithGroup (name : gostring) (h : Handler) : Handler :=
  if bool_decide (name = []) then h
  else {| h_local := withGroup (h_local h) name; h_operations := h_operations h ++ [{| op_attrs := []; op_group := name |}] |}.

Definition derive_json (j : J) (operation : handlerOperation) : J :=
  if bool_decide (op_group operation <> []) then withGroup j (op_group operation) else withAttrs j (op_attrs operation).

Definition event_handler (h : Handler) : J := fold_left derive_json (h_operations h) NewJSONHandler.

(** [now] is read when the record has no time. *)
Definition encode (settings : Settings) (h : Handler) (record : SlogRecord Body) (now : Z * Z) : result hecError gostring :=
  match json_Handle (event_handler h) record with
  | None => Err EncodingEvent
  | Some eventBuffer =>
    let '(sec, nsec) := default now (sr_Time record) in
    match Marshal_hecEvent {| he_Time := event_time sec nsec; he_Source := str "s3gateway"; he_SourceType := str "_json";
                              he_Index := index settings; he_Event := TrimSpace eventBuffer |} with
    | None => Err EncodingEnvelope
    | Some payload => Ok payload
    end
  end.

End Handlers.
Arguments handlerOperation Attr : clear implicits.
Arguments Handler Attr L : clear implicits.

(** ** The shared state *)

(** [closeOnce] and [closeErr]. *)
Inductive Once := NotRun | OnceRunning | OnceDone (closeErr : option hecError).

Record Core := {
  pending : list gostring; pendingBytes : Z; dropped : Z (* uint64 *); isClosed : bool;
  flushPermit : bool (* the token is in the channel *); cancelled : bool; workerDone : bool; closeOnce : Once
}.

(** Of [NewHandler], once the worker is started. *)
Definition newCore : Core :=
  {| pending := []; pendingBytes := 0; dropped := 0; isClosed := false; flushPermit := true; cancelled := false;
     workerDone := false; closeOnce := NotRun |}.

Definition with_buffer (p : list gostring) (bytes drop : Z) (c : Core) : Core :=
  {| pending := p; pendingBytes := bytes; dropped := drop; isClosed := isClosed c; flushPermit := flushPermit c;
     cancelled := cancelled c; workerDone := workerDone c; closeOnce := closeOnce c |}.
Definition with_permit (b : bool) (c : Core) : Core :=
  {| pending := pending c; pendingBytes := pendingBytes c; dropped := dropped c; isClosed := isClosed c; flushPermit := b;
     cancelled := cancelled c; workerDone := workerDone c; closeOnce := closeOnce c |}.
Definition with_life (closed cancel done : bool) (once : Once) (c : Core) : Core :=
  {| pending := pending c; pendingBytes := pendingBytes c; dropped := dropped c; isClosed := closed; flushPermit := flushPermit c;
     cancelled := cancel; workerDone := done; closeOnce := once |}.

Definition len (s : gostring) : Z := Z.of_nat (length s).
Definition uint64_succ (n : Z) : Z := (n + 1) mod 2 ^ 64.

(** Whether [enqueue] has room for the payload. *)
Definition fits (payload : gostring) (c : Core) : bool :=
  negb ((maxPendingBytes <? len payload) || (maxPendingBytes <? pendingBytes c + len payload)).

Definition enqueue (payload : gostring) (c : Core) : Core :=
  if isClosed c then c
  else if fits payload c then with_buffer (pending c ++ [payload]) (pendingBytes c + len payload) (dropped c) c
  else with_buffer (pending c) (pendingBytes c) (uint64_succ (dropped c)) c.

Definition takePending (c : Core) : (list gostring * Z) * Core := ((pending c, dropped c), with_buffer [] 0 0 c).

(** The loop of [restorePending] over what arrived since: the restored events,
    their bytes, and the count of dropped ones. *)
Definition restore_one (acc : list gostring * Z * Z) (event : gostring) : list gostring * Z * Z :=
  let '(restored, bytes, drop) := acc in
  if maxPendingBytes <? bytes + len event then (restored, bytes, uint64_succ drop)
  else (restored ++ [event], bytes + len event, drop).

Definition restorePending (events : list gostring) (c : Core) : Core :=
  let bytes := fold_left (fun n event => n + len event) events 0 in
  let '(restored, bytes, drop) := fold_left restore_one (pending c) (events, bytes, dropped c) in
  with_buffer restored bytes drop c.

(** The loop of [batchEventCount], at index [i] with [size] bytes so far. *)
Fixpoint batch_loop (i : nat) (size : Z) (events : list gostring) : nat :=
  match events with
  | [] => i
  | event :: rest =>
    let eventSize := len event + 1 in
    if (0 <? i)%nat && (maxBatchBytes <? size + eventSize) then i else batch_loop (S i) (size + eventSize) rest
  end.
Definition batchEventCount (events : list gostring) : nat := batch_loop 0 0 events.

(** ** Requests and their answers *)

Record hecRequest := { rq_URL : gostring; rq_Authorization : gostring; rq_ContentType : gostring; rq_Body : gostring }.
Record hecAnswer := { an_Status : Z; an_Body : gostring; an_readErr : bool; an_closeErr : bool }.

(** An event in the body of a request. *)
Definition frame (event : gostring) : gostring := event ++ [x0a].
Definition body_of (events : list gostring) : gostring := concat (map frame events).

Definition hec_request (settings : Settings) (events : list gostring) : hecRequest :=
  {| rq_URL := endpoint settings; rq_Authorization := str "Splunk " ++ token settings;
     rq_ContentType := str "application/json; charset=utf-8"; rq_Body := body_of events |}.

(** ** The programs *)

(** The atomic sections, and what is asked of the environment. *)
Inductive Act :=
| AcquirePermit                          (* select: ctx.Done, or the permit *)
| TakePending | RestorePending (events : list gostring)
| WarnDropped (count : Z)                (* the diagnostic *)
| HttpDo (r : hecRequest)                (* Do, the read of at most maxResponseBytes, and Close *)
| ReleasePermit
| LocalHandle                            (* h.local.Handle: whether it failed *)
| WarnEncoding (e : hecError)
| Enqueue (payload : gostring)
| OnceEnter                              (* closeOnce.Do: whether it is this call that runs the function *)
| SetClosed | CancelWorker
| AwaitWorker                            (* select: <-done, or ctx.Done *)
| OnceLeave (e : option hecError)        (* closeErr is set and the function has returned *)
| CloseErr
| WarnFlush (e : hecError).

Definition Ans (a : Act) : Type :=
  match a with
  | AcquirePermit | AwaitWorker => option CtxErr
  | TakePending => list gostring * Z
  | HttpDo _ => option hecAnswer           (* None: Do failed *)
  | LocalHandle | OnceEnter => bool
  | CloseErr => option hecError
  | _ => unit
  end.

Inductive HProg (R : Type) : Type :=
| HRet (r : R)
| Do (a : Act) (k : Ans a -> HProg R).
Arguments HRet {R} r.
Arguments Do {R} a k.

Fixpoint hbind {R S} (m : HProg R) (f : R -> HProg S) : HProg S :=
  match m with
  | HRet r => f r
  | Do a k => Do a (fun x => hbind (k x) f)
  end.

Definition step_only {R} (a : Act) (k : HProg R) : HProg R := Do a (fun _ => k).

Section Programs.
Context {R : RequestURIs} {Attr L J Body : Type} {HC : HecCodec Attr J Body} (settings : Settings).

(** What [send] makes of an answer; [None] is a nil error. *)
Definition check_answer (a : option hecAnswer) : option hecError :=
  match a with
  | None => Some SendingRequest
  | Some resp =>
    if an_readErr resp then Some ReadingResponse
    else if an_closeErr resp then Some ClosingResponse
    else if (an_Status resp <? 200) || (300 <=? an_Status resp) then Some (HTTPStatus (an_Status resp))
    else
      match Unmarshal_hecResponse (take (Z.to_nat maxResponseBytes) (an_Body resp)) with
      | None => Some DecodingResponse
      | Some None => Some MissingCode
      | Some (Some code) => if code =? 0 then None else Some (RejectedBatch code)
      end
  end.

Definition send (events : list gostring) : HProg (option hecError) :=
  if negb (NewRequest_accepts (endpoint settings)) then HRet (Some BuildingRequest)
  else Do (HttpDo (hec_request settings events)) (fun a => HRet (check_answer a)).

(** The loop of [flush]; each turn sends at least one event, so as many turns
    as there are events are enough. *)
Fixpoint flush_loop (fuel : nat) (pending : list gostring) : HProg (option hecError) :=
  match fuel, pending with
  | S fuel', _ :: _ =>
    let count := batchEventCount pending in
    hbind (send (take count pending)) (fun err =>
      match err with
      | Some e => step_only (RestorePending pending) (HRet (Some e))
      | None => flush_loop fuel' (drop count pending)
      end)
  | _, _ => HRet None
  end.

(** [flush], with its deferred release of the permit. *)
Definition flush : HProg (option hecError) :=
  Do AcquirePermit (fun done =>
    match done with
    | Some e => HRet (Some (WaitingToFlush e))
    | None =>
      hbind
        (Do TakePending (fun taken =>
           let loop := flush_loop (length taken.1) taken.1 in
           if 0 <? taken.2 then step_only (WarnDropped taken.2) loop else loop))
        (fun r => step_only ReleasePermit (HRet r))
    end).

(** [Handle]; [now] is the clock, read if the record has no time. *)
Definition Handle (h : Handler Attr L) (record : SlogRecord Body) (now : Z * Z) : HProg (option hecError) :=
  Do LocalHandle (fun failed =>
    let localErr : option hecError := if failed : bool then Some LocalError else None in
    match encode settings h record now with
    | Err e => step_only (WarnEncoding e) (HRet (Some (JoinedErrors failed e)))
    | Ok payload => step_only (Enqueue payload) (HRet localErr)
    end).

Definition Close : HProg (option hecError) :=
  Do OnceEnter (fun first =>
    if first : bool then
      step_only SetClosed
        (step_only CancelWorker
           (Do AwaitWorker (fun r =>
              hbind match r with None => flush | Some e => HRet (Some (StoppingWorker e)) end
                (fun e => step_only (OnceLeave e) (HRet e)))))
    else Do CloseErr HRet).

(** One turn of the worker's loop after a tick. *)
Definition tick : HProg (option hecError) :=
  hbind flush (fun err =>
    match err with
    | Some e => step_only (WarnFlush e) (HRet None)
    | None => HRet None
    end).

(** ** The system *)

(** What the environment decides at a step. *)
Record Choice := { ch_ctx : option CtxErr; ch_answer : option hecAnswer; ch_failed : bool }.

(** One action in a state; [None] while it blocks.  When both branches of a
    select are ready the choice picks one. *)
Definition exec (ch : Choice) (c : Core) (a : Act) : option (Ans a * Core) :=
  match a with
  | AcquirePermit =>
    match ch_ctx ch with
    | Some e => Some (Some e, c)
    | None => if flushPermit c then Some (None, with_permit false c) else None
    end
  | TakePending => Some (takePending c)
  | RestorePending events => Some (tt, restorePending events c)
  | WarnDropped _ => Some (tt, c)
  | HttpDo _ => Some (ch_answer ch, c)
  | ReleasePermit => Some (tt, with_permit true c)
  | LocalHandle => Some (ch_failed ch, c)
  | WarnEncoding _ => Some (tt, c)
  | Enqueue payload => Some (tt, enqueue payload c)
  | OnceEnter =>
    match closeOnce c with
    | NotRun => Some (true, with_life (isClosed c) (cancelled c) (workerDone c) OnceRunning c)
    | OnceRunning => None
    | OnceDone _ => Some (false, c)
    end
  | SetClosed => Some (tt, with_life true (cancelled c) (workerDone c) (closeOnce c) c)
  | CancelWorker => Some (tt, with_life (isClosed c) true (workerDone c) (closeOnce c) c)
  | AwaitWorker =>
    match ch_ctx ch with
    | Some e => Some (Some e, c)
    | None => if workerDone c then Some (None, c) else None
    end
  | OnceLeave e => Some (tt, with_life (isClosed c) (cancelled c) (workerDone c) (OnceDone e) c)
  | CloseErr => Some (match closeOnce c with OnceDone e => e | _ => None end, c)
  | WarnFlush _ => Some (tt, c)
  end.

(** What has happened, for the theorems: the events the buffer accepted, how
    many were dropped, how many of these a flush has taken note of, and the
    requests made and acknowledged. *)
Record History := { accepted : list gostring; lost : Z; noted : Z; attempts : list hecRequest; acked : list hecRequest }.

Definition observe (ch : Choice) (c : Core) (a : Act) (g : History) : History :=
  match a with
  | Enqueue payload =>
    if isClosed c then g
    else if fits payload c
    then {| accepted := accepted g ++ [payload]; lost := lost g; noted := noted g; attempts := attempts g; acked := acked g |}
    else {| accepted := accepted g; lost := lost g + 1; noted := noted g; attempts := attempts g; acked := acked g |}
  | TakePending =>
    {| accepted := accepted g; lost := lost g; noted := noted g + dropped c; attempts := attempts g; acked := acked g |}
  | RestorePending events =>
    let removed := Z.of_nat (length events + length (pending c)) - Z.of_nat (length (pending (restorePending events c))) in
    {| accepted := accepted g; lost := lost g + removed; noted := noted g; attempts := attempts g; acked := acked g |}
  | HttpDo r =>
    {| accepted := accepted g; lost := lost g; noted := noted g; attempts := attempts g ++ [r];
       acked := acked g ++ (if bool_decide (check_answer (ch_answer ch) = None) then [r] else []) |}
  | _ => g
  end.

(** The calls in progress; the worker's tick is the call 0. *)
Record Sys := { core : Core; calls : gmap nat (HProg (option hecError)); history : History }.

Definition start : Sys :=
  {| core := newCore; calls := ∅; history := {| accepted := []; lost := 0; noted := 0; attempts := []; acked := [] |} |}.

Inductive is_call : HProg (option hecError) -> Prop :=
| call_flush : is_call flush
| call_close : is_call Close
| call_handle h record now : is_call (Handle h record now).

Inductive sys_step : Sys -> Sys -> Prop :=
| step_call s t m : t <> 0%nat -> calls s !! t = None -> is_call m ->
    sys_step s {| core := core s; calls := <[t := m]> (calls s); history := history s |}
| step_tick s : calls s !! 0%nat = None -> workerDone (core s) = false ->
    sys_step s {| core := core s; calls := <[0%nat := tick]> (calls s); history := history s |}
| step_exit s : calls s !! 0%nat = None -> cancelled (core s) = true ->
    sys_step s {| core := with_life (isClosed (core s)) true true (closeOnce (core s)) (core s); calls := calls s;
                  history := history s |}
| step_act s t a k ch x c : calls s !! t = Some (Do a k) -> exec ch (core s) a = Some (x, c) ->
    sys_step s {| core := c; calls := <[t := k x]> (calls s); history := observe ch (core s) a (history s) |}
| step_return s t r : calls s !! t = Some (HRet r) ->
    sys_step s {| core := core s; calls := delete t (calls s); history := history s |}.

Definition reachable : Sys -> Prop := rtc sys_step start.

(** ** The buffer *)

Definition bytes_of (events : list gostring) : Z := foldr (fun event n => len event + n) 0 events.

Lemma len_nonneg s : 0 <= len s.
Proof. unfold len. lia. Qed.

Lemma bytes_of_app l k : bytes_of (l ++ k) = bytes_of l + bytes_of k.
Proof. induction l as [|e l IH]; simpl; [done|]. rewrite IH. lia. Qed.

Lemma bytes_of_nonneg l : 0 <= bytes_of l.
Proof. induction l as [|e l IH]; simpl; [done|]. pose proof (len_nonneg e). lia. Qed.

Lemma bytes_of_drop n l : bytes_of (drop n l) <= bytes_of l.
Proof. rewrite <- (take_drop n l) at 2. rewrite bytes_of_app. pose proof (bytes_of_nonneg (take n l)). lia. Qed.

Lemma sum_bytes l n : fold_left (fun n event => n + len event) l n = n + bytes_of l.
Proof. revert n. induction l as [|e l IH]; intros n; simpl; [lia|]. rewrite IH. lia. Qed.

Lemma uint64_succ_mod n : uint64_succ (n mod 2 ^ 64) = (n + 1) mod 2 ^ 64.
Proof. apply Zplus_mod_idemp_l. Qed.

(** What [restorePending] keeps of what arrived during the flush. *)
Lemma restore_fold current restored bytes n :
  bytes <= maxPendingBytes ->
  exists kept, kept `sublist_of` current /\ bytes + bytes_of kept <= maxPendingBytes /\
    fold_left restore_one current (restored, bytes, n mod 2 ^ 64)
      = (restored ++ kept, bytes + bytes_of kept, (n + Z.of_nat (length current - length kept)) mod 2 ^ 64).
Proof.
  revert restored bytes n. induction current as [|e l IH]; intros restored bytes n Hb; cbn [fold_left].
  - exists []. change (bytes_of []) with 0. rewrite app_nil_r, !Z.add_0_r. done.
  - unfold restore_one at 2. destruct (Z.ltb_spec maxPendingBytes (bytes + len e)) as [Hbig|Hfit].
    + rewrite uint64_succ_mod. destruct (IH restored bytes (n + 1) Hb) as (kept & Hsub & Hle & ->).
      exists kept. apply sublist_length in Hsub as Hlen. split_and!; [by apply sublist_cons|done|].
      do 2 f_equal. cbn [length]. lia.
    + destruct (IH (restored ++ [e]) (bytes + len e) n Hfit) as (kept & Hsub & Hle & ->).
      exists (e :: kept). apply sublist_length in Hsub as Hlen. cbn [bytes_of foldr]. fold (bytes_of kept).
      split_and!; [by apply sublist_skip|lia|]. rewrite <- app_assoc, Z.add_assoc. done.
Qed.

Lemma restorePending_spec events c n :
  bytes_of events <= maxPendingBytes -> dropped c = n mod 2 ^ 64 ->
  exists kept, kept `sublist_of` pending c /\ bytes_of (events ++ kept) <= maxPendingBytes /\
    restorePending events c
      = with_buffer (events ++ kept) (bytes_of (events ++ kept)) ((n + Z.of_nat (length (pending c) - length kept)) mod 2 ^ 64) c.
Proof.
  intros Hb Hd. unfold restorePending. rewrite sum_bytes, Z.add_0_l, Hd.
  destruct (restore_fold (pending c) events (bytes_of events) n Hb) as (kept & Hsub & Hle & ->).
  exists kept. rewrite bytes_of_app. done.
Qed.

(** ** Batches *)

Lemma body_bytes events : len (body_of events) = bytes_of events + Z.of_nat (length events).
Proof.
  unfold body_of. induction events as [|e l IH]; [done|]. cbn [map concat bytes_of foldr length]. fold (bytes_of l).
  unfold len in *. rewrite length_app, Nat2Z.inj_add, IH. unfold frame. rewrite length_app. cbn [length]. lia.
Qed.

(** A batch fits in the limit, unless it is one event. *)
Definition good_batch (events : list gostring) : Prop :=
  events <> [] /\ (len (body_of events) <= maxBatchBytes \/ length events = 1%nat).

Lemma batch_loop_spec events i size :
  (i <= batch_loop i size events <= i + length events)%nat /\
  (i = 0%nat -> events <> [] -> (1 <= batch_loop i size events)%nat) /\
  (size <= maxBatchBytes -> (0 < i)%nat ->
   size + len (body_of (take (batch_loop i size events - i) events)) <= maxBatchBytes) /\
  (maxBatchBytes < size -> (0 < i)%nat -> batch_loop i size events = i).
Proof.
  revert i size. induction events as [|e l IH]; intros i size; cbn [batch_loop].
  { split_and!; [lia|lia|done| |done]. intros Hs _. rewrite take_nil. unfold body_of, len. cbn. lia. }
  pose proof (len_nonneg e) as He. destruct (IH (S i) (size + (len e + 1))) as (Hr & _ & Hb & _). rewrite body_bytes in *.
  destruct ((0 <? i)%nat && (maxBatchBytes <? size + (len e + 1))) eqn:Hc.
  - apply andb_true_iff in Hc as [Hi%Nat.ltb_lt _]. cbn [length]. split_and!; [lia|lia|lia| |done].
    intros Hs _. rewrite Nat.sub_diag. cbn. lia.
  - cbn [length]. split_and!; [lia|lia|intros; lia| |].
    + intros Hs Hi. apply andb_false_iff in Hc as [Hc%Nat.ltb_ge|Hc%Z.ltb_ge]; [lia|].
      specialize (Hb Hc ltac:(lia)).
      replace (batch_loop (S i) (size + (len e + 1)) l - i)%nat
        with (S (batch_loop (S i) (size + (len e + 1)) l - S i)) by lia.
      cbn [take length bytes_of foldr]. fold (bytes_of (take (batch_loop (S i) (size + (len e + 1)) l - S i) l)). lia.
    + intros Hs Hi. apply andb_false_iff in Hc as [Hc%Nat.ltb_ge|Hc%Z.ltb_ge]; lia.
Qed.

Lemma batch_range events : events <> [] -> (1 <= batchEventCount events <= length events)%nat.
Proof. intros Hne. destruct (batch_loop_spec events 0 0) as (Hr & Hp & _). unfold batchEventCount. specialize (Hp eq_refl Hne). lia. Qed.

Lemma batch_good events : events <> [] -> good_batch (take (batchEventCount events) events).
Proof.
  intros Hne. pose proof (batch_range events Hne) as Hr. split.
  { intros H. apply (f_equal length) in H. rewrite length_take in H. cbn in H. lia. }
  destruct events as [|e l]; [done|]. unfold batchEventCount in *. cbn [batch_loop] in *. change (0 <? 0)%nat with false in *.
  cbn [andb] in *. destruct (batch_loop_spec l 1 (0 + (len e + 1))) as (Hr' & _ & Hb & Hbig).
  destruct (Z.le_gt_cases (0 + (len e + 1)) maxBatchBytes) as [Hle|Hgt].
  - left. specialize (Hb Hle ltac:(lia)). remember (batch_loop 1 (0 + (len e + 1)) l) as n eqn:Hn.
    rewrite body_bytes in *. destruct n as [|n]; [lia|]. rewrite Nat.sub_succ, Nat.sub_0_r in Hb.
    cbn [take length bytes_of foldr]. fold (bytes_of (take n l)). lia.
  - right. rewrite Hbig by lia. done.
Qed.
(** ** What a call may do

    [disciplined post holds own m]: a call that holds the permit or not, and has
    taken the events [own] out of the buffer, does in [m] only what the buffer's
    invariant allows: it takes once, posts a batch of what it has taken, puts
    back all that is not acknowledged, and gives the permit back empty-handed;
    where it returns, [post] holds of the permit, what it owns and the result. *)

Definition Post : Type := bool -> list gostring -> option hecError -> Prop.

Fixpoint disciplined (post : Post) (holds : bool) (own : list gostring) (m : HProg (option hecError)) : Prop :=
  match m with
  | HRet r => post holds own r
  | Do a k =>
    match a as a return (Ans a -> HProg (option hecError)) -> Prop with
    | AcquirePermit => fun k =>
      holds = false /\ own = [] /\ disciplined post true [] (k None) /\ forall e, disciplined post false [] (k (Some e))
    | TakePending => fun k => holds = true /\ own = [] /\ forall taken, disciplined post true taken.1 (k taken)
    | RestorePending events => fun k => holds = true /\ own = events /\ disciplined post true [] (k tt)
    | HttpDo r => fun k =>
      holds = true /\
      (exists batch rest, good_batch batch /\ own = batch ++ rest /\ r = hec_request settings batch /\
         forall x, disciplined post true (if bool_decide (check_answer x = None) then rest else own) (k x))
    | ReleasePermit => fun k => holds = true /\ own = [] /\ disciplined post false [] (k tt)
    | _ => fun k => forall x, disciplined post holds own (k x)
    end k
  end.

Lemma disciplined_bind (post post' : Post) m f holds own :
  disciplined post holds own m -> (forall h o r, post h o r -> disciplined post' h o (f r)) ->
  disciplined post' holds own (hbind m f).
Proof.
  intros Hm Hf. revert holds own Hm. induction m as [r|a k IH]; intros holds own Hm; [by apply Hf|].
  destruct a; cbn in Hm |- *; naive_solver.
Qed.

(** A call that has finished holds nothing. *)
Definition idle : Post := fun holds own _ => holds = false /\ own = [].
(** A flush that keeps the permit has nothing left. *)
Definition emptied : Post := fun holds own _ => holds = true /\ own = [].

Lemma flush_loop_disciplined fuel events :
  (length events <= fuel)%nat -> disciplined emptied true events (flush_loop fuel events).
Proof.
  revert events. induction fuel as [|fuel IH]; intros events Hf.
  { destruct events; [done | cbn in Hf; lia]. }
  destruct events as [|e l]; [done|]. cbn [flush_loop]. remember (e :: l) as events eqn:He.
  assert (Hne : events <> []) by (by rewrite He). pose proof (batch_range events Hne) as Hr.
  unfold send. destruct (NewRequest_accepts (endpoint settings)); [|done]. cbn [negb hbind disciplined]. split; [done|].
  exists (take (batchEventCount events) events), (drop (batchEventCount events) events).
  split_and!; [by apply batch_good|by rewrite take_drop|done|]. intros x.
  destruct (check_answer x); [done|]. rewrite bool_decide_eq_true_2 by done. apply IH. rewrite length_drop. lia.
Qed.

Lemma flush_disciplined : disciplined idle false [] flush.
Proof.
  cbn [disciplined flush]. split_and!; [done|done| |done].
  eapply (disciplined_bind emptied); [|intros h o r [-> ->]; done]. cbn [disciplined]. split_and!; [done|done|].
  intros [p d]. cbn [fst snd]. pose proof (flush_loop_disciplined (length p) p ltac:(lia)). destruct (0 <? d); [by intros [] | done].
Qed.

Lemma tick_disciplined : disciplined idle false [] tick.
Proof. eapply (disciplined_bind idle); [apply flush_disciplined|]. intros h o [e|] [-> ->]; done. Qed.

Lemma call_disciplined m : is_call m -> disciplined idle false [] m.
Proof.
  destruct 1 as [| |h record now]; [apply flush_disciplined| |].
  - cbn. intros [|]; [|done]. intros _ _ [e|]; [done|].
    eapply (disciplined_bind idle); [apply flush_disciplined|]. by intros h o r [-> ->].
  - cbn. intros b. by destruct (encode settings h record now).
Qed.

(** ** The invariant *)

(** The buffer: its bytes are counted and within the limit, the count of
    dropped events is theirs that nobody has taken note of. *)
Record buffer_ok (c : Core) (g : History) : Prop := {
  bo_bytes : pendingBytes c = bytes_of (pending c);
  bo_bound : pendingBytes c <= maxPendingBytes;
  bo_dropped : dropped c = (lost g - noted g) mod 2 ^ 64
}.

(** The events: [flying] are the ones a flush has taken. *)
Record events_ok (c : Core) (g : History) (flying sent : list gostring) : Prop := {
  eo_bound : bytes_of flying <= maxPendingBytes;
  eo_acked : concat (map rq_Body (acked g)) = body_of sent;
  eo_order : (sent ++ flying ++ pending c) `sublist_of` accepted g;
  eo_lost : exists refused, 0 <= refused /\
      lost g = refused + (Z.of_nat (length (accepted g)) - Z.of_nat (length (sent ++ flying ++ pending c)))
}.

Definition owned (holder : option (nat * list gostring)) : list gostring := match holder with Some (_, p) => p | None => [] end.
Definition share (holder : option (nat * list gostring)) (t : nat) : bool * list gostring :=
  match holder with Some (u, p) => if decide (u = t) then (true, p) else (false, []) | None => (false, []) end.

Record inv (s : Sys) : Prop := {
  inv_buffer : buffer_ok (core s) (history s);
  inv_calls : exists holder sent,
    flushPermit (core s) = bool_decide (holder = None) /\
    (forall t p, holder = Some (t, p) -> is_Some (calls s !! t)) /\
    map_Forall (fun t m => disciplined idle (share holder t).1 (share holder t).2 m) (calls s) /\
    events_ok (core s) (history s) (owned holder) sent;
  inv_batches : Forall (fun r => exists batch, good_batch batch /\ r = hec_request settings batch) (attempts (history s))
}.

Lemma enqueue_inv payload c g flying sent ch :
  buffer_ok c g -> events_ok c g flying sent ->
  buffer_ok (enqueue payload c) (observe ch c (Enqueue payload) g) /\
  events_ok (enqueue payload c) (observe ch c (Enqueue payload) g) flying sent.
Proof.
  intros [Hb Hm Hd] [Hf Ha Ho (ref & Hr & Hl)]. unfold enqueue, observe. destruct (isClosed c); [by split; constructor; eauto|].
  destruct (fits payload c) eqn:Hfit; split; constructor; cbn [pending pendingBytes dropped with_buffer accepted lost noted acked] in *; try done.
  - rewrite bytes_of_app, Hb. cbn. lia.
  - unfold fits in Hfit. b2p. lia.
  - rewrite !app_assoc in *. by apply sublist_app.
  - exists ref. split; [done|]. rewrite !length_app in *. cbn [length]. lia.
  - rewrite Hd, uint64_succ_mod. f_equal. lia.
  - exists (ref + 1). lia.
Qed.

Lemma take_inv c g sent ch :
  buffer_ok c g -> events_ok c g [] sent ->
  buffer_ok (takePending c).2 (observe ch c TakePending g) /\
  events_ok (takePending c).2 (observe ch c TakePending g) (pending c) sent.
Proof.
  intros [Hb Hm Hd] [Hf Ha Ho (ref & Hr & Hl)].
  split; constructor; cbn [pending pendingBytes dropped with_buffer takePending observe accepted lost noted acked snd] in *; try done.
  - rewrite Hd. replace (lost g - (noted g + (lost g - noted g) mod 2 ^ 64)) with ((lost g - noted g) - (lost g - noted g) mod 2 ^ 64) by lia.
    by rewrite Zminus_mod_idemp_r, Z.sub_diag.
  - lia.
  - by rewrite app_nil_r.
  - exists ref. rewrite app_nil_r. done.
Qed.

Lemma restore_inv events c g sent ch :
  buffer_ok c g -> events_ok c g events sent ->
  buffer_ok (restorePending events c) (observe ch c (RestorePending events) g) /\
  events_ok (restorePending events c) (observe ch c (RestorePending events) g) [] sent.
Proof.
  intros [Hb Hm Hd] [Hf Ha Ho (ref & Hr & Hl)].
  destruct (restorePending_spec events c (lost g - noted g) Hf Hd) as (kept & Hsub & Hle & Heq). apply sublist_length in Hsub as Hlen.
  unfold observe. rewrite Heq. split; constructor; cbn [pending pendingBytes dropped with_buffer accepted lost noted acked] in *; try done.
  - f_equal. rewrite length_app. lia.
  - etrans; [|apply Ho]. rewrite app_nil_l. do 2 (apply sublist_app; [done|]). done.
  - exists ref. split; [done|]. rewrite !length_app in *. cbn [length] in *. lia.
Qed.

Lemma http_inv batch rest c g sent ch :
  events_ok c g (batch ++ rest) sent -> good_batch batch ->
  let g' := observe ch c (HttpDo (hec_request settings batch)) g in
  if bool_decide (check_answer (ch_answer ch) = None) then events_ok c g' rest (sent ++ batch) else events_ok c g' (batch ++ rest) sent.
Proof.
  intros [Hf Ha Ho (ref & Hr & Hl)] _ g'. subst g'. cbn [observe]. case_bool_decide as Hc.
  - constructor; cbn [accepted lost noted acked].
    + rewrite bytes_of_app in Hf. pose proof (bytes_of_nonneg batch). lia.
    + rewrite map_app, concat_app, Ha. cbn. unfold body_of. by rewrite map_app, concat_app, app_nil_r.
    + by rewrite <- !app_assoc in *.
    + exists ref. by rewrite <- !app_assoc in *.
  - rewrite app_nil_r. constructor; cbn [accepted lost noted acked]; eauto.
Qed.

Lemma buffer_ok_same c c' g g' :
  pending c' = pending c -> pendingBytes c' = pendingBytes c -> dropped c' = dropped c -> lost g' = lost g -> noted g' = noted g ->
  buffer_ok c g -> buffer_ok c' g'.
Proof. intros Hp Hb Hd Hl Hn [H1 H2 H3]. constructor; congruence. Qed.

Lemma events_ok_same c c' g flying sent : pending c' = pending c -> events_ok c g flying sent -> events_ok c' g flying sent.
Proof. intros Hp [H1 H2 H3 H4]. constructor; rewrite ?Hp; done. Qed.

(** The invariant after the call [t] has gone on to [k]. *)
Lemma inv_update s holder holder' sent' t m k c g :
  map_Forall (fun t m => disciplined idle (share holder t).1 (share holder t).2 m) (calls s) ->
  (forall u p, holder = Some (u, p) -> is_Some (calls s !! u)) ->
  calls s !! t = Some m ->
  holder' = holder \/ (forall u, u <> t -> share holder' u = (false, []) /\ share holder u = (false, [])) ->
  disciplined idle (share holder' t).1 (share holder' t).2 k ->
  buffer_ok c g -> flushPermit c = bool_decide (holder' = None) -> events_ok c g (owned holder') sent' ->
  Forall (fun r => exists batch, good_batch batch /\ r = hec_request settings batch) (attempts g) ->
  inv {| core := c; calls := <[t := k]> (calls s); history := g |}.
Proof.
  intros Hall Hin Ht Hsh Hk Hb Hp He Hg. constructor; [done| |done]. exists holder', sent'. cbn [core calls history].
  split_and!; [done| | |done].
  - intros u p Hu. destruct (decide (u = t)) as [->|Hne]; [by rewrite lookup_insert_eq|]. rewrite lookup_insert_ne by done.
    destruct Hsh as [->|Hsh]; [by eapply Hin|]. destruct (Hsh u Hne) as [Hs _]. rewrite Hu in Hs. cbn in Hs.
    by rewrite decide_True in Hs.
  - intros u mu Hu. destruct (decide (u = t)) as [->|Hne].
    + rewrite lookup_insert_eq in Hu. by injection Hu as <-.
    + rewrite lookup_insert_ne in Hu by done. specialize (Hall u mu Hu). cbn beta in Hall. destruct Hsh as [->|Hsh]; [done|].
      destruct (Hsh u Hne) as [-> Hs]. by rewrite Hs in Hall.
Qed.

Lemma share_self t p : share (Some (t, p)) t = (true, p).
Proof. cbn. by rewrite decide_True. Qed.
Lemma share_other t u p : u <> t -> share (Some (t, p)) u = (false, []).
Proof. intros Hne. cbn. by rewrite decide_False. Qed.
(** A call that holds the permit is the holder. *)
Lemma share_holds holder t : (share holder t).1 = true -> exists p, holder = Some (t, p) /\ (share holder t).2 = p.
Proof. destruct holder as [[u p]|]; cbn; [|done]. destruct (decide (u = t)) as [->|]; [eauto|done]. Qed.

Ltac holder_of H := apply share_holds in H as (?own & -> & ?Hown); rewrite share_self in *; cbn [fst snd owned] in *.

Lemma act_inv s t a k ch x c :
  inv s -> calls s !! t = Some (Do a k) -> exec ch (core s) a = Some (x, c) ->
  inv {| core := c; calls := <[t := k x]> (calls s); history := observe ch (core s) a (history s) |}.
Proof.
  intros [Hb (holder & sent & Hp & Hin & Hall & He) Hg] Ht Hx. pose proof (Hall t _ Ht) as Hk. cbn beta in Hk.
  assert (Hneutral : forall c', pending c' = pending (core s) -> pendingBytes c' = pendingBytes (core s) -> dropped c' = dropped (core s) ->
      flushPermit c' = flushPermit (core s) -> forall y, disciplined idle (share holder t).1 (share holder t).2 (k y) ->
      inv {| core := c'; calls := <[t := k y]> (calls s); history := history s |}).
  { intros c' H1 H2 H3 H4 y Hy. apply (inv_update s holder holder sent t (Do a k)); eauto.
    - by eapply buffer_ok_same.
    - by eapply events_ok_same. }
  destruct a; cbn [disciplined] in Hk; cbn [exec] in Hx; try (injection Hx as <- <-; apply Hneutral; by auto).
  all: try (repeat case_match; simplify_eq; apply Hneutral; by auto).
  - destruct Hk as (Hf & Ho & Hk & Hk'). rewrite Hf, Ho in Hneutral. case_match; simplify_eq; [by apply Hneutral|].
    destruct (flushPermit (core s)) eqn:Hfree; simplify_eq. symmetry in Hp. apply bool_decide_eq_true in Hp as ->.
    apply (inv_update s None (Some (t, [])) sent t (Do AcquirePermit k)); rewrite ?share_self; eauto.
    + right. intros u Hu. by rewrite share_other.
    + by apply (buffer_ok_same (core s) _ (history s)).
    + by apply (events_ok_same (core s)).
  - destruct Hk as (Hh & Ho & Hk). holder_of Hh. subst. injection Hx as <- <-. destruct (take_inv _ _ _ ch Hb He) as [Hb' He'].
    apply (inv_update s (Some (t, [])) (Some (t, pending (core s))) sent t (Do TakePending k)); rewrite ?share_self; eauto.
    + right. intros u Hu. by rewrite !share_other.
    + apply (Hk (pending (core s), dropped (core s))).
  - destruct Hk as (Hh & Ho & Hk). holder_of Hh. subst. injection Hx as <- <-. destruct (restore_inv _ _ _ _ ch Hb He) as [Hb' He'].
    apply (inv_update s (Some (t, events)) (Some (t, [])) sent t (Do (RestorePending events) k)); rewrite ?share_self; eauto.
    + right. intros u Hu. by rewrite !share_other.
    + unfold restorePending. by destruct (fold_left restore_one _ _) as [[? ?] ?].
  - destruct Hk as (Hh & batch & rest & Hgood & Ho & -> & Hk). holder_of Hh. subst own. injection Hx as <- <-.
    pose proof (http_inv batch rest (core s) (history s) sent ch) as Hhttp. specialize (Hk (ch_answer ch)).
    specialize (Hhttp He Hgood). cbv zeta in Hhttp. apply Forall_app_2 with (l2 := [hec_request settings batch]) in Hg as Hg'; [|by constructor; eauto].
    case_bool_decide.
    + apply (inv_update s (Some (t, batch ++ rest)) (Some (t, rest)) (sent ++ batch) t (Do (HttpDo (hec_request settings batch)) k));
        rewrite ?share_self; eauto; [right; intros u Hu; by rewrite !share_other|]. by apply (buffer_ok_same (core s) _ (history s)).
    + apply (inv_update s (Some (t, batch ++ rest)) (Some (t, batch ++ rest)) sent t (Do (HttpDo (hec_request settings batch)) k));
        rewrite ?share_self; eauto. by apply (buffer_ok_same (core s) _ (history s)).
  - destruct Hk as (Hh & Ho & Hk). holder_of Hh. subst. injection Hx as <- <-.
    apply (inv_update s (Some (t, [])) None sent t (Do ReleasePermit k)); eauto.
    + right. intros u Hu. by rewrite share_other.
    + by apply (buffer_ok_same (core s) _ (history s)).
    + by apply (events_ok_same (core s)).
  - injection Hx as <- <-. destruct (enqueue_inv payload _ _ _ _ ch Hb He) as [Hb' He'].
    apply (inv_update s holder holder sent t (Do (Enqueue payload) k)); eauto.
    + rewrite <- Hp. unfold enqueue. by repeat case_match.
    + unfold observe. by repeat case_match.
Qed.

(** A new call does not disturb the others. *)
Lemma call_inv s t m :
  inv s -> calls s !! t = None -> disciplined idle false [] m ->
  inv {| core := core s; calls := <[t := m]> (calls s); history := history s |}.
Proof.
  intros [Hb (holder & sent & Hp & Hin & Hall & He) Hg] Ht Hm.
  assert (Hfresh : share holder t = (false, [])).
  { destruct holder as [[u p]|]; [|done]. apply share_other. intros ->. destruct (Hin _ _ eq_refl). congruence. }
  constructor; [done| |done]. exists holder, sent. split_and!; [done| | |done].
  - intros u p Hu. cbn [calls]. apply lookup_insert_is_Some. destruct (decide (t = u)); eauto.
  - apply map_Forall_insert_2; [by rewrite Hfresh|done].
Qed.

Lemma step_inv s s' : sys_step s s' -> inv s -> inv s'.
Proof.
  intros Hstep Hinv. destruct Hstep as [s t m Ht0 Ht Hm|s Ht Hw|s Ht Hc|s t a k ch x c Ht Hx|s t r Ht].
  - apply call_inv; [done..|]. by apply call_disciplined.
  - apply call_inv; [done..|]. apply tick_disciplined.
  - destruct Hinv as [Hb (holder & sent & Hp & Hin & Hall & He) Hg].
    constructor; [by apply (buffer_ok_same (core s) _ (history s))| |done]. exists holder, sent. split_and!; [done..|].
    by apply (events_ok_same (core s)).
  - by eapply act_inv.
  - destruct Hinv as [Hb (holder & sent & Hp & Hin & Hall & He) Hg]. constructor; [done| |done]. exists holder, sent.
    pose proof (Hall _ _ Ht) as [Hh Ho]. split_and!; [done| |by apply map_Forall_delete|done].
    intros u p Hu. subst. destruct (decide (u = t)) as [->|Hne]; [by rewrite share_self in Hh|].
    cbn [calls]. rewrite lookup_delete_ne by done. by eapply Hin.
Qed.

Lemma buffer_reachable s : reachable s -> inv s.
Proof.
  revert s. apply rtc_ind_r; [|intros s s' _ Hstep IH; by eapply step_inv].
  constructor; [by constructor| |by constructor]. exists None, []. split_and!; [done|done|apply map_Forall_empty|].
  constructor; [done|done|done|]. exists 0. done.
Qed.

(** ** What the log handler guarantees *)

(** C37. Whatever the callers, the worker's ticks and Close do at the same time,
    and however the collector answers, the bodies it has acknowledged are some
    of the accepted events, each once and in the order they were accepted; the
    other accepted events are in the hands of the one flush that holds the
    permit, still buffered behind them, or counted as dropped, and the dropped
    ones nobody has been told of are the handler's counter; the buffer, and what
    a flush holds, never exceed 64 MiB. *)
Theorem hec_conserves s :
  reachable s ->
  exists sent flying refused,
    concat (map rq_Body (acked (history s))) = body_of sent /\
    (sent ++ flying ++ pending (core s)) `sublist_of` accepted (history s) /\
    (flushPermit (core s) = true -> flying = []) /\
    0 <= refused /\
    lost (history s) = refused + (Z.of_nat (length (accepted (history s))) - Z.of_nat (length (sent ++ flying ++ pending (core s)))) /\
    dropped (core s) = (lost (history s) - noted (history s)) mod 2 ^ 64 /\
    pendingBytes (core s) = bytes_of (pending (core s)) /\ pendingBytes (core s) <= maxPendingBytes /\
    bytes_of flying <= maxPendingBytes.
Proof.
  intros Hs. apply buffer_reachable in Hs as [[Hb Hm Hd] (holder & sent & Hp & _ & _ & [Hf Ha Ho (refused & Hr & Hl)]) _].
  exists sent, (owned holder), refused. split_and!; try done.
  rewrite Hp. intros H%bool_decide_eq_true. by rewrite H.
Qed.

(** Every request ever made carries the configured endpoint and token and a
    batch of at least one event, whose body is at most 1 MiB unless it is a
    single event. *)
Theorem hec_requests_bounded s r :
  reachable s -> r ∈ attempts (history s) ->
  rq_URL r = endpoint settings /\ rq_Authorization r = str "Splunk " ++ token settings /\
  exists batch, batch <> [] /\ rq_Body r = body_of batch /\ (len (rq_Body r) <= maxBatchBytes \/ length batch = 1%nat).
Proof.
  intros Hs Hr. apply buffer_reachable in Hs as [_ _ Hg]. rewrite Forall_forall in Hg.
  destruct (Hg r Hr) as (batch & [Hne Hsize] & ->). split_and!; [done|done|]. by exists batch.
Qed.

(** ** A flush by itself *)

(** A call run to its end with the environment's choices, one per action;
    [None] if it blocks. *)
Fixpoint run {T} (choices : nat -> Choice) (i : nat) (m : HProg T) (c : Core) (g : History) : option (T * Core * History) :=
  match m with
  | HRet r => Some (r, c, g)
  | Do a k =>
    match exec (choices i) c a with
    | None => None
    | Some (x, c') => run choices (S i) (k x) c' (observe (choices i) c a g)
    end
  end.

(** What a run of the loop, with its deferred release, leaves behind. *)
Definition flushed (events : list gostring) (before : list hecRequest) (out : option (option hecError * Core * History)) : Prop :=
  exists r c' g' sent rest,
    out = Some (r, c', g') /\ events = sent ++ rest /\ pending c' = rest /\ pendingBytes c' = bytes_of rest /\
    flushPermit c' = true /\ (r = None <-> rest = []) /\
    concat (map rq_Body (acked g')) = concat (map rq_Body before) ++ body_of sent.

Lemma run_flush_loop choices fuel events i c g :
  (length events <= fuel)%nat -> pending c = [] -> pendingBytes c = 0 ->
  flushed events (acked g) (run choices i (hbind (flush_loop fuel events) (fun r => step_only ReleasePermit (HRet r))) c g).
Proof.
  revert events i c g. induction fuel as [|fuel IH]; intros events i c g Hf Hp Hb.
  all: destruct events as [|e l].
  1, 3: exists None, (with_permit true c), g, [], []; split_and!; try done; cbn; by rewrite app_nil_r.
  { cbn in Hf. lia. }
  cbn [flush_loop]. remember (e :: l) as events eqn:He. assert (Hne : events <> []) by (by rewrite He).
  assert (Hback : forall err i g', concat (map rq_Body (acked g')) = concat (map rq_Body (acked g)) ->
      flushed events (acked g) (run choices i (step_only (RestorePending events) (step_only ReleasePermit (HRet (Some err)))) c g')).
  { intros err j g' Hg. cbn [run step_only exec]. unfold restorePending. rewrite Hp. cbn [fold_left].
    eexists _, _, _, [], events. split_and!; try done; cbn [pending pendingBytes with_buffer with_permit acked observe].
    - by rewrite sum_bytes, Z.add_0_l.
    - by rewrite Hg, app_nil_r. }
  pose proof (batch_range events Hne) as Hr. unfold send.
  destruct (NewRequest_accepts (endpoint settings)); [|by apply (Hback BuildingRequest)]. cbn [negb hbind run exec]. destruct (check_answer (ch_answer (choices i))) as [err|] eqn:Hc.
  { apply (Hback err). cbn [observe acked]. rewrite Hc. by rewrite app_nil_r. }
  destruct (IH (drop (batchEventCount events) events) (S i) c
    (observe (choices i) c (HttpDo (hec_request settings (take (batchEventCount events) events))) g))
    as (r & c' & g' & sent & rest & Hout & Hsplit & Hrest); [rewrite length_drop; lia|done..|].
  exists r, c', g', (take (batchEventCount events) events ++ sent), rest. split_and!; [done| |tauto..|].
  - by rewrite <- app_assoc, <- Hsplit, take_drop.
  - destruct Hrest as (_ & _ & _ & _ & ->). cbn [observe acked]. rewrite Hc, bool_decide_eq_true_2 by done.
    rewrite map_app, concat_app. cbn. unfold body_of. by rewrite map_app, concat_app, app_nil_r, app_assoc.
Qed.

(** C38. A flush that gets the permit always comes to an end and gives the permit
    back: it posts at most the events that were buffered, those acknowledged are
    a prefix of the buffer, the rest is the buffer again, in order, and it
    reports an error exactly when something is left. *)
Theorem flush_prefix choices c g :
  flushPermit c = true -> ch_ctx (choices 0%nat) = None ->
  flushed (pending c) (acked g) (run choices 0 flush c g).
Proof.
  intros Hp Hctx. cbn [run flush exec]. rewrite Hctx, Hp. cbn [hbind run exec takePending fst snd].
  set (c' := with_buffer [] 0 0 (with_permit false c)).
  change (dropped (with_permit false c)) with (dropped c). change (pending (with_permit false c)) with (pending c).
  destruct (0 <? dropped c); [cbn [hbind step_only run exec]|].
  - by eapply (run_flush_loop choices (length (pending c)) (pending c) 3 c'
      (observe (choices 2%nat) c' (WarnDropped (dropped c)) (observe (choices 1%nat) (with_permit false c) TakePending g))).
  - by eapply (run_flush_loop choices (length (pending c)) (pending c) 2 c' (observe (choices 1%nat) (with_permit false c) TakePending g)).
Qed.

End Programs.

(** ** Derived handlers *)

Section Derived.
Context {Attr L J Body : Type} {DL : Derivable Attr L} {HC : HecCodec Attr J Body}.

(** The same derivation on a handler of any kind. *)
Definition derive {H} {D : Derivable Attr H} (x : H) (op : list Attr + gostring) : H :=
  match op with
  | inl [] => x
  | inl attrs => withAttrs x attrs
  | inr name => if bool_decide (name = []) then x else withGroup x name
  end.
Definition derive_handler (h : Handler Attr L) (op : list Attr + gostring) : Handler Attr L :=
  match op with inl attrs => WithAttrs attrs h | inr name => WithGroup name h end.

(** The copy a record leaves for Splunk is written by a handler derived by
    exactly the steps, in the same order, by which the local handler was. *)
Theorem derived_alike local ops :
  let h := fold_left derive_handler ops {| h_local := local; h_operations := [] |} in
  h_local h = fold_left derive ops local /\ event_handler h = fold_left derive ops NewJSONHandler.
Proof.
  cbv zeta. induction ops as [|op ops [IHl IHj]] using rev_ind; [done|]. rewrite !fold_left_app. cbn [fold_left].
  set (h := fold_left derive_handler ops _) in *. rewrite <- IHl, <- IHj. clearbody h. unfold derive, derive_handler.
  destruct op as [[|a attrs]|name]; [done| |].
  - cbn [WithAttrs h_local]. split; [done|]. unfold event_handler. cbn [h_operations]. by rewrite fold_left_app.
  - unfold WithGroup. case_bool_decide as Hn; [done|]. split; [done|]. unfold event_handler. cbn [h_operations].
    rewrite fold_left_app. cbn. unfold derive_json. cbn [op_group]. by rewrite bool_decide_eq_true_2 by done.
Qed.

End Derived.

(** ** Witnesses *)

Section Sequential.
Context {R : RequestURIs} {Attr L J Body : Type} {HC : HecCodec Attr J Body} (settings : Settings).

Lemma run_alone_steps choices t m i c g calls0 r c' g' :
  calls0 !! t = None ->
  run choices i m c g = Some (r, c', g') ->
  rtc (sys_step (L := L) settings) {| core := c; calls := <[t := m]> calls0; history := g |} {| core := c'; calls := calls0; history := g' |}.
Proof.
  intros Ht. revert i c g. induction m as [x|a k IH]; intros i c g Hrun; cbn [run] in Hrun.
  - injection Hrun as -> -> ->. apply rtc_once. rewrite <- (delete_insert_id calls0 t (HRet r)) at 2 by done.
    exact (step_return (L := L) settings {| core := c'; calls := <[t := HRet r]> calls0; history := g' |} t r (lookup_insert_eq _ _ _)).
  - destruct (exec (choices i) c a) as [[x c1]|] eqn:Hx; [|done]. eapply rtc_l; [|by eapply IH].
    pose proof (step_act (L := L) settings {| core := c; calls := <[t := Do a k]> calls0; history := g |} t a k (choices i) x c1
      (lookup_insert_eq _ _ _) Hx) as Hstep. cbn [calls core history] in Hstep. by rewrite insert_insert_eq in Hstep.
Qed.

(** A call that runs alone from a reachable state. *)
Lemma run_reachable choices m c g r c' g' :
  is_call (L := L) settings m -> run choices 0 m c g = Some (r, c', g') ->
  reachable (L := L) settings {| core := c; calls := ∅; history := g |} ->
  reachable (L := L) settings {| core := c'; calls := ∅; history := g' |}.
Proof.
  intros Hm Hrun Hs. unfold reachable in *. etrans; [exact Hs|]. eapply rtc_l; [|by eapply (run_alone_steps choices 1)].
  by apply (step_call settings {| core := c; calls := ∅; history := g |} 1 m).
Qed.
End Sequential.

(** A collector that answers with the code 0, an encoder that writes the event
    itself, and records without attributes. *)
#[local] Instance any_uri : RequestURIs := {| ParseRequestURI _ := None; NewRequest_accepts _ := true |}.
#[local] Instance plain_handlers : Derivable unit unit := {| withAttrs h _ := h; withGroup h _ := h |}.
#[local] Instance plain_codec : HecCodec unit unit gostring :=
  {| NewJSONHandler := tt; json_Handle _ r := Some (sr_Body r); Marshal_hecEvent e := Some (he_Event e);
     Unmarshal_hecResponse body := if bool_decide (body = str "0") then Some (Some 0) else None |}.
Definition sample_settings : Settings :=
  {| endpoint := str "https://splunk.example:8088/services/collector/event"; token := str "t"; index := str "main"; flushInterval := 1 |}.
Definition accepting (_ : nat) : Choice :=
  {| ch_ctx := None; ch_answer := Some {| an_Status := 200; an_Body := str "0"; an_readErr := false; an_closeErr := false |}; ch_failed := false |}.
Definition sample_call : HProg (option hecError) :=
  Handle sample_settings {| h_local := tt; h_operations := [] |} {| sr_Time := Some (1700000000, 5); sr_Body := str "{}" |} (0, 0).
Definition after_handle : Core * History :=
  match run accepting 0 sample_call (core start) (history start) with Some (_, c, g) => (c, g) | None => (core start, history start) end.
Definition after_flush : Core * History :=
  match run accepting 0 (flush sample_settings) after_handle.1 after_handle.2 with
  | Some (_, c, g) => (c, g) | None => after_handle end.

Lemma after_flush_reachable :
  reachable (L := unit) sample_settings {| core := after_flush.1; calls := ∅; history := after_flush.2 |}.
Proof.
  eapply (run_reachable sample_settings accepting (flush sample_settings) after_handle.1 after_handle.2); [constructor|vm_compute; reflexivity|].
  eapply (run_reachable sample_settings accepting sample_call (core start) (history start)); [constructor|vm_compute; reflexivity|].
  apply rtc_refl.
Qed.

Lemma hec_conserves_witness :
  map rq_Body (acked after_flush.2) = [str "{}" ++ [x0a]] /\
  exists sent flying refused : _, refused >= 0 /\
    (sent ++ flying ++ pending after_flush.1) `sublist_of` accepted after_flush.2.
Proof.
  split; [vm_compute; reflexivity|].
  destruct (hec_conserves (L := unit) sample_settings _ after_flush_reachable) as (sent & flying & refused & _ & Hsub & _ & Hr & _).
  exists sent, flying, refused. split; [lia|exact Hsub].
Defined.

Lemma hec_requests_bounded_witness :
  exists r, r ∈ attempts after_flush.2 /\ rq_Authorization r = str "Splunk t".
Proof.
  assert (Hr : hec_request sample_settings [str "{}"] ∈ attempts after_flush.2) by (vm_compute; left).
  exists (hec_request sample_settings [str "{}"]). split; [exact Hr|].
  destruct (hec_requests_bounded (L := unit) sample_settings _ _ after_flush_reachable Hr) as (_ & Ha & _). exact Ha.
Defined.

Lemma flush_prefix_witness :
  length (pending after_handle.1) = 1%nat /\
  flushed (pending after_handle.1) (acked after_handle.2) (run accepting 0 (flush sample_settings) after_handle.1 after_handle.2).
Proof.
  split; [vm_compute; reflexivity|].
  apply (flush_prefix sample_settings accepting); vm_compute; reflexivity.
Defined.
