(* ===== verification/Config.v ===== *)
(** * Configuration (src/internal/config/config.go, kafka.go)

    The gateway is configured by environment variables.  [LoadConfig] reads and
    validates them and applies the defaults, or the process exits; [server.New]
    and the tests apply the defaults to a configuration of their own.  Proved:
    defaults are applied once and for all, a loaded configuration is valid and
    stays so, the limiter and the log handler take it as it stands.

    The environment is a function; [url.Parse], [time.ParseDuration] and the
    LDAP library's names are interfaces. *)

From S2P Require Import Prelude GoStrings NetIP Credentials Limiter HandlerBase XmlDecode AdminWeb SplunkHec.

#[local] Open Scope Z_scope.

(** ** Interfaces *)

(** [time.ParseDuration], in nanoseconds. *)
Class Durations := { ParseDuration : gostring -> option Z }.

(** The LDAP library's distinguished names: a list of relative names, each a
    list of attributes; [None] is an error or a nil name. *)
Record DNAttribute := { dn_Type : gostring; dn_Value : gostring }.
Abbreviation RDN := (list DNAttribute).
Class DistinguishedNames := { ParseDN : gostring -> option (list RDN); DN_EqualFold : list RDN -> list RDN -> bool }.

(** ** The settings *)

Definition second : Z := 10 ^ 9.
Definition minute : Z := 60 * second.

Record Config := {
  c_ListenAddr : gostring; c_LDAPURL : gostring; c_LDAPDomain : gostring; c_BaseDN : gostring;
  c_LDAPGroupBaseDN : gostring; c_GroupTTL : Z; c_GroupCacheMaxEntries : Z; c_LDAPOperationTimeout : Z;
  c_AuthMaxConcurrent : Z; c_AuthRatePerSecond : Z; c_AuthRateBurst : Z; c_AuthReservedConcurrent : Z;
  c_AuthReservedRatePerSecond : Z; c_AuthReservedBurst : Z; c_AuthPerIPMaxConcurrent : Z;
  c_AuthPerIPRatePerSecond : Z; c_AuthPerIPBurst : Z; c_AuthPerPrincipalMaxConcurrent : Z;
  c_AuthPerPrincipalRatePerSecond : Z; c_AuthPerPrincipalBurst : Z; c_AuthIngressPerIPRatePerSecond : Z;
  c_AuthIngressPerIPBurst : Z; c_AuthTrustedCredentialTTL : Z; c_TrustedProxyCIDRs : list gostring;
  c_authReservedLimitsConfigured : bool; c_UpstreamEndpoint : gostring; c_UpstreamRegion : gostring;
  c_UpstreamAccessKey : gostring; c_UpstreamSecretKey : gostring; c_UpstreamForcePathStyle : bool;
  c_UpstreamSkipCertificateValidation : bool; c_CookieSecret : gostring; c_AdminPublicOrigin : gostring;
  c_SigV4MaxSkew : Z; c_RequiredUploadMetadataKeys : list gostring; c_KafkaBrokers : list gostring;
  c_EnableKafkaBucketTopic : bool; c_KafkaGlobalTopic : gostring; c_KafkaNotificationTimeout : Z;
  c_KafkaPopTimeout : Z; c_KafkaPopIdleTimeout : Z; c_KafkaPopMaxConsumers : Z; c_SplunkHECEndpoint : gostring;
  c_SplunkHECToken : gostring; c_SplunkHECIndex : gostring; c_SplunkHECFlushInterval : Z; c_S3AuditHashKey : gostring;
  c_ReadHeaderTimeout : Z; c_ReadTimeout : Z; c_WriteTimeout : Z; c_TransferIdleTimeout : Z;
  c_MaxConcurrentRequests : Z; c_IdleTimeout : Z; c_ShutdownTimeout : Z; c_MaxHeaderBytes : Z;
  c_AdminLoginReadTimeout : Z; c_ReadinessCheckTimeout : Z; c_ReadinessCacheTTL : Z;
  c_ReadinessAllowedCIDRs : list gostring; c_S3GatewayPrivateX25519Key : option PrivateKey; c_AcmeCaDir : gostring;
  c_AcmeDomains : gostring; c_AcmeServer : gostring; c_AcmeDataDir : gostring
}.
(** [Config{}]. *)
Definition zero_config : Config :=
  {| c_ListenAddr := []; c_LDAPURL := []; c_LDAPDomain := []; c_BaseDN := []; c_LDAPGroupBaseDN := [];
     c_GroupTTL := 0; c_GroupCacheMaxEntries := 0; c_LDAPOperationTimeout := 0; c_AuthMaxConcurrent := 0;
     c_AuthRatePerSecond := 0; c_AuthRateBurst := 0; c_AuthReservedConcurrent := 0; c_AuthReservedRatePerSecond := 0;
     c_AuthReservedBurst := 0; c_AuthPerIPMaxConcurrent := 0; c_AuthPerIPRatePerSecond := 0; c_AuthPerIPBurst := 0;
     c_AuthPerPrincipalMaxConcurrent := 0; c_AuthPerPrincipalRatePerSecond := 0; c_AuthPerPrincipalBurst := 0;
     c_AuthIngressPerIPRatePerSecond := 0; c_AuthIngressPerIPBurst := 0; c_AuthTrustedCredentialTTL := 0;
     c_TrustedProxyCIDRs := []; c_authReservedLimitsConfigured := false; c_UpstreamEndpoint := [];
     c_UpstreamRegion := []; c_UpstreamAccessKey := []; c_UpstreamSecretKey := []; c_UpstreamForcePathStyle := false;
     c_UpstreamSkipCertificateValidation := false; c_CookieSecret := []; c_AdminPublicOrigin := [];
     c_SigV4MaxSkew := 0; c_RequiredUploadMetadataKeys := []; c_KafkaBrokers := [];
     c_EnableKafkaBucketTopic := false; c_KafkaGlobalTopic := []; c_KafkaNotificationTimeout := 0;
     c_KafkaPopTimeout := 0; c_KafkaPopIdleTimeout := 0; c_KafkaPopMaxConsumers := 0; c_SplunkHECEndpoint := [];
     c_SplunkHECToken := []; c_SplunkHECIndex := []; c_SplunkHECFlushInterval := 0; c_S3AuditHashKey := [];
     c_ReadHeaderTimeout := 0; c_ReadTimeout := 0; c_WriteTimeout := 0; c_TransferIdleTimeout := 0;
     c_MaxConcurrentRequests := 0; c_IdleTimeout := 0; c_ShutdownTimeout := 0; c_MaxHeaderBytes := 0;
     c_AdminLoginReadTimeout := 0; c_ReadinessCheckTimeout := 0; c_ReadinessCacheTTL := 0;
     c_ReadinessAllowedCIDRs := []; c_S3GatewayPrivateX25519Key := None; c_AcmeCaDir := []; c_AcmeDomains := [];
     c_AcmeServer := []; c_AcmeDataDir := [] |}.

(** ** Defaults *)

Definition default_string (v d : gostring) : gostring := if bool_decide (v = []) then d else v.
Definition default_int (v d : Z) : Z := if v =? 0 then d else v.
Definition default_list (v d : list gostring) : list gostring := if bool_decide (v = []) then d else v.

Definition defaultReservedLimit (total configuredDefault : Z) : Z :=
  if total <=? 1 then 0
  else
    let reserved := Z.quot total 4 in
    let reserved := if reserved =? 0 then 1 else reserved in
    if configuredDefault <? reserved then configuredDefault else reserved.

Definition defaultReadinessAllowedCIDRs : list gostring := [str "127.0.0.0/8"; str "::1/128"].

Definition defaultSigV4MaxSkew : Z := 15 * minute.
Definition defaultReadTimeout : Z := 0 * second.
Definition defaultWriteTimeout : Z := 0 * second.
Definition defaultTransferIdleTimeout : Z := 60 * second.
Definition defaultMaxConcurrentRequests : Z := 32.
Definition defaultShutdownTimeout : Z := 20 * second.
Definition defaultKafkaNotificationTimeout : Z := 5 * second.
Definition defaultKafkaPopTimeout : Z := 30 * second.
Definition defaultKafkaPopIdleTimeout : Z := 30 * second.
Definition defaultKafkaPopMaxConsumers : Z := 1000.
Definition defaultSplunkHECFlushInterval : Z := 30 * second.
Definition defaultLDAPOperationTimeout : Z := 10 * second.
Definition defaultAuthMaxConcurrent : Z := 32.
Definition defaultAuthRatePerSecond : Z := 20.
Definition defaultAuthRateBurst : Z := 40.
Definition defaultAuthReservedConcurrent : Z := 8.
Definition defaultAuthReservedRatePerSecond : Z := 5.
Definition defaultAuthReservedBurst : Z := 10.
Definition defaultAuthPerIPMaxConcurrent : Z := 4.
Definition defaultAuthPerIPRatePerSecond : Z := 5.
Definition defaultAuthPerIPBurst : Z := 10.
Definition defaultAuthPerPrincipalMaxConcurrent : Z := 2.
Definition defaultAuthPerPrincipalRatePerSecond : Z := 2.
Definition defaultAuthPerPrincipalBurst : Z := 4.
Definition defaultAuthIngressPerIPRatePerSecond : Z := 5.
Definition defaultAuthIngressPerIPBurst : Z := 40.
Definition defaultAuthTrustedCredentialTTL : Z := 15 * minute.
Definition defaultAdminLoginReadTimeout : Z := 10 * second.
Definition defaultReadinessCheckTimeout : Z := 2 * second.
Definition defaultReadinessCacheTTL : Z := 5 * second.
Definition DefaultGroupCacheMaxEntries : Z := 10000.
Definition DefaultReadHeaderTimeout : Z := 10 * second.
Definition DefaultIdleTimeout : Z := 120 * second.
Definition DefaultMaxHeaderBytes : Z := Z.shiftl 1 20.

Definition ApplyDefaults (cfg : Config) : Config :=
  let authMaxConcurrent := default_int (c_AuthMaxConcurrent cfg) defaultAuthMaxConcurrent in
  let authRatePerSecond := default_int (c_AuthRatePerSecond cfg) defaultAuthRatePerSecond in
  let authRateBurst := default_int (c_AuthRateBurst cfg) defaultAuthRateBurst in
  let reserved (value total configuredDefault : Z) :=
    if c_authReservedLimitsConfigured cfg then value
    else default_int value (defaultReservedLimit total configuredDefault) in
  {| c_ListenAddr := default_string (c_ListenAddr cfg) (str ":8080"); c_LDAPURL := c_LDAPURL cfg;
     c_LDAPDomain := c_LDAPDomain cfg; c_BaseDN := c_BaseDN cfg; c_LDAPGroupBaseDN := c_LDAPGroupBaseDN cfg;
     c_GroupTTL := default_int (c_GroupTTL cfg) (2 * minute);
     c_GroupCacheMaxEntries := default_int (c_GroupCacheMaxEntries cfg) DefaultGroupCacheMaxEntries;
     c_LDAPOperationTimeout := default_int (c_LDAPOperationTimeout cfg) defaultLDAPOperationTimeout;
     c_AuthMaxConcurrent := authMaxConcurrent;
     c_AuthRatePerSecond := authRatePerSecond;
     c_AuthRateBurst := authRateBurst;
     c_AuthReservedConcurrent := reserved (c_AuthReservedConcurrent cfg) authMaxConcurrent defaultAuthReservedConcurrent;
     c_AuthReservedRatePerSecond := reserved (c_AuthReservedRatePerSecond cfg) authRatePerSecond defaultAuthReservedRatePerSecond;
     c_AuthReservedBurst := reserved (c_AuthReservedBurst cfg) authRateBurst defaultAuthReservedBurst;
     c_AuthPerIPMaxConcurrent := default_int (c_AuthPerIPMaxConcurrent cfg) defaultAuthPerIPMaxConcurrent;
     c_AuthPerIPRatePerSecond := default_int (c_AuthPerIPRatePerSecond cfg) defaultAuthPerIPRatePerSecond;
     c_AuthPerIPBurst := default_int (c_AuthPerIPBurst cfg) defaultAuthPerIPBurst;
     c_AuthPerPrincipalMaxConcurrent := default_int (c_AuthPerPrincipalMaxConcurrent cfg) defaultAuthPerPrincipalMaxConcurrent;
     c_AuthPerPrincipalRatePerSecond := default_int (c_AuthPerPrincipalRatePerSecond cfg) defaultAuthPerPrincipalRatePerSecond;
     c_AuthPerPrincipalBurst := default_int (c_AuthPerPrincipalBurst cfg) defaultAuthPerPrincipalBurst;
     c_AuthIngressPerIPRatePerSecond := default_int (c_AuthIngressPerIPRatePerSecond cfg) defaultAuthIngressPerIPRatePerSecond;
     c_AuthIngressPerIPBurst := default_int (c_AuthIngressPerIPBurst cfg) defaultAuthIngressPerIPBurst;
     c_AuthTrustedCredentialTTL := default_int (c_AuthTrustedCredentialTTL cfg) defaultAuthTrustedCredentialTTL;
     c_TrustedProxyCIDRs := c_TrustedProxyCIDRs cfg; c_authReservedLimitsConfigured := true;
     c_UpstreamEndpoint := c_UpstreamEndpoint cfg;
     c_UpstreamRegion := default_string (c_UpstreamRegion cfg) (str "us-east-1");
     c_UpstreamAccessKey := c_UpstreamAccessKey cfg; c_UpstreamSecretKey := c_UpstreamSecretKey cfg;
     c_UpstreamForcePathStyle := c_UpstreamForcePathStyle cfg;
     c_UpstreamSkipCertificateValidation := c_UpstreamSkipCertificateValidation cfg;
     c_CookieSecret := c_CookieSecret cfg; c_AdminPublicOrigin := c_AdminPublicOrigin cfg;
     c_SigV4MaxSkew := default_int (c_SigV4MaxSkew cfg) defaultSigV4MaxSkew;
     c_RequiredUploadMetadataKeys := c_RequiredUploadMetadataKeys cfg; c_KafkaBrokers := c_KafkaBrokers cfg;
     c_EnableKafkaBucketTopic := c_EnableKafkaBucketTopic cfg; c_KafkaGlobalTopic := c_KafkaGlobalTopic cfg;
     c_KafkaNotificationTimeout := default_int (c_KafkaNotificationTimeout cfg) defaultKafkaNotificationTimeout;
     c_KafkaPopTimeout := default_int (c_KafkaPopTimeout cfg) defaultKafkaPopTimeout;
     c_KafkaPopIdleTimeout := default_int (c_KafkaPopIdleTimeout cfg) defaultKafkaPopIdleTimeout;
     c_KafkaPopMaxConsumers := default_int (c_KafkaPopMaxConsumers cfg) defaultKafkaPopMaxConsumers;
     c_SplunkHECEndpoint := c_SplunkHECEndpoint cfg; c_SplunkHECToken := c_SplunkHECToken cfg;
     c_SplunkHECIndex := c_SplunkHECIndex cfg;
     c_SplunkHECFlushInterval := default_int (c_SplunkHECFlushInterval cfg) defaultSplunkHECFlushInterval;
     c_S3AuditHashKey := c_S3AuditHashKey cfg;
     c_ReadHeaderTimeout := default_int (c_ReadHeaderTimeout cfg) DefaultReadHeaderTimeout;
     c_ReadTimeout := c_ReadTimeout cfg; c_WriteTimeout := c_WriteTimeout cfg;
     c_TransferIdleTimeout := default_int (c_TransferIdleTimeout cfg) defaultTransferIdleTimeout;
     c_MaxConcurrentRequests := default_int (c_MaxConcurrentRequests cfg) defaultMaxConcurrentRequests;
     c_IdleTimeout := default_int (c_IdleTimeout cfg) DefaultIdleTimeout;
     c_ShutdownTimeout := default_int (c_ShutdownTimeout cfg) defaultShutdownTimeout;
     c_MaxHeaderBytes := default_int (c_MaxHeaderBytes cfg) DefaultMaxHeaderBytes;
     c_AdminLoginReadTimeout := default_int (c_AdminLoginReadTimeout cfg) defaultAdminLoginReadTimeout;
     c_ReadinessCheckTimeout := default_int (c_ReadinessCheckTimeout cfg) defaultReadinessCheckTimeout;
     c_ReadinessCacheTTL := default_int (c_ReadinessCacheTTL cfg) defaultReadinessCacheTTL;
     c_ReadinessAllowedCIDRs := default_list (c_ReadinessAllowedCIDRs cfg) defaultReadinessAllowedCIDRs;
     c_S3GatewayPrivateX25519Key := c_S3GatewayPrivateX25519Key cfg; c_AcmeCaDir := c_AcmeCaDir cfg;
     c_AcmeDomains := c_AcmeDomains cfg; c_AcmeServer := c_AcmeServer cfg; c_AcmeDataDir := c_AcmeDataDir cfg |}.

(** ** Validation *)

Definition blank (v : gostring) : bool := bool_decide (TrimSpace v = []).

(** [kafka.go] *)
Definition ValidateKafkaGlobalTopic (bucketTopics : bool) (globalTopic : gostring) : bool :=
  let globalTopic := TrimSpace globalTopic in
  negb (bucketTopics && bool_decide (globalTopic <> []) && negb (HasPrefix globalTopic (str "_"))).

Section Config.
Context {U : UnicodeCase} {P : URLParser} {R : RequestURIs} {D : Durations} {N : DistinguishedNames}.

Definition ValidateUpstreamEndpoint (endpoint : gostring) : result gostring unit :=
  match url_Parse endpoint with
  | None => Err (str "S3_ENDPOINT must be an absolute HTTPS URL with a valid host")
  | Some u =>
    require! bool_decide (u_Scheme u = str "https") && bool_decide (Hostname u <> []) && bool_decide (u_Opaque u = [])
    else str "S3_ENDPOINT must be an absolute HTTPS URL with a valid host" in
    require! negb (u_User u) else str "S3_ENDPOINT must not contain user information" in
    require! negb ((bool_decide (":"%byte ∈ Hostname u) || HasPrefix (u_Host u) (str "[")) &&
                   (bool_decide (ParseAddr (Hostname u) = None) || negb (HasPrefix (u_Host u) (str "["))))
    else str "S3_ENDPOINT must contain a valid host" in
    if bool_decide (Port u <> []) then
      require! match ParseUint (Port u) 10 with Some value => (value <? 2 ^ 16) && negb (value =? 0) | None => false end
      else str "S3_ENDPOINT port must be between 1 and 65535" in Ok tt
    else
      require! negb (HasSuffix (u_Host u) (str ":")) else str "S3_ENDPOINT must not contain an empty port" in Ok tt
  end.

Definition LDAPGroupContainerDN (cfg : Config) : result gostring (list RDN) :=
  let raw := TrimSpace (c_LDAPGroupBaseDN cfg) in
  require! bool_decide (raw <> []) else str "LDAP_GROUP_BASE_DN is required" in
  match ParseDN raw with
  | None | Some [] => Err (str "LDAP_GROUP_BASE_DN must be a valid non-empty DN")
  | Some dn =>
    require! forallb (forallb (fun attribute => negb (blank (dn_Value attribute)))) dn
    else str "LDAP_GROUP_BASE_DN must not contain empty attribute values" in Ok dn
  end.

Definition valid_prefixes (raw : list gostring) : bool := forallb (fun p => bool_decide (ParsePrefix (TrimSpace p) <> None)) raw.
Definition positive (v : Z) : bool := 0 <? v.
(** A secret that is set has at least 32 octets. *)
Definition long_enough (secret : gostring) : bool := negb (bool_decide (secret <> []) && (Z.of_nat (length secret) <? 32)).

(** The limits of authentication. *)
Definition validate_auth (cfg : Config) : result gostring unit :=
  require! positive (c_AuthMaxConcurrent cfg) else str "AUTH_MAX_CONCURRENT must be > 0" in
  require! positive (c_AuthRatePerSecond cfg) else str "AUTH_RATE_PER_SECOND must be > 0" in
  require! positive (c_AuthRateBurst cfg) else str "AUTH_RATE_BURST must be > 0" in
  let reserveDisabled :=
    (c_AuthReservedConcurrent cfg =? 0) && (c_AuthReservedRatePerSecond cfg =? 0) && (c_AuthReservedBurst cfg =? 0) in
  require! reserveDisabled || positive (c_AuthReservedConcurrent cfg) && (c_AuthReservedConcurrent cfg <? c_AuthMaxConcurrent cfg)
  else str "AUTH_RESERVED_MAX_CONCURRENT must be > 0 and < AUTH_MAX_CONCURRENT" in
  require! reserveDisabled || positive (c_AuthReservedRatePerSecond cfg) && (c_AuthReservedRatePerSecond cfg <? c_AuthRatePerSecond cfg)
  else str "AUTH_RESERVED_RATE_PER_SECOND must be > 0 and < AUTH_RATE_PER_SECOND" in
  require! reserveDisabled || positive (c_AuthReservedBurst cfg) && (c_AuthReservedBurst cfg <? c_AuthRateBurst cfg)
  else str "AUTH_RESERVED_BURST must be > 0 and < AUTH_RATE_BURST" in
  require! positive (c_AuthPerIPMaxConcurrent cfg) else str "AUTH_PER_IP_MAX_CONCURRENT must be > 0" in
  require! positive (c_AuthPerIPRatePerSecond cfg) else str "AUTH_PER_IP_RATE_PER_SECOND must be > 0" in
  require! positive (c_AuthPerIPBurst cfg) else str "AUTH_PER_IP_BURST must be > 0" in
  require! positive (c_AuthPerPrincipalMaxConcurrent cfg) else str "AUTH_PER_PRINCIPAL_MAX_CONCURRENT must be > 0" in
  require! positive (c_AuthPerPrincipalRatePerSecond cfg) else str "AUTH_PER_PRINCIPAL_RATE_PER_SECOND must be > 0" in
  require! positive (c_AuthPerPrincipalBurst cfg) else str "AUTH_PER_PRINCIPAL_BURST must be > 0" in
  require! positive (c_AuthIngressPerIPRatePerSecond cfg) else str "AUTH_INGRESS_PER_IP_RATE_PER_SECOND must be > 0" in
  require! positive (c_AuthIngressPerIPBurst cfg) else str "AUTH_INGRESS_PER_IP_BURST must be > 0" in
  require! positive (c_AuthTrustedCredentialTTL cfg) else str "AUTH_TRUSTED_CREDENTIAL_TTL must be > 0" in
  Ok tt.

(** Proxies, timeouts and the readiness probe. *)
Definition validate_http (cfg : Config) : result gostring unit :=
  require! valid_prefixes (c_TrustedProxyCIDRs cfg) else str "TRUSTED_PROXY_CIDRS must contain only valid CIDRs" in
  require! positive (c_SigV4MaxSkew cfg) else str "SIGV4_MAX_SKEW must be > 0" in
  require! positive (c_ReadHeaderTimeout cfg) else str "HTTP_READ_HEADER_TIMEOUT must be > 0" in
  require! 0 <=? c_ReadTimeout cfg else str "HTTP_READ_TIMEOUT must be >= 0" in
  require! 0 <=? c_WriteTimeout cfg else str "HTTP_WRITE_TIMEOUT must be >= 0" in
  require! positive (c_TransferIdleTimeout cfg) else str "HTTP_TRANSFER_IDLE_TIMEOUT must be > 0" in
  require! positive (c_MaxConcurrentRequests cfg) else str "HTTP_MAX_CONCURRENT_REQUESTS must be > 0" in
  require! positive (c_IdleTimeout cfg) else str "HTTP_IDLE_TIMEOUT must be > 0" in
  require! positive (c_ShutdownTimeout cfg) else str "HTTP_SHUTDOWN_TIMEOUT must be > 0" in
  require! positive (c_MaxHeaderBytes cfg) else str "HTTP_MAX_HEADER_BYTES must be > 0" in
  require! positive (c_AdminLoginReadTimeout cfg) else str "ADMIN_LOGIN_READ_TIMEOUT must be > 0" in
  require! positive (c_ReadinessCheckTimeout cfg) else str "READINESS_CHECK_TIMEOUT must be > 0" in
  require! positive (c_ReadinessCacheTTL cfg) else str "READINESS_CACHE_TTL must be > 0" in
  require! bool_decide (c_ReadinessAllowedCIDRs cfg <> []) else str "READINESS_ALLOWED_CIDRS must contain at least one CIDR" in
  require! valid_prefixes (c_ReadinessAllowedCIDRs cfg) else str "READINESS_ALLOWED_CIDRS must contain only valid CIDRs" in
  require! long_enough (c_CookieSecret cfg) else str "COOKIE_SECRET must be at least 32 characters when set" in
  require! bool_decide (NormalizeAdminPublicOrigin (c_AdminPublicOrigin cfg) <> None)
  else str "ADMIN_PUBLIC_ORIGIN must be an absolute HTTP(S) origin with a valid host and no credentials, path, query, or fragment" in
  Ok tt.

Definition validate_kafka (cfg : Config) : result gostring unit :=
  let none := bool_decide (c_KafkaBrokers cfg = []) in
  require! negb (none && c_EnableKafkaBucketTopic cfg) else str "ENABLE_KAFKA_BUCKET_TOPIC requires KAFKA_BROKERS" in
  require! negb (none && negb (blank (c_KafkaGlobalTopic cfg))) else str "KAFKA_GLOBAL_TOPIC requires KAFKA_BROKERS" in
  if none then Ok tt
  else
    require! ValidateKafkaGlobalTopic (c_EnableKafkaBucketTopic cfg) (c_KafkaGlobalTopic cfg)
    else str "KAFKA_GLOBAL_TOPIC must start with '_' when ENABLE_KAFKA_BUCKET_TOPIC is enabled to prevent bucket topic collisions" in
    require! c_EnableKafkaBucketTopic cfg || negb (blank (c_KafkaGlobalTopic cfg))
    else str "KAFKA_BROKERS requires ENABLE_KAFKA_BUCKET_TOPIC or KAFKA_GLOBAL_TOPIC" in
    require! positive (c_KafkaNotificationTimeout cfg) else str "KAFKA_NOTIFICATION_TIMEOUT must be > 0" in
    require! forallb (fun broker => negb (blank broker)) (c_KafkaBrokers cfg) else str "KAFKA_BROKERS must not contain empty addresses" in
    require! positive (c_KafkaPopTimeout cfg) else str "KAFKA_POP_TIMEOUT must be > 0" in
    require! positive (c_KafkaPopMaxConsumers cfg) else str "KAFKA_POP_MAX_CONSUMERS must be > 0" in
    require! positive (c_KafkaPopIdleTimeout cfg) else str "KAFKA_POP_IDLE_TIMEOUT must be > 0" in
    Ok tt.

Definition validate_splunk (cfg : Config) : result gostring unit :=
  require! positive (c_SplunkHECFlushInterval cfg) else str "SPLUNK_HEC_FLUSH_INTERVAL must be > 0" in
  require! long_enough (c_S3AuditHashKey cfg) else str "S3_AUDIT_HASH_KEY must be at least 32 characters when set" in
  if bool_decide (c_SplunkHECEndpoint cfg <> []) || bool_decide (c_SplunkHECToken cfg <> []) || bool_decide (c_SplunkHECIndex cfg <> []) then
    require! bool_decide (c_SplunkHECEndpoint cfg <> []) else str "SPLUNK_HEC_ENDPOINT is required when Splunk HEC logging is configured" in
    require! bool_decide (c_SplunkHECToken cfg <> []) else str "SPLUNK_HEC_TOKEN is required when Splunk HEC logging is configured" in
    require! bool_decide (c_SplunkHECIndex cfg <> []) else str "SPLUNK_HEC_INDEX is required when Splunk HEC logging is configured" in
    match ParseRequestURI (c_SplunkHECEndpoint cfg) with
    | None => Err (str "SPLUNK_HEC_ENDPOINT must be an absolute URL")
    | Some endpoint =>
      require! bool_decide (u_Host endpoint <> []) else str "SPLUNK_HEC_ENDPOINT must be an absolute URL" in
      require! EqualFold (u_Scheme endpoint) (str "http") || EqualFold (u_Scheme endpoint) (str "https")
      else str "SPLUNK_HEC_ENDPOINT must use http or https" in
      require! negb (u_User endpoint) else str "SPLUNK_HEC_ENDPOINT must not contain user information" in
      Ok tt
    end
  else Ok tt.

(** [Validate], by groups of fields in the order of the code. *)
Definition Validate (cfg : Config) : result gostring unit :=
  require! bool_decide (is_Some (c_S3GatewayPrivateX25519Key cfg)) else str "S3GATEWAY_PRIVATE_X25519_KEY is required" in
  let! _ := ValidateUpstreamEndpoint (c_UpstreamEndpoint cfg) in
  let! _ := LDAPGroupContainerDN cfg in
  require! positive (c_GroupCacheMaxEntries cfg) else str "LDAP_GROUP_CACHE_MAX_ENTRIES must be > 0" in
  require! positive (c_LDAPOperationTimeout cfg) else str "LDAP_OPERATION_TIMEOUT must be > 0" in
  let! _ := validate_auth cfg in
  let! _ := validate_http cfg in
  let! _ := validate_kafka cfg in
  validate_splunk cfg.

(** ** The environment *)

Inductive ExitReason :=
| MissingVariable (key : string) | InvalidKey (key : string) | InvalidDuration (key : string) | InvalidInt (key : string)
| InvalidBool (key : string) | ValidationFailed (message : gostring).

Section Environment.
Context (getenv : gostring -> gostring) (LetsEncryptProductionCA : gostring).

Definition variable (key : string) : gostring := TrimSpace (getenv (str key)).

Definition env (key : string) (def : gostring) : gostring := default_string (variable key) def.

Definition envRequired (key : string) : result ExitReason gostring :=
  if bool_decide (variable key = []) then Err (MissingVariable key) else Ok (variable key).

Definition envRequiredX25519PrivateKey (key : string) : result ExitReason PrivateKey :=
  let! v := envRequired key in
  match X25519PrivateKeyFromHex v with Ok k => Ok k | Err _ => Err (InvalidKey key) end.

Definition envDuration (key : string) (def : Z) : result ExitReason Z :=
  if bool_decide (variable key = []) then Ok def
  else match ParseDuration (variable key) with Some d => Ok d | None => Err (InvalidDuration key) end.

Definition envInt (key : string) (def : Z) : result ExitReason Z :=
  if bool_decide (variable key = []) then Ok def
  else match ParseInt (variable key) 10 64 with Some n => Ok n | None => Err (InvalidInt key) end.

Definition envBool (key : string) (def : bool) : result ExitReason bool :=
  if bool_decide (variable key = []) then Ok def
  else match ParseBool (variable key) with Some b => Ok b | None => Err (InvalidBool key) end.

(** The values of a list, in order, without blanks and repetitions. *)
Definition add_value (normalize : gostring -> gostring) (out : list gostring) (part : gostring) : list gostring :=
  let value := normalize part in
  if bool_decide (value = []) || bool_decide (value ∈ out) then out else out ++ [value].

Definition envCSV (key : string) : list gostring :=
  if bool_decide (variable key = []) then [] else fold_left (add_value TrimSpace) (Split (variable key) ","%byte) [].
Definition envCSVMetadataKeys (key : string) : list gostring :=
  if bool_decide (variable key = []) then []
  else fold_left (add_value NormalizeRequiredMetadataKey) (Split (variable key) ","%byte) [].

(** The configuration as it is read. *)
Definition load : result ExitReason Config :=
  let! authMaxConcurrent := envInt "AUTH_MAX_CONCURRENT" defaultAuthMaxConcurrent in
  let! authRatePerSecond := envInt "AUTH_RATE_PER_SECOND" defaultAuthRatePerSecond in
  let! authRateBurst := envInt "AUTH_RATE_BURST" defaultAuthRateBurst in
  let! v_LDAPURL := envRequired "LDAP_URL" in
  let! v_BaseDN := envRequired "LDAP_BASE_DN" in
  let! v_LDAPGroupBaseDN := envRequired "LDAP_GROUP_BASE_DN" in
  let! v_GroupTTL := envDuration "LDAP_GROUP_TTL" (2 * minute) in
  let! v_GroupCacheMaxEntries := envInt "LDAP_GROUP_CACHE_MAX_ENTRIES" DefaultGroupCacheMaxEntries in
  let! v_LDAPOperationTimeout := envDuration "LDAP_OPERATION_TIMEOUT" defaultLDAPOperationTimeout in
  let! v_AuthReservedConcurrent := envInt "AUTH_RESERVED_MAX_CONCURRENT" (defaultReservedLimit authMaxConcurrent defaultAuthReservedConcurrent) in
  let! v_AuthReservedRatePerSecond := envInt "AUTH_RESERVED_RATE_PER_SECOND" (defaultReservedLimit authRatePerSecond defaultAuthReservedRatePerSecond) in
  let! v_AuthReservedBurst := envInt "AUTH_RESERVED_BURST" (defaultReservedLimit authRateBurst defaultAuthReservedBurst) in
  let! v_AuthPerIPMaxConcurrent := envInt "AUTH_PER_IP_MAX_CONCURRENT" defaultAuthPerIPMaxConcurrent in
  let! v_AuthPerIPRatePerSecond := envInt "AUTH_PER_IP_RATE_PER_SECOND" defaultAuthPerIPRatePerSecond in
  let! v_AuthPerIPBurst := envInt "AUTH_PER_IP_BURST" defaultAuthPerIPBurst in
  let! v_AuthPerPrincipalMaxConcurrent := envInt "AUTH_PER_PRINCIPAL_MAX_CONCURRENT" defaultAuthPerPrincipalMaxConcurrent in
  let! v_AuthPerPrincipalRatePerSecond := envInt "AUTH_PER_PRINCIPAL_RATE_PER_SECOND" defaultAuthPerPrincipalRatePerSecond in
  let! v_AuthPerPrincipalBurst := envInt "AUTH_PER_PRINCIPAL_BURST" defaultAuthPerPrincipalBurst in
  let! v_AuthIngressPerIPRatePerSecond := envInt "AUTH_INGRESS_PER_IP_RATE_PER_SECOND" defaultAuthIngressPerIPRatePerSecond in
  let! v_AuthIngressPerIPBurst := envInt "AUTH_INGRESS_PER_IP_BURST" defaultAuthIngressPerIPBurst in
  let! v_AuthTrustedCredentialTTL := envDuration "AUTH_TRUSTED_CREDENTIAL_TTL" defaultAuthTrustedCredentialTTL in
  let! v_UpstreamEndpoint := envRequired "S3_ENDPOINT" in
  let! v_UpstreamAccessKey := envRequired "S3_ACCESS_KEY" in
  let! v_UpstreamSecretKey := envRequired "S3_SECRET_KEY" in
  let! v_UpstreamSkipCertificateValidation := envBool "S3_UPSTREAM_TLS_SKIP_VERIFY" false in
  let! v_SigV4MaxSkew := envDuration "SIGV4_MAX_SKEW" defaultSigV4MaxSkew in
  let! v_EnableKafkaBucketTopic := envBool "ENABLE_KAFKA_BUCKET_TOPIC" false in
  let! v_KafkaNotificationTimeout := envDuration "KAFKA_NOTIFICATION_TIMEOUT" defaultKafkaNotificationTimeout in
  let! v_KafkaPopTimeout := envDuration "KAFKA_POP_TIMEOUT" defaultKafkaPopTimeout in
  let! v_KafkaPopIdleTimeout := envDuration "KAFKA_POP_IDLE_TIMEOUT" defaultKafkaPopIdleTimeout in
  let! v_KafkaPopMaxConsumers := envInt "KAFKA_POP_MAX_CONSUMERS" defaultKafkaPopMaxConsumers in
  let! v_SplunkHECFlushInterval := envDuration "SPLUNK_HEC_FLUSH_INTERVAL" defaultSplunkHECFlushInterval in
  let! v_ReadHeaderTimeout := envDuration "HTTP_READ_HEADER_TIMEOUT" DefaultReadHeaderTimeout in
  let! v_ReadTimeout := envDuration "HTTP_READ_TIMEOUT" defaultReadTimeout in
  let! v_WriteTimeout := envDuration "HTTP_WRITE_TIMEOUT" defaultWriteTimeout in
  let! v_TransferIdleTimeout := envDuration "HTTP_TRANSFER_IDLE_TIMEOUT" defaultTransferIdleTimeout in
  let! v_MaxConcurrentRequests := envInt "HTTP_MAX_CONCURRENT_REQUESTS" defaultMaxConcurrentRequests in
  let! v_IdleTimeout := envDuration "HTTP_IDLE_TIMEOUT" DefaultIdleTimeout in
  let! v_ShutdownTimeout := envDuration "HTTP_SHUTDOWN_TIMEOUT" defaultShutdownTimeout in
  let! v_MaxHeaderBytes := envInt "HTTP_MAX_HEADER_BYTES" DefaultMaxHeaderBytes in
  let! v_AdminLoginReadTimeout := envDuration "ADMIN_LOGIN_READ_TIMEOUT" defaultAdminLoginReadTimeout in
  let! v_ReadinessCheckTimeout := envDuration "READINESS_CHECK_TIMEOUT" defaultReadinessCheckTimeout in
  let! v_ReadinessCacheTTL := envDuration "READINESS_CACHE_TTL" defaultReadinessCacheTTL in
  let! v_S3GatewayPrivateX25519Key := envRequiredX25519PrivateKey "S3GATEWAY_PRIVATE_X25519_KEY" in
  Ok {| c_ListenAddr := env "LISTEN_ADDR" (str ":8080"); c_LDAPURL := v_LDAPURL;
     c_LDAPDomain := env "LDAP_DOMAIN" (str "example.com"); c_BaseDN := v_BaseDN;
     c_LDAPGroupBaseDN := v_LDAPGroupBaseDN; c_GroupTTL := v_GroupTTL;
     c_GroupCacheMaxEntries := v_GroupCacheMaxEntries; c_LDAPOperationTimeout := v_LDAPOperationTimeout;
     c_AuthMaxConcurrent := authMaxConcurrent; c_AuthRatePerSecond := authRatePerSecond;
     c_AuthRateBurst := authRateBurst; c_AuthReservedConcurrent := v_AuthReservedConcurrent;
     c_AuthReservedRatePerSecond := v_AuthReservedRatePerSecond; c_AuthReservedBurst := v_AuthReservedBurst;
     c_AuthPerIPMaxConcurrent := v_AuthPerIPMaxConcurrent; c_AuthPerIPRatePerSecond := v_AuthPerIPRatePerSecond;
     c_AuthPerIPBurst := v_AuthPerIPBurst; c_AuthPerPrincipalMaxConcurrent := v_AuthPerPrincipalMaxConcurrent;
     c_AuthPerPrincipalRatePerSecond := v_AuthPerPrincipalRatePerSecond;
     c_AuthPerPrincipalBurst := v_AuthPerPrincipalBurst;
     c_AuthIngressPerIPRatePerSecond := v_AuthIngressPerIPRatePerSecond;
     c_AuthIngressPerIPBurst := v_AuthIngressPerIPBurst; c_AuthTrustedCredentialTTL := v_AuthTrustedCredentialTTL;
     c_TrustedProxyCIDRs := envCSV "TRUSTED_PROXY_CIDRS"; c_authReservedLimitsConfigured := true;
     c_UpstreamEndpoint := v_UpstreamEndpoint; c_UpstreamRegion := env "S3_REGION" (str "us-east-1");
     c_UpstreamAccessKey := v_UpstreamAccessKey; c_UpstreamSecretKey := v_UpstreamSecretKey;
     c_UpstreamForcePathStyle := EqualFold (env "S3_FORCE_PATH_STYLE" (str "true")) (str "true");
     c_UpstreamSkipCertificateValidation := v_UpstreamSkipCertificateValidation;
     c_CookieSecret := env "COOKIE_SECRET" []; c_AdminPublicOrigin := env "ADMIN_PUBLIC_ORIGIN" [];
     c_SigV4MaxSkew := v_SigV4MaxSkew;
     c_RequiredUploadMetadataKeys := envCSVMetadataKeys "REQUIRED_UPLOAD_METADATA_KEYS";
     c_KafkaBrokers := envCSV "KAFKA_BROKERS"; c_EnableKafkaBucketTopic := v_EnableKafkaBucketTopic;
     c_KafkaGlobalTopic := env "KAFKA_GLOBAL_TOPIC" []; c_KafkaNotificationTimeout := v_KafkaNotificationTimeout;
     c_KafkaPopTimeout := v_KafkaPopTimeout; c_KafkaPopIdleTimeout := v_KafkaPopIdleTimeout;
     c_KafkaPopMaxConsumers := v_KafkaPopMaxConsumers; c_SplunkHECEndpoint := env "SPLUNK_HEC_ENDPOINT" [];
     c_SplunkHECToken := env "SPLUNK_HEC_TOKEN" []; c_SplunkHECIndex := env "SPLUNK_HEC_INDEX" [];
     c_SplunkHECFlushInterval := v_SplunkHECFlushInterval; c_S3AuditHashKey := env "S3_AUDIT_HASH_KEY" [];
     c_ReadHeaderTimeout := v_ReadHeaderTimeout; c_ReadTimeout := v_ReadTimeout; c_WriteTimeout := v_WriteTimeout;
     c_TransferIdleTimeout := v_TransferIdleTimeout; c_MaxConcurrentRequests := v_MaxConcurrentRequests;
     c_IdleTimeout := v_IdleTimeout; c_ShutdownTimeout := v_ShutdownTimeout; c_MaxHeaderBytes := v_MaxHeaderBytes;
     c_AdminLoginReadTimeout := v_AdminLoginReadTimeout; c_ReadinessCheckTimeout := v_ReadinessCheckTimeout;
     c_ReadinessCacheTTL := v_ReadinessCacheTTL; c_ReadinessAllowedCIDRs := default_list (envCSV "READINESS_ALLOWED_CIDRS") defaultReadinessAllowedCIDRs;
     c_S3GatewayPrivateX25519Key := Some v_S3GatewayPrivateX25519Key; c_AcmeCaDir := env "ACME_CA_DIR" [];
     c_AcmeDomains := env "ACME_DOMAINS" []; c_AcmeServer := env "ACME_SERVER" LetsEncryptProductionCA;
     c_AcmeDataDir := env "ACME_DATA_DIR" (str "./certs") |}.

Definition LoadConfig : result ExitReason Config :=
  let! cfg := load in
  match Validate cfg with
  | Err message => Err (ValidationFailed message)
  | Ok _ => Ok (ApplyDefaults cfg)
  end.

End Environment.

(** ** What the configuration is for *)

(** The limits of the limiter ([server.New]). *)
Definition auth_limits (cfg : Config) : Limits :=
  {| MaxConcurrent := c_AuthMaxConcurrent cfg; RatePerSecond := c_AuthRatePerSecond cfg; Burst := c_AuthRateBurst cfg;
     ReservedConcurrent := c_AuthReservedConcurrent cfg; ReservedRatePerSecond := c_AuthReservedRatePerSecond cfg;
     ReservedBurst := c_AuthReservedBurst cfg; PerClientMaxConcurrent := c_AuthPerIPMaxConcurrent cfg;
     PerClientRatePerSecond := c_AuthPerIPRatePerSecond cfg; PerClientBurst := c_AuthPerIPBurst cfg;
     PerPrincipalMaxConcurrent := c_AuthPerPrincipalMaxConcurrent cfg;
     PerPrincipalRatePerSecond := c_AuthPerPrincipalRatePerSecond cfg; PerPrincipalBurst := c_AuthPerPrincipalBurst cfg;
     IngressPerClientRatePerSecond := c_AuthIngressPerIPRatePerSecond cfg; IngressPerClientBurst := c_AuthIngressPerIPBurst cfg;
     MaxKeys := c_GroupCacheMaxEntries cfg; TrustedCredentialTTL := c_AuthTrustedCredentialTTL cfg |}.

(** [app/run.go]: the log handler, if one is configured. *)
Definition configureSplunkLogging (cfg : Config) : result hecError (option Settings) :=
  if bool_decide (c_SplunkHECEndpoint cfg = []) then Ok None
  else
    let! settings := NewHandler {| opt_Endpoint := c_SplunkHECEndpoint cfg; opt_Token := c_SplunkHECToken cfg;
                                   opt_Index := c_SplunkHECIndex cfg; opt_FlushInterval := c_SplunkHECFlushInterval cfg;
                                   opt_Local := true |} in
    Ok (Some settings).

(** ** Lemmas *)

Lemma default_int_idem v d : default_int (default_int v d) d = default_int v d.
Proof. unfold default_int. destruct (v =? 0) eqn:Hv; [by destruct (d =? 0)|by rewrite Hv]. Qed.
Lemma default_string_idem v d : default_string (default_string v d) d = default_string v d.
Proof. unfold default_string. destruct (bool_decide (v = [])) eqn:Hv; [by destruct (bool_decide (d = []))|by rewrite Hv]. Qed.
Lemma default_list_idem v d : default_list (default_list v d) d = default_list v d.
Proof. unfold default_list. destruct (bool_decide (v = [])) eqn:Hv; [by destruct (bool_decide (d = []))|by rewrite Hv]. Qed.

Lemma default_int_positive v d : positive v = true -> default_int v d = v.
Proof. unfold positive, default_int. intros H%Z.ltb_lt. by destruct (Z.eqb_spec v 0); [lia|]. Qed.
Lemma default_string_set v d : v <> [] -> default_string v d = v.
Proof. intros H. unfold default_string. by rewrite bool_decide_eq_false_2. Qed.
Lemma default_list_set v d : v <> [] -> default_list v d = v.
Proof. intros H. unfold default_list. by rewrite bool_decide_eq_false_2. Qed.

(** Defaults are applied once. *)
Lemma ApplyDefaults_idem cfg : ApplyDefaults (ApplyDefaults cfg) = ApplyDefaults cfg.
Proof.
  unfold ApplyDefaults. cbn -[default_int default_string default_list Z.mul str]. f_equal.
  all: first [apply default_int_idem | apply default_string_idem | apply default_list_idem].
Qed.

Lemma validate_auth_defaults cfg :
  c_authReservedLimitsConfigured cfg = true -> validate_auth cfg = Ok tt -> validate_auth (ApplyDefaults cfg) = Ok tt.
Proof.
  intros Hc H. pose proof H as H'. unfold validate_auth in H'. cbv zeta in H'. requires H'. rewrite <- H.
  unfold validate_auth, ApplyDefaults. cbn -[default_int str rguard]. rewrite Hc, !default_int_positive by done. done.
Qed.

Lemma validate_http_defaults cfg : validate_http cfg = Ok tt -> validate_http (ApplyDefaults cfg) = Ok tt.
Proof.
  intros H. pose proof H as H'. unfold validate_http in H'. requires H'. rewrite <- H.
  match goal with R : bool_decide (c_ReadinessAllowedCIDRs cfg <> []) = true |- _ => apply bool_decide_eq_true in R end.
  unfold validate_http, ApplyDefaults. cbn -[default_int default_list str rguard]. rewrite !default_int_positive, default_list_set by done. done.
Qed.

Lemma validate_kafka_defaults cfg : validate_kafka cfg = Ok tt -> validate_kafka (ApplyDefaults cfg) = Ok tt.
Proof.
  intros H. pose proof H as H'. unfold validate_kafka in H'. cbv zeta in H'. requires H'. rewrite <- H.
  unfold validate_kafka, ApplyDefaults. cbn -[default_int str rguard]. destruct (bool_decide (c_KafkaBrokers cfg = [])); [done|].
  requires H'. rewrite !default_int_positive by done. done.
Qed.

Lemma validate_splunk_defaults cfg : validate_splunk cfg = Ok tt -> validate_splunk (ApplyDefaults cfg) = Ok tt.
Proof.
  intros H. pose proof H as H'. unfold validate_splunk in H'. requires H'. rewrite <- H.
  unfold validate_splunk, ApplyDefaults. cbn -[default_int str rguard]. rewrite !default_int_positive by done. done.
Qed.

(** Validity, by its groups. *)
Lemma Validate_Ok cfg :
  Validate cfg = Ok tt <->
  is_Some (c_S3GatewayPrivateX25519Key cfg) /\ ValidateUpstreamEndpoint (c_UpstreamEndpoint cfg) = Ok tt /\
  (exists dn, LDAPGroupContainerDN cfg = Ok dn) /\ positive (c_GroupCacheMaxEntries cfg) = true /\
  positive (c_LDAPOperationTimeout cfg) = true /\ validate_auth cfg = Ok tt /\ validate_http cfg = Ok tt /\
  validate_kafka cfg = Ok tt /\ validate_splunk cfg = Ok tt.
Proof.
  unfold Validate. split.
  - intros H. apply require_Ok in H as [Hkey%bool_decide_eq_true H]. apply rbind_Ok in H as ([] & Hup & H).
    apply rbind_Ok in H as (dn & Hdn & H). apply require_Ok in H as [Hcache H]. apply require_Ok in H as [Hldap H].
    apply rbind_Ok in H as ([] & Hauth & H). apply rbind_Ok in H as ([] & Hhttp & H). apply rbind_Ok in H as ([] & Hkafka & H). eauto 20.
  - intros (Hkey & Hup & (dn & Hdn) & Hcache & Hldap & Hauth & Hhttp & Hkafka & Hsplunk).
    by rewrite bool_decide_eq_true_2, Hup, Hdn, Hcache, Hldap, Hauth, Hhttp, Hkafka by done.
Qed.

Lemma Validate_defaults cfg :
  c_authReservedLimitsConfigured cfg = true -> Validate cfg = Ok tt -> Validate (ApplyDefaults cfg) = Ok tt.
Proof.
  intros Hc. rewrite !Validate_Ok. intros (H & H1 & H2 & H3 & H4 & H5 & H6 & H7 & H8). split_and!.
  6: by apply validate_auth_defaults. 6: by apply validate_http_defaults. 6: by apply validate_kafka_defaults.
  6: by apply validate_splunk_defaults. 4, 5: cbn [ApplyDefaults c_GroupCacheMaxEntries c_LDAPOperationTimeout]; by rewrite default_int_positive.
  all: done.
Qed.

Lemma clampReserve_within v t : positive v && (v <? t) = true -> clampReserve v t = v /\ (v =? 0) = false /\ (1 <? t) = true.
Proof.
  unfold positive, clampReserve. intros H. b2p. destruct (Z.leb_spec v 0); [lia|]. destruct (Z.leb_spec t v); [lia|].
  split_and!; [done| |]; [apply Z.eqb_neq|apply Z.ltb_lt]; lia.
Qed.

Lemma atLeastOne_positive v : positive v = true -> atLeastOne v = v.
Proof. unfold positive. intros H. b2p. apply atLeastOne_id. lia. Qed.

(** A valid configuration's limits are the ones the limiter enforces. *)
Lemma limits_normal cfg : Validate cfg = Ok tt -> normalizeLimits (auth_limits cfg) = auth_limits cfg.
Proof.
  rewrite Validate_Ok. intros (_ & _ & _ & Hk & _ & H & _). unfold validate_auth in H. cbv zeta in H. requires H. clear H.
  unfold normalizeLimits, auth_limits. cbv zeta. cbn [MaxConcurrent RatePerSecond Burst ReservedConcurrent ReservedRatePerSecond
    ReservedBurst PerClientMaxConcurrent PerClientRatePerSecond PerClientBurst PerPrincipalMaxConcurrent
    PerPrincipalRatePerSecond PerPrincipalBurst IngressPerClientRatePerSecond IngressPerClientBurst MaxKeys TrustedCredentialTTL].
  rewrite !atLeastOne_positive by done.
  assert (Httl : (c_AuthTrustedCredentialTTL cfg <=? 0) = false) by (unfold positive in *; b2p; apply Z.leb_gt; lia). rewrite Httl.
  destruct ((c_AuthReservedConcurrent cfg =? 0) && (c_AuthReservedRatePerSecond cfg =? 0) && (c_AuthReservedBurst cfg =? 0)) eqn:Hd.
  - b2p. repeat match goal with H : ?x = 0 |- _ => rewrite H; clear H end.
    unfold clampReserve. cbn. by rewrite andb_false_r.
  - cbn [orb] in *. repeat match goal with H : positive ?v && (?v <? ?t) = true |- _ =>
      destruct (clampReserve_within v t H) as (-> & ? & ?); clear H end.
    repeat match goal with H : ?b = _ |- context [?b] => rewrite H end. done.
Qed.

(** ** Lists *)

Lemma add_values normalize parts out :
  NoDup out -> Forall (fun v => v <> []) out ->
  let l := fold_left (add_value normalize) parts out in
  NoDup l /\ Forall (fun v => v <> []) l /\
  forall v, v ∈ l <-> v ∈ out \/ (v <> [] /\ exists part, part ∈ parts /\ normalize part = v).
Proof.
  revert out. induction parts as [|p parts IH]; intros out Hnd Hne; cbn [fold_left].
  { split_and!; [done|done|]. intros v. split; [by left|]. intros [?|(_ & p & Hp & _)]; [done|]. by apply not_elem_of_nil in Hp. }
  cbv zeta. unfold add_value at 2 4 6. destruct (bool_decide (normalize p = [])) eqn:Hb; [apply bool_decide_eq_true in Hb|apply bool_decide_eq_false in Hb]; cbn [orb].
  - destruct (IH out Hnd Hne) as (H1 & H2 & H3). split_and!; [done|done|]. intros v. rewrite H3. setoid_rewrite elem_of_cons. naive_solver.
  - destruct (bool_decide (normalize p ∈ out)) eqn:Hin; [apply bool_decide_eq_true in Hin|apply bool_decide_eq_false in Hin].
    + destruct (IH out Hnd Hne) as (H1 & H2 & H3). split_and!; [done|done|]. intros v. rewrite H3. setoid_rewrite elem_of_cons. naive_solver.
    + destruct (IH (out ++ [normalize p])) as (H1 & H2 & H3).
      * apply NoDup_app. split_and!; [done| |apply NoDup_singleton]. intros x Hx ->%list_elem_of_singleton. done.
      * apply Forall_app_2; [done|]. by constructor.
      * split_and!; [done|done|]. intros v. rewrite H3, elem_of_app, list_elem_of_singleton. setoid_rewrite elem_of_cons. naive_solver.
Qed.
Lemma splunk_handler cfg :
  validate_splunk cfg = Ok tt ->
  TrimSpace (c_SplunkHECEndpoint cfg) = c_SplunkHECEndpoint cfg -> TrimSpace (c_SplunkHECToken cfg) = c_SplunkHECToken cfg ->
  TrimSpace (c_SplunkHECIndex cfg) = c_SplunkHECIndex cfg ->
  configureSplunkLogging cfg = Ok (if bool_decide (c_SplunkHECEndpoint cfg = []) then None
    else Some {| endpoint := c_SplunkHECEndpoint cfg; token := c_SplunkHECToken cfg; index := c_SplunkHECIndex cfg;
                 flushInterval := c_SplunkHECFlushInterval cfg |}).
Proof.
  intros H He Ht Hi. unfold validate_splunk in H. requires H. unfold configureSplunkLogging.
  destruct (bool_decide (c_SplunkHECEndpoint cfg = [])) eqn:Hend; [done|]. apply bool_decide_eq_false in Hend.
  rewrite (bool_decide_eq_true_2 _ Hend) in H. cbn [orb] in H. requires H.
  unfold NewHandler. cbn [opt_Endpoint opt_Token opt_Index opt_FlushInterval opt_Local]. rewrite He, Ht, Hi.
  unfold validateOptions. rewrite (bool_decide_eq_false_2 _ Hend). destruct (ParseRequestURI (c_SplunkHECEndpoint cfg)) as [u|]; [|done].
  requires H. repeat match goal with R : bool_decide _ = true |- _ => apply bool_decide_eq_true in R end.
  unfold positive in *. b2p. rewrite !bool_decide_eq_false_2 by done. rewrite <- negb_orb.
  repeat match goal with R : ?b = true |- context [?b] => rewrite R | R : ?b = false |- context [?b] => rewrite R end. cbn [negb].
  destruct (Z.leb_spec (c_SplunkHECFlushInterval cfg) 0); [lia|done].
Qed.

Section Loaded.
Context (getenv : gostring -> gostring) (LetsEncryptProductionCA : gostring).

Lemma env_trimmed key : TrimSpace (env getenv key []) = env getenv key [].
Proof. unfold env, default_string, variable. case_bool_decide; [done|apply TrimSpace_idem]. Qed.

(** What the loaded configuration has of the way it was read. *)
Lemma load_spec cfg :
  load getenv LetsEncryptProductionCA = Ok cfg ->
  c_authReservedLimitsConfigured cfg = true /\
  c_SplunkHECEndpoint cfg = env getenv "SPLUNK_HEC_ENDPOINT" [] /\ c_SplunkHECToken cfg = env getenv "SPLUNK_HEC_TOKEN" [] /\
  c_SplunkHECIndex cfg = env getenv "SPLUNK_HEC_INDEX" [] /\ c_KafkaBrokers cfg = envCSV getenv "KAFKA_BROKERS" /\
  exists total rate burst,
    envInt getenv "AUTH_MAX_CONCURRENT" defaultAuthMaxConcurrent = Ok total /\
    envInt getenv "AUTH_RATE_PER_SECOND" defaultAuthRatePerSecond = Ok rate /\
    envInt getenv "AUTH_RATE_BURST" defaultAuthRateBurst = Ok burst /\
    c_AuthMaxConcurrent cfg = total /\ c_AuthRatePerSecond cfg = rate /\ c_AuthRateBurst cfg = burst /\
    envInt getenv "AUTH_RESERVED_MAX_CONCURRENT" (defaultReservedLimit total defaultAuthReservedConcurrent) = Ok (c_AuthReservedConcurrent cfg) /\
    envInt getenv "AUTH_RESERVED_RATE_PER_SECOND" (defaultReservedLimit rate defaultAuthReservedRatePerSecond) = Ok (c_AuthReservedRatePerSecond cfg) /\
    envInt getenv "AUTH_RESERVED_BURST" (defaultReservedLimit burst defaultAuthReservedBurst) = Ok (c_AuthReservedBurst cfg).
Proof.
  unfold load. intros H. apply rbind_Ok in H as (total & Htotal & H). apply rbind_Ok in H as (rate & Hrate & H).
  apply rbind_Ok in H as (burst & Hburst & H). do 6 apply rbind_Ok in H as (? & _ & H).
  apply rbind_Ok in H as (rc & Hrc & H). apply rbind_Ok in H as (rr & Hrr & H). apply rbind_Ok in H as (rb & Hrb & H).
  repeat apply rbind_Ok in H as (? & _ & H). injection H as <-.
  cbn [c_authReservedLimitsConfigured c_SplunkHECEndpoint c_SplunkHECToken c_SplunkHECIndex c_KafkaBrokers c_AuthMaxConcurrent
    c_AuthRatePerSecond c_AuthRateBurst c_AuthReservedConcurrent c_AuthReservedRatePerSecond c_AuthReservedBurst].
  split_and!; try done. exists total, rate, burst. done.
Qed.

(** C39. A configuration the process starts with is valid, applying the defaults
    to it again, as the server does, changes nothing, the limiter enforces its
    limits as they stand, and the log handler it asks for can be made. *)
Theorem loaded_config_valid cfg :
  LoadConfig getenv LetsEncryptProductionCA = Ok cfg ->
  Validate cfg = Ok tt /\ ApplyDefaults cfg = cfg /\ normalizeLimits (auth_limits cfg) = auth_limits cfg /\
  exists handler, configureSplunkLogging cfg = Ok handler /\ (handler = None <-> c_SplunkHECEndpoint cfg = []).
Proof.
  unfold LoadConfig. intros H. apply rbind_Ok in H as (c & Hc & H).
  destruct (Validate c) as [[]|message] eqn:Hv; [|done]. injection H as <-.
  destruct (load_spec c Hc) as (Hflag & He & Ht & Hi & _). apply Validate_defaults in Hv as Hv'; [|done].
  split_and!; [done|apply ApplyDefaults_idem|by apply limits_normal|].
  eexists. split.
  - apply splunk_handler; [apply Validate_Ok in Hv'; tauto|..]; cbn [ApplyDefaults c_SplunkHECEndpoint c_SplunkHECToken c_SplunkHECIndex].
    all: rewrite ?He, ?Ht, ?Hi; apply env_trimmed.
  - destruct (bool_decide (c_SplunkHECEndpoint (ApplyDefaults c) = [])) eqn:Hb; [apply bool_decide_eq_true in Hb|apply bool_decide_eq_false in Hb]; done.
Qed.

(** A list variable is read as its comma-separated values without the
    surrounding space, each once, and no blank one. *)
Theorem envCSV_exact key :
  NoDup (envCSV getenv key) /\
  forall v, v ∈ envCSV getenv key <-> v <> [] /\ exists part, part ∈ Split (variable getenv key) ","%byte /\ TrimSpace part = v.
Proof.
  unfold envCSV. case_bool_decide as Hv.
  - rewrite Hv. split; [constructor|]. intros v. split; [by intros ?%not_elem_of_nil|].
    intros (Hne & part & Hpart & <-). cbn in Hpart. apply list_elem_of_singleton in Hpart as ->. done.
  - destruct (add_values TrimSpace (Split (variable getenv key) ","%byte) []) as (Hnd & _ & Hv'); [constructor|constructor|].
    split; [done|]. intros v. rewrite Hv'. split; [intros [?%not_elem_of_nil|?]; done|by right].
Qed.

(** With a total of one concurrent authentication, and the reserve and the
    rates left to their defaults, the gateway does not start: the default
    reserve of concurrency is zero and those of the rates are not. *)
Theorem single_authentication_refused cfg :
  variable getenv "AUTH_MAX_CONCURRENT" = str "1" ->
  Forall (fun key => variable getenv key = [])
    ["AUTH_RATE_PER_SECOND"; "AUTH_RATE_BURST"; "AUTH_RESERVED_MAX_CONCURRENT"; "AUTH_RESERVED_RATE_PER_SECOND"; "AUTH_RESERVED_BURST"]%string ->
  LoadConfig getenv LetsEncryptProductionCA <> Ok cfg.
Proof.
  intros Hone Hunset H. unfold LoadConfig in H. apply rbind_Ok in H as (c & Hc & H).
  destruct (Validate c) as [[]|message] eqn:Hv; [|done]. apply Validate_Ok in Hv as (_ & _ & _ & _ & _ & Hauth & _).
  destruct (load_spec c Hc) as (_ & _ & _ & _ & _ & total & rate & burst & H1 & H2 & H3 & <- & <- & <- & H4 & H5 & H6).
  rewrite !Forall_cons in Hunset. destruct Hunset as (U1 & U2 & U3 & U4 & U5 & _).
  unfold envInt in *. rewrite Hone in H1. rewrite U1 in H2. rewrite U2 in H3. rewrite U3 in H4. rewrite U4 in H5. rewrite U5 in H6.
  injection H1 as H1. injection H2 as H2. injection H3 as H3. injection H4 as H4. injection H5 as H5. injection H6 as H6.
  rewrite <- H1 in *. rewrite <- H2 in *. rewrite <- H3 in *. unfold validate_auth in Hauth. cbv zeta in Hauth.
  rewrite <- H1, <- H2, <- H3, <- H4, <- H5, <- H6 in Hauth. done.
Qed.
End Loaded.
End Config.

(** ** Witnesses *)

#[local] Instance sample_urls : URLParser := {| url_Parse _ := Some
  {| u_Scheme := str "https"; u_Opaque := []; u_User := false; u_Host := str "s3.example.com:9000"; u_Path := []; u_RawQuery := []; u_ForceQuery := false |} |}.
#[local] Instance sample_uris : RequestURIs := {| ParseRequestURI := url_Parse; NewRequest_accepts _ := true |}.
#[local] Instance sample_durations : Durations := {| ParseDuration _ := None |}.
#[local] Instance sample_names : DistinguishedNames :=
  {| ParseDN s := Some [[{| dn_Type := str "OU"; dn_Value := s |}]]; DN_EqualFold a b := true |}.

Definition sample_env (concurrent : gostring) (key : gostring) : gostring :=
  if bool_decide (key ∈ map str ["LDAP_URL"; "LDAP_BASE_DN"; "LDAP_GROUP_BASE_DN"; "S3_ENDPOINT"; "S3_ACCESS_KEY"; "S3_SECRET_KEY";
                                 "SPLUNK_HEC_ENDPOINT"; "SPLUNK_HEC_TOKEN"; "SPLUNK_HEC_INDEX"]%string) then str " value "
  else if bool_decide (key = str "S3GATEWAY_PRIVATE_X25519_KEY") then repeat "a"%byte 64
  else if bool_decide (key = str "AUTH_MAX_CONCURRENT") then concurrent
  else if bool_decide (key = str "KAFKA_GLOBAL_TOPIC") then []
  else [].
Definition sample_loaded (concurrent : gostring) : result ExitReason Config :=
  LoadConfig (U := latin1_case) (sample_env concurrent) (str "https://acme.example").

Lemma loaded_config_valid_witness :
  exists cfg, sample_loaded [] = Ok cfg /\ Validate (U := latin1_case) cfg = Ok tt /\ ApplyDefaults cfg = cfg.
Proof.
  destruct (sample_loaded []) as [cfg|e] eqn:H; [|vm_compute in H; discriminate H].
  exists cfg. split; [reflexivity|]. unfold sample_loaded in H.
  destruct (loaded_config_valid (U := latin1_case) _ _ cfg H) as (Hv & Hd & _). split; [exact Hv|exact Hd].
Defined.

Lemma single_authentication_refused_witness : forall cfg, sample_loaded (str "1") <> Ok cfg.
Proof.
  intros cfg. apply (single_authentication_refused (U := latin1_case)); [vm_compute; reflexivity|].
  repeat constructor; vm_compute; reflexivity.
Defined.
