(* ===== verification/Transfer.v ===== *)
(** * Limits of transfers (src/internal/server/transfer_limits.go, upstream/response_progress.go)

    Every request is watched: octets read from the client, written to it or
    received from the store while it completes an operation postpone its idle
    deadline; when a full idle period passes without any, the timer cancels the
    request and interrupts the connection.  At most the configured number of
    requests is served at a time, probes apart; one more is refused at once.

    Each section under the activity's lock is a function of the time at which it
    runs (the clock is read once in it).  Requests, their timers and the clock
    interleave: the system is a step relation.  The response writer and the
    readers are the environment. *)

From stdpp Require Import relations.
From S2P Require Import Prelude GoStrings Http S3Xml Config.

#[local] Open Scope Z_scope.

(** ** The activity of a request *)

(** [None] is the zero time.  The deadlines last set on the connection are its
    own state: [None] before the first. *)
Record transferActivity := {
  idle : Z; deadline : instant; readDeadline : option instant; writeDeadline : option instant;
  finished : bool; expired : bool; timer : option instant (* when it fires, if it is running *);
  cancelled : bool; connRead : option (option instant); connWrite : option (option instant)
}.

Definition newActivity (idle : Z) (now : instant) : transferActivity :=
  {| idle := idle; deadline := now + idle; readDeadline := None; writeDeadline := None; finished := false; expired := false;
     timer := Some (now + idle); cancelled := false; connRead := None; connWrite := None |}.

Definition with_deadline (d : instant) (a : transferActivity) : transferActivity :=
  {| idle := idle a; deadline := d; readDeadline := readDeadline a; writeDeadline := writeDeadline a; finished := finished a;
     expired := expired a; timer := timer a; cancelled := cancelled a; connRead := connRead a; connWrite := connWrite a |}.
Definition with_timer (t : option instant) (a : transferActivity) : transferActivity :=
  {| idle := idle a; deadline := deadline a; readDeadline := readDeadline a; writeDeadline := writeDeadline a;
     finished := finished a; expired := expired a; timer := t; cancelled := cancelled a; connRead := connRead a;
     connWrite := connWrite a |}.
Definition with_conn (r w : option (option instant)) (a : transferActivity) : transferActivity :=
  {| idle := idle a; deadline := deadline a; readDeadline := readDeadline a; writeDeadline := writeDeadline a;
     finished := finished a; expired := expired a; timer := timer a; cancelled := cancelled a; connRead := r; connWrite := w |}.
Definition with_flags (f e c : bool) (a : transferActivity) : transferActivity :=
  {| idle := idle a; deadline := deadline a; readDeadline := readDeadline a; writeDeadline := writeDeadline a;
     finished := f; expired := e; timer := timer a; cancelled := c; connRead := connRead a; connWrite := connWrite a |}.
Definition with_explicit (r w : option instant) (a : transferActivity) : transferActivity :=
  {| idle := idle a; deadline := deadline a; readDeadline := r; writeDeadline := w; finished := finished a;
     expired := expired a; timer := timer a; cancelled := cancelled a; connRead := connRead a; connWrite := connWrite a |}.

Definition progress (now : instant) (a : transferActivity) : transferActivity :=
  if negb (finished a) && negb (expired a) then with_deadline (now + idle a) a else a.

(** The timer's callback; the timer has fired. *)
Definition expire (now : instant) (a : transferActivity) : transferActivity :=
  let a := with_timer None a in
  if finished a then a
  else
    let remaining := deadline a - now in
    if 0 <? remaining then with_timer (Some (now + remaining)) a
    else with_conn (Some (Some now)) (Some (Some now)) (with_flags (finished a) true true a).

Definition earlierTransferDeadline (idleDeadline : instant) (explicitDeadline : option instant) : instant :=
  match explicitDeadline with
  | Some e => if e <? idleDeadline then e else idleDeadline
  | None => idleDeadline
  end.

Definition finish (cfg : Config) (now : instant) (a : transferActivity) : transferActivity :=
  let a := with_timer None (with_flags true (expired a) (cancelled a) a) in
  if expired a then a
  else
    let deadline := now + idle a in
    with_conn
      (if c_ReadTimeout cfg =? 0 then Some (Some (earlierTransferDeadline deadline (readDeadline a))) else connRead a)
      (if c_WriteTimeout cfg =? 0 then Some (Some (earlierTransferDeadline deadline (writeDeadline a))) else connWrite a) a.

(** The writer's deadlines; whether it is refused with [DeadlineExceeded]. *)
Definition SetReadDeadline (d : option instant) (a : transferActivity) : bool * transferActivity :=
  if expired a then (true, a) else (false, with_conn (Some d) (connWrite a) (with_explicit d (writeDeadline a) a)).
Definition SetWriteDeadline (d : option instant) (a : transferActivity) : bool * transferActivity :=
  if expired a then (true, a) else (false, with_conn (connRead a) (Some d) (with_explicit (readDeadline a) d a)).

(** ** Readers and the writer *)

(** A read of the request's body or of a tracked response of the store: [n]
    octets at time [now]. *)
Definition body_Read (n : Z) (now : instant) (a : transferActivity) : transferActivity := if 0 <? n then progress now a else a.
(** [responseProgressClient.Do]: whether a response was received without error. *)
Definition client_Do (received : bool) (now : instant) (a : transferActivity) : transferActivity :=
  if received then progress now a else a.
Definition WriteHeader (now : instant) (a : transferActivity) : transferActivity := progress now a.
Definition FlushError (failed : bool) (now : instant) (a : transferActivity) : transferActivity :=
  if failed then a else progress now a.

(** The underlying writer: how many octets it takes of what it is given, an
    error, and the time when it returns. *)
Class ResponseWriter (W E : Type) := { w_Write : W -> gostring -> Z * option E * instant * W }.

Inductive WriteFailure (E : Type) := Underlying (e : E) | ErrShortWrite.
Arguments Underlying {E} e.
Arguments ErrShortWrite {E}.

Definition chunkSize : nat := Z.to_nat (Z.shiftl 32 10).
Lemma chunkSize_positive : (0 < chunkSize)%nat.
Proof. unfold chunkSize. change (Z.shiftl 32 10) with 32768. lia. Qed.
#[local] Opaque chunkSize.

Section Writer.
Context {W E : Type} {RW : ResponseWriter W E}.

(** The loop of [Write]; each turn takes at least one octet, so as many turns as
    there are octets are enough. *)
Fixpoint write_loop (fuel : nat) (total : Z) (p : gostring) (w : W) (a : transferActivity)
    : Z * option (WriteFailure E) * W * transferActivity :=
  match fuel, p with
  | S fuel', _ :: _ =>
    let chunk := take chunkSize p in
    let '(n, err, now, w) := w_Write w chunk in
    let a := if 0 <? n then progress now a else a in
    match err with
    | Some e => (total + n, Some (Underlying e), w, a)
    | None =>
      if negb (n =? Z.of_nat (length chunk)) then (total + n, Some ErrShortWrite, w, a)
      else write_loop fuel' (total + n) (drop (length chunk) p) w a
    end
  | _, _ => (total, None, w, a)
  end.

Definition Write (p : gostring) (w : W) (a : transferActivity) : Z * option (WriteFailure E) * W * transferActivity :=
  match p with
  | [] => let '(n, err, _, w) := w_Write w p in (n, Underlying <$> err, w, a)
  | _ => write_loop (length p) 0 p w a
  end.

(** Handing pieces to the underlying writer one after the other. *)
Definition write_pieces (w : W) (pieces : list gostring) : W := fold_left (fun w c => (w_Write w c).2) pieces w.

(** The loop, when it ends without an error, has handed on all of [p] in
    order, in pieces the writer took whole; with an error, a prefix of the
    pieces and the octets it reports. *)
Lemma write_loop_spec fuel total p w a :
  (length p <= fuel)%nat ->
  let '(n, err, w', a') := write_loop fuel total p w a in
  exists pieces, w' = write_pieces w pieces /\ Forall (fun c => 0 < length c <= chunkSize)%nat pieces /\
    (exists rest, p = concat pieces ++ rest) /\
    (err = None -> concat pieces = p /\ n = total + Z.of_nat (length p)).
Proof.
  revert total p w a. induction fuel as [|fuel IH]; intros total p w a Hf.
  { destruct p; [|cbn in Hf; lia]. exists []. cbn. split_and!; [done|constructor|by exists []|intros _; split; [done|lia]]. }
  destruct p as [|b p]; cbn [write_loop].
  { exists []. cbn. split_and!; [done|constructor|by exists []|intros _; split; [done|lia]]. }
  remember (b :: p) as q eqn:Hq. assert (Hlen : (0 < length (take chunkSize q) <= chunkSize)%nat).
  { rewrite length_take, Hq. cbn [length]. pose proof chunkSize_positive. lia. }
  assert (Hd : drop (length (take chunkSize q)) q = drop chunkSize q).
  { rewrite length_take. destruct (Nat.min_spec chunkSize (length q)) as [[_ ->]|[Hle ->]]; [done|]. by rewrite !drop_ge. }
  destruct (w_Write w (take chunkSize q)) as [[[n err] now] w1] eqn:Hw.
  assert (Hone : write_pieces w [take chunkSize q] = w1) by (cbn; by rewrite Hw).
  assert (Hbad : forall t e, exists pieces, w1 = write_pieces w pieces /\
      Forall (fun c => 0 < length c <= chunkSize)%nat pieces /\ (exists rest, q = concat pieces ++ rest) /\
      (Some e = @None (WriteFailure E) -> concat pieces = q /\ t = total + Z.of_nat (length q))).
  { intros t e. exists [take chunkSize q]. split_and!; [done|by constructor; [|constructor]| |done].
    exists (drop chunkSize q). cbn. by rewrite app_nil_r, take_drop. }
  destruct err as [e|]; [by apply (Hbad (total + n))|]. destruct (n =? Z.of_nat (length (take chunkSize q))) eqn:Hn; [|by apply (Hbad (total + n))].
  cbn [negb]. apply Z.eqb_eq in Hn. specialize (IH (total + n) (drop (length (take chunkSize q)) q) w1 (if 0 <? n then progress now a else a)).
  destruct (write_loop fuel _ _ _ _) as [[[n' err'] w'] a']. destruct IH as (pieces & -> & Hp & (rest & Hrest) & Hok).
  { rewrite length_drop. lia. }
  exists (take chunkSize q :: pieces). split_and!; [by rewrite <- Hone|by constructor| |].
  - exists rest. cbn. rewrite <- app_assoc, <- Hrest, Hd. by rewrite take_drop.
  - intros He. destruct (Hok He) as [Hc Ht]. cbn [concat]. rewrite Hc, Hd, take_drop. split; [done|].
    rewrite Ht, Hd, Hn, length_drop, length_take. lia.
Qed.
End Writer.

(** ** The middleware *)

Definition exempt (path : gostring) : bool := bool_decide (path = str "/healthz") || bool_decide (path = str "/readyz").

(** The answer to a request beyond the limit. *)
Definition refusal (protoMajor : Z) : Response :=
  let header : Header := if protoMajor =? 1 then hset ∅ (str "Connection") (str "close") else ∅ in
  WriteError (hset header (str "Retry-After") (str "1")) 503 (str "SlowDown") (str "Please reduce concurrent requests").

Inductive Phase := Serving (slot : bool) | Refused (protoMajor : Z).
#[global] Instance Phase_eq_dec : EqDecision Phase.
Proof. solve_decision. Defined.

(** A request: how the middleware treats it and its activity; and, for the
    theorems, the time of its last progress and how many others held a slot
    when it arrived. *)
Record Tracked := { tr_path : gostring; tr_phase : Phase; tr_activity : transferActivity; tr_last : instant; tr_others : Z }.
Definition with_activity (a : transferActivity) (last : instant) (r : Tracked) : Tracked :=
  {| tr_path := tr_path r; tr_phase := tr_phase r; tr_activity := a; tr_last := last; tr_others := tr_others r |}.

(** The slots are a channel; its elements are named by the requests that sent them. *)
Record Server := { clock : instant; requests : gmap nat Tracked; slots : gset nat }.

Section Middleware.
Context (cfg : Config).

Definition has_slot (s : Server) : bool := Z.of_nat (size (slots s)) <? c_MaxConcurrentRequests cfg.

(** What [withTransferLimits] does before the handler or the refusal. *)
Definition arrive (id : nat) (path : gostring) (protoMajor : Z) (s : Server) : Server :=
  let phase := if exempt path then Serving false else if has_slot s then Serving true else Refused protoMajor in
  {| clock := clock s;
     requests := <[id := {| tr_path := path; tr_phase := phase; tr_activity := newActivity (c_TransferIdleTimeout cfg) (clock s);
                            tr_last := clock s; tr_others := Z.of_nat (size (slots s)) |}]> (requests s);
     slots := if bool_decide (phase = Serving true) then {[id]} ∪ slots s else slots s |}.

(** The deferred calls: the slot, [finish] and the context's [cancel]. *)
Definition complete (now : instant) (a : transferActivity) : transferActivity :=
  let a := finish cfg now a in with_flags (finished a) (expired a) true a.

(** What the handler does to the activity. *)
Inductive Use := Progress | UseRead (n : Z) | UseClient (received : bool) | UseHeader | UseFlush (failed : bool)
  | UseSetRead (d : option instant) | UseSetWrite (d : option instant).
Definition use (u : Use) (now : instant) (a : transferActivity) : transferActivity :=
  match u with
  | Progress => progress now a                 (* of a chunk that was written *)
  | UseRead n => body_Read n now a
  | UseClient received => client_Do received now a
  | UseHeader => WriteHeader now a
  | UseFlush failed => FlushError failed now a
  | UseSetRead d => (SetReadDeadline d a).2
  | UseSetWrite d => (SetWriteDeadline d a).2
  end.
Definition progresses (u : Use) : bool :=
  match u with
  | Progress | UseHeader => true
  | UseRead n => 0 <? n
  | UseClient received => received
  | UseFlush failed => negb failed
  | _ => false
  end.
(** The last progress that counted. *)
Definition last_progress (u : Use) (now : instant) (r : Tracked) : instant :=
  if progresses u && negb (finished (tr_activity r)) && negb (expired (tr_activity r)) then now else tr_last r.

Inductive server_step : Server -> Server -> Prop :=
| step_clock s now : clock s <= now -> server_step s {| clock := now; requests := requests s; slots := slots s |}
| step_arrive s id path protoMajor : requests s !! id = None -> server_step s (arrive id path protoMajor s)
| step_use s id r u : requests s !! id = Some r ->
    server_step s {| clock := clock s;
      requests := <[id := with_activity (use u (clock s) (tr_activity r)) (last_progress u (clock s) r) r]> (requests s); slots := slots s |}
| step_fire s id r t : requests s !! id = Some r -> timer (tr_activity r) = Some t -> t <= clock s ->
    server_step s {| clock := clock s;
      requests := <[id := with_activity (expire (clock s) (tr_activity r)) (tr_last r) r]> (requests s); slots := slots s |}
| step_return s id r : requests s !! id = Some r -> finished (tr_activity r) = false ->
    server_step s {| clock := clock s;
      requests := <[id := with_activity (complete (clock s) (tr_activity r)) (tr_last r) r]> (requests s);
      slots := slots s ∖ {[id]} |}.

Definition boot (now : instant) : Server := {| clock := now; requests := ∅; slots := ∅ |}.
Definition reachable (s : Server) : Prop := exists now, rtc server_step (boot now) s.

(** ** Invariants *)

Record activity_ok (now last : instant) (a : transferActivity) : Prop := {
  ao_idle : idle a = c_TransferIdleTimeout cfg;
  ao_last : last <= now;
  ao_deadline : deadline a = last + idle a;
  ao_timer : finished a = false -> expired a = false -> exists t, timer a = Some t /\ t <= deadline a;
  ao_expired : expired a = true -> cancelled a = true /\
    exists t, last + idle a <= t /\ t <= now /\ connRead a = Some (Some t) /\ connWrite a = Some (Some t)
}.

Lemma progress_ok now last a : activity_ok now last a ->
  activity_ok now (if negb (finished a) && negb (expired a) then now else last) (progress now a).
Proof.
  intros H. unfold progress. destruct (negb (finished a) && negb (expired a)) eqn:Hlive; [|done]. b2p.
  destruct H as [Hi Hl Hd Ht He]. constructor; cbn [idle deadline finished expired timer cancelled connRead connWrite with_deadline].
  - done.
  - lia.
  - done.
  - intros Hf Hx. destruct (Ht Hf Hx) as (t & -> & Hle). exists t. split; [done|]. lia.
  - congruence.
Qed.

Lemma explicit_ok now last a r w er ew :
  activity_ok now last a -> expired a = false -> activity_ok now last (with_conn r w (with_explicit er ew a)).
Proof.
  intros [Hi Hl Hd Ht He] Hx. constructor;
    cbn [idle deadline finished expired timer cancelled connRead connWrite with_conn with_explicit]; [done..|congruence].
Qed.

Lemma use_ok u now r : activity_ok now (tr_last r) (tr_activity r) ->
  activity_ok now (last_progress u now r) (use u now (tr_activity r)).
Proof.
  intros H. pose proof (progress_ok now (tr_last r) (tr_activity r) H) as Hp. unfold last_progress.
  destruct u as [|n|received| |failed|d|d]; cbn [use progresses andb]; [exact Hp| | |exact Hp| | |].
  - unfold body_Read. by destruct (0 <? n).
  - unfold client_Do. by destruct received.
  - unfold FlushError. by destruct failed.
  - unfold SetReadDeadline. destruct (expired (tr_activity r)) eqn:Hx; [done|by apply explicit_ok].
  - unfold SetWriteDeadline. destruct (expired (tr_activity r)) eqn:Hx; [done|by apply explicit_ok].
Qed.

Lemma expire_ok now last a : activity_ok now last a -> activity_ok now last (expire now a).
Proof.
  intros [Hi Hl Hd Ht He]. unfold expire. cbn [finished with_timer]. destruct (finished a) eqn:Hf.
  { constructor; cbn; try done. intros H. congruence. }
  cbn [deadline with_timer]. destruct (Z.ltb_spec 0 (deadline a - now)) as [Hr|Hr]; constructor; cbn; try done; try congruence.
  - intros _ _. eexists. split; [reflexivity|]. lia.
  - intros _. split; [done|]. exists now. split_and!; [lia|lia|done|done].
Qed.

Lemma complete_ok now last a : activity_ok now last a -> activity_ok now last (complete now a).
Proof.
  intros [Hi Hl Hd Ht He]. unfold complete, finish. cbn [expired with_timer with_flags].
  destruct (expired a) eqn:Hx; constructor; cbn; try done; try congruence.
  intros _. split; [done|]. apply He. done.
Qed.

Lemma activity_ok_later now now' last a : now <= now' -> activity_ok now last a -> activity_ok now' last a.
Proof.
  intros Hle [Hi Hl Hd Ht He]. constructor; try done; [lia|]. intros Hx. destruct (He Hx) as (Hc & t & H1 & H2 & H3). 
  split; [done|]. exists t. split; [done|]. split; [lia|done].
Qed.
(** A request that has a slot. *)
Definition in_service (r : Tracked) : Prop := tr_phase r = Serving true /\ finished (tr_activity r) = false.

Record server_ok (s : Server) : Prop := {
  so_activities : map_Forall (fun _ r => activity_ok (clock s) (tr_last r) (tr_activity r)) (requests s);
  so_slots : forall id, id ∈ slots s <-> exists r, requests s !! id = Some r /\ in_service r;
  so_size : Z.of_nat (size (slots s)) <= Z.max 0 (c_MaxConcurrentRequests cfg);
  so_phases : map_Forall (fun _ r => match tr_phase r with
      | Serving slot => slot = negb (exempt (tr_path r))
      | Refused _ => exempt (tr_path r) = false /\ c_MaxConcurrentRequests cfg <= tr_others r
      end) (requests s)
}.

(** A step of one request that leaves its phase. *)
Lemma server_ok_update s id r a last :
  server_ok s -> requests s !! id = Some r -> activity_ok (clock s) last a -> finished a = finished (tr_activity r) ->
  server_ok {| clock := clock s; requests := <[id := with_activity a last r]> (requests s); slots := slots s |}.
Proof.
  intros [Ha Hs Hn Hp] Hr Hok Hf. constructor; cbn [clock requests slots].
  - by apply map_Forall_insert_2.
  - intros i. rewrite Hs. destruct (decide (i = id)) as [->|Hne]; [|by rewrite lookup_insert_ne].
    rewrite lookup_insert_eq, Hr. unfold in_service. split; intros (x & [= <-] & Hph & Hfx); eexists; split_and!; eauto; cbn in *; congruence.
  - done.
  - apply map_Forall_insert_2; [|done]. exact (Hp id r Hr).
Qed.

Lemma finished_use u now a : finished (use u now a) = finished a.
Proof.
  assert (Hp : finished (progress now a) = finished a) by (unfold progress; by destruct (negb (finished a) && negb (expired a))).
  destruct u as [|n|received| |failed|d|d]; cbn [use]; try exact Hp.
  - unfold body_Read. by destruct (0 <? n).
  - unfold client_Do. by destruct received.
  - unfold FlushError. by destruct failed.
  - unfold SetReadDeadline. by destruct (expired a).
  - unfold SetWriteDeadline. by destruct (expired a).
Qed.

Lemma finished_expire now a : finished (expire now a) = finished a.
Proof. unfold expire. cbn [finished with_timer]. destruct (finished a) eqn:Hf; [done|]. by destruct (0 <? _). Qed.

Lemma arrive_ok id path protoMajor s : server_ok s -> requests s !! id = None -> server_ok (arrive id path protoMajor s).
Proof.
  intros [Ha Hs Hn Hp] Hid. unfold arrive.
  set (phase := if exempt path then Serving false else if has_slot s then Serving true else Refused protoMajor).
  assert (Hfresh : id ∉ slots s) by (rewrite Hs; intros (r & Hr & _); congruence).
  constructor; cbn [clock requests slots].
  - apply map_Forall_insert_2; [|done]. constructor; cbn; try done; try lia. intros _ _. eexists. split; [done|]. lia.
  - intros i. transitivity (i ∈ slots s \/ i = id /\ phase = Serving true).
    { destruct (bool_decide (phase = Serving true)) eqn:Hb; [apply bool_decide_eq_true in Hb|apply bool_decide_eq_false in Hb]; set_solver. }
    destruct (decide (i = id)) as [->|Hne].
    + rewrite lookup_insert_eq. split.
      * intros [?|[_ Hph]]; [done|]. eexists. split; [done|]. by split.
      * intros (r & [= <-] & Hph & _). by right.
    + rewrite lookup_insert_ne by done. rewrite Hs. naive_solver.
  - destruct (bool_decide (phase = Serving true)) eqn:Hb; [|done]. apply bool_decide_eq_true in Hb.
    rewrite size_union, size_singleton by set_solver. subst phase. unfold has_slot in Hb. repeat case_match; try done. b2p. lia.
  - apply map_Forall_insert_2; [|done]. cbn [tr_phase tr_path tr_others]. subst phase. unfold has_slot.
    destruct (exempt path) eqn:Hx; [done|]. destruct (Z.ltb_spec (Z.of_nat (size (slots s))) (c_MaxConcurrentRequests cfg)); by rewrite ?Hx.
Qed.

Lemma return_ok id r s : server_ok s -> requests s !! id = Some r ->
  server_ok {| clock := clock s;
    requests := <[id := with_activity (complete (clock s) (tr_activity r)) (tr_last r) r]> (requests s); slots := slots s ∖ {[id]} |}.
Proof.
  intros [Ha Hs Hn Hp] Hr. constructor; cbn [clock requests slots].
  - apply map_Forall_insert_2; [|done]. cbn. apply complete_ok. exact (Ha id r Hr).
  - intros i. rewrite elem_of_difference, elem_of_singleton, Hs. destruct (decide (i = id)) as [->|Hne].
    + rewrite lookup_insert_eq. split; [by intros [_ ?]|]. intros (x & [= <-] & _ & Hf). exfalso.
      cbn in Hf. unfold finish in Hf. cbn in Hf. by destruct (expired (tr_activity r)).
    + rewrite lookup_insert_ne by done. naive_solver.
  - pose proof (subseteq_size (slots s ∖ {[id]}) (slots s) ltac:(set_solver)). lia.
  - apply map_Forall_insert_2; [|done]. exact (Hp id r Hr).
Qed.

Lemma step_ok s s' : server_step s s' -> server_ok s -> server_ok s'.
Proof.
  intros Hstep Hok. destruct Hstep as [s now Hle|s id path protoMajor Hid|s id r u Hr|s id r t Hr Ht Hle|s id r Hr Hf].
  - destruct Hok as [Ha Hs Hn Hp]. constructor; cbn [clock requests slots]; [|done..].
    eapply map_Forall_impl; [exact Ha|]. intros i r Hi. by eapply activity_ok_later.
  - by apply arrive_ok.
  - apply server_ok_update; [done|done| |apply finished_use]. apply use_ok. exact (so_activities s Hok id r Hr).
  - apply server_ok_update; [done|done| |apply finished_expire]. apply expire_ok. exact (so_activities s Hok id r Hr).
  - by apply return_ok.
Qed.

Lemma server_reachable s : reachable s -> server_ok s.
Proof.
  intros (now & Hs). revert s Hs. apply rtc_ind_r; [|intros s s' _ Hstep IH; by eapply step_ok].
  constructor; cbn; [apply map_Forall_empty| |rewrite size_empty; lia|apply map_Forall_empty].
  intros id. split; [set_solver|]. intros (r & Hr & _). by rewrite lookup_empty in Hr.
Qed.

(** ** What the limits guarantee *)

(** C35. However requests come, progress and end, the requests being served, the
    two probes apart, are never more than the configured number; a request is
    refused only when as many others are being served at that moment, and a
    probe never is. *)
Theorem transfer_concurrency s :
  reachable s -> 0 < c_MaxConcurrentRequests cfg ->
  Z.of_nat (size (slots s)) <= c_MaxConcurrentRequests cfg /\
  (forall id r, requests s !! id = Some r -> exempt (tr_path r) = false -> finished (tr_activity r) = false ->
     (exists protoMajor, tr_phase r = Refused protoMajor) \/ id ∈ slots s) /\
  (forall id r protoMajor, requests s !! id = Some r -> tr_phase r = Refused protoMajor ->
     exempt (tr_path r) = false /\ c_MaxConcurrentRequests cfg <= tr_others r).
Proof.
  intros Hs Hmax. apply server_reachable in Hs as [Ha Hs Hn Hp]. split_and!; [lia| |].
  - intros id r Hr Hx Hf. specialize (Hp id r Hr). cbn in Hp. destruct (tr_phase r) as [slot|protoMajor] eqn:Hph; [|by left; eexists].
    right. apply Hs. exists r. split; [done|]. split; [|done]. by rewrite Hph, Hp, Hx.
  - intros id r protoMajor Hr Hph. specialize (Hp id r Hr). cbn in Hp. by rewrite Hph in Hp.
Qed.

(** C34. A request is cut off exactly for idleness: one that has been is
    cancelled, a full idle period had passed since its last progress, and the
    deadlines of its connection stay at that moment whatever the handler asks
    for afterwards; and one still being served for which such a period has
    passed has its timer due, whose firing cuts it off. *)
Theorem transfer_idle s id r :
  reachable s -> requests s !! id = Some r ->
  let a := tr_activity r in
  (expired a = true -> cancelled a = true /\ exists t, tr_last r + c_TransferIdleTimeout cfg <= t /\ t <= clock s /\
     connRead a = Some (Some t) /\ connWrite a = Some (Some t)) /\
  (expired a = false -> finished a = false -> exists t, timer a = Some t /\ t <= tr_last r + c_TransferIdleTimeout cfg) /\
  (expired a = false -> finished a = false -> tr_last r + c_TransferIdleTimeout cfg <= clock s ->
     exists s' r', server_step s s' /\ requests s' !! id = Some r' /\ expired (tr_activity r') = true /\ cancelled (tr_activity r') = true).
Proof.
  intros Hs Hr a. apply server_reachable in Hs as [Ha _ _ _]. destruct (Ha id r Hr) as [Hi Hl Hd Ht He]. fold a in Hi, Hd, Ht, He.
  rewrite Hi in *. rewrite Hd in Ht. split_and!; [done|by intros; apply Ht|].
  intros Hx Hf Hle. destruct (Ht Hf Hx) as (t & Htimer & Hdue). eexists _, _. split; [eapply (step_fire s id r t); [done|done|lia]|].
  cbn [requests]. rewrite lookup_insert_eq. split; [done|]. cbn [with_activity tr_activity]. fold a. unfold expire.
  cbn [finished with_timer deadline]. rewrite Hf, Hd. by destruct (Z.ltb_spec 0 (tr_last r + c_TransferIdleTimeout cfg - clock s)); [lia|].
Qed.

(** When the handler of a request that was not cut off returns, what is left
    to read and to write is bounded by an idle period from then, by the
    deadline the handler had set if that is earlier, and by the server's own
    time-out, which is left alone, if there is one. *)
Theorem finish_bounds now a :
  expired a = false ->
  let a' := finish cfg now a in
  finished a' = true /\ timer a' = None /\
  (c_ReadTimeout cfg = 0 -> exists d, connRead a' = Some (Some d) /\ d <= now + idle a /\ (forall e, readDeadline a = Some e -> d <= e) /\
     (d = now + idle a \/ readDeadline a = Some d)) /\
  (c_WriteTimeout cfg = 0 -> exists d, connWrite a' = Some (Some d) /\ d <= now + idle a /\ (forall e, writeDeadline a = Some e -> d <= e) /\
     (d = now + idle a \/ writeDeadline a = Some d)) /\
  (c_ReadTimeout cfg <> 0 -> connRead a' = connRead a) /\ (c_WriteTimeout cfg <> 0 -> connWrite a' = connWrite a).
Proof.
  intros Hx a'. subst a'. unfold finish. cbn [expired with_timer with_flags]. rewrite Hx. cbn.
  assert (Hearlier : forall d e, let x := earlierTransferDeadline d e in x <= d /\ (forall y, e = Some y -> x <= y) /\ (x = d \/ e = Some x)).
  { intros d [e|]; cbn; [destruct (Z.ltb_spec e d)|]; split_and!; try lia; try (intros y [= <-]; lia); auto. }
  split_and!; try done.
  - intros ->. cbn. eexists. split; [done|]. apply Hearlier.
  - intros ->. cbn. eexists. split; [done|]. apply Hearlier.
  - intros Hr%Z.eqb_neq. by rewrite Hr.
  - intros Hw%Z.eqb_neq. by rewrite Hw.
Qed.
End Middleware.

(** A write that reports no error has handed all of its octets on, in order
    and in pieces of at most 32 KiB that the connection took whole, and reports
    their number; one that fails has handed on a prefix. *)
Theorem write_whole {W E} {RW : ResponseWriter W E} p (w : W) a :
  p <> [] ->
  let '(n, err, w', _) := Write p w a in
  exists pieces, w' = write_pieces w pieces /\ Forall (fun c => 0 < length c <= chunkSize)%nat pieces /\
    (exists rest, p = concat pieces ++ rest) /\ (err = None -> concat pieces = p /\ n = Z.of_nat (length p)).
Proof.
  intros Hp. pose proof (write_loop_spec (length p) 0 p w a ltac:(lia)) as H.
  assert (Heq : Write p w a = write_loop (length p) 0 p w a) by (by destruct p). rewrite Heq.
  by destruct (write_loop (length p) 0 p w a) as [[[n err] w'] a'].
Qed.

(** ** Witnesses *)

Definition sample_cfg : Config := ApplyDefaults zero_config.
Definition arrived : Server := arrive sample_cfg 1 (str "/bucket/key") 1 (boot 0).
Definition due : Server := {| clock := 60 * second; requests := requests arrived; slots := slots arrived |}.

Lemma due_reachable : reachable sample_cfg due.
Proof.
  exists 0. eapply rtc_l; [apply (step_arrive sample_cfg (boot 0) 1 (str "/bucket/key") 1); reflexivity|].
  apply rtc_once. apply (step_clock sample_cfg arrived (60 * second)). vm_compute. discriminate.
Qed.

Lemma transfer_concurrency_witness : Z.of_nat (size (slots due)) <= 32 /\ bool_decide (1%nat ∈ slots due) = true.
Proof.
  split; [|vm_compute; reflexivity].
  destruct (transfer_concurrency sample_cfg due due_reachable) as [H _]; [vm_compute; reflexivity|exact H].
Defined.

Lemma transfer_idle_witness :
  exists s' r', server_step sample_cfg due s' /\ requests s' !! 1%nat = Some r' /\ expired (tr_activity r') = true.
Proof.
  destruct (requests due !! 1%nat) as [r|] eqn:Hr; [|vm_compute in Hr; discriminate Hr].
  destruct (transfer_idle sample_cfg due 1 r due_reachable Hr) as (_ & _ & H).
  vm_compute in Hr. injection Hr as Hr. subst r.
  destruct H as (s' & r' & H1 & H2 & H3 & _); [reflexivity|reflexivity|vm_compute; discriminate|].
  exists s', r'. split; [exact H1|]. split; [exact H2|exact H3].
Defined.

Lemma finish_bounds_witness :
  finished (finish sample_cfg 5 (newActivity 10 0)) = true /\ connRead (finish sample_cfg 5 (newActivity 10 0)) = Some (Some 15).
Proof.
  split; [|vm_compute; reflexivity].
  destruct (finish_bounds sample_cfg 5 (newActivity 10 0)) as (H & _); [reflexivity|exact H].
Defined.

(** A writer that takes everything, at time 7. *)
#[local] Instance all_writer : ResponseWriter (list gostring) unit :=
  {| w_Write w p := (Z.of_nat (length p), None, 7, w ++ [p]) |}.
Lemma write_whole_witness :
  exists pieces, (Write (E := unit) (str "abc") [] (newActivity 10 0)).1.2 = write_pieces (E := unit) [] pieces.
Proof.
  pose proof (write_whole (E := unit) (str "abc") [] (newActivity 10 0)) as H.
  destruct (Write (str "abc") [] (newActivity 10 0)) as [[[n err] w'] a']. destruct H as (pieces & H & _); [discriminate|].
  exists pieces. exact H.
Defined.
