(* ===== verification/UploadPublisher.v ===== *)
(** * Publication of upload events (src/internal/uploadnotify/kafka.go)

    The publisher sends one record per configured destination and waits for all
    of them under one time-out.  [Notify] is a program over what it asks of the
    Kafka client; the results of the records arrive in any order.  The JSON
    encoder, the identifiers and the clock are the environment. *)

From S2P Require Import Prelude GoStrings Config.

#[local] Open Scope Z_scope.

(** ** Events *)

(** [uploadnotify.Event]; the zero time is [None]. *)
Record Event := {
  ne_SchemaVersion : Z; ne_EventID : gostring; ne_EventName : gostring; ne_Bucket : gostring; ne_Key : gostring;
  ne_ETag : gostring; ne_VersionID : gostring; ne_UploadID : gostring; ne_Uploader : gostring; ne_OccurredAt : option instant
}.
Definition SchemaVersion : Z := 1.

(** [json.Marshal] of an event; [None] is its error. *)
Class EventEncoder := { Marshal_event : Event -> option gostring }.

(** ** The publisher *)

Record KafkaPublisher := { bucketTopicEnabled : bool; globalTopic : gostring; timeout : Z }.

(** The errors; [e] is what the client or the context reports. *)
Inductive NotifyError :=
| BrokersRequired | TimeoutNotPositive | NoTopicEnabled | GlobalTopicCollision | ClientError
| BucketRequired | BucketConflicts | KeyRequired | EncodeError | NoTopics
| PublishFailed (topics : list gostring) (contextEnded : bool).

Section Publisher.
Context {EE : EventEncoder}.

(** [client] is whether [kafkaclient.New] succeeds. *)
Definition NewKafkaPublisher (client : bool) (brokers : list gostring) (bucketTopicEnabled : bool) (globalTopic : gostring)
    (timeout : Z) : result NotifyError KafkaPublisher :=
  require! negb (bool_decide (brokers = [])) else BrokersRequired in
  require! 0 <? timeout else TimeoutNotPositive in
  require! bucketTopicEnabled || negb (blank globalTopic) else NoTopicEnabled in
  require! ValidateKafkaGlobalTopic bucketTopicEnabled globalTopic else GlobalTopicCollision in
  require! client else ClientError in
  Ok {| bucketTopicEnabled := bucketTopicEnabled; globalTopic := TrimSpace globalTopic; timeout := timeout |}.

Definition topicsFor (p : KafkaPublisher) (bucket : gostring) : list gostring :=
  (if bucketTopicEnabled p then [bucket] else []) ++
  (if bool_decide (globalTopic p <> []) && (negb (bucketTopicEnabled p) || bool_decide (globalTopic p <> bucket))
   then [globalTopic p] else []).

(** What [Notify] fills in: the version, the time, an identifier. *)
Definition complete_event (now : instant) (uuid : gostring) (e : Event) : Event :=
  {| ne_SchemaVersion := if ne_SchemaVersion e =? 0 then SchemaVersion else ne_SchemaVersion e;
     ne_EventID := if blank (ne_EventID e) then uuid else ne_EventID e; ne_EventName := ne_EventName e;
     ne_Bucket := ne_Bucket e; ne_Key := ne_Key e; ne_ETag := ne_ETag e; ne_VersionID := ne_VersionID e;
     ne_UploadID := ne_UploadID e; ne_Uploader := ne_Uploader e;
     ne_OccurredAt := match ne_OccurredAt e with None => Some now | t => t end |}.

Record KafkaRecord := { kr_Topic : gostring; kr_Key : gostring; kr_Value : gostring; kr_Headers : list (gostring * gostring) }.
Definition event_record (e : Event) (payload topic : gostring) : KafkaRecord :=
  {| kr_Topic := topic; kr_Key := ne_Bucket e ++ str "/" ++ ne_Key e; kr_Value := payload;
     kr_Headers := [(str "content-type", str "application/json")] |}.

(** ** The program *)

(** A result of a record: its topic and whether it failed; or the end of the
    publication's context. *)
Inductive Answer := Result (topic : gostring) (failed : bool) | ContextDone.

Inductive Publication : Type :=
| Return (r : option NotifyError)
| Produce (record : KafkaRecord) (k : Publication)
| Await (k : Answer -> Publication).

Fixpoint await_results (remaining : nat) (publishErrors : list gostring) : Publication :=
  match remaining with
  | O => Return (match publishErrors with [] => None | _ => Some (PublishFailed publishErrors false) end)
  | S remaining' =>
    Await (fun answer =>
      match answer with
      | Result topic failed => await_results remaining' (if failed : bool then publishErrors ++ [topic] else publishErrors)
      | ContextDone => Return (Some (PublishFailed publishErrors true))
      end)
  end.

Fixpoint produce_all (records : list KafkaRecord) (k : Publication) : Publication :=
  match records with
  | [] => k
  | r :: rest => Produce r (produce_all rest k)
  end.

Definition Notify (p : KafkaPublisher) (now : instant) (uuid : gostring) (event : Event) : Publication :=
  if blank (ne_Bucket event) then Return (Some BucketRequired)
  else if bucketTopicEnabled p && bool_decide (ne_Bucket event = globalTopic p) then Return (Some BucketConflicts)
  else if bool_decide (ne_Key event = []) then Return (Some KeyRequired)
  else
    let event := complete_event now uuid event in
    match Marshal_event event with
    | None => Return (Some EncodeError)
    | Some payload =>
      match topicsFor p (ne_Bucket event) with
      | [] => Return (Some NoTopics)
      | topics => produce_all (map (event_record event payload) topics) (await_results (length topics) [])
      end
    end.

(** A run: what happens, in order, and the result. *)
Inductive Happening := Produced (r : KafkaRecord) | Received (a : Answer).
Inductive runs : Publication -> list Happening -> option NotifyError -> Prop :=
| runs_return r : runs (Return r) [] r
| runs_produce record k t r : runs k t r -> runs (Produce record k) (Produced record :: t) r
| runs_await k a t r : runs (k a) t r -> runs (Await k) (Received a :: t) r.

Definition produced (t : list Happening) : list KafkaRecord :=
  omap (fun h => match h with Produced r => Some r | _ => None end) t.
Definition results (t : list Happening) : list (gostring * bool) :=
  omap (fun h => match h with Received (Result topic failed) => Some (topic, failed) | _ => None end) t.

(** What the code relies on of the client: it reports on each record at most once. *)
Definition promised (t : list Happening) : Prop := (results t).*1 ⊆+ map kr_Topic (produced t).

(** ** Lemmas *)

Lemma topicsFor_nodup p bucket : NoDup (topicsFor p bucket).
Proof.
  unfold topicsFor. destruct (bucketTopicEnabled p); cbn [negb orb].
  - destruct (bool_decide (globalTopic p <> [])); cbn [andb]; [|apply NoDup_singleton].
    destruct (bool_decide (globalTopic p <> bucket)) eqn:Hb; cbn [app]; [|apply NoDup_singleton].
    apply bool_decide_eq_true in Hb. apply NoDup_cons. split; [set_solver|apply NoDup_singleton].
  - rewrite andb_true_r. destruct (bool_decide _); [apply NoDup_singleton|constructor].
Qed.

Lemma produce_all_runs records k t r :
  runs (produce_all records k) t r -> exists t', t = map Produced records ++ t' /\ runs k t' r.
Proof.
  revert t. induction records as [|x records IH]; intros t H; cbn in *; [by exists t|].
  inversion H as [|? ? t0 ? Hrest|]; subst. destruct (IH t0 Hrest) as (t' & -> & Hk). by exists t'.
Qed.

Lemma results_received topic failed t : results (Received (Result topic failed) :: t) = (topic, failed) :: results t.
Proof. done. Qed.

(** A wait that ends well has received one result per record, none failed. *)
Lemma await_runs n errs t r :
  runs (await_results n errs) t r ->
  produced t = [] /\
  (r = None -> errs = [] /\ length (results t) = n /\ Forall (fun x => x.2 = false) (results t)) /\
  (forall e, r = Some e -> exists topics ended, e = PublishFailed topics ended /\
     (ended = true -> Received ContextDone ∈ t) /\ (ended = false -> topics <> []) /\
     forall topic, topic ∈ topics -> topic ∈ errs \/ (topic, true) ∈ results t).
Proof.
  revert errs t. induction n as [|n IH]; intros errs t H; cbn in H.
  - inversion H; subst. destruct errs as [|x errs]; (split; [done|split]); try done.
    intros e [= <-]. exists (x :: errs), false. split_and!; try done. intros topic Ht. by left.
  - inversion H as [| |k a t' ? Hk]; subst. destruct a as [topic failed|].
    + rewrite results_received. destruct (IH _ _ Hk) as (Hp & Hok & Herr). split; [exact Hp|]. split.
      * intros Hr. destruct (Hok Hr) as (He & Hl & Hf). destruct failed; [by destruct errs|]. cbn [length]. rewrite Hl. split_and!; [done|done|by constructor].
      * intros e Hr. destruct (Herr e Hr) as (topics & ended & -> & H1 & H2 & H3). exists topics, ended. split_and!; try done.
        { intros He. apply list_elem_of_further. by apply H1. }
        intros x Hx. destruct (H3 x Hx) as [Hin|Hin].
        -- destruct failed; [|by left]. apply elem_of_app in Hin as [Hin| ->%list_elem_of_singleton]; [by left|]. right. left.
        -- right. by right.
    + inversion Hk; subst. split; [done|]. split; [done|]. intros e [= <-]. exists errs, true. split_and!; try done.
      { intros _. left. } intros x Hx. by left.
Qed.

Lemma produced_map records t : produced (map Produced records ++ t) = records ++ produced t.
Proof. induction records as [|x l IH]; [done|]. cbn. by f_equal. Qed.
Lemma results_map records t : results (map Produced records ++ t) = results t.
Proof. induction records as [|x l IH]; [done|]. exact IH. Qed.

(** ** What publication guarantees *)

(** C36. [Notify] reports success only when every configured destination of the
    event's bucket has acknowledged one record of it, all with the same payload
    and the key bucket/key; nothing is sent to any other topic, and no topic
    twice. *)
Theorem notify_acknowledged p now uuid event t :
  runs (Notify p now uuid event) t None -> promised t ->
  exists payload,
    Marshal_event (complete_event now uuid event) = Some payload /\
    topicsFor p (ne_Bucket event) <> [] /\ NoDup (topicsFor p (ne_Bucket event)) /\
    produced t = map (event_record event payload) (topicsFor p (ne_Bucket event)) /\
    forall topic, topic ∈ topicsFor p (ne_Bucket event) <-> (topic, false) ∈ results t.
Proof.
  unfold Notify. intros H Hpromise. destruct (blank _); [inversion H|]. destruct (_ && _); [inversion H|].
  destruct (bool_decide _); [inversion H|]. destruct (Marshal_event _) as [payload|]; [|inversion H].
  exists payload. split; [done|]. cbn [complete_event ne_Bucket] in *.
  pose proof (topicsFor_nodup p (ne_Bucket event)) as Hnd. destruct (topicsFor p (ne_Bucket event)) as [|x l] eqn:Htopics; [inversion H|].
  rewrite <- Htopics in *. assert (Hne : topicsFor p (ne_Bucket event) <> []) by (by rewrite Htopics).
  apply produce_all_runs in H as (t' & -> & H). apply await_runs in H as (Hp & Hok & _). destruct (Hok eq_refl) as (_ & Hl & Hf).
  unfold promised in Hpromise. rewrite produced_map, results_map, Hp, app_nil_r in *. rewrite map_map in Hpromise. cbn in Hpromise.
  rewrite map_id in Hpromise. apply submseteq_length_Permutation in Hpromise as Hperm; [|by rewrite length_fmap, Hl].
  split_and!; [done|done|done|]. intros topic. rewrite <- Hperm, list_elem_of_fmap. split.
  - intros ([y b] & -> & Hy). rewrite Forall_forall in Hf. specialize (Hf _ Hy). cbn in Hf. by subst b.
  - intros Hin. by exists (topic, false).
Qed.

(** When [Notify] fails after it has sent something, either the
    publication's context ended, or the destinations it names did fail. *)
Theorem notify_failure p now uuid event t e :
  runs (Notify p now uuid event) t (Some e) -> produced t <> [] ->
  exists topics ended, e = PublishFailed topics ended /\
    (ended = true -> Received ContextDone ∈ t) /\ (ended = false -> topics <> []) /\
    forall topic, topic ∈ topics -> (topic, true) ∈ results t.
Proof.
  unfold Notify. intros H Hsent.
  destruct (blank _); [by inversion H; subst|]. destruct (_ && _); [by inversion H; subst|].
  destruct (bool_decide _); [by inversion H; subst|]. destruct (Marshal_event _) as [payload|]; [|by inversion H; subst].
  destruct (topicsFor _ _) as [|x l]; [by inversion H; subst|].
  apply produce_all_runs in H as (t' & -> & H). apply await_runs in H as (_ & _ & Herr).
  destruct (Herr e eq_refl) as (topics & ended & -> & H1 & H2 & H3). exists topics, ended. rewrite results_map. split_and!; try done.
  - intros He. apply elem_of_app. right. by apply H1.
  - intros topic Ht. by destruct (H3 topic Ht) as [?%not_elem_of_nil|?].
Qed.

(** The destinations a publisher was configured for never collide: for a
    bucket whose name does not start with an underscore, which no bucket's does,
    the event goes to the bucket's topic if these are enabled and to the global
    one if there is one, and to at least one of them. *)
Theorem destinations_distinct client brokers bucketTopics global timeout p bucket :
  NewKafkaPublisher client brokers bucketTopics global timeout = Ok p -> HasPrefix bucket (str "_") = false ->
  topicsFor p bucket = (if bucketTopics then [bucket] else []) ++ (if bool_decide (TrimSpace global <> []) then [TrimSpace global] else []) /\
  topicsFor p bucket <> [] /\ NoDup (topicsFor p bucket) /\ (bucketTopics = true -> bucket <> globalTopic p \/ globalTopic p = []).
Proof.
  unfold NewKafkaPublisher. intros H Hb. requires H. injection H as <-.
  assert (Hne : bucketTopics = true -> TrimSpace global = [] \/ TrimSpace global <> bucket).
  { intros ->. destruct (decide (TrimSpace global = [])) as [|Hg]; [by left|]. right. intros Heq.
    match goal with R : ValidateKafkaGlobalTopic _ _ = true |- _ => unfold ValidateKafkaGlobalTopic in R; cbv zeta in R;
      by rewrite (bool_decide_eq_true_2 _ Hg), Heq, Hb in R end. }
  pose proof (topicsFor_nodup {| bucketTopicEnabled := bucketTopics; globalTopic := TrimSpace global; timeout := timeout |} bucket) as Hnd.
  assert (Heq : topicsFor {| bucketTopicEnabled := bucketTopics; globalTopic := TrimSpace global; timeout := timeout |} bucket
    = (if bucketTopics then [bucket] else []) ++ (if bool_decide (TrimSpace global <> []) then [TrimSpace global] else [])).
  { unfold topicsFor. cbn [bucketTopicEnabled globalTopic]. destruct bucketTopics; cbn [negb orb]; [|by rewrite andb_true_r].
    destruct (Hne eq_refl) as [Hg|Hg]; [by rewrite Hg|]. rewrite (bool_decide_eq_true_2 _ Hg), andb_true_r. done. }
  split; [done|]. split; [|split; [done|]].
  - rewrite Heq. destruct bucketTopics; [done|]. cbn [orb] in *. unfold blank in *. destruct (decide (TrimSpace global = [])) as [Hg|Hg].
    + rewrite bool_decide_eq_true_2 in R1 by done. done.
    + rewrite bool_decide_eq_true_2 by done. done.
  - cbn [globalTopic]. intros Ht. destruct (Hne Ht); [by right|left]. congruence.
Qed.
End Publisher.

(** A valid configuration with brokers gives a publisher, if the Kafka
    client itself can be made. *)
Theorem configured_publisher {U : UnicodeCase} {P : AdminWeb.URLParser} {R : SplunkHec.RequestURIs} {N : DistinguishedNames} cfg :
  Validate cfg = Ok tt -> c_KafkaBrokers cfg <> [] ->
  NewKafkaPublisher true (c_KafkaBrokers cfg) (c_EnableKafkaBucketTopic cfg) (c_KafkaGlobalTopic cfg) (c_KafkaNotificationTimeout cfg)
    = Ok {| bucketTopicEnabled := c_EnableKafkaBucketTopic cfg; globalTopic := TrimSpace (c_KafkaGlobalTopic cfg);
            timeout := c_KafkaNotificationTimeout cfg |}.
Proof.
  intros (_ & _ & _ & _ & _ & _ & _ & Hk & _)%Validate_Ok Hb. unfold validate_kafka in Hk. cbv zeta in Hk. requires Hk.
  rewrite (bool_decide_eq_false_2 _ Hb) in Hk. requires Hk. unfold positive in *. unfold NewKafkaPublisher.
  rewrite (bool_decide_eq_false_2 _ Hb). cbn [negb rguard rbind].
  repeat match goal with H : ?b = true |- context [?b] => rewrite H end. done.
Qed.

(** ** Witnesses *)

#[local] Instance sample_encoder : EventEncoder := {| Marshal_event e := Some (ne_Key e) |}.
Definition sample_publisher : KafkaPublisher := {| bucketTopicEnabled := true; globalTopic := str "_uploads"; timeout := 5 * second |}.
Definition sample_event : Event :=
  {| ne_SchemaVersion := 0; ne_EventID := []; ne_EventName := str "ObjectCreated:Put"; ne_Bucket := str "photos"; ne_Key := str "cat";
     ne_ETag := []; ne_VersionID := []; ne_UploadID := []; ne_Uploader := str "alice"; ne_OccurredAt := None |}.
Definition sample_records : list KafkaRecord :=
  map (event_record (complete_event 7 (str "id") sample_event) (str "cat")) [str "photos"; str "_uploads"].
(** The results come in the other order; in the second run one is a failure. *)
Definition sample_trace (failed : bool) : list Happening :=
  map Produced sample_records ++ [Received (Result (str "_uploads") false); Received (Result (str "photos") failed)].

Lemma sample_runs failed :
  runs (Notify sample_publisher 7 (str "id") sample_event) (sample_trace failed)
    (if failed then Some (PublishFailed [str "photos"] false) else None).
Proof. destruct failed; cbn; repeat constructor. Qed.

Lemma notify_acknowledged_witness :
  exists payload, produced (sample_trace false) = map (event_record (complete_event 7 (str "id") sample_event) payload)
    (topicsFor sample_publisher (str "photos")) /\ length (produced (sample_trace false)) = 2%nat.
Proof.
  destruct (notify_acknowledged sample_publisher 7 (str "id") sample_event (sample_trace false)) as (payload & _ & _ & _ & H & _).
  - exact (sample_runs false).
  - apply (bool_decide_unpack _). vm_compute. exact I.
  - exists payload. split; [exact H|reflexivity].
Defined.

Lemma notify_failure_witness :
  exists topics ended, Some (PublishFailed [str "photos"] false) = Some (PublishFailed topics ended) /\
    forall topic, topic ∈ topics -> (topic, true) ∈ results (sample_trace true).
Proof.
  destruct (notify_failure sample_publisher 7 (str "id") sample_event (sample_trace true) (PublishFailed [str "photos"] false))
    as (topics & ended & H1 & _ & _ & H2); [exact (sample_runs true)|discriminate|].
  exists topics, ended. split; [f_equal; exact H1|exact H2].
Defined.

Lemma destinations_distinct_witness : topicsFor sample_publisher (str "photos") = [str "photos"; str "_uploads"].
Proof.
  exact (proj1 (destinations_distinct true [str "kafka:9092"] true (str " _uploads ") (5 * second) sample_publisher (str "photos")
    eq_refl eq_refl)).
Defined.

Definition kafka_env (key : gostring) : gostring :=
  if bool_decide (key = str "KAFKA_BROKERS") then str "kafka:9092" else
  if bool_decide (key = str "KAFKA_GLOBAL_TOPIC") then str "uploads" else sample_env [] key.
Lemma configured_publisher_witness :
  match LoadConfig (U := latin1_case) (P := sample_urls) (R := sample_uris) (D := sample_durations) (N := sample_names) kafka_env [] with
  | Ok cfg => NewKafkaPublisher true (c_KafkaBrokers cfg) (c_EnableKafkaBucketTopic cfg) (c_KafkaGlobalTopic cfg) (c_KafkaNotificationTimeout cfg)
      = Ok {| bucketTopicEnabled := false; globalTopic := str "uploads"; timeout := 5 * second |}
  | Err _ => False
  end.
Proof.
  destruct (LoadConfig (U := latin1_case) (P := sample_urls) (R := sample_uris) (D := sample_durations) (N := sample_names) kafka_env [])
    as [cfg|e] eqn:H; [|vm_compute in H; discriminate H].
  assert (Hv : Validate (U := latin1_case) (P := sample_urls) (R := sample_uris) (N := sample_names) cfg = Ok tt /\ c_KafkaBrokers cfg <> [] /\
    c_EnableKafkaBucketTopic cfg = false /\ TrimSpace (c_KafkaGlobalTopic cfg) = str "uploads" /\ c_KafkaNotificationTimeout cfg = 5 * second).
  { vm_compute in H. injection H as <-. split_and!; [vm_compute; reflexivity|discriminate|vm_compute; reflexivity..]. }
  destruct Hv as (Hv & Hb & He & Hg & Ht).
  rewrite (configured_publisher (U := latin1_case) (P := sample_urls) (R := sample_uris) (N := sample_names) cfg Hv Hb), He, Hg, Ht. reflexivity.
Defined.
