(* ===== verification/Ldap.v ===== *)
(** * Group lookup in the directory (src/internal/ldap/ldap.go)

    [FetchGroupsUPN] binds as the user and reads the user's own entry; the
    groups it returns are the common names of the memberships that lie directly
    in the configured container.  The directory is the environment, asked in
    turn; names are parsed and compared, and filters escaped, by the LDAP
    library, an interface. *)

From S2P Require Import Prelude GoStrings Config.

#[local] Open Scope Z_scope.

(** [ldap.EscapeFilter]. *)
Class Filters := { EscapeFilter : gostring -> gostring }.

(** ** What is asked of the directory *)

Record SearchRequest := {
  sq_BaseDN : gostring; sq_SizeLimit : Z; sq_TimeLimit : Z; sq_TypesOnly : bool; sq_Filter : gostring; sq_Attributes : list gostring
}.
(** The failure of a bind, by whether its code is that of invalid credentials. *)
Inductive BindFailure := InvalidCredentials | OtherBindFailure.

Inductive Ask :=
| Dial (url : gostring) (timeout : Z)
| SetTimeout (timeout : Z)
| Bind (name password : gostring)
| Search (request : SearchRequest)       (* the memberOf values of each entry *)
| CloseConn.
Definition Reply (a : Ask) : Type :=
  match a with
  | Dial _ _ => bool                       (* whether there is a connection *)
  | Bind _ _ => option BindFailure
  | Search _ => option (list (list gostring))
  | SetTimeout _ | CloseConn => unit
  end.

Inductive LProg (R : Type) : Type := LRet (r : R) | LAsk (a : Ask) (k : Reply a -> LProg R).
Arguments LRet {R} r.
Arguments LAsk {R} a k.

Inductive LdapError :=
| BadContainer (message : gostring) | DialFailed | RejectedCredentials | BindFailed | SearchFailed | NotOneEntry (count : nat).

(** ** The lookup *)

Definition defaultLDAPOperationTimeout : Z := 10 * second.

Section Ldap.
Context {U : UnicodeCase} {N : DistinguishedNames} {F : Filters}.

Definition trustedGroupCN (dn : gostring) (container : list RDN) : gostring :=
  if bool_decide (container = []) then []
  else
    match ParseDN dn with
    | None => []
    | Some parsed =>
      if negb (length parsed =? length container + 1)%nat then []
      else
        match parsed with
        | [] => []
        | leaf :: parent =>
          if negb (DN_EqualFold parent container) then []
          else
            match leaf with
            | [attribute] => if EqualFold (dn_Type attribute) (str "CN") then TrimSpace (dn_Value attribute) else []
            | _ => []
            end
        end
    end.

Definition wrapBindError (e : BindFailure) : LdapError :=
  match e with InvalidCredentials => RejectedCredentials | OtherBindFailure => BindFailed end.

Definition add_group (container : list RDN) (groups : gset gostring) (dn : gostring) : gset gostring :=
  let cn := trustedGroupCN dn container in
  if bool_decide (cn <> []) then {[ToLower cn]} ∪ groups else groups.

Definition group_request (cfg : Config) (upnWithDomain : gostring) : SearchRequest :=
  {| sq_BaseDN := c_BaseDN cfg; sq_SizeLimit := 1; sq_TimeLimit := 5; sq_TypesOnly := false;
     sq_Filter := str "(userPrincipalName=" ++ EscapeFilter upnWithDomain ++ str ")"; sq_Attributes := [str "memberOf"] |}.

(** The deferred close comes with every return after the dial. *)
Definition closing {R} (r : R) : LProg R := LAsk CloseConn (fun _ => LRet r).

Definition FetchGroupsUPN (cfg : Config) (upn password : gostring) : LProg (result LdapError (gset gostring)) :=
  match LDAPGroupContainerDN cfg with
  | Err message => LRet (Err (BadContainer message))
  | Ok groupContainer =>
    let operationTimeout := if c_LDAPOperationTimeout cfg <=? 0 then defaultLDAPOperationTimeout else c_LDAPOperationTimeout cfg in
    LAsk (Dial (c_LDAPURL cfg) operationTimeout) (fun connected =>
      if negb connected then LRet (Err DialFailed)
      else
        LAsk (SetTimeout operationTimeout) (fun _ =>
          let upnWithDomain := upn ++ str "@" ++ EscapeFilter (c_LDAPDomain cfg) in
          LAsk (Bind upnWithDomain password) (fun failure =>
            match failure with
            | Some e => closing (Err (wrapBindError e))
            | None =>
              LAsk (Search (group_request cfg upnWithDomain)) (fun entries =>
                match entries with
                | None => closing (Err SearchFailed)
                | Some [memberOf] => closing (Ok (fold_left (add_group groupContainer) memberOf ∅))
                | Some l => closing (Err (NotOneEntry (length l)))
                end)
            end)))
  end.

(** ** Runs *)

Inductive Asked : Type := AskedFor (a : Ask) (r : Reply a).
Inductive lruns {R} : LProg R -> list Asked -> R -> Prop :=
| lruns_ret r : lruns (LRet r) [] r
| lruns_ask a k x t r : lruns (k x) t r -> lruns (LAsk a k) (AskedFor a x :: t) r.

Lemma lruns_ask_inv {R} a (k : Reply a -> LProg R) t r :
  lruns (LAsk a k) t r -> exists x t', t = AskedFor a x :: t' /\ lruns (k x) t' r.
Proof. intros H. refine match H in lruns m t r return match m with LRet _ => True | LAsk a k => exists x t', t = AskedFor a x :: t' /\ lruns (k x) t' r end
    with lruns_ret r => I | lruns_ask a k x t r Hk => _ end. by exists x, t. Qed.
Lemma lruns_ret_inv {R} (x : R) t r : lruns (LRet x) t r -> t = [] /\ r = x.
Proof. inversion 1; subst. done. Qed.
Lemma lruns_closing_inv {R} (x : R) t r : lruns (closing x) t r -> t = [AskedFor CloseConn tt] /\ r = x.
Proof. intros ([] & t' & -> & [-> ->]%lruns_ret_inv)%lruns_ask_inv. done. Qed.

(** ** What the lookup guarantees *)

(** A membership that counts: its name is one CN attribute directly below the
    container. *)
Definition member_of (container : list RDN) (dn cn : gostring) : Prop :=
  exists attribute parent, ParseDN dn = Some ([attribute] :: parent) /\ length parent = length container /\
    DN_EqualFold parent container = true /\ EqualFold (dn_Type attribute) (str "CN") = true /\ cn = TrimSpace (dn_Value attribute).

Lemma trustedGroupCN_exact dn container cn :
  container <> [] -> cn <> [] -> (trustedGroupCN dn container = cn <-> member_of container dn cn).
Proof.
  intros Hc Hcn. unfold trustedGroupCN, member_of. rewrite bool_decide_eq_false_2 by done.
  destruct (ParseDN dn) as [parsed|]; [|split; [congruence|by intros (a & p & ? & _)]].
  destruct (Nat.eqb_spec (length parsed) (length container + 1)) as [Hl|Hl]; cbn [negb].
  - destruct parsed as [|leaf parent]; [cbn in Hl; lia|]. cbn in Hl. destruct (DN_EqualFold parent container) eqn:He; cbn [negb].
    + destruct leaf as [|attribute [|]]; [split; [congruence|by intros (a & p & ? & _)]| |split; [congruence|by intros (a & p & ? & _)]].
      destruct (EqualFold (dn_Type attribute) (str "CN")) eqn:Ht.
      * split; [intros <-; exists attribute, parent; split_and!; [done|lia|done..]|]. intros (a & p & Heq & _ & _ & _ & ->). by simplify_eq.
      * split; [congruence|]. intros (a & p & Heq & _ & _ & Ht' & _). simplify_eq. congruence.
    + split; [congruence|]. intros (a & p & Heq & _ & He' & _). simplify_eq. congruence.
  - split; [congruence|]. intros (a & p & Heq & Hp & _). simplify_eq. cbn in Hl. lia.
Qed.

Lemma add_groups container memberOf groups g :
  g ∈ fold_left (add_group container) memberOf groups <->
  g ∈ groups \/ exists dn, dn ∈ memberOf /\ trustedGroupCN dn container <> [] /\ g = ToLower (trustedGroupCN dn container).
Proof.
  revert groups. induction memberOf as [|dn l IH]; intros groups; cbn [fold_left].
  { split; [by left|]. intros [?|(dn & ?%not_elem_of_nil & _)]; done. }
  rewrite IH. unfold add_group. cbv zeta. setoid_rewrite elem_of_cons. case_bool_decide; set_solver.
Qed.

(** C25. The lookup returns groups only for a user whom the directory has just
    let bind with that password under the name in the configured domain, from
    the only entry it finds for exactly that name; a group is among them if and
    only if the entry has a membership directly in the configured container
    whose common name it is, in lower case.  The connection is closed. *)
Theorem groups_trusted cfg upn password t groups :
  lruns (FetchGroupsUPN cfg upn password) t (Ok groups) ->
  exists container timeout memberOf,
    LDAPGroupContainerDN cfg = Ok container /\
    let name := upn ++ str "@" ++ EscapeFilter (c_LDAPDomain cfg) in
    t = [AskedFor (Dial (c_LDAPURL cfg) timeout) true; AskedFor (SetTimeout timeout) tt; AskedFor (Bind name password) None;
         AskedFor (Search (group_request cfg name)) (Some [memberOf]); AskedFor CloseConn tt] /\
    forall g, g ∈ groups <-> exists dn cn, dn ∈ memberOf /\ cn <> [] /\ member_of container dn cn /\ g = ToLower cn.
Proof.
  unfold FetchGroupsUPN. destruct (LDAPGroupContainerDN cfg) as [container|message] eqn:Hc; [|by intros [_ ?]%lruns_ret_inv].
  assert (Hne : container <> []).
  { unfold LDAPGroupContainerDN in Hc. cbv zeta in Hc. apply require_Ok in Hc as [_ Hc].
    destruct (ParseDN _) as [[|r l]|]; [done| |done]. apply require_Ok in Hc as [_ Hc]. by injection Hc as <-. }
  cbv zeta. intros ([|] & t1 & -> & H)%lruns_ask_inv; cbn [negb] in H; [|by apply lruns_ret_inv in H as [_ ?]].
  apply lruns_ask_inv in H as ([] & t2 & -> & H). apply lruns_ask_inv in H as ([e|] & t3 & -> & H); [by apply lruns_closing_inv in H as [_ ?]|].
  apply lruns_ask_inv in H as ([[|memberOf [|]]|] & t4 & -> & H); try by apply lruns_closing_inv in H as [_ ?].
  apply lruns_closing_inv in H as [-> [= ->]]. eexists container, _, memberOf. split; [done|]. split; [reflexivity|].
  intros g. rewrite add_groups. split.
  - intros [?%elem_of_empty|(dn & Hdn & Hcn & ->)]; [done|]. exists dn, (trustedGroupCN dn container).
    split_and!; [done|done|by apply trustedGroupCN_exact|done].
  - intros (dn & cn & Hdn & Hcn & Hm & ->). right. exists dn. apply trustedGroupCN_exact in Hm as Heq; [|done..]. by rewrite Heq.
Qed.

(** Credentials are reported as rejected only if the directory itself said
    that they are invalid, at a bind with them. *)
Theorem rejection_sound cfg upn password t :
  lruns (FetchGroupsUPN cfg upn password) t (Err RejectedCredentials) ->
  AskedFor (Bind (upn ++ str "@" ++ EscapeFilter (c_LDAPDomain cfg)) password) (Some InvalidCredentials) ∈ t /\
  last t = Some (AskedFor CloseConn tt).
Proof.
  unfold FetchGroupsUPN. destruct (LDAPGroupContainerDN cfg) as [container|message]; [|by intros [_ ?]%lruns_ret_inv].
  cbv zeta. intros ([|] & t1 & -> & H)%lruns_ask_inv; cbn [negb] in H; [|by apply lruns_ret_inv in H as [_ ?]].
  apply lruns_ask_inv in H as ([] & t2 & -> & H). apply lruns_ask_inv in H as ([[|]|] & t3 & -> & H).
  - apply lruns_closing_inv in H as [-> _]. split; [|done]. by do 2 apply list_elem_of_further; left.
  - by apply lruns_closing_inv in H as [_ ?].
  - apply lruns_ask_inv in H as ([[|memberOf [|]]|] & t4 & -> & H); by apply lruns_closing_inv in H as [_ ?].
Qed.
End Ldap.

(** ** Witnesses *)

(** Names as comma-separated attributes, compared as they stand. *)
Definition attribute_of (part : gostring) : RDN :=
  match Cut part "="%byte with Some (t, v) => [{| dn_Type := t; dn_Value := v |}] | None => [{| dn_Type := []; dn_Value := part |}] end.
#[local] Instance plain_names : DistinguishedNames :=
  {| ParseDN s := Some (map attribute_of (Split s ","%byte));
     DN_EqualFold a b := bool_decide (map (map dn_Value) a = map (map dn_Value) b) |}.
#[local] Instance plain_filters : Filters := {| EscapeFilter s := s |}.
Definition ldap_config : Config := match sample_loaded [] with Ok c => c | Err _ => zero_config end.
Definition ldap_name : gostring := str "alice@example.com".
Definition ldap_start : list Asked := [AskedFor (Dial (str "value") (10 * second)) true; AskedFor (SetTimeout (10 * second)) tt].
Definition found (memberOf : list gostring) : list Asked :=
  ldap_start ++ [AskedFor (Bind ldap_name (str "pw")) None; AskedFor (Search (group_request ldap_config ldap_name)) (Some [memberOf]);
                 AskedFor CloseConn tt].
Definition memberships : list gostring := [str "CN=Team_R,value"; str "CN=Nested,OU=sub,value"; str "CN=Other,elsewhere"].
Definition found_groups : gset gostring :=
  fold_left (add_group (U := latin1_case) [[{| dn_Type := []; dn_Value := str "value" |}]]) memberships ∅.

Lemma found_runs :
  lruns (FetchGroupsUPN (U := latin1_case) ldap_config (str "alice") (str "pw")) (found memberships) (Ok found_groups).
Proof.
  assert (Hc : LDAPGroupContainerDN ldap_config = Ok [[{| dn_Type := []; dn_Value := str "value" |}]]) by (vm_compute; reflexivity).
  unfold FetchGroupsUPN. rewrite Hc. cbv zeta.
  apply (lruns_ask (Dial _ _) _ true). apply (lruns_ask (SetTimeout _) _ tt). apply (lruns_ask (Bind _ _) _ None).
  apply (lruns_ask (Search _) _ (Some [memberships])). apply (lruns_ask CloseConn _ tt). constructor.
Qed.

Lemma groups_trusted_witness : bool_decide (str "team_r" ∈ found_groups) = true /\ str "nested" ∉ found_groups /\
  forall g, g ∈ found_groups -> exists cn, cn <> [] /\ g = ToLower (U := latin1_case) cn.
Proof.
  destruct (groups_trusted (U := latin1_case) ldap_config (str "alice") (str "pw") (found memberships) found_groups found_runs)
    as (container & timeout & memberOf & _ & _ & Hg).
  split; [vm_compute; reflexivity|]. split; [apply (bool_decide_unpack _); vm_compute; exact I|].
  intros g H. apply Hg in H as (dn & cn & _ & Hcn & _ & ->). exists cn. split; [exact Hcn|reflexivity].
Defined.

Lemma rejection_sound_witness :
  exists t, lruns (FetchGroupsUPN (U := latin1_case) ldap_config (str "alice") (str "no")) t (Err RejectedCredentials) /\
    last t = Some (AskedFor CloseConn tt).
Proof.
  set (t := ldap_start ++ [AskedFor (Bind ldap_name (str "no")) (Some InvalidCredentials); AskedFor CloseConn tt]).
  assert (Hr : lruns (FetchGroupsUPN (U := latin1_case) ldap_config (str "alice") (str "no")) t (Err RejectedCredentials)).
  { assert (Hc : LDAPGroupContainerDN ldap_config = Ok [[{| dn_Type := []; dn_Value := str "value" |}]]) by (vm_compute; reflexivity).
    unfold FetchGroupsUPN. rewrite Hc. cbv zeta.
    apply (lruns_ask (Dial _ _) _ true). apply (lruns_ask (SetTimeout _) _ tt). apply (lruns_ask (Bind _ _) _ (Some InvalidCredentials)).
    apply (lruns_ask CloseConn _ tt). constructor. }
  exists t. split; [exact Hr|]. exact (proj2 (rejection_sound (U := latin1_case) ldap_config (str "alice") (str "no") t Hr)).
Defined.
