(* ===== verification/Process.v ===== *)
(** * The process (src/internal/app/app.go, run.go)

    [Run] loads the configuration, sets up the log handler, boots the gateway
    and its Kafka clients, listens, serves until a failure or a signal, drains
    and cleans up.  It is a program over what it asks of the system; its deferred
    calls are written where they run.  The budgets of the contexts are not
    modelled, only which of them a cleanup shares. *)

From S2P Require Import Prelude GoStrings Config.

#[local] Open Scope Z_scope.

(** ** The program *)

(** What boot constructs and cleanup closes. *)
Inductive Dependency := Publisher | TopicLister | PopManager.
#[global] Instance Dependency_eq_dec : EqDecision Dependency.
Proof. solve_decision. Defined.

(** Where the HTTP or HTTPS traffic comes from. *)
Inductive Source := PlainTCP (address : gostring) | AcmeTLS (domains : list gostring).

Inductive SysAct :=
| ConfigureLogging                       (* Some handler: whether there is one; None: an error *)
| NewUpstream | Open (d : Dependency)    (* whether it succeeded *)
| Cleanup (ds : list Dependency)         (* all at once, waiting for all of them *)
| NotifyContext
| ReadCACertificates | Listen (s : Source)   (* whether it succeeded *)
| Signalled                              (* shutdownSignalsCtx.Err() != nil *)
| CloseListener
| StartServing
| ServedOrSignalled                      (* the select: Serve's result, whether it is an error; None is the signal *)
| Shutdown                               (* whether it succeeded *)
| CloseServer
| AwaitServe                             (* Serve's result, whether it is an error *)
| StopSignals
| CloseLogging.
Definition SysAns (a : SysAct) : Type :=
  match a with
  | ConfigureLogging | ServedOrSignalled => option bool
  | NewUpstream | Open _ | ReadCACertificates | Listen _ | Signalled | Shutdown | AwaitServe => bool
  | _ => unit
  end.

Inductive Proc (R : Type) : Type := PRet (r : R) | Sys (a : SysAct) (k : SysAns a -> Proc R).
Arguments PRet {R} r.
Arguments Sys {R} a k.
Fixpoint pbind {R S} (m : Proc R) (f : R -> Proc S) : Proc S :=
  match m with PRet r => f r | Sys a k => Sys a (fun x => pbind (k x) f) end.
(** A step whose answer is nothing. *)
Definition then_ {R} (a : SysAct) (m : Proc R) : Proc R := Sys a (fun _ => m).

(** [cleanupAll]: nothing to close needs no waiting. *)
Definition cleanup (ds : list Dependency) : Proc unit := match ds with [] => PRet tt | _ => then_ (Cleanup ds) (PRet tt) end.

(** [bootWithContextCleanup]: the dependencies the returned cleanup closes, or
    [None] after an error, when what was open is closed again. *)
Definition open_next (d : Dependency) (opened : list Dependency) (k : list Dependency -> Proc (option (list Dependency)))
    : Proc (option (list Dependency)) :=
  Sys (Open d) (fun ok => if ok : bool then k (opened ++ [d]) else pbind (cleanup opened) (fun _ => PRet None)).
Definition boot (cfg : Config) : Proc (option (list Dependency)) :=
  let cfg := ApplyDefaults cfg in
  Sys NewUpstream (fun ok =>
    if negb ok then PRet None
    else if bool_decide (c_KafkaBrokers cfg = []) then PRet (Some [])
    else
      open_next Publisher [] (fun opened =>
      open_next TopicLister opened (fun opened =>
      open_next PopManager opened (fun opened => PRet (Some opened))))).

(** [listenForGatewayWith]; [None] is an error before anything is tried. *)
Definition acme_domains (raw : gostring) : list gostring :=
  filter (fun domain => domain <> []) (map TrimSpace (Split raw ","%byte)).
Definition listenForGateway (cfg : Config) (serverAddr : gostring) : Proc bool :=
  if blank (c_AcmeDomains cfg) then
    Sys (Listen (PlainTCP (if bool_decide (serverAddr = []) then str ":http" else serverAddr))) PRet
  else
    match acme_domains (c_AcmeDomains cfg) with
    | [] => PRet false
    | domains =>
      if bool_decide (c_AcmeCaDir cfg = []) then Sys (Listen (AcmeTLS domains)) PRet
      else Sys ReadCACertificates (fun ok => if ok : bool then Sys (Listen (AcmeTLS domains)) PRet else PRet false)
    end.

(** From the start of [Serve] to the end of the draining: the exit code. *)
Definition serve : Proc Z :=
  then_ StartServing
    (Sys ServedOrSignalled (fun served =>
       let exitCode := match served with Some true => 1 | _ => 0 end in
       Sys Shutdown (fun ok =>
         let wait :=
           match served with
           | Some _ => PRet exitCode
           | None => Sys AwaitServe (fun failed => PRet (if failed : bool then 1 else exitCode))
           end in
         if ok : bool then wait else then_ CloseServer wait))).

(** [run] after a successful boot.  When the gateway has served, cleanup comes
    after draining, with the same budget; on the earlier returns it comes with
    one of its own. *)
Definition run_gateway (cfg : Config) (serverAddr : gostring) (ds : list Dependency) : Proc Z :=
  let early code := then_ StopSignals (pbind (cleanup ds) (fun _ => PRet code)) in
  then_ NotifyContext
    (pbind (listenForGateway cfg serverAddr) (fun listening =>
       if negb listening then early 1
       else
         Sys Signalled (fun signalled =>
           if signalled : bool then then_ CloseListener (early 0)
           else pbind serve (fun code => pbind (cleanup ds) (fun _ => then_ StopSignals (PRet code)))))).

Definition run (cfg : Config) (serverAddr : gostring) : Proc Z :=
  Sys ConfigureLogging (fun handler =>
    match handler with
    | None => PRet 1
    | Some has =>
      pbind
        (pbind (boot cfg) (fun booted =>
           match booted with
           | None => PRet 1
           | Some ds => run_gateway cfg serverAddr ds
           end))
        (fun code => if has : bool then then_ CloseLogging (PRet code) else PRet code)
    end).

(** ** Runs *)

Inductive Done : Type := Did (a : SysAct) (x : SysAns a).
Inductive pruns {R} : Proc R -> list Done -> R -> Prop :=
| pruns_ret r : pruns (PRet r) [] r
| pruns_sys a k x t r : pruns (k x) t r -> pruns (Sys a k) (Did a x :: t) r.

Lemma pruns_ret_inv {R} (x : R) t r : pruns (PRet x) t r -> t = [] /\ r = x.
Proof. inversion 1; subst. done. Qed.
Lemma pruns_sys_inv {R} a (k : SysAns a -> Proc R) t r :
  pruns (Sys a k) t r -> exists x t', t = Did a x :: t' /\ pruns (k x) t' r.
Proof.
  intros H. refine match H in pruns m t r
    return match m with PRet _ => True | Sys a k => exists x t', t = Did a x :: t' /\ pruns (k x) t' r end
    with pruns_ret r => I | pruns_sys a k x t r Hk => _ end. by exists x, t.
Qed.
Lemma pruns_bind_inv {R S} (m : Proc R) (f : R -> Proc S) t r :
  pruns (pbind m f) t r -> exists x t1 t2, t = t1 ++ t2 /\ pruns m t1 x /\ pruns (f x) t2 r.
Proof.
  revert t. induction m as [x|a k IH]; intros t H; cbn in H.
  - exists x, [], t. split_and!; [done|constructor|done].
  - apply pruns_sys_inv in H as (x & t' & -> & H). apply IH in H as (y & t1 & t2 & -> & H1 & H2).
    exists y, (Did a x :: t1), t2. split_and!; [done|by constructor|done].
Qed.

(** Takes a run of a program apart. *)
Ltac pinv :=
  repeat match goal with
  | H : pruns (PRet _) _ _ |- _ => apply pruns_ret_inv in H as [? ?]; subst
  | H : pruns (Sys _ _) _ _ |- _ => let x := fresh "x" in apply pruns_sys_inv in H as (x & ? & ? & H); cbn [SysAns] in x; subst
  | H : pruns (then_ _ _) _ _ |- _ => unfold then_ in H
  | H : pruns (if ?b then _ else _) _ _ |- _ => destruct b; cbn [negb] in H
  | H : pruns (match ?b with _ => _ end) _ _ |- _ => destruct b
  end.

(** ** What a run did *)

Definition opened (t : list Done) : list Dependency :=
  omap (fun d => match d with Did (Open r) true => Some r | _ => None end) t.
Definition cleanups (t : list Done) : list (list Dependency) :=
  omap (fun d => match d with Did (Cleanup ds) _ => Some ds | _ => None end) t.
Definition loggings_closed (t : list Done) : nat :=
  length (omap (fun d => match d with Did CloseLogging _ => Some tt | _ => None end) t).
(** An error of initialisation or of serving.  A graceful shutdown that fails, or
    a cleanup that does, is only logged by the program. *)
Definition failure (d : Done) : bool :=
  match d with
  | Did ConfigureLogging None | Did NewUpstream false | Did (Open _) false | Did ReadCACertificates false | Did (Listen _) false
  | Did ServedOrSignalled (Some true) | Did AwaitServe true => true
  | _ => false
  end.
Definition failures (t : list Done) : bool := existsb failure t.
Definition afterwards (d : Done) : bool := match d with Did StopSignals _ | Did CloseLogging _ => true | _ => false end.
(** After a cleanup nothing but the signals and the logging is wound up. *)
Fixpoint cleanup_last (t : list Done) : bool :=
  match t with
  | [] => true
  | Did (Cleanup _) _ :: rest => forallb afterwards rest
  | _ :: rest => cleanup_last rest
  end.
Definition closes (ds : list Dependency) : list (list Dependency) := match ds with [] => [] | _ => [ds] end.

Lemma opened_app t u : opened (t ++ u) = opened t ++ opened u.
Proof. apply omap_app. Qed.
Lemma cleanups_app t u : cleanups (t ++ u) = cleanups t ++ cleanups u.
Proof. apply omap_app. Qed.
Lemma failures_app t u : failures (t ++ u) = failures t || failures u.
Proof. apply existsb_app. Qed.
Lemma loggings_app t u : loggings_closed (t ++ u) = (loggings_closed t + loggings_closed u)%nat.
Proof. unfold loggings_closed. by rewrite omap_app, length_app. Qed.
Lemma cleanup_last_app t u : cleanups t = [] -> cleanup_last (t ++ u) = cleanup_last u.
Proof. induction t as [|[a x] t IH]; [done|]. destruct a; cbn; intros H; try done; by apply IH. Qed.
Lemma cleanup_last_after t u : cleanup_last t = true -> forallb afterwards u = true -> cleanup_last (t ++ u) = true.
Proof.
  induction t as [|[a x] t IH]; intros Ht Hu; cbn [app].
  { clear Ht. induction u as [|[b y] u IHu]; [done|]. apply andb_true_iff in Hu as [Hb Hu]. destruct b; try done; by apply IHu. }
  destruct a; cbn in *; try (by apply IH). rewrite forallb_app. by apply andb_true_iff.
Qed.

Lemma cleanup_runs ds t u : pruns (cleanup ds) t u ->
  opened t = [] /\ cleanups t = closes ds /\ failures t = false /\ loggings_closed t = 0%nat /\ cleanup_last t = true.
Proof. unfold cleanup. intros H. destruct ds; pinv; done. Qed.

Lemma open_next_runs d ds k t b (P : list Done -> option (list Dependency) -> Prop) :
  pruns (open_next d ds k) t b ->
  (forall t', pruns (k (ds ++ [d])) t' b -> P (Did (Open d) true :: t') b) ->
  (forall t', cleanups t' = closes ds -> opened t' = [] -> loggings_closed t' = 0%nat -> cleanup_last t' = true -> P (Did (Open d) false :: t') None) ->
  P t b.
Proof.
  unfold open_next. intros H Hok Hbad. apply pruns_sys_inv in H as ([|] & t' & -> & H); [by apply Hok|].
  apply pruns_bind_inv in H as (u & t1 & t2 & -> & H1 & H2). apply pruns_ret_inv in H2 as [-> ->]. rewrite app_nil_r.
  apply cleanup_runs in H1 as (? & ? & ? & ? & ?). by apply Hbad.
Qed.

(** Boot leaves open what it returns, and nothing if it fails. *)
Definition booted_ok (before : list Dependency) (t : list Done) (b : option (list Dependency)) : Prop :=
  loggings_closed t = 0%nat /\ cleanup_last t = true /\
  match b with
  | Some ds => before ++ opened t = ds /\ cleanups t = [] /\ failures t = false
  | None => cleanups t = closes (before ++ opened t) /\ failures t = true
  end.

Lemma closed_again ds d t :
  cleanups t = closes ds -> opened t = [] -> loggings_closed t = 0%nat -> cleanup_last t = true -> booted_ok ds (Did (Open d) false :: t) None.
Proof.
  intros Hc Ho Hl Ht. split; [exact Hl|]. split; [exact Ht|]. split; [|done].
  change (cleanups t = closes (ds ++ opened t)). by rewrite Ho, app_nil_r.
Qed.

Lemma boot_runs cfg t b : pruns (boot cfg) t b -> booted_ok [] t b.
Proof.
  unfold boot. cbv zeta. intros H. apply pruns_sys_inv in H as ([|] & t' & -> & H); cbn [negb] in H; [|by apply pruns_ret_inv in H as [-> ->]].
  assert (Hup : booted_ok [] t' b -> booted_ok [] (Did NewUpstream true :: t') b) by (destruct b; exact (fun x => x)). apply Hup. clear Hup.
  destruct (bool_decide _); [by apply pruns_ret_inv in H as [-> ->]|].
  apply (open_next_runs _ _ _ _ _ (booted_ok []) H).
  - intros t1 H1. cbn [app] in H1.
    assert (Hb : booted_ok [Publisher] t1 b -> booted_ok [] (Did (Open Publisher) true :: t1) b) by (destruct b; exact (fun x => x)). apply Hb. clear Hb.
    apply (open_next_runs _ _ _ _ _ (booted_ok [Publisher]) H1).
    + intros t2 H2. cbn [app] in H2.
      assert (Hb : booted_ok [Publisher; TopicLister] t2 b -> booted_ok [Publisher] (Did (Open TopicLister) true :: t2) b) by (destruct b; exact (fun x => x)).
      apply Hb. clear Hb. apply (open_next_runs _ _ _ _ _ (booted_ok [Publisher; TopicLister]) H2).
      * intros t3 H3. apply pruns_ret_inv in H3 as [-> ->]. done.
      * intros t3 Hc Ho Hl Ht. by apply closed_again.
    + intros t2 Hc Ho Hl Ht. by apply closed_again.
  - intros t1 Hc Ho Hl Ht. by apply closed_again.
Qed.

Definition quiet (t : list Done) : Prop := opened t = [] /\ cleanups t = [] /\ loggings_closed t = 0%nat.

Lemma serve_runs t code : pruns serve t code -> quiet t /\ code = if failures t then 1 else 0.
Proof.
  unfold serve, quiet. cbv zeta. intros H. pinv; repeat match goal with x : unit |- _ => destruct x | x : bool |- _ => destruct x end; by split_and!.
Qed.

(** Certificates are asked for and no domain is named. *)
Definition no_domain (cfg : Config) : Prop := blank (c_AcmeDomains cfg) = false /\ acme_domains (c_AcmeDomains cfg) = [].

Lemma listen_runs cfg addr t b : pruns (listenForGateway cfg addr) t b ->
  quiet t /\ (b = true -> failures t = false /\ ~ no_domain cfg) /\ (b = false -> failures t = true \/ no_domain cfg).
Proof.
  unfold listenForGateway, quiet, no_domain. intros H. destruct (blank _) eqn:Hb.
  { pinv. destruct x; split_and!; try done; intros _; first [by left | by split; [|intros [? _]]]. }
  destruct (acme_domains _) as [|d l] eqn:Hd; [pinv; split_and!; try done; intros _; by right|].
  destruct (bool_decide _); pinv; repeat match goal with x : bool |- _ => destruct x end; pinv; split_and!; try done; intros _;
    first [by left | by split; [|intros [_ ?]]].
Qed.

(** The code a run ends with, against what went wrong in it: an error of the
    environment, or certificates for no domain. *)
Definition code_ok (cfg : Config) (failed : bool) (code : Z) : Prop :=
  code = 0 /\ failed = false /\ ~ no_domain cfg \/ code = 1 /\ (failed = true \/ no_domain cfg).

Lemma gateway_runs cfg addr ds t code : pruns (run_gateway cfg addr ds) t code ->
  opened t = [] /\ cleanups t = closes ds /\ loggings_closed t = 0%nat /\ cleanup_last t = true /\ code_ok cfg (failures t) code.
Proof.
  unfold run_gateway. cbv zeta. intros H. apply pruns_sys_inv in H as ([] & t0 & -> & H).
  apply pruns_bind_inv in H as (listening & t1 & t2 & -> & Hl & H). apply listen_runs in Hl as ((Ho & Hc & Hg) & Hok & Hbad).
  enough (Hrest : opened t2 = [] /\ cleanups t2 = closes ds /\ loggings_closed t2 = 0%nat /\ cleanup_last t2 = true /\ code_ok cfg (failures t1 || failures t2) code).
  { destruct Hrest as (H1 & H2 & H3 & H4 & H5). 
    change (opened (t1 ++ t2) = [] /\ cleanups (t1 ++ t2) = closes ds /\ loggings_closed (t1 ++ t2) = 0%nat /\ cleanup_last (t1 ++ t2) = true /\
      code_ok cfg (failures (t1 ++ t2)) code).
    by rewrite opened_app, cleanups_app, loggings_app, failures_app, Ho, Hc, Hg, cleanup_last_app by done. }
  assert (Hearly : forall c u, pruns (then_ StopSignals (pbind (cleanup ds) (fun _ => PRet c))) u code -> 
    opened u = [] /\ cleanups u = closes ds /\ loggings_closed u = 0%nat /\ cleanup_last u = true /\ failures u = false /\ code = c).
  { intros c u Hu. apply pruns_sys_inv in Hu as ([] & u' & -> & Hu). apply pruns_bind_inv in Hu as ([] & u1 & u2 & -> & H1 & H2).
    apply pruns_ret_inv in H2 as [-> ->]. rewrite app_nil_r. apply cleanup_runs in H1 as (? & ? & ? & ? & ?). done. }
  destruct listening; cbn [negb] in H.
  - destruct (Hok eq_refl) as [-> Hdom]. apply pruns_sys_inv in H as ([|] & t3 & -> & H).
    + apply pruns_sys_inv in H as ([] & t4 & -> & H). apply Hearly in H as (H1 & H2 & H3 & H4 & H5 & ->). split_and!; try done. left. done.
    + apply pruns_bind_inv in H as (c & u1 & u2 & -> & H1 & H). apply serve_runs in H1 as [(So & Sc & Sl) ->].
      apply pruns_bind_inv in H as ([] & u3 & u4 & -> & H2 & H). apply cleanup_runs in H2 as (Co & Cc & Cf & Cl & Ct).
      apply pruns_sys_inv in H as ([] & u5 & -> & H). apply pruns_ret_inv in H as [-> ->].
      change (opened (u1 ++ u3 ++ [Did StopSignals tt]) = [] /\ cleanups (u1 ++ u3 ++ [Did StopSignals tt]) = closes ds /\
        loggings_closed (u1 ++ u3 ++ [Did StopSignals tt]) = 0%nat /\ cleanup_last (u1 ++ u3 ++ [Did StopSignals tt]) = true /\
        code_ok cfg (failures (u1 ++ u3 ++ [Did StopSignals tt])) (if failures u1 then 1 else 0)).
      rewrite !opened_app, !cleanups_app, !loggings_app, !failures_app, So, Sc, Sl, Co, Cc, Cl, Cf, cleanup_last_app by done.
      split_and!; [done|by rewrite app_nil_r|done|by apply cleanup_last_after|]. rewrite orb_false_r.
      destruct (failures u1); [right; split; [done|by left]|by left; split_and!].
  - apply Hearly in H as (H1 & H2 & H3 & H4 & H5 & ->). split_and!; try done. right. split; [done|].
    destruct (Hbad eq_refl) as [-> | Hn]; [by left|by right].
Qed.

(** Whether there is a log handler. *)
Definition has_logging (t : list Done) : bool := match t with Did ConfigureLogging (Some true) :: _ => true | _ => false end.

(** C40. However the start, the serving and the end of the process go, the
    dependencies that were opened are all closed, exactly once and together -
    after the draining, or at once when booting or listening fails - and
    nothing but the signal handling and the log handler is wound up after them;
    the log handler is closed exactly once if there is one, as the last thing;
    the exit code is 0 exactly when neither initialisation nor serving reported
    an error; a graceful shutdown that fails is only logged. *)
Theorem process_releases cfg addr t code :
  pruns (run cfg addr) t code ->
  cleanups t = closes (opened t) /\ cleanup_last t = true /\
  loggings_closed t = (if has_logging t then 1 else 0)%nat /\
  (has_logging t = true -> last t = Some (Did CloseLogging tt)) /\
  code_ok cfg (failures t) code.
Proof.
  unfold run. intros H. apply pruns_sys_inv in H as ([has|] & t0 & -> & H).
  2: { apply pruns_ret_inv in H as [-> ->]. split_and!; try done. right. split; [done|by left]. }
  apply pruns_bind_inv in H as (c & t1 & t2 & -> & H & Hlog).
  assert (Hbody : cleanups t1 = closes (opened t1) /\ loggings_closed t1 = 0%nat /\ cleanup_last t1 = true /\ code_ok cfg (failures t1) c).
  { apply pruns_bind_inv in H as (b & u1 & u2 & -> & Hb & H). apply boot_runs in Hb as (Bl & Bt & Hb). destruct b as [ds|].
    - destruct Hb as (Bo & Bc & Bf). cbn [app] in Bo. apply gateway_runs in H as (Go & Gc & Gl & Gt & Gk).
      by rewrite opened_app, cleanups_app, loggings_app, failures_app, Bo, Bc, Bl, Bf, Go, Gc, Gl, app_nil_r, cleanup_last_app by done.
    - destruct Hb as [Bc Bf]. cbn [app] in Bc. apply pruns_ret_inv in H as [-> ->]. rewrite app_nil_r. split_and!; try done.
      right. split; [done|by left]. }
  destruct Hbody as (Hc & Hl & Ht & Hk). destruct has.
  - apply pruns_sys_inv in Hlog as ([] & t3 & -> & Hlog). apply pruns_ret_inv in Hlog as [-> ->].
    assert (Hlast : cleanup_last (t1 ++ [Did CloseLogging tt]) = true) by (by apply cleanup_last_after).
    assert (Hfail : failures (t1 ++ [Did CloseLogging tt]) = failures t1) by (rewrite failures_app; apply orb_false_r).
    split; [|split; [exact Hlast|split; [|split; [intros _; apply (last_snoc (Did CloseLogging tt) (Did ConfigureLogging (Some true) :: t1))|]]]].
    + change (cleanups (t1 ++ [Did CloseLogging tt]) = closes (opened (t1 ++ [Did CloseLogging tt]))).
      rewrite cleanups_app, opened_app, Hc. cbn. by rewrite !app_nil_r.
    + change (loggings_closed (t1 ++ [Did CloseLogging tt]) = 1%nat). by rewrite loggings_app, Hl.
    + change (code_ok cfg (failures (t1 ++ [Did CloseLogging tt])) c). by rewrite Hfail.
  - apply pruns_ret_inv in Hlog as [-> ->]. by rewrite app_nil_r.
Qed.

(** ** Witnesses *)

(** Kafka is configured; the pop manager cannot be made. *)
Definition kafka_config : Config :=
  match LoadConfig (U := latin1_case) (P := sample_urls) (R := sample_uris) (D := sample_durations) (N := sample_names)
    (fun key => if bool_decide (key = str "KAFKA_BROKERS") then str "kafka:9092"
                else if bool_decide (key = str "KAFKA_GLOBAL_TOPIC") then str "uploads" else sample_env [] key) [] with
  | Ok cfg => cfg
  | Err _ => zero_config
  end.
Definition failing_boot : list Done :=
  [Did ConfigureLogging (Some true); Did NewUpstream true; Did (Open Publisher) true; Did (Open TopicLister) true;
   Did (Open PopManager) false; Did (Cleanup [Publisher; TopicLister]) tt; Did CloseLogging tt].

Lemma failing_boot_runs : pruns (run kafka_config (str ":8080")) failing_boot 1.
Proof.
  assert (Hk : bool_decide (c_KafkaBrokers (ApplyDefaults kafka_config) = []) = false) by (vm_compute; reflexivity).
  unfold run, boot. cbv zeta. rewrite Hk. unfold failing_boot. repeat constructor.
Qed.

Lemma process_releases_witness :
  cleanups failing_boot = [[Publisher; TopicLister]] /\ loggings_closed failing_boot = 1%nat /\
  code_ok kafka_config (failures failing_boot) 1.
Proof.
  destruct (process_releases kafka_config (str ":8080") failing_boot 1 failing_boot_runs) as (H1 & _ & H2 & _ & H3).
  split; [exact H1|]. split; [exact H2|exact H3].
Defined.
