(* ===== verification/Readiness.v ===== *)
(** * The readiness probe's checks (src/internal/server/server.go)

    The probe needs no credentials, so its checks of the directory and of the
    store are cached and shared: callers that come while a check runs wait for
    its verdict.  The cache and the answer are in Gateway.v; here are the checks
    themselves, as functions of what the dial and the call return, and the system
    of callers, the one flight they share and the clock, as a step relation. *)

From stdpp Require Import relations.
From S2P Require Import Prelude GoStrings Gateway Upstream Config.

#[local] Open Scope Z_scope.

(** ** The checks *)

(** Until when the context lives, if it has an end, and the time of the dial;
    the directory is dialled with a time-out ([inl]) or the check fails. *)
Definition ldap_dial_timeout (cfg : Config) (ctxDeadline : option instant) (now : instant) : Z + gostring :=
  if blank (c_LDAPURL cfg) then inr (str "url not configured")
  else
    match ctxDeadline with
    | None => inl (c_ReadinessCheckTimeout cfg)
    | Some d =>
      let remaining := time_sub d now in
      if remaining <=? 0 then inr (str "context deadline exceeded")
      else inl (if remaining <? c_ReadinessCheckTimeout cfg then remaining else c_ReadinessCheckTimeout cfg)
    end.

(** [dial] is the error of the dial with a given time-out, if any. *)
Definition checkLDAPReady (cfg : Config) (dial : gostring -> Z -> option gostring) (ctxDeadline : option instant) (now : instant)
    : option gostring :=
  match ldap_dial_timeout cfg ctxDeadline now with
  | inr e => Some e
  | inl timeout => dial (c_LDAPURL cfg) timeout
  end.

Definition ready_input : ListBucketsInput :=
  {| lbi_MaxBuckets := 1; lbi_BucketRegion := None; lbi_Prefix := None; lbi_ContinuationToken := None |}.
(** [list] is the error of the call, if any; [client] whether there is a client. *)
Definition checkS3Ready (client : bool) (list : ListBucketsInput -> option gostring) : option gostring :=
  if negb client then Some (str "client not configured") else list ready_input.

Definition checkReady (ldapErr s3Err : option gostring) : option gostring :=
  let errs := option_list ((fun e => str "ldap: " ++ e) <$> ldapErr) ++ option_list ((fun e => str "s3: " ++ e) <$> s3Err) in
  match errs with [] => None | _ => Some (Join errs (str "; ")) end.

(** Both are asked, and the gateway is ready exactly when neither reports an error. *)
Lemma checkReady_None ldapErr s3Err : checkReady ldapErr s3Err = None <-> ldapErr = None /\ s3Err = None.
Proof. destruct ldapErr, s3Err; cbn; naive_solver. Qed.

(** The dial never waits longer than the check may take, nor past its end. *)
Lemma dial_bounded cfg ctxDeadline now timeout :
  0 < c_ReadinessCheckTimeout cfg -> ldap_dial_timeout cfg ctxDeadline now = inl timeout ->
  0 < timeout <= c_ReadinessCheckTimeout cfg /\ forall d, ctxDeadline = Some d -> timeout <= time_sub d now.
Proof.
  intros Hpos. unfold ldap_dial_timeout. destruct (blank _); [done|]. destruct ctxDeadline as [d|].
  - destruct (Z.leb_spec (time_sub d now) 0); [done|]. destruct (Z.ltb_spec (time_sub d now) (c_ReadinessCheckTimeout cfg)); intros [= <-].
    all: split; [lia|]; intros ? [= <-]; lia.
  - intros [= <-]. split; [lia|done].
Qed.

(** ** The system *)

(** A caller of [cachedReadiness]: about to read the clock, about to look at the
    cache with the time it read, about to join the flight, waiting for it, or
    answered. *)
Inductive Caller := Arrived | CallerRead (now : instant) | Missed | Waiting | Answered (err : option gostring).
(** The function the flight runs: about to read the clock, about to look at the
    cache again, checking since a time, and about to store the verdict with the
    time it read after the check. *)
Inductive Flight :=
  Started | FlightRead (now : instant) | Checking (since : instant) | Checked (since checkedAt : instant) (err : option gostring).

(** The clock, the cache, the flight and the callers; and, for the theorems, the
    times of the checks that ended, the last first. *)
Record Probe := {
  p_clock : instant; p_cache : readiness; p_flight : option Flight; p_callers : gmap nat Caller; p_checks : list (instant * instant)
}.

Section Probe.
Context (ttl : Z).

(** The end of a flight: its verdict goes to all that wait. *)
Definition land (err : option gostring) (callers : gmap nat Caller) : gmap nat Caller :=
  (fun c => match c with Waiting => Answered err | c => c end) <$> callers.

Inductive probe_step : Probe -> Probe -> Prop :=
| step_clock p now : p_clock p <= now ->
    probe_step p {| p_clock := now; p_cache := p_cache p; p_flight := p_flight p; p_callers := p_callers p; p_checks := p_checks p |}
| step_arrive p i : p_callers p !! i = None ->
    probe_step p {| p_clock := p_clock p; p_cache := p_cache p; p_flight := p_flight p; p_callers := <[i := Arrived]> (p_callers p);
                    p_checks := p_checks p |}
| step_read p i : p_callers p !! i = Some Arrived ->
    probe_step p {| p_clock := p_clock p; p_cache := p_cache p; p_flight := p_flight p;
                    p_callers := <[i := CallerRead (p_clock p)]> (p_callers p); p_checks := p_checks p |}
| step_look p i now : p_callers p !! i = Some (CallerRead now) ->
    probe_step p {| p_clock := p_clock p; p_cache := p_cache p; p_flight := p_flight p;
                    p_callers := <[i := match readinessCacheAt ttl (p_cache p) now with Some err => Answered err | None => Missed end]>
                      (p_callers p);
                    p_checks := p_checks p |}
| step_join p i : p_callers p !! i = Some Missed ->
    probe_step p {| p_clock := p_clock p; p_cache := p_cache p; p_flight := Some (default Started (p_flight p));
                    p_callers := <[i := Waiting]> (p_callers p); p_checks := p_checks p |}
| step_start p : p_flight p = Some Started ->
    probe_step p {| p_clock := p_clock p; p_cache := p_cache p; p_flight := Some (FlightRead (p_clock p)); p_callers := p_callers p;
                    p_checks := p_checks p |}
| step_flight p now : p_flight p = Some (FlightRead now) ->
    probe_step p
      match readinessCacheAt ttl (p_cache p) now with
      | Some err =>
        {| p_clock := p_clock p; p_cache := p_cache p; p_flight := None; p_callers := land err (p_callers p); p_checks := p_checks p |}
      | None =>
        {| p_clock := p_clock p; p_cache := p_cache p; p_flight := Some (Checking (p_clock p)); p_callers := p_callers p;
           p_checks := p_checks p |}
      end
| step_checked p since err : p_flight p = Some (Checking since) ->
    probe_step p {| p_clock := p_clock p; p_cache := p_cache p; p_flight := Some (Checked since (p_clock p) err);
                    p_callers := p_callers p; p_checks := p_checks p |}
| step_store p since checkedAt err : p_flight p = Some (Checked since checkedAt err) ->
    probe_step p
      {| p_clock := p_clock p;
         p_cache := {| readinessCachedAt := checkedAt; readinessCachedErr := err; readinessCacheValid := true |}; p_flight := None;
         p_callers := land err (p_callers p); p_checks := (since, checkedAt) :: p_checks p |}.

Definition idle_probe (now : instant) : Probe :=
  {| p_clock := now; p_cache := {| readinessCachedAt := 0; readinessCachedErr := None; readinessCacheValid := false |};
     p_flight := None; p_callers := ∅; p_checks := [] |}.
Definition reachable (p : Probe) : Prop := exists now, rtc probe_step (idle_probe now) p.

(** ** The guarantee *)

(** Each check began at least [ttl] after the end of the one before. *)
Fixpoint spaced (checks : list (instant * instant)) : Prop :=
  match checks with
  | (since, until) :: (((_, until') :: _) as rest) => until' + ttl <= since /\ since <= until /\ spaced rest
  | [(since, until)] => since <= until
  | [] => True
  end.

(** A check that begins at [since] keeps the distance. *)
Definition after_last (since : instant) (checks : list (instant * instant)) : Prop :=
  match checks with (_, until) :: _ => until + ttl <= since | [] => True end.

(** What the flight knows of the clock and of the last check. *)
Definition flight_ok (clock : instant) (checks : list (instant * instant)) (flight : Flight) : Prop :=
  match flight with
  | Started => True
  | FlightRead now => now <= clock /\ match checks with (_, until) :: _ => until <= now | [] => True end
  | Checking since => since <= clock /\ after_last since checks
  | Checked since checkedAt _ => since <= checkedAt <= clock /\ after_last since checks
  end.

Record probe_ok (p : Probe) : Prop := {
  po_spaced : spaced (p_checks p);
  po_cache : match p_checks p with
    | (_, until) :: _ => readinessCacheValid (p_cache p) = true /\ readinessCachedAt (p_cache p) = until /\ until <= p_clock p
    | [] => readinessCacheValid (p_cache p) = false
    end;
  po_flight : forall flight, p_flight p = Some flight -> flight_ok (p_clock p) (p_checks p) flight
}.

(** The cache misses at a time after the last check only when that is [ttl] old. *)
Lemma expired_cache p now :
  probe_ok p -> 0 <= ttl <= int64_max -> flight_ok (p_clock p) (p_checks p) (FlightRead now) ->
  readinessCacheAt ttl (p_cache p) now = None -> after_last (p_clock p) (p_checks p).
Proof.
  intros [_ Hc _] Httl [Hnow Hlast]. unfold readinessCacheAt, after_last. destruct (p_checks p) as [|[since until] rest]; [done|].
  destruct Hc as (-> & -> & _). cbn [negb]. unfold time_sub.
  destruct (Z.ltb_spec (Z.max int64_min (Z.min int64_max (now - until))) 0) as [Hlt|_]; [unfold int64_min, int64_max in *; lia|]. cbn [orb].
  destruct (Z.leb_spec ttl (Z.max int64_min (Z.min int64_max (now - until)))) as [Hage|]; [|done].
  intros _. unfold int64_min, int64_max in *. lia.
Qed.

Lemma flight_ok_later clock clock' checks flight : clock <= clock' -> flight_ok clock checks flight -> flight_ok clock' checks flight.
Proof. destruct flight; cbn; intros; naive_solver lia. Qed.

Lemma probe_step_ok p p' : 0 <= ttl <= int64_max -> probe_step p p' -> probe_ok p -> probe_ok p'.
Proof.
  intros Httl Hstep Hok. pose proof Hok as [Hs Hc Hf].
  destruct Hstep as [p now Hle|p i Hi|p i Hi|p i now Hi|p i Hi|p Hfl|p now Hfl|p since err Hfl|p since checkedAt err Hfl].
  - constructor; cbn; [done| |].
    + destruct (p_checks p) as [|[since until] rest]; [done|]. destruct Hc as (? & ? & ?). split_and!; [done|done|lia].
    + intros flight Hflight. by eapply flight_ok_later; [|apply Hf].
  - by constructor.
  - by constructor.
  - by constructor.
  - constructor; cbn; [done|done|]. intros flight [= <-]. destruct (p_flight p); [by apply Hf|done].
  - constructor; cbn; [done|done|]. intros flight [= <-]. split; [lia|]. destruct (p_checks p) as [|[since until] rest]; [done|apply Hc].
  - destruct (readinessCacheAt ttl (p_cache p) now) eqn:Hcache; [by constructor|].
    constructor; cbn; [done|done|]. intros flight [= <-]. split; [lia|]. by apply (expired_cache p now Hok Httl (Hf _ Hfl)).
  - constructor; cbn; [done|done|]. intros flight [= <-]. destruct (Hf _ Hfl) as [Hle Hafter]. by split; [|exact Hafter].
  - destruct (Hf _ Hfl) as [Hle Hafter]. constructor; cbn; [|split_and!; [done|done|lia]|done].
    destruct (p_checks p) as [|[s u] rest]; [cbn; lia|]. split_and!; [exact Hafter|lia|exact Hs].
Qed.

(** However many callers the probe has and however they interleave, one check
    of the directory and the store runs at a time, and it begins only when a
    full lifetime of the cache has passed since the last one ended: the load the
    probe can cause is bounded. *)
Theorem readiness_rate p :
  reachable p -> 0 <= ttl <= int64_max ->
  spaced (p_checks p) /\
  (forall since, p_flight p = Some (Checking since) -> after_last since (p_checks p)) /\
  (forall now, p_flight p = Some (FlightRead now) -> readinessCacheAt ttl (p_cache p) now = None -> after_last (p_clock p) (p_checks p)).
Proof.
  intros (now & Hp) Httl. assert (Hok : probe_ok p).
  { revert p Hp. apply rtc_ind_r; [by constructor|]. intros p p' _ Hstep IH. by eapply probe_step_ok. }
  pose proof Hok as [Hs _ Hf]. split_and!; [done| |].
  - intros since Hsince. apply (Hf _ Hsince).
  - intros read Hread. by apply (expired_cache p read Hok Httl (Hf _ Hread)).
Qed.
End Probe.

(** ** Witness *)

Definition checked_probe : Probe :=
  {| p_clock := 7; p_cache := {| readinessCachedAt := 7; readinessCachedErr := Some (str "s3: down"); readinessCacheValid := true |};
     p_flight := None; p_callers := land (Some (str "s3: down")) (<[0%nat := Waiting]> ∅); p_checks := [(7, 7)] |}.

Lemma checked_reachable : reachable 5 checked_probe.
Proof.
  exists 7. eapply rtc_l; [apply (step_arrive 5 (idle_probe 7) 0); reflexivity|].
  eapply rtc_l; [eapply (step_read 5 _ 0); reflexivity|]. eapply rtc_l; [eapply (step_look 5 _ 0); reflexivity|].
  eapply rtc_l; [eapply (step_join 5 _ 0); reflexivity|]. eapply rtc_l; [eapply (step_start 5); reflexivity|].
  eapply rtc_l; [eapply (step_flight 5); reflexivity|].
  eapply rtc_l; [eapply (step_checked 5 _ 7 (Some (str "s3: down"))); reflexivity|]. apply rtc_once.
  match goal with |- probe_step _ ?p _ => pose proof (step_store 5 p 7 7 (Some (str "s3: down")) eq_refl) as H end.
  cbn in H. rewrite !insert_insert_eq in H. exact H.
Qed.

Lemma readiness_rate_witness : spaced 5 (p_checks checked_probe) /\ length (p_checks checked_probe) = 1%nat.
Proof.
  split; [|reflexivity].
  destruct (readiness_rate 5 checked_probe checked_reachable) as [H _]; [vm_compute; split; discriminate|exact H].
Defined.
