(* ===== verification/CertReader.v ===== *)
(** * Trusted certificates (src/internal/certreader/certreader.go)

    The roots the gateway trusts beyond the system's: every file of a folder and
    the default bundle of the system.  What the operating system answers is a
    record of functions, PEM armour and X.509 are interfaces.  The loop over the
    blocks of a bundle has fuel, one more than its octets, which is enough as
    each block takes some ([load_blocks_fuel]). *)

From S2P Require Import Prelude.

#[local] Open Scope Z_scope.

(** ** Interfaces *)

Record PemBlock := { b_Type : gostring; b_Bytes : gostring }.
(** [pem.Decode]: the next block and what follows it. *)
Class PEM := {
  pem_Decode : gostring -> option PemBlock * gostring;
  pem_Decode_rest b block rest : pem_Decode b = (Some block, rest) -> (length rest < length b)%nat
}.
Class X509 := {
  Certificate : Type;
  Certificate_eq_dec :: EqDecision Certificate;
  ParseCertificate : gostring -> result gostring Certificate;
  ParseCertificates : gostring -> result gostring (list Certificate)
}.

(** An error, and whether [errors.Is] finds [os.ErrNotExist] in it. *)
Record FileError := { e_text : gostring; e_NotExist : bool }.
Definition failure (text : gostring) : FileError := {| e_text := text; e_NotExist := false |}.
(** [fmt.Errorf] with [%w]. *)
Definition wrap (prefix : gostring) (e : FileError) : FileError :=
  {| e_text := prefix ++ str ": " ++ e_text e; e_NotExist := e_NotExist e |}.

(** An entry of a directory; [Info] tells whether it is a directory itself. *)
Record DirEntry := { d_Name : gostring; d_Info : result FileError bool }.

Record System `{X509} := {
  SystemCertPool : result FileError (list Certificate);
  ReadDir : gostring -> result FileError (list DirEntry);
  ReadFile : gostring -> result FileError gostring;
  filepath_Join : gostring -> gostring -> gostring
}.

Section CertReader.
Context `{PEM, X509} (sys : System).

(** ** Bundles *)

(** A pool holds a certificate at most once. *)
Definition AddCert (pool : list Certificate) (cert : Certificate) : list Certificate :=
  if bool_decide (cert ∈ pool) then pool else pool ++ [cert].
Definition add_certs (pool certs : list Certificate) : list Certificate := fold_left AddCert certs pool.

Fixpoint load_blocks (fuel : nat) (pemBytes : gostring) (certificates : list Certificate) : result FileError (list Certificate) :=
  match fuel with
  | O => Err (failure [])
  | S fuel =>
    match pem_Decode pemBytes with
    | (None, _) => Ok certificates
    | (Some block, pemBytes) =>
      if bool_decide (b_Type block = str "CERTIFICATE") then
        match ParseCertificate (b_Bytes block) with
        | Err e => Err (failure e)
        | Ok cert => load_blocks fuel pemBytes (certificates ++ [cert])
        end
      else Err (failure (str "invalid pem block type: " ++ b_Type block))
    end
  end.

Definition LoadCertBundleFromPEM (pemBytes : gostring) : result FileError (list Certificate) :=
  let! certificates := load_blocks (S (length pemBytes)) pemBytes [] in
  require! negb (bool_decide (certificates = [])) else failure (str "no valid certificates found") in Ok certificates.

Definition LoadCertBundleFromDER (derBytes : gostring) : result FileError (list Certificate) :=
  match ParseCertificates derBytes with
  | Err e => Err (failure (str "parse DER certificate: " ++ e))
  | Ok certs => Ok certs
  end.

Definition LoadCertBundleFromFile (filename : gostring) : result FileError (list Certificate) :=
  let! b := ReadFile sys filename in
  match (pem_Decode b).1 with
  | Some _ => LoadCertBundleFromPEM b
  | None => LoadCertBundleFromDER b
  end.

(** ** The folder *)

Fixpoint load_files (caFolder : gostring) (files : list DirEntry) (certpool : list Certificate) : result FileError (list Certificate) :=
  match files with
  | [] => Ok certpool
  | file :: files =>
    let caPath := filepath_Join sys caFolder (d_Name file) in
    match d_Info file with
    | Err e => Err (wrap (str "read root CA entry " ++ caPath ++ str " info") e)
    | Ok isDir =>
      require! negb isDir else failure (str "root CA entry " ++ caPath ++ str " is a directory") in
      match LoadCertBundleFromFile caPath with
      | Err e => Err (wrap (str "load root CA file " ++ caPath) e)
      | Ok certs => load_files caFolder files (add_certs certpool certs)
      end
    end
  end.

Definition defaultCaFile : gostring := str "/etc/ssl/certs/ca-certificates.crt".

Definition ReadCertificates (caFolder : gostring) : result FileError (list Certificate) :=
  let! certpool := SystemCertPool sys in
  match ReadDir sys caFolder with
  | Err e => Err (wrap (str "read root CA directory " ++ caFolder) e)
  | Ok files =>
    let! certpool := load_files caFolder files certpool in
    match LoadCertBundleFromFile defaultCaFile with
    | Err e => if negb (e_NotExist e) then Err (wrap (str "load default root CA file " ++ defaultCaFile) e) else Ok certpool
    | Ok certs => Ok (add_certs certpool certs)
    end
  end.

(** ** Bundles are read whole *)

(** All the blocks of an input, in order. *)
Inductive pem_blocks : gostring -> list PemBlock -> Prop :=
| blocks_none b rest : pem_Decode b = (None, rest) -> pem_blocks b []
| blocks_cons b block rest blocks : pem_Decode b = (Some block, rest) -> pem_blocks rest blocks -> pem_blocks b (block :: blocks).

Definition block_certificate (block : PemBlock) (cert : Certificate) : Prop :=
  b_Type block = str "CERTIFICATE" /\ ParseCertificate (b_Bytes block) = Ok cert.

Lemma load_blocks_Ok fuel b acc certs :
  (length b < fuel)%nat ->
  load_blocks fuel b acc = Ok certs <->
  exists blocks rest, pem_blocks b blocks /\ Forall2 block_certificate blocks rest /\ certs = acc ++ rest.
Proof.
  revert b acc. induction fuel as [|fuel IH]; intros b acc Hfuel; [lia|]. cbn [load_blocks].
  destruct (pem_Decode b) as [[block|] rest] eqn:Hb.
  - pose proof (pem_Decode_rest _ _ _ Hb). split.
    + case_bool_decide as Htype; [|done]. destruct (ParseCertificate (b_Bytes block)) as [cert|] eqn:Hcert; [|done].
      rewrite IH by lia. intros (blocks & certs' & Hblocks & Hall & ->). exists (block :: blocks), (cert :: certs').
      split_and!; [by econstructor| |by rewrite <- app_assoc]. by constructor.
    + intros (blocks & certs' & Hblocks & Hall & ->). inversion Hblocks as [? ? Hb'|? block' rest' blocks' Hb' Hblocks'];
        subst; rewrite Hb in Hb'; [done|]. injection Hb' as <- <-.
      inversion Hall as [|? cert ? certs'' [Htype Hcert] Hall']; subst. rewrite bool_decide_eq_true_2, Hcert by done.
      rewrite IH by lia. exists blocks', certs''. by rewrite <- app_assoc.
  - split.
    + intros [= <-]. exists [], []. rewrite app_nil_r. split_and!; [by econstructor|constructor|done].
    + intros (blocks & certs' & Hblocks & Hall & ->). inversion Hblocks as [|? ? ? ? Hb']; subst; [|by rewrite Hb in Hb'].
      inversion Hall. by rewrite app_nil_r.
Qed.

(** The fuel of a bundle is enough: more of it changes nothing. *)
Lemma load_blocks_fuel fuel b acc : (length b < fuel)%nat -> load_blocks fuel b acc = load_blocks (S (length b)) b acc.
Proof.
  revert b acc. induction fuel as [fuel IH] using lt_wf_ind; intros b acc Hfuel. destruct fuel as [|fuel]; [lia|].
  cbn [load_blocks]. destruct (pem_Decode b) as [[block|] rest] eqn:Hb; [|done]. pose proof (pem_Decode_rest _ _ _ Hb).
  case_bool_decide; [|done]. destruct (ParseCertificate _) as [cert|]; [|done]. rewrite (IH fuel) by lia.
  destruct (decide (length b = fuel)) as [->|]; [symmetry; apply IH; lia|]. symmetry. apply IH; lia.
Qed.

Lemma bundle_whole b certs :
  LoadCertBundleFromPEM b = Ok certs <-> exists blocks, blocks <> [] /\ pem_blocks b blocks /\ Forall2 block_certificate blocks certs.
Proof.
  unfold LoadCertBundleFromPEM. rewrite rbind_Ok. split.
  - intros (certs' & (blocks & rest & Hb & Hall & ->)%load_blocks_Ok & [Hne [= <-]]%require_Ok); [|lia]. exists blocks. split_and!; [|done|done].
    intros ->. by inversion Hall; subst.
  - intros (blocks & Hne & Hb & Hall). exists certs. split; [apply load_blocks_Ok; [lia|by exists blocks, certs]|].
    apply require_Ok. split; [|done]. apply negb_true_iff, bool_decide_eq_false. intros ->. by inversion Hall; subst.
Qed.

(** ** The pool *)

Lemma elem_of_add_certs pool certs c : c ∈ add_certs pool certs <-> c ∈ pool \/ c ∈ certs.
Proof.
  unfold add_certs. revert pool. induction certs as [|cert certs IH]; intros pool; cbn [fold_left].
  - split; [by left|]. intros [?|?%not_elem_of_nil]; done.
  - rewrite IH, elem_of_cons. unfold AddCert. case_bool_decide; [|rewrite elem_of_app, list_elem_of_singleton]; naive_solver.
Qed.
Lemma add_certs_NoDup pool certs : NoDup pool -> NoDup (add_certs pool certs).
Proof.
  unfold add_certs. revert pool. induction certs as [|cert certs IH]; intros pool Hnd; cbn [fold_left]; [done|]. apply IH.
  unfold AddCert. case_bool_decide as Hin; [done|]. apply NoDup_app. split_and!; [done| |apply NoDup_singleton].
  intros x Hx ->%list_elem_of_singleton. done.
Qed.
Lemma add_certs_app pool certs certs' : add_certs (add_certs pool certs) certs' = add_certs pool (certs ++ certs').
Proof. unfold add_certs. by rewrite fold_left_app. Qed.

(** An entry is a file that holds certificates. *)
Definition entry_certs (caFolder : gostring) (file : DirEntry) (certs : list Certificate) : Prop :=
  d_Info file = Ok false /\ LoadCertBundleFromFile (filepath_Join sys caFolder (d_Name file)) = Ok certs.

Lemma load_files_Ok caFolder files pool pool' :
  load_files caFolder files pool = Ok pool' <->
  exists bundles, Forall2 (entry_certs caFolder) files bundles /\ pool' = add_certs pool (concat bundles).
Proof.
  revert pool. induction files as [|file files IH]; intros pool; cbn [load_files].
  - split; [intros [= <-]; by exists []|]. intros (bundles & Hall & ->). by inversion Hall.
  - split.
    + destruct (d_Info file) as [[]|] eqn:Hinfo; [done| |done]. cbn [negb rguard rbind].
      destruct (LoadCertBundleFromFile _) as [certs|] eqn:Hload; [|done]. rewrite IH. intros (bundles & Hall & ->).
      exists (certs :: bundles). split; [by constructor|]. cbn [concat]. by rewrite add_certs_app.
    + intros (bundles & Hall & ->). inversion Hall as [|? certs ? bundles' [Hinfo Hload] Hall']; subst.
      rewrite Hinfo, Hload. cbn [negb rguard rbind]. apply IH. exists bundles'. cbn [concat]. by rewrite add_certs_app.
Qed.

(** The system's pool, the bundles of the folder's files and of the default file,
    which may be missing but not malformed. *)
Definition default_certs (certs : list Certificate) : Prop :=
  LoadCertBundleFromFile defaultCaFile = Ok certs \/
  certs = [] /\ exists e, LoadCertBundleFromFile defaultCaFile = Err e /\ e_NotExist e = true.
Definition found (caFolder : gostring) (system : list Certificate) (bundles : list (list Certificate)) (extra : list Certificate) : Prop :=
  SystemCertPool sys = Ok system /\
  (exists files, ReadDir sys caFolder = Ok files /\ Forall2 (entry_certs caFolder) files bundles) /\ default_certs extra.

Lemma ReadCertificates_Ok caFolder pool :
  ReadCertificates caFolder = Ok pool <->
  exists system bundles extra, found caFolder system bundles extra /\ pool = add_certs system (concat bundles ++ extra).
Proof.
  unfold ReadCertificates, found, default_certs. rewrite rbind_Ok. split.
  - intros (system & Hsystem & Hrest). destruct (ReadDir sys caFolder) as [files|]; [|done].
    apply rbind_Ok in Hrest as (p & (bundles & Hall & ->)%load_files_Ok & Hrest).
    destruct (LoadCertBundleFromFile defaultCaFile) as [certs|e] eqn:Hdef.
    + injection Hrest as <-. exists system, bundles, certs. rewrite add_certs_app. eauto 10.
    + destruct (e_NotExist e) eqn:He; [|done]. injection Hrest as <-. exists system, bundles, []. rewrite app_nil_r. eauto 15.
  - intros (system & bundles & extra & (Hsystem & (files & Hdir & Hall) & Hdef) & ->). exists system. split; [done|]. rewrite Hdir.
    apply rbind_Ok. exists (add_certs system (concat bundles)). split; [apply load_files_Ok; eauto|].
    destruct Hdef as [->|[-> (e & -> & ->)]]; [by rewrite add_certs_app|by rewrite app_nil_r].
Qed.

(** The gateway trusts exactly the system's roots, every certificate of every
    file of the folder and those of the default bundle: reading succeeds just
    when each entry is a file all of whose PEM blocks, or whose DER octets, are
    certificates, and nothing of a bundle is passed over; a failure trusts
    nothing.  Only the default bundle may be missing. *)
Theorem trusted_roots caFolder :
  (forall pool, ReadCertificates caFolder = Ok pool ->
     exists system bundles extra, found caFolder system bundles extra /\
       (NoDup system -> NoDup pool) /\ forall c, c ∈ pool <-> c ∈ system \/ c ∈ concat bundles \/ c ∈ extra) /\
  (forall system bundles extra, found caFolder system bundles extra -> exists pool, ReadCertificates caFolder = Ok pool) /\
  (forall b certs, LoadCertBundleFromPEM b = Ok certs <->
     exists blocks, blocks <> [] /\ pem_blocks b blocks /\ Forall2 block_certificate blocks certs).
Proof.
  split_and!.
  - intros pool (system & bundles & extra & Hfound & ->)%ReadCertificates_Ok. exists system, bundles, extra. split_and!; [done| |].
    + apply add_certs_NoDup.
    + intros c. by rewrite elem_of_add_certs, elem_of_app.
  - intros system bundles extra Hfound. eexists. apply ReadCertificates_Ok. eauto.
  - apply bundle_whole.
Qed.
End CertReader.

(** ** A concrete folder *)

(** Armour for tests: a letter for the type, then the octet of the block. *)
Definition letters_Decode (b : gostring) : option PemBlock * gostring :=
  match b with
  | letter :: x :: rest =>
    if bool_decide (letter = "C"%byte) then (Some {| b_Type := str "CERTIFICATE"; b_Bytes := [x] |}, rest)
    else if bool_decide (letter = "K"%byte) then (Some {| b_Type := str "PRIVATE KEY"; b_Bytes := [x] |}, rest)
    else (None, b)
  | _ => (None, b)
  end.
Lemma letters_rest b block rest : letters_Decode b = (Some block, rest) -> (length rest < length b)%nat.
Proof.
  destruct b as [|letter [|x b]]; [done|done|]. cbn [letters_Decode length]. intros Hb.
  repeat case_bool_decide; try done; injection Hb as <- <-; lia.
Qed.
#[local] Instance letters : PEM := {| pem_Decode := letters_Decode; pem_Decode_rest := letters_rest |}.
#[local] Instance octets : X509 := {|
  Certificate := gostring;
  ParseCertificate b := if bool_decide (b = str "?") then Err (str "malformed") else Ok b;
  ParseCertificates b := if bool_decide (b = []) then Err (str "empty") else Ok [b]
|}.
Definition folder (content : gostring) : System := {|
  SystemCertPool := Ok [str "s"];
  ReadDir _ := Ok [{| d_Name := str "ca.pem"; d_Info := Ok false |}; {| d_Name := str "ca.der"; d_Info := Ok false |}];
  ReadFile path :=
    if bool_decide (path = str "/ca/ca.pem") then Ok content
    else if bool_decide (path = str "/ca/ca.der") then Ok (str "d") else Err {| e_text := str "no such file"; e_NotExist := true |};
  filepath_Join dir name := dir ++ str "/" ++ name
|}.

Example reads_folder : ReadCertificates (folder (str "CaCsCb-")) (str "/ca") = Ok [str "s"; str "a"; str "b"; str "d"].
Proof. reflexivity. Qed.
Example key_refused :
  ReadCertificates (folder (str "CaKb")) (str "/ca") = Err (failure (str "load root CA file /ca/ca.pem: invalid pem block type: PRIVATE KEY")).
Proof. reflexivity. Qed.
