(* ===== verification/KafkaClient.v ===== *)
(** * The lifetime of a Kafka client (src/internal/kafkaclient/client.go)

    The consumers, the publisher and the topic lister close their Kafka client
    through one wrapper: the close is shared by all callers and joined by each,
    and whoever's context ends interrupts it.  The callers, the functions that
    [context.AfterFunc] runs, the [sync.Once] and the close itself interleave as
    the steps of a relation; when a close ends is up to the Kafka client. *)

From stdpp Require Import relations.
From S2P Require Import Prelude.

(** ** The system *)

Inductive Once := Fresh | Running (i : nat) | OnceDone.
(** The lifetime context, the once and the number of closes begun. *)
Record Client := { s_cancelled : bool; s_once : Once; s_closes : nat }.

(** [New]: whether the context it made is cancelled, and the client, if any. *)
Definition New (kgo : result gostring unit) : bool * result gostring Client :=
  match kgo with
  | Err e => (true, Err e)
  | Ok _ => (false, Ok {| s_cancelled := false; s_once := Fresh; s_closes := 0 |})
  end.

(** Where a call of [CloseContext] is: before [AfterFunc], before it asks for its
    context's error, before the cancellation when there is one, before the once,
    in the once before, during and after the close, after the once, and with its
    answer before and after the deferred [stop]. *)
Inductive Point :=
| Called | Registered | Interrupting | AtOnce | Rebalancing | Closing | Closed | Joined | Evaluated (err : bool) | Returned (err : bool).
(** The registered function: it runs on its own once it has started. *)
Inductive Hook := NoHook | Armed | Started | Fired | Stopped.
Record Caller := { k_point : Point; k_done : bool; k_hook : Hook }.

(** Steps of the wrapper, ends of the close, and what callers do. *)
Inductive Who := Own | KafkaCloses | Elsewhere.

Definition cancel (s : Client) : Client := {| s_cancelled := true; s_once := s_once s; s_closes := s_closes s |}.
Definition at_point (c : Caller) (p : Point) : Caller := {| k_point := p; k_done := k_done c; k_hook := k_hook c |}.
Definition with_hook (c : Caller) (h : Hook) : Caller := {| k_point := k_point c; k_done := k_done c; k_hook := h |}.
Definition stop (h : Hook) : Hook := match h with Armed => Stopped | _ => h end.

(** [CloseContext] of caller [i]. *)
Inductive caller_step (i : nat) : Who -> Client -> Caller -> Client -> Caller -> Prop :=
| do_expire s c : caller_step i Elsewhere s c s {| k_point := k_point c; k_done := true; k_hook := k_hook c |}
| do_start s c : k_hook c = Armed -> k_done c = true -> caller_step i Own s c s (with_hook c Started)
| do_fire s c : k_hook c = Started -> caller_step i Own s c (cancel s) (with_hook c Fired)
| do_register s c : k_point c = Called -> caller_step i Own s c s (at_point (with_hook c Armed) Registered)
| do_check s c : k_point c = Registered -> caller_step i Own s c s (at_point c (if k_done c then Interrupting else AtOnce))
| do_interrupt s c : k_point c = Interrupting -> caller_step i Own s c (cancel s) (at_point c AtOnce)
| do_enter s c : k_point c = AtOnce -> s_once s = Fresh ->
    caller_step i Own s c {| s_cancelled := s_cancelled s; s_once := Running i; s_closes := s_closes s |} (at_point c Rebalancing)
| do_close s c : k_point c = Rebalancing ->
    caller_step i Own s c {| s_cancelled := s_cancelled s; s_once := s_once s; s_closes := S (s_closes s) |} (at_point c Closing)
| do_closed s c : k_point c = Closing -> caller_step i KafkaCloses s c s (at_point c Closed)
| do_leave s c : k_point c = Closed ->
    caller_step i Own s c {| s_cancelled := true; s_once := OnceDone; s_closes := s_closes s |} (at_point c Joined)
| do_join s c : k_point c = AtOnce -> s_once s = OnceDone -> caller_step i Own s c s (at_point c Joined)
| do_evaluate s c : k_point c = Joined -> caller_step i Own s c s (at_point c (Evaluated (k_done c)))
| do_return s c err : k_point c = Evaluated err -> caller_step i Own s c s (with_hook (at_point c (Returned err)) (stop (k_hook c))).

Record System := { shared : Client; callers : gmap nat Caller }.
Definition update (st : System) (i : nat) (s : Client) (c : Caller) : System := {| shared := s; callers := <[i := c]> (callers st) |}.

(** Callers come with contexts that may have ended; [Close] is a call whose
    context never does. *)
Inductive system_step : Who -> System -> System -> Prop :=
| step_call st i ended : callers st !! i = None ->
    system_step Elsewhere st (update st i (shared st) {| k_point := Called; k_done := ended; k_hook := NoHook |})
| step_caller st i who c s' c' : callers st !! i = Some c -> caller_step i who (shared st) c s' c' ->
    system_step who st (update st i s' c').

Definition any_step (st st' : System) : Prop := exists who, system_step who st st'.
Definition reachable (st : System) : Prop :=
  exists s, New (Ok tt) = (false, Ok s) /\ rtc any_step {| shared := s; callers := ∅ |} st.

(** ** The invariant *)

Definition point_ok (i : nat) (s : Client) (p : Point) (ended : bool) : Prop :=
  match p with
  | Rebalancing => s_once s = Running i /\ s_closes s = 0%nat
  | Closing | Closed => s_once s = Running i /\ s_closes s = 1%nat
  | Joined => s_once s = OnceDone
  | Evaluated err | Returned err => s_once s = OnceDone /\ (err = true -> ended = true)
  | _ => True
  end.
Definition hook_ok (s : Client) (p : Point) (h : Hook) : Prop :=
  match h with
  | NoHook => p = Called
  | Fired => s_cancelled s = true
  | Stopped => exists err, p = Returned err
  | _ => True
  end.
Definition caller_ok (i : nat) (s : Client) (c : Caller) : Prop :=
  point_ok i s (k_point c) (k_done c) /\ hook_ok s (k_point c) (k_hook c).
Definition once_ok (st : System) : Prop :=
  match s_once (shared st) with
  | Fresh => s_closes (shared st) = 0%nat
  | Running i => exists c, callers st !! i = Some c /\ (k_point c = Rebalancing \/ k_point c = Closing \/ k_point c = Closed)
  | OnceDone => s_closes (shared st) = 1%nat /\ s_cancelled (shared st) = true
  end.
Definition system_ok (st : System) : Prop := once_ok st /\ map_Forall (fun i c => caller_ok i (shared st) c) (callers st).

(** A step of one caller keeps what is known of it, and of every other one. *)
Lemma caller_step_own i who s c s' c' :
  (s_once s = Fresh -> s_closes s = 0%nat) -> caller_step i who s c s' c' -> caller_ok i s c -> caller_ok i s' c'.
Proof.
  intros Hfresh Hstep. unfold caller_ok. destruct Hstep, c as [p e h]; cbn in *; subst; cbn.
  all: try destruct p, h; try destruct h; try destruct e; cbn in *; naive_solver.
Qed.
Lemma caller_step_other i j who s c s' c' d :
  i <> j -> caller_step i who s c s' c' -> caller_ok i s c -> caller_ok j s d -> caller_ok j s' d.
Proof.
  intros Hne Hstep. unfold caller_ok. destruct Hstep, c as [p e h], d as [p' e' h']; cbn in *; subst; cbn; try done.
  all: destruct p', h'; cbn in *; try done; intuition (try congruence; eauto).
Qed.

Lemma system_step_ok who st st' : system_step who st st' -> system_ok st -> system_ok st'.
Proof.
  intros Hstep [Honce Hall]. destruct Hstep as [st i ended Hi|st i who c s' c' Hi Hstep].
  - split.
    + unfold once_ok in *. cbn. destruct (s_once (shared st)) as [|j|]; [done| |done].
      destruct Honce as (d & Hd & Hp). exists d. rewrite lookup_insert_ne by congruence. done.
    + by apply map_Forall_insert_2.
  - assert (Hc : caller_ok i (shared st) c) by exact (Hall i c Hi).
    assert (Hfresh : s_once (shared st) = Fresh -> s_closes (shared st) = 0%nat) by (intros E; unfold once_ok in Honce; by rewrite E in Honce).
    split.
    + clear Hall Hfresh. unfold once_ok in *. destruct st as [s m], Hc as [Hc _]. cbn in *.
      destruct Hstep as [s [p e h]|s [p e h]|s [p e h]|s [p e h]|s [p e h]|s [p e h]|s [p e h]|s [p e h]|s [p e h]|s [p e h]|s [p e h]
                        |s [p e h]|s [p e h]]; cbn in *; subst; cbn in *.
      all: destruct (s_once s) as [|j|] eqn:Hso; cbn in *; try solve [intuition congruence].
      all: try (eexists; rewrite lookup_insert_eq; split; [reflexivity|cbn; solve [intuition congruence]]).
      all: destruct Honce as (d & Hd & Hp); destruct (decide (i = j)) as [->|];
        [rewrite Hi in Hd; injection Hd as <-; cbn in Hp; eexists; rewrite lookup_insert_eq; split; [reflexivity|cbn; solve [intuition congruence]]
        |exists d; rewrite lookup_insert_ne by done; done].
    + apply map_Forall_lookup. cbn. intros k d Hk. destruct (decide (i = k)) as [->|Hne].
      * rewrite lookup_insert_eq in Hk. injection Hk as <-. by eapply caller_step_own.
      * rewrite lookup_insert_ne in Hk by done. eapply caller_step_other; [done|done|done|]. by apply (Hall k).
Qed.

Lemma system_reachable st : reachable st -> system_ok st.
Proof.
  intros (s & [= <-] & Hst). revert st Hst. apply rtc_ind_r; [split; [done|apply map_Forall_empty]|].
  intros st st' _ [who Hstep] IH. by eapply system_step_ok.
Qed.

(** ** Progress *)

(** The steps that need neither callers nor, without closes, the Kafka client. *)
Definition quiet (closes : bool) (st st' : System) : Prop :=
  system_step Own st st' \/ closes = true /\ system_step KafkaCloses st st'.
Definition leads (closes : bool) (P : System -> Prop) (st : System) : Prop := exists st', rtc (quiet closes) st st' /\ P st'.

Lemma leads_now closes (P : System -> Prop) st : P st -> leads closes P st.
Proof. intros HP. exists st. split; [apply rtc_refl|done]. Qed.
Lemma leads_step closes P st i c s' c' :
  callers st !! i = Some c -> caller_step i Own (shared st) c s' c' -> leads closes P (update st i s' c') -> leads closes P st.
Proof. intros Hi Hstep (st' & Hst' & HP). exists st'. split; [|done]. eapply rtc_l; [|done]. left. by econstructor. Qed.
Lemma leads_closed P st i c s' c' :
  callers st !! i = Some c -> caller_step i KafkaCloses (shared st) c s' c' -> leads true P (update st i s' c') -> leads true P st.
Proof. intros Hi Hstep (st' & Hst' & HP). exists st'. split; [|done]. eapply rtc_l; [|done]. right. split; [done|]. by econstructor. Qed.
Lemma leads_trans closes (P Q : System -> Prop) st : leads closes P st -> (forall st', P st' -> leads closes Q st') -> leads closes Q st.
Proof. intros (st' & Hst' & HP) HQ. destruct (HQ st' HP) as (st'' & Hst'' & HQ''). exists st''. split; [by etrans|done]. Qed.

Definition answered (i : nat) (st : System) : Prop := exists c err, callers st !! i = Some c /\ k_point c = Returned err.
Lemma joined_returns st i c :
  callers st !! i = Some c -> (k_point c = Joined \/ exists err, k_point c = Evaluated err) -> leads true (answered i) st.
Proof.
  assert (Hlast : forall st c err, callers st !! i = Some c -> k_point c = Evaluated err -> leads true (answered i) st).
  { intros st' c' err Hi Hp. eapply leads_step; [exact Hi|by apply do_return|]. apply leads_now. do 2 eexists. cbn. by rewrite lookup_insert_eq. }
  intros Hi [Hp|[err Hp]]; [|by eapply Hlast]. eapply leads_step; [exact Hi|by apply do_evaluate|].
  eapply Hlast; [apply lookup_insert_eq|reflexivity].
Qed.

(** The close under way ends the once, and moves nobody else. *)
Definition done_beside (i : nat) (st st' : System) : Prop :=
  s_once (shared st') = OnceDone /\ (exists c, callers st' !! i = Some c /\ k_point c = Joined) /\
  forall k, k <> i -> callers st' !! k = callers st !! k.
Lemma running_ends st i c :
  callers st !! i = Some c -> (k_point c = Rebalancing \/ k_point c = Closing \/ k_point c = Closed) ->
  leads true (done_beside i st) st.
Proof.
  assert (Hclosed : forall st0 st c, callers st !! i = Some c -> k_point c = Closed ->
    (forall k, k <> i -> callers st !! k = callers st0 !! k) -> leads true (done_beside i st0) st).
  { intros st0 st' c' Hi Hp Hk. eapply leads_step; [exact Hi|by apply do_leave|]. apply leads_now. split_and!; [done| |].
    - eexists. split; [apply lookup_insert_eq|done].
    - intros k Hne. cbn. rewrite lookup_insert_ne by done. by apply Hk. }
  assert (Hclosing : forall st0 st c, callers st !! i = Some c -> k_point c = Closing ->
    (forall k, k <> i -> callers st !! k = callers st0 !! k) -> leads true (done_beside i st0) st).
  { intros st0 st' c' Hi Hp Hk. eapply leads_closed; [exact Hi|by apply do_closed|]. eapply Hclosed; [apply lookup_insert_eq|done|].
    intros k Hne. cbn. rewrite lookup_insert_ne by done. by apply Hk. }
  intros Hi [Hp|[Hp|Hp]]; [|by eapply Hclosing|by eapply Hclosed].
  eapply leads_step; [exact Hi|by apply do_close|]. eapply Hclosing; [apply lookup_insert_eq|done|].
  intros k Hne. cbn. by rewrite lookup_insert_ne.
Qed.

Lemma running_returns st i c :
  callers st !! i = Some c -> (k_point c = Rebalancing \/ k_point c = Closing \/ k_point c = Closed) -> leads true (answered i) st.
Proof.
  intros Hi Hp. eapply leads_trans; [by eapply running_ends|]. intros st' (_ & (c' & Hc' & Hj) & _). eapply joined_returns; [done|by left].
Qed.

Lemma at_once_returns st i c : once_ok st -> callers st !! i = Some c -> k_point c = AtOnce -> leads true (answered i) st.
Proof.
  intros Honce Hi Hp. assert (Hdone : forall st c, s_once (shared st) = OnceDone -> callers st !! i = Some c -> k_point c = AtOnce ->
    leads true (answered i) st).
  { intros st' c' Hs Hi' Hp'. eapply leads_step; [exact Hi'|by apply do_join|].
    eapply joined_returns; [apply lookup_insert_eq|by left]. }
  unfold once_ok in Honce. destruct (s_once (shared st)) as [|j|] eqn:Hs; [| |by eapply Hdone].
  - eapply leads_step; [exact Hi|by apply do_enter|]. eapply running_returns; [apply lookup_insert_eq|by left].
  - destruct Honce as (d & Hd & Hdp). assert (i <> j) by (intros ->; rewrite Hi in Hd; injection Hd as <-; rewrite Hp in Hdp; intuition discriminate).
    eapply leads_trans; [exact (running_ends _ _ _ Hd Hdp)|]. intros st' (Hso & _ & Hk). eapply Hdone; [done| |exact Hp]. by rewrite Hk.
Qed.

Lemma own_step_returns st i c s' c' :
  system_ok st -> callers st !! i = Some c -> caller_step i Own (shared st) c s' c' ->
  (system_ok (update st i s' c') -> leads true (answered i) (update st i s' c')) -> leads true (answered i) st.
Proof. intros Hok Hi Hstep Hnext. eapply leads_step; [done..|]. apply Hnext. eapply system_step_ok; [by econstructor|done]. Qed.
Lemma registered_returns st i c : system_ok st -> callers st !! i = Some c -> k_point c = Registered -> leads true (answered i) st.
Proof.
  assert (Hat : forall st c, system_ok st -> callers st !! i = Some c -> k_point c = AtOnce -> leads true (answered i) st)
    by (intros ? ? [? ?]; by apply at_once_returns).
  intros Hok Hi Hp. eapply own_step_returns; [done|exact Hi|by apply do_check|]. intros Hok'. destruct (k_done c).
  - eapply own_step_returns; [exact Hok'|apply lookup_insert_eq|by apply do_interrupt|]. intros Hok''.
    by eapply Hat; [|apply lookup_insert_eq|].
  - by eapply Hat; [|apply lookup_insert_eq|].
Qed.

(** Every call can return, once the close it may wait for ends. *)
Lemma caller_returns st i c : system_ok st -> callers st !! i = Some c -> leads true (answered i) st.
Proof.
  intros Hok Hi. destruct (k_point c) as [| | | | | | | |err|err] eqn:Hp.
  - eapply own_step_returns; [done|exact Hi|by apply do_register|]. intros Hok'.
    by eapply registered_returns; [|apply lookup_insert_eq|].
  - by eapply registered_returns.
  - eapply own_step_returns; [done|exact Hi|by apply do_interrupt|]. intros [Honce _].
    by eapply at_once_returns; [|apply lookup_insert_eq|].
  - eapply at_once_returns; [apply Hok|done|done].
  - eapply running_returns; [done|rewrite Hp; tauto].
  - eapply running_returns; [done|rewrite Hp; tauto].
  - eapply running_returns; [done|rewrite Hp; tauto].
  - eapply joined_returns; [done|tauto].
  - eapply joined_returns; [done|eauto].
  - apply leads_now. by exists c, err.
Qed.

(** A caller whose context has ended interrupts the client by steps of the wrapper
    alone, whoever runs the close and however long that takes. *)
Lemma ended_interrupts st i c :
  system_ok st -> callers st !! i = Some c -> k_done c = true -> (forall err, k_point c <> Returned err) ->
  leads false (fun st' => s_cancelled (shared st') = true) st.
Proof.
  assert (Hfire : forall st c, callers st !! i = Some c -> k_hook c = Started -> leads false (fun st' => s_cancelled (shared st') = true) st).
  { intros st' c' Hi Hh. eapply leads_step; [exact Hi|by apply do_fire|]. by apply leads_now. }
  assert (Hstart : forall st c, callers st !! i = Some c -> k_done c = true -> k_hook c = Armed ->
    leads false (fun st' => s_cancelled (shared st') = true) st).
  { intros st' c' Hi Hd Hh. eapply leads_step; [exact Hi|by apply do_start|]. eapply Hfire; [apply lookup_insert_eq|done]. }
  intros [_ Hall] Hi Hd Hp. destruct (Hall i c Hi) as [_ Hh]. unfold hook_ok in Hh. destruct (k_hook c) eqn:Hhook.
  - eapply leads_step; [exact Hi|by apply do_register|]. by eapply Hstart; [apply lookup_insert_eq| |].
  - by eapply Hstart.
  - by eapply Hfire.
  - by apply leads_now.
  - by destruct Hh as [err ?%Hp].
Qed.

(** However the calls of [CloseContext] interleave and their contexts end, the
    Kafka client is closed at most once; a call returns only after that close has
    ended, with the lifetime context cancelled, and reports an error only when
    its own context ended.  A call whose context has ended interrupts the client
    without waiting for anything, and from every state every call can return
    once the close ends: nobody waits in vain. *)
Theorem close_joined st :
  reachable st ->
  (s_closes (shared st) <= 1)%nat /\
  (forall i c err, callers st !! i = Some c -> k_point c = Returned err ->
     s_once (shared st) = OnceDone /\ s_closes (shared st) = 1%nat /\ s_cancelled (shared st) = true /\ (err = true -> k_done c = true)) /\
  (forall i c, callers st !! i = Some c -> k_done c = true -> (forall err, k_point c <> Returned err) ->
     leads false (fun st' => s_cancelled (shared st') = true) st) /\
  (forall i c, callers st !! i = Some c -> leads true (answered i) st).
Proof.
  intros Hst. pose proof (system_reachable st Hst) as Hok. pose proof Hok as [Honce Hall]. split_and!.
  - unfold once_ok in Honce. destruct (s_once (shared st)); [lia| |lia]. destruct Honce as (c & Hc & Hp).
    destruct (Hall _ c Hc) as [Hpoint _]. destruct Hp as [Hp|[Hp|Hp]]; rewrite Hp in Hpoint; destruct Hpoint; lia.
  - intros i c err Hi Hp. destruct (Hall i c Hi) as [Hpoint _]. rewrite Hp in Hpoint. destruct Hpoint as [Hs Herr].
    unfold once_ok in Honce. rewrite Hs in Honce. destruct Honce. done.
  - intros i c. by apply ended_interrupts.
  - intros i c. by apply caller_returns.
Qed.

(** ** Two callers *)

(** The first is in the close; the second waits at the once, its context ended. *)
Definition two_callers : System := {|
  shared := {| s_cancelled := false; s_once := Running 0; s_closes := 1 |};
  callers := <[1%nat := {| k_point := AtOnce; k_done := true; k_hook := Armed |}]>
               {[0%nat := {| k_point := Closing; k_done := false; k_hook := Armed |}]}
|}.
Ltac next i k := eapply rtc_l; [exists Own; eapply (step_caller _ i); [reflexivity|by apply k]|].
Lemma two_callers_reachable : reachable two_callers.
Proof.
  exists {| s_cancelled := false; s_once := Fresh; s_closes := 0 |}. split; [done|].
  eapply rtc_l; [exists Elsewhere; by apply (step_call _ 0 false)|]. next 0%nat do_register. next 0%nat do_check. next 0%nat do_enter. next 0%nat do_close.
  eapply rtc_l; [exists Elsewhere; by apply (step_call _ 1 false)|]. next 1%nat do_register. next 1%nat do_check.
  eapply rtc_l; [exists Elsewhere; eapply (step_caller _ 1); [reflexivity|apply do_expire]|].
  match goal with |- rtc _ ?st _ => replace st with two_callers; [apply rtc_refl|vm_compute; reflexivity] end.
Qed.
Lemma close_joined_witness : leads false (fun st' => s_cancelled (shared st') = true) two_callers.
Proof.
  destruct (close_joined two_callers two_callers_reachable) as (_ & _ & H & _).
  apply (H 1%nat {| k_point := AtOnce; k_done := true; k_hook := Armed |}); [reflexivity|reflexivity|discriminate].
Defined.
