(* ===== verification/UpstreamClient.v ===== *)
(** * The upstream client (src/internal/upstream/upstream.go)

    The settings of the S3 client as a function of the configuration and of what
    the SDK loads, and its policy for redirects with the loop of [net/http] that
    asks it.  The loop has fuel, and ten turns are enough ([follow_bounded]). *)

From S2P Require Import Prelude GoStrings AdminWeb Config.

#[local] Open Scope Z_scope.

(** ** Construction *)

(** [http.Transport] and its dialer: the fields that are set. *)
Record Transport := {
  t_DialTimeout : Z; t_KeepAlive : Z; t_ProxyFromEnvironment : bool; t_ForceAttemptHTTP2 : bool; t_MaxIdleConns : Z;
  t_MaxIdleConnsPerHost : Z; t_MaxConnsPerHost : Z; t_IdleConnTimeout : Z; t_TLSHandshakeTimeout : Z; t_ExpectContinueTimeout : Z;
  t_TLSMinVersion : Z; t_InsecureSkipVerify : bool
}.
(** [tls.VersionTLS12] *)
Definition VersionTLS12 : Z := 0x0303.
(** [sdkTLS] is the least version of the TLS settings the SDK supplies, if any. *)
Definition transport_options (cfg : Config) (sdkTLS : option Z) : Transport :=
  {| t_DialTimeout := 5 * second; t_KeepAlive := 30 * second; t_ProxyFromEnvironment := true; t_ForceAttemptHTTP2 := true;
     t_MaxIdleConns := 2048; t_MaxIdleConnsPerHost := 512; t_MaxConnsPerHost := 0; t_IdleConnTimeout := 90 * second;
     t_TLSHandshakeTimeout := 5 * second; t_ExpectContinueTimeout := 1 * second;
     t_TLSMinVersion := default VersionTLS12 sdkTLS; t_InsecureSkipVerify := c_UpstreamSkipCertificateValidation cfg |}.

Inductive ChecksumPolicy := WhenSupported | WhenRequired.
Record LoadOptions := {
  o_Region : gostring; o_BaseEndpoint : gostring; o_AccessKey : gostring; o_SecretKey : gostring; o_SessionToken : gostring;
  o_RequestChecksums : ChecksumPolicy; o_ResponseChecksums : ChecksumPolicy
}.
Record S3Client := { c_Options : LoadOptions; c_Transport : Transport; c_UsePathStyle : bool }.

Section UpstreamClient.
Context {P : URLParser}.

(** [awsconfig.LoadDefaultConfig] fails, or resolves an HTTP client that is
    buildable or not. *)
Definition New (cfg : Config) (sdkTLS : option Z) (load : LoadOptions -> result gostring bool) : result gostring S3Client :=
  let! _ := ValidateUpstreamEndpoint (c_UpstreamEndpoint cfg) in
  let options :=
    {| o_Region := c_UpstreamRegion cfg; o_BaseEndpoint := c_UpstreamEndpoint cfg; o_AccessKey := c_UpstreamAccessKey cfg;
       o_SecretKey := c_UpstreamSecretKey cfg; o_SessionToken := []; o_RequestChecksums := WhenRequired;
       o_ResponseChecksums := WhenRequired |} in
  let! buildable := load options in
  require! buildable else str "upstream HTTP client does not support secure transport configuration" in
  Ok {| c_Options := options; c_Transport := transport_options cfg sdkTLS; c_UsePathStyle := c_UpstreamForcePathStyle cfg |}.

(** ** Redirects *)

Definition CheckRedirect (req : URL) (via : list URL) : result gostring unit :=
  if negb (bool_decide (u_Scheme req = str "https")) then Err (str "upstream redirect must use HTTPS")
  else if 10 <=? Z.of_nat (length via) then Err (str "stopped after 10 redirects")
  else Ok tt.

(** What comes back for a request: a redirect to follow, or anything else. *)
Inductive Reply := Redirect (location : URL) | Answer (err : option gostring).

(** [http.Client.Do]: the requests sent, in order, and the error, if any; a
    redirect is followed when the policy allows it.  [None] is lack of fuel. *)
Fixpoint follow (fuel : nat) (upstream : list URL -> Reply) (via : list URL) (req : URL) : option (list URL * option gostring) :=
  match fuel with
  | O => None
  | S fuel =>
    let sent := via ++ [req] in
    match upstream sent with
    | Answer err => Some (sent, err)
    | Redirect location =>
      match CheckRedirect location sent with
      | Err e => Some (sent, Some e)
      | Ok _ => follow fuel upstream sent location
      end
    end
  end.

Lemma CheckRedirect_Ok req via : CheckRedirect req via = Ok tt <-> u_Scheme req = str "https" /\ (length via < 10)%nat.
Proof.
  unfold CheckRedirect. case_bool_decide; cbn [negb]; [|naive_solver]. destruct (Z.leb_spec 10 (Z.of_nat (length via))); split;
    [done|intros [_ ?]; lia|intros _; split; [done|lia]|done].
Qed.

(** However the upstream answers, requests go to https addresses only, ten at
    most, and the loop ends. *)
Lemma follow_bounded fuel upstream via req :
  (length via < 10)%nat -> (10 - length via <= fuel)%nat -> Forall (fun u => u_Scheme u = str "https") (via ++ [req]) ->
  exists sent err, follow fuel upstream via req = Some (sent, err) /\
    (via ++ [req]) `prefix_of` sent /\ Forall (fun u => u_Scheme u = str "https") sent /\ (length sent <= 10)%nat.
Proof.
  revert via req. induction fuel as [|fuel IH]; intros via req Hvia Hfuel Hall; [lia|]. cbn [follow].
  assert (Hlen : length (via ++ [req]) = S (length via)) by (rewrite length_app; cbn; lia).
  destruct (upstream (via ++ [req])) as [location|err]; [|by do 2 eexists; split_and!; [done|done|done|lia]].
  destruct (CheckRedirect location (via ++ [req])) as [[]|e] eqn:Hcheck; [|by do 2 eexists; split_and!; [done|done|done|lia]].
  apply CheckRedirect_Ok in Hcheck as [Hscheme Hless]. destruct (IH (via ++ [req]) location) as (sent & err & Hf & Hp & Hs & Hl); [lia|lia| |].
  - apply Forall_app_2; [done|by constructor].
  - exists sent, err. split_and!; [done| |done|done]. etrans; [|exact Hp]. by apply prefix_app_r.
Qed.

Lemma endpoint_https endpoint : ValidateUpstreamEndpoint endpoint = Ok tt -> exists u, url_Parse endpoint = Some u /\ u_Scheme u = str "https".
Proof.
  unfold ValidateUpstreamEndpoint. destruct (url_Parse endpoint) as [u|]; [|done]. intros [H _]%require_Ok. b2p. by exists u.
Qed.

(** A client is made only for a valid endpoint, and with the configured
    credentials and address; certificates are verified unless the operator opted
    out.  When its calls start at the endpoint's scheme they never leave https,
    whatever redirects the upstream answers: each is ended after ten requests at
    most. *)
Theorem upstream_secure cfg sdkTLS load client :
  New cfg sdkTLS load = Ok client ->
  o_BaseEndpoint (c_Options client) = c_UpstreamEndpoint cfg /\ o_AccessKey (c_Options client) = c_UpstreamAccessKey cfg /\
  (t_InsecureSkipVerify (c_Transport client) = true -> c_UpstreamSkipCertificateValidation cfg = true) /\
  exists endpoint, url_Parse (o_BaseEndpoint (c_Options client)) = Some endpoint /\
    forall upstream req, u_Scheme req = u_Scheme endpoint ->
      exists sent err, follow 10 upstream [] req = Some (sent, err) /\
        [req] `prefix_of` sent /\ Forall (fun u => u_Scheme u = str "https") sent /\ (length sent <= 10)%nat.
Proof.
  unfold New. intros ([] & Hv & (buildable & _ & [_ [= <-]]%require_Ok)%rbind_Ok)%rbind_Ok. cbn. split_and!; [done|done|done|].
  destruct (endpoint_https _ Hv) as (u & Hu & Hs). exists u. split; [done|]. intros upstream req Hreq.
  apply (follow_bounded 10 upstream [] req); [cbn; lia|cbn; lia|]. constructor; [congruence|done].
Qed.
End UpstreamClient.

(** ** A client *)

Definition url (scheme host : gostring) : URL :=
  {| u_Scheme := scheme; u_Opaque := []; u_User := false; u_Host := host; u_Path := []; u_RawQuery := []; u_ForceQuery := false |}.
#[local] Instance https_urls : URLParser := {| url_Parse _ := Some (url (str "https") (str "s3.example.com:9000")) |}.

Example redirect_loop : snd <$> follow 10 (fun _ => Redirect (url (str "https") (str "b"))) [] (url (str "https") (str "a")) =
  Some (Some (str "stopped after 10 redirects")).
Proof. reflexivity. Qed.
Example redirect_downgrade : follow 10 (fun _ => Redirect (url (str "http") (str "b"))) [] (url (str "https") (str "a")) =
  Some ([url (str "https") (str "a")], Some (str "upstream redirect must use HTTPS")).
Proof. reflexivity. Qed.

Lemma upstream_secure_witness :
  exists client sent err, New zero_config None (fun _ => Ok true) = Ok client /\
    follow 10 (fun _ => Redirect (url (str "https") (str "b"))) [] (url (str "https") (str "a")) = Some (sent, err) /\ (length sent <= 10)%nat.
Proof.
  destruct (New zero_config None (fun _ => Ok true)) as [client|e] eqn:H; [|vm_compute in H; discriminate H].
  destruct (upstream_secure _ _ _ _ H) as (_ & _ & _ & endpoint & Hp & Hfollow). injection Hp as <-.
  destruct (Hfollow (fun _ => Redirect (url (str "https") (str "b"))) (url (str "https") (str "a")) eq_refl) as (sent & err & Hf & _ & _ & Hl).
  exists client, sent, err. split; [reflexivity|split; [exact Hf|exact Hl]].
Defined.
