(* ===== verification/AuditTrail.v ===== *)
(** * The audit trail around a request (src/internal/server/audit.go)

    [WithS3Audit] keeps the trailers of a request visible, stands between the
    handler and the connection and logs one event when the handler is done or
    panics.  A handler is the list of what it does to the response writer and
    tells the audit; the connection counts for itself, and the event is compared
    with it. *)

From S2P Require Import Prelude GoStrings Http SigV4 Stream NetIP Routing AuditLog.
From S2P Require Gateway.

#[local] Open Scope Z_scope.

(** ** Trailers (server/handlers_xml_checksums.go) *)

Section AuditTrail.
Context {U : UnicodeCase} {MI : MapIter}.

(** [trailer] is [r.Trailer], [None] the nil map. *)
Definition preserveXMLRequestTrailers (r : Request) (trailer : option Header) : option Header :=
  match trailer with
  | Some _ => trailer
  | None =>
    let q := Query r in
    if (bool_decide (Method r = POST) && qhas q (str "delete")) ||
       (bool_decide (Method r = PUT) && (qhas q (str "tagging") || qhas q (str "versioning") || qhas q (str "lifecycle")))
    then Some ∅ else None
  end.

(** What a shallow copy of the request, taken before the body is read, shows of
    the trailers that come with its end: [net/http] merges them into a map that
    is there, and otherwise sets the field of the request it made itself. *)
Definition copy_trailers (trailer : option Header) (received : Header) : Header :=
  match trailer with Some t => received ∪ t | None => ∅ end.

(** ** What a handler does *)

Inductive Action :=
| DoWriteHeader (status : Z)
| DoWrite (n : Z)                (* the connection takes [n] octets *)
| DoReadFrom (chunks : list Z)   (* a source whose pieces the connection takes *)
| DoFlush
| DoPrincipal (principal : gostring) | DoAuthenticated.

(** The connection: the status it was given first, 0 for none, and the octets it
    took.  The statuses handlers write are final ones. *)
Record Conn := { conn_status : Z; conn_bytes : Z }.
Definition conn_WriteHeader (c : Conn) (status : Z) : Conn :=
  if conn_status c =? 0 then {| conn_status := status; conn_bytes := conn_bytes c |} else c.
Definition conn_take (c : Conn) (n : Z) : Conn :=
  let c := conn_WriteHeader c 200 in {| conn_status := conn_status c; conn_bytes := conn_bytes c + n |}.

Record Trail := { t_writer : s3AuditResponseWriter; t_conn : Conn; t_state : s3AuditState }.

(** The methods of the writer, with the calls they make to the connection. *)
Definition trail_WriteHeader (t : Trail) (status : Z) : Trail :=
  if arw_status (t_writer t) =? 0 then
    {| t_writer := audit_WriteHeader (t_writer t) status; t_conn := conn_WriteHeader (t_conn t) status; t_state := t_state t |}
  else t.
Definition trail_implicit (t : Trail) : Trail := if arw_status (t_writer t) =? 0 then trail_WriteHeader t 200 else t.
Definition trail_Write (t : Trail) (n : Z) : Trail :=
  let t := trail_implicit t in
  {| t_writer := audit_Write (t_writer t) n; t_conn := conn_take (t_conn t) n; t_state := t_state t |}.
(** [readerFrom]: whether the writer below has a [ReadFrom] of its own; without
    it [io.CopyBuffer] writes each piece. *)
Definition trail_ReadFrom (readerFrom : bool) (t : Trail) (chunks : list Z) : Trail :=
  let t := trail_implicit t in
  if readerFrom then
    let n := foldr Z.add 0 chunks in
    {| t_writer := {| arw_status := arw_status (t_writer t); arw_bytes := arw_bytes (t_writer t) + n |};
       t_conn := conn_take (t_conn t) n; t_state := t_state t |}
  else fold_left trail_Write chunks t.

Definition with_state (f : s3AuditState -> s3AuditState) (t : Trail) : Trail :=
  {| t_writer := t_writer t; t_conn := t_conn t; t_state := f (t_state t) |}.
Definition markS3AuditAuthenticated (st : s3AuditState) : s3AuditState :=
  {| principalHash := principalHash st; authenticated := true; started := started st; completed := completed st |}.
Definition complete (st : s3AuditState) : s3AuditState :=
  {| principalHash := principalHash st; authenticated := authenticated st; started := started st; completed := true |}.

Definition act (keys : option (auditHashScope -> gostring)) (readerFrom : bool) (t : Trail) (a : Action) : Trail :=
  match a with
  | DoWriteHeader status => trail_WriteHeader t status
  | DoWrite n => trail_Write t n
  | DoReadFrom chunks => trail_ReadFrom readerFrom t chunks
  | DoFlush => trail_implicit t
  | DoPrincipal principal => with_state (fun st => setS3AuditPrincipal keys st principal) t
  | DoAuthenticated => with_state markS3AuditAuthenticated t
  end.

(** ** The middleware *)

Definition isS3AuditExcluded (r : Request) : bool :=
  if bool_decide (Path r = str "/healthz") || bool_decide (Path r = str "/readyz") then true
  else Gateway.IsBrowser r && Gateway.IsAdminRoute (Path r).

Definition fresh_trail (now : instant) : Trail :=
  {| t_writer := {| arw_status := 0; arw_bytes := 0 |}; t_conn := {| conn_status := 0; conn_bytes := 0 |};
     t_state := {| principalHash := []; authenticated := false; started := now; completed := false |} |}.

(** The event, if any, of a handler that does [actions] and then returns or
    panics, and the connection after it, when it is watched. *)
Definition WithS3Audit (keys : option (auditHashScope -> gostring)) (enabled readerFrom : bool) (r : Request) (actions : list Action)
    (panics : bool) (responseHeader : Header) (start finish : instant) : option (audit_event * Conn) :=
  if isS3AuditExcluded r then None
  else if negb enabled then None
  else
    let t := fold_left (act keys readerFrom) actions (fresh_trail start) in
    let t := if panics then t else with_state complete t in
    Some (logS3Audit keys r responseHeader (t_writer t) (t_state t) finish, t_conn t).

(** ** The event tells what the connection saw *)

Definition agree (t : Trail) : Prop := arw_status (t_writer t) = conn_status (t_conn t) /\ arw_bytes (t_writer t) = conn_bytes (t_conn t).

Lemma implicit_agree t : agree t -> agree (trail_implicit t) /\ arw_status (t_writer (trail_implicit t)) <> 0.
Proof.
  unfold agree, trail_implicit, trail_WriteHeader, audit_WriteHeader, conn_WriteHeader. intros [Hs Hb].
  destruct (Z.eqb_spec (arw_status (t_writer t)) 0) as [E|E]; [|by rewrite <- Hs]. rewrite <- Hs, E. cbn. by rewrite Hb.
Qed.
Lemma Write_agree t n : agree t -> agree (trail_Write t n).
Proof.
  intros [[Hs Hb] Hne]%implicit_agree. unfold agree, trail_Write, audit_Write, conn_take, conn_WriteHeader. cbn. rewrite <- Hs.
  destruct (Z.eqb_spec (arw_status (t_writer (trail_implicit t))) 0) as [E|E]; [done|]. cbn. by rewrite Hb, <- Hs.
Qed.
Lemma ReadFrom_agree readerFrom t chunks : agree t -> agree (trail_ReadFrom readerFrom t chunks).
Proof.
  intros H. pose proof (implicit_agree t H) as [Ha Hne]. unfold trail_ReadFrom. destruct readerFrom.
  - destruct Ha as [Hs Hb]. unfold agree, conn_take, conn_WriteHeader. cbn. rewrite <- Hs.
    destruct (Z.eqb_spec (arw_status (t_writer (trail_implicit t))) 0) as [E|E]; [done|]. cbn. by rewrite Hb, <- Hs.
  - clear H Hne. revert Ha. generalize (trail_implicit t). induction chunks as [|n chunks IH]; intros t' H; [done|]. by apply IH, Write_agree.
Qed.
Lemma act_agree keys readerFrom t a : agree t -> agree (act keys readerFrom t a).
Proof.
  destruct a; cbn [act]; [|apply Write_agree|apply ReadFrom_agree|by intros [? _]%implicit_agree|done|done]. intros [Hs Hb].
  unfold agree, trail_WriteHeader, audit_WriteHeader, conn_WriteHeader. destruct (Z.eqb_spec (arw_status (t_writer t)) 0) as [E|E]; [|done].
  rewrite <- Hs, E. cbn. by rewrite Hb.
Qed.

Lemma trail_agree keys readerFrom actions t : agree t -> agree (fold_left (act keys readerFrom) actions t).
Proof. revert t. induction actions as [|a actions IH]; intros t H; [done|]. by apply IH, act_agree. Qed.

(** What the actions tell the audit, apart from the writer. *)
Definition claims (actions : list Action) : list gostring :=
  omap (fun a => match a with DoPrincipal p => Some p | _ => None end) actions.
Definition told (keys : option (auditHashScope -> gostring)) (st : s3AuditState) (a : Action) : s3AuditState :=
  match a with
  | DoPrincipal principal => setS3AuditPrincipal keys st principal
  | DoAuthenticated => markS3AuditAuthenticated st
  | _ => st
  end.

Lemma implicit_state t : t_state (trail_implicit t) = t_state t.
Proof. unfold trail_implicit, trail_WriteHeader. by repeat destruct (_ =? 0). Qed.
Lemma act_state keys readerFrom t a : t_state (act keys readerFrom t a) = told keys (t_state t) a.
Proof.
  destruct a; cbn [act told]; try done.
  - unfold trail_WriteHeader. by destruct (_ =? 0).
  - apply implicit_state.
  - unfold trail_ReadFrom. destruct readerFrom; [apply implicit_state|]. rewrite <- (implicit_state t). generalize (trail_implicit t).
    induction chunks as [|n chunks IH]; intros t'; [done|]. cbn [fold_left]. rewrite IH. apply implicit_state.
  - apply implicit_state.
Qed.
Lemma trail_state keys readerFrom actions t :
  t_state (fold_left (act keys readerFrom) actions t) = fold_left (told keys) actions (t_state t).
Proof. revert t. induction actions as [|a actions IH]; intros t; [done|]. cbn [fold_left]. by rewrite IH, act_state. Qed.

Lemma told_actions keys actions st :
  let st' := fold_left (told keys) actions st in
  started st' = started st /\ completed st' = completed st /\
  (authenticated st' = true <-> authenticated st = true \/ DoAuthenticated ∈ actions) /\
  principalHash st' = match last (claims actions) with
                      | Some p => auditHash keys auditPrincipalScope (TrimSpace p)
                      | None => principalHash st
                      end.
Proof.
  revert st. induction actions as [|a actions IH]; intros st; cbn [fold_left].
  { split_and!; [done|done| |done]. split; [by left|]. by intros [?|?%not_elem_of_nil]. }
  destruct (IH (told keys st a)) as (-> & -> & Hauth & ->). rewrite Hauth, elem_of_cons.
  split_and!; [by destruct a|by destruct a|destruct a; cbn; naive_solver|].
  destruct a; try done. cbn [claims omap list_omap]. change (omap _ actions) with (claims actions).
  rewrite last_cons. by destruct (last (claims actions)).
Qed.

(** Every S3 request leaves one event, whether its handler returns or panics,
    and probes and the browser pages leave none; the event tells the truth: the
    octets the connection took, the status it was given, 200 when it was given
    none and 500 when a panic left it without, that the request was found
    authentic exactly when the gateway said so, and the last principal it named,
    as a hash. *)
Theorem audit_truthful keys enabled readerFrom r actions panics responseHeader start finish :
  match WithS3Audit keys enabled readerFrom r actions panics responseHeader start finish with
  | None => isS3AuditExcluded r = true \/ enabled = false
  | Some (event, conn) =>
    isS3AuditExcluded r = false /\
    ev_response_bytes event = conn_bytes conn /\
    ev_status event = (if conn_status conn =? 0 then if panics then 500 else 200 else conn_status conn) /\
    ev_completed event = negb panics /\
    (ev_outcome event = str "success" <-> panics = false /\ ev_status event < 400) /\
    (ev_authenticated event = true <-> DoAuthenticated ∈ actions) /\
    ev_principal_hash event = match last (claims actions) with
                              | Some p => auditHash keys auditPrincipalScope (TrimSpace p)
                              | None => []
                              end
  end.
Proof.
  unfold WithS3Audit. destruct (isS3AuditExcluded r); [by left|]. destruct enabled; [|by right]. cbn [negb].
  set (t := fold_left _ actions _). assert (Hagree : agree t) by by apply trail_agree.
  destruct (told_actions keys actions (t_state (fresh_trail start))) as (Hstart & Hdone & Hauth & Hprincipal).
  rewrite <- (trail_state keys readerFrom actions (fresh_trail start)) in Hstart, Hdone, Hauth, Hprincipal. fold t in Hstart, Hdone, Hauth, Hprincipal.
  cbn in Hdone. destruct Hagree as [Hs Hb].
  destruct panics; cbn; unfold audit_Status; rewrite ?Hdone, <- ?Hs, <- ?Hb; cbn [negb andb].
  - split_and!; [done|done| |done|by split; [|intros []]| |done].
    + by destruct (arw_status (t_writer t) =? 0).
    + rewrite Hauth. cbn. naive_solver.
  - split_and!; [done|done|done|done| | |done].
    + unfold s3AuditOutcome. cbn [negb]. destruct (Z.ltb_spec (if arw_status (t_writer t) =? 0 then 200 else arw_status (t_writer t)) 400);
        [done|]. split; [by destruct (_ <? 500)|lia].
    + rewrite Hauth. cbn. naive_solver.
Qed.

(** ** Trailers stay visible *)

(** The operations whose document must come without trailers. *)
Definition checks_trailers (o : Operation) : bool :=
  match o with
  | OpPutBucketLifecycle _ | OpPutBucketVersioning _ | OpPutBucketTagging _ | OpPutObjectTagging _ _ | OpDeleteObjects _ => true
  | _ => false
  end.

(** When a request is handed to an operation that refuses trailers, those that
    come after its body are seen by the copy of the request the handler has, even
    if none were announced. *)
Theorem late_trailers_seen ready trailer r o received announced :
  ServeHTTP ready trailer r = Handle o -> checks_trailers o = true ->
  received ⊆ copy_trailers (preserveXMLRequestTrailers r announced) received.
Proof.
  intros Hroute Hcheck. assert (Hr : routed r (Query r) o).
  { destruct (ServeHTTP_routed _ _ _ _ Hroute) as (_ & _ & [->|H]); [by intros ->|by intros ->|done|exact H]. }
  destruct Hr as [Hm Hsel _ _]. unfold preserveXMLRequestTrailers, copy_trailers. destruct announced as [t|]; [apply map_union_subseteq_l|].
  cbv zeta. rewrite Hm. destruct o; try done; cbn in Hsel |- *; rewrite Hsel, ?orb_true_r; apply map_union_subseteq_l.
Qed.
End AuditTrail.

(** ** Witness *)

#[local] Existing Instance latin1_case.
#[local] Existing Instance canonical_iter.

Lemma late_trailers_seen_witness :
  {[str "x-amz-checksum-crc32" := [str "AAAAAA=="]]} ⊆
  copy_trailers (preserveXMLRequestTrailers (sample_request "POST" "/team1-a" "delete") None) {[str "x-amz-checksum-crc32" := [str "AAAAAA=="]]}.
Proof.
  apply (late_trailers_seen false ∅ _ (OpDeleteObjects (str "team1-a"))); [vm_compute; reflexivity|reflexivity].
Defined.

Example nothing_preserved : preserveXMLRequestTrailers (sample_request "PUT" "/team1-a/key" "") None = None.
Proof. vm_compute. reflexivity. Qed.
